(* ===== verification/_CoqProject ===== *)
-Q . S2P
Prelude.v
Utf8.v
GoStrings.v
Sha256.v
NetIP.v
GoTime.v
Strconv.v
Json.v
GoBase.v
Observability.v
Logger.v
GoState.v
HookJson.v
JsonPrint.v
TimeText.v
SensitiveIO.v
Http.v
JsonMarshal.v
GraphClient.v
Hmac.v
RateLimit.v
PasswordCrypto.v
SyncStatus.v
RedisStore.v
RedisCredentials.v
Identity.v
MigrationService.v
Hook.v
Worker.v
ServiceBusQueue.v
GraphProcessor.v
EndToEnd.v
Config.v
SecretLoader.v
Metrics.v
Server.v
Resources.v
App.v
Lifecycle.v
