(* ===== verification/Prelude.v ===== *)
(** * Password Hook Service: a verification library

    The service (src/) takes password events from a portal over HTTP, seals
    the password and puts it on a queue; a worker takes the message from the
    queue, opens the seal and sets the password in a user directory.  This
    library models the service function by function, from the environment it
    reads at its start to its shutdown, and proves what makes it correct: who
    gets through the door, that the password reaches the directory unchanged
    and nothing else does, that the buffers which hold it on the way through
    the handler and the worker are wiped (the directory client wipes the body
    it sends, but not the smaller buffers that append outgrew while building
    it: [outgrown_buffer_keeps_password]), that every message is settled once,
    that replicas agree on the status of an account, and that the process
    starts, stops and gives back what it opened.

    ** The program and the files that model it

    Request path (HTTP):
    - httpserver/server.go: [Server] (routing, health and version) and
      [Lifecycle] (Server.Run);
    - requestid.Middleware, AccessLog, RecoveryWithOptions, pkg/problem:
      [Http], with the response writer of [GoState];
    - middleware/ratelimit.go: [RateLimit] (addresses and networks: [NetIP]);
    - middleware/hmac.go: [Hmac] (SHA-256 and HMAC: [Sha256]), with the nonce
      store as the interface [NonceStore] and as the module [MemoryNonce],
      whose [new_memory_nonces] is the store the application builds, with its
      contents in the world;
    - sensitiveio/read.go: [SensitiveIO];
    - handler/hook.go: [HookJson] (the password decoder) and [Hook] (handler);
    - migration/classifier.go, event.go, upn.go, message.go: [Identity];
    - migration/service.go: [MigrationService];
    - passwordcrypto/codec.go: [PasswordCrypto], over an [AEAD] class (the
      two constructors of the standard library that can fail, aes.NewCipher
      and cipher.NewGCM, are parameters);
    - syncstatus/status.go: [SyncStatus]; [StoreContract] is the promise of
      the Store interface, [MemoryStore] discharges it and the service's
      theorems use it;
    - syncstatus/redis.go: [RedisStore] (the Lua transition, against the same
      abstract register; the laws of the server hold at the instant at which a
      call executes, and time passing with the expiry of keys is the relation
      [lapse] between calls) and [RedisCredentials] (the token fan-out).

    Worker path:
    - servicebusqueue/: [ServiceBusQueue] (messages, receiver, dead letters,
      depth probe) and [Resources] (its constructors);
    - worker/worker.go: [Worker]; the classes [WorkerLog], [WorkerMemory] and
      [WorkerReturns] are what its theorems ask of receiver, processor, sink
      and clock;
    - graphclient/client.go: [GraphClient] (JSON texts: [JsonPrint]);
    - graphprocessor/processor.go: [GraphProcessor], which puts client and
      worker together;
    - [EndToEnd] puts service, codec, queue, worker and directory together.

    Around them:
    - config/config.go: [Config]; secretloader/loader.go: [SecretLoader];
    - azuremonitor/metrics.go: [Metrics]; otel.go: [App];
    - app/app.go and cmd/server/main.go: [Server] (the middleware chain),
      [Resources] (closers and the Service Bus runtime), [App] (New and the
      runtimes it builds, the start of main) and [Lifecycle] (Run, the
      periodic flusher);
    - observability/: [Observability]; pkg/logger: [Logger] (with what slog
      drops: attributes that are groups without attributes).

    The Go language and standard library as far as the code uses them:
    [Utf8], [GoStrings] (trimming, splitting, Unicode classes), [GoTime]
    (Duration at int64 width), [TimeText] (RFC 3339 texts and the Redis
    layout, printed, parsed and compared), [Strconv] (integers, booleans, hex,
    float64 and time.ParseDuration), [Json] (encoding/json: parser,
    unquoting, field matching, time.Time), [JsonMarshal] (its encoder),
    [GoBase] (errors and their wrap tree, statements, slices over shared byte
    buffers), [GoState] (the state of a component).

    ** How the code is represented

    A statement is [M S A], a function from a state to a value or a panic and
    the next state; [defer_] runs on both.  The state [St W] has the byte
    buffers, the log of metric and log calls, the response under construction
    and a world [W]; a collaborator behind an interface is a function on [W]
    (or on the whole state where it is handed buffers), so no theorem depends
    on what it does beyond its stated laws.  A slice is an index into the
    buffers and a length: zeroing through one slice is seen through every
    other, and an append or growth that reallocates leaves the old buffer
    where it was.  Durations are [Z] with int64 saturation and wrap-around
    written out; instants are nanoseconds since year 1.  Unicode
    classification is the class [UnicodeTables] with its laws; [Latin1Tables]
    is an instance that evaluates.

    Goroutines are step relations: the credentials provider, where a step is
    one critical section; App.Run, Server.Run and Worker.Run, where the error
    channel and the cancellation are part of the state, a step of the worker is
    a test of its context or one call (its [worker_pc] says where in the loop it
    is), the cancellation can fall between any two steps or inside a call, and
    a panic of a call ends the process; the periodic flusher.
    Opened resources are a ledger [held] of the world that only statements
    read: [opens] says that a construction fails with the ledger unchanged or
    returns closers for exactly what it opened.

    Parameters: third-party and system code (the AEAD, the token source, the
    HTTP transport and listener, the bus client, Redis and its client, the
    tracing library, the vault, the clock, the random source), and from the
    standard library url.Parse and http.NewRequest's error, append's growth
    policy and the Unicode tables.  [Platform] in [App] is the record of all
    of them; [PlatformLaws] and [Available] are what the theorems about the
    start ask of it, and a toy platform satisfies both.

    ** What is shown

    - The whole path: [submitted_password_is_set], from an accepted
      submission to what the directory is given; [start_wires_system], that
      an application that starts has the parts this needs.
    - Admission: [request_gate] (the chain in front of the hook),
      [hook_route_iff], [authenticate_iff], [replay_rejected] (signature,
      skew, replay), [rate_bounded], [refusal_justified],
      [forwarded_prefix_ignored].
    - Configuration: [load_reads_numbers], [validated_networks_disjoint],
      [validated_config_in_force], [validated_config_starts],
      [resolve_replaces_secrets].
    - Submission: [hook_answers], [submit_enqueued_effects],
      [synced_account_skipped], [password_decoder_agrees].
    - Secrets: [read_all_leaves_one_copy], [hook_leaves_no_secret],
      [worker_wipes_secrets], [upsert_wipes_body], [decrypt_panics_iff],
      [masking_handler_masks].
    - Delivery: [queued_message_reads_back], [receiver_settles_once],
      [message_settled_once], [retries_bounded], [directory_decides_retry],
      [graph_bodies_carry_values].
    - Status: [memory_set_refines_contract], [memory_store_converges],
      [redis_set_refines_contract], [redis_get_reads_record],
      [redis_store_converges], [credentials_closed_once].
    - Life of the process: [start_leaks_nothing], [run_returns],
      [flusher_close_safe], [flush_reports_every_call].

    The lemmas beside them settle the parts: among others [Wrap_spec] and
    [hmac_gate] for the signature gate, [rate_gate] and
    [direct_peer_not_spoofable] for the source address,
    [recovery_contains_panics], [classify_cn_spec], [build_upn_parts],
    [aad_binds_fields] and [codec_roundtrip].

    Each theorem with hypotheses has a witness beside it that applies it to a
    concrete input; examples show the behaviours the theorems exclude by
    hypothesis or do not claim ([far_future_timestamp_accepted],
    [tight_lifetime_replayed], [outgrown_buffer_keeps_password],
    [scratch_survives]: a reader that uses the spare room of the buffer it is
    handed as scratch, [expiry_forgets]: a Redis key that expires between two
    writes, [mapped_prefix_accepted]: a trusted network that contains every
    IPv4 address, [ParseDuration_wraps]).

    ** Bounds and fuel

    The JSON parser takes [2 * length + 1] as fuel and [parse_fuel_enough]
    shows that more never changes the result; nesting is bounded by
    [maxNestingDepth] as in encoding/json.  time.ParseDuration takes the
    length of the text, which [duration_terms_fuel] shows to be enough.
    [ReadAll] takes fuel and its theorems show it returns when the fuel
    exceeds the reader's measure ([ReaderProgress]).  [Run] takes the number
    of rounds, since the code loops until its context ends; [run_returns]
    shows that the loop ends once it has.  Everything else is structural.

    ** What is not modelled

    The delivery of signals, other than as the step that ends the context of
    Run; where a recorder sends its events, other than by the log of the
    state; the JSON text of a metric payload, which is handed to the
    transport as a value; the TLS and pool options of the Redis
    client; time-outs of contexts, except through the answers of the calls
    made under them; requests for the target "*".  A call of the worker inside
    [Lifecycle] is one step: what a cancellation does inside it is seen through
    the context that the world reports, as [Worker] says. *)
From stdpp Require Import base gmap strings list.
From Stdlib Require Import ZArith Lia.

(** ** Notation scope and automation of the development *)

Declare Scope go_scope.
Delimit Scope go_scope with go.

Create HintDb go discriminated.
Create Rewrite HintDb go_simpl.

(** Split a boolean guard that the source tests with an [if] or a [switch]. *)
Ltac case_if :=
  match goal with
  | |- context [if ?b then _ else _] => destruct b eqn:?
  | H : context [if ?b then _ else _] |- _ => destruct b eqn:?
  end.

(** Turn boolean hypotheses of Go conditions into propositions. *)
Ltac bool_hyps :=
  repeat match goal with
  | H : _ && _ = true |- _ => apply andb_prop in H as [? ?]
  | H : _ || _ = false |- _ => apply orb_false_elim in H as [? ?]
  | H : negb _ = true |- _ => apply negb_true_iff in H
  | H : negb _ = false |- _ => apply negb_false_iff in H
  | H : bool_decide _ = true |- _ => apply bool_decide_eq_true_1 in H
  | H : bool_decide _ = false |- _ => apply bool_decide_eq_false_1 in H
  | H : Z.leb _ _ = true |- _ => apply Z.leb_le in H
  | H : Z.leb _ _ = false |- _ => apply Z.leb_gt in H
  | H : Z.ltb _ _ = true |- _ => apply Z.ltb_lt in H
  | H : Z.ltb _ _ = false |- _ => apply Z.ltb_ge in H
  | H : Z.eqb _ _ = true |- _ => apply Z.eqb_eq in H
  | H : Z.eqb _ _ = false |- _ => apply Z.eqb_neq in H
  end.

(** Arithmetic with division and remainder by constants. *)
Ltac zdiv := Z.to_euclidean_division_equations; lia.

(** ** Generic lemmas *)

Lemma forallb_Forall {A} (f : A → bool) l : forallb f l = true ↔ Forall (λ x, f x = true) l.
Proof. rewrite forallb_forall, Forall_forall. by setoid_rewrite list_elem_of_In. Qed.

(** A separator that neither field contains splits a list in one way. *)
Lemma app_sep_inj {A} (x : A) l1 r1 l2 r2 :
  x ∉ l1 → x ∉ l2 → l1 ++ x :: r1 = l2 ++ x :: r2 → l1 = l2 ∧ r1 = r2.
Proof.
  revert l2. induction l1 as [|a l1 IH]; intros [|b l2] H1 H2 H; injection H.
  - done.
  - intros _ ->. by apply not_elem_of_cons in H2 as [? _].
  - intros _ ->. by apply not_elem_of_cons in H1 as [? _].
  - intros H' ->. apply not_elem_of_cons in H1 as [_ H1], H2 as [_ H2].
    destruct (IH l2 H1 H2 H') as [-> ->]. done.
Qed.

(** A left fold does not depend on the order of steps that commute on the
    states of an invariant. *)
Lemma foldl_permute {A B} (f : A → B → A) (P : A → Prop) (Q : B → Prop) :
  (∀ a b, P a → Q b → P (f a b)) →
  (∀ a b c, P a → Q b → Q c → f (f a b) c = f (f a c) b) →
  ∀ l1 l2, l1 ≡ₚ l2 → Forall Q l1 → ∀ a, P a → foldl f a l1 = foldl f a l2.
Proof.
  intros Hinv Hcomm l1 l2 Hp. induction Hp as [|x l1 l2 _ IH|x y l|l1 l2 l3 Hp1 IH1 _ IH2]; intros HQ a Ha.
  - done.
  - apply Forall_cons in HQ as [Hx HQ]. cbn. apply IH; auto.
  - apply Forall_cons in HQ as [Hx HQ]. apply Forall_cons in HQ as [Hy HQ]. cbn. by rewrite Hcomm.
  - rewrite IH1 by done. apply IH2; [by rewrite <- Hp1|done].
Qed.
