(* ===== verification/Utf8.v ===== *)
(** * UTF-8 as Go's [unicode/utf8] and [unicode/utf16] define it

    A Go [[]byte] is a [list Z] of values in [0, 256).  [DecodeRune] and
    [AppendRune] are the two standard-library routines the password decoder
    calls; [runes] is what a [for range] loop over a string yields. *)
From stdpp Require Import base list.
From Stdlib Require Import ZArith Lia.
From S2P Require Import Prelude.

Local Open Scope Z_scope.

Abbreviation bytes := (list Z).

Definition RuneError : Z := 0xFFFD.
Definition RuneSelf : Z := 0x80.
Definition MaxRune : Z := 0x10FFFF.

Definition byte_ok (b : Z) : Prop := 0 <= b < 256.
Abbreviation bytes_ok := (Forall byte_ok).

(** Closed interval test, the shape of every range check below. *)
Definition within (lo hi b : Z) : bool := (lo <=? b) && (b <=? hi).

(** [utf16.IsSurrogate]. *)
Definition IsSurrogate (r : Z) : bool := within 0xD800 0xDFFF r.

(** A Unicode scalar value: the runes [AppendRune] encodes as themselves. *)
Definition scalar (r : Z) : bool := within 0 MaxRune r && negb (IsSurrogate r).

(** [utf16.DecodeRune]: the code point of a surrogate pair, or [RuneError]. *)
Definition DecodeSurrogates (r1 r2 : Z) : Z :=
  if within 0xD800 0xDBFF r1 && within 0xDC00 0xDFFF r2
  then (r1 - 0xD800) * 1024 + (r2 - 0xDC00) + 0x10000
  else RuneError.

(** [utf8.AppendRune]: the bytes appended for [r]. *)
Definition encode_rune (r : Z) : bytes :=
  if within 0 0x7F r then [r]
  else if within 0x80 0x7FF r then [0xC0 + r / 64; 0x80 + r mod 64]
  else if negb (scalar r) then [0xEF; 0xBF; 0xBD]
  else if r <=? 0xFFFF then [0xE0 + r / 4096; 0x80 + (r / 64) mod 64; 0x80 + r mod 64]
  else [0xF0 + r / 262144; 0x80 + (r / 4096) mod 64; 0x80 + (r / 64) mod 64; 0x80 + r mod 64].

(** Range of the second byte accepted after the leading byte [b0], and the
    length of the sequence; [None] for a byte that starts no sequence. *)
Definition accept_range (b0 : Z) : option (nat * Z * Z) :=
  if within 0xC2 0xDF b0 then Some (2%nat, 0x80, 0xBF)
  else if b0 =? 0xE0 then Some (3%nat, 0xA0, 0xBF)
  else if within 0xE1 0xEC b0 then Some (3%nat, 0x80, 0xBF)
  else if b0 =? 0xED then Some (3%nat, 0x80, 0x9F)
  else if within 0xEE 0xEF b0 then Some (3%nat, 0x80, 0xBF)
  else if b0 =? 0xF0 then Some (4%nat, 0x90, 0xBF)
  else if within 0xF1 0xF3 b0 then Some (4%nat, 0x80, 0xBF)
  else if b0 =? 0xF4 then Some (4%nat, 0x80, 0x8F)
  else None.

Definition cont (b : Z) : bool := within 0x80 0xBF b.

(** [utf8.DecodeRune]: the first rune of [p] and its width; an invalid or
    truncated sequence is [(RuneError, 1)], the empty slice [(RuneError, 0)]. *)
Definition decode_rune (p : bytes) : Z * nat :=
  match p with
  | [] => (RuneError, 0%nat)
  | b0 :: p1 =>
    if b0 <? RuneSelf then (b0, 1%nat)
    else match accept_range b0, p1 with
    | Some (2%nat, lo, hi), b1 :: _ =>
        if within lo hi b1 then (b0 mod 32 * 64 + b1 mod 64, 2%nat) else (RuneError, 1%nat)
    | Some (3%nat, lo, hi), b1 :: b2 :: _ =>
        if within lo hi b1 && cont b2
        then (b0 mod 16 * 4096 + b1 mod 64 * 64 + b2 mod 64, 3%nat) else (RuneError, 1%nat)
    | Some (4%nat, lo, hi), b1 :: b2 :: b3 :: _ =>
        if within lo hi b1 && cont b2 && cont b3
        then (b0 mod 8 * 262144 + b1 mod 64 * 4096 + b2 mod 64 * 64 + b3 mod 64, 4%nat)
        else (RuneError, 1%nat)
    | _, _ => (RuneError, 1%nat)
    end
  end.

(** The runes of a [for range] loop.  [skip] counts the bytes of the current
    rune still to be passed over, so the recursion is structural. *)
Fixpoint runes_skip (skip : nat) (s : bytes) : list Z :=
  match s with
  | [] => []
  | _ :: s' =>
    match skip with
    | S k => runes_skip k s'
    | O => let '(r, n) := decode_rune s in r :: runes_skip (n - 1) s'
    end
  end.

Definition runes (s : bytes) : list Z := runes_skip 0 s.

(** Well-formed UTF-8: a concatenation of encodings of scalar values. *)
Definition encode_runes (rs : list Z) : bytes := concat (map encode_rune rs).

Definition Utf8 (s : bytes) : Prop :=
  ∃ rs, Forall (λ r, scalar r = true) rs ∧ s = encode_runes rs.

(** ** Lemmas *)

Ltac unfold_ranges :=
  unfold scalar, IsSurrogate, cont, within, RuneSelf, RuneError, MaxRune, byte_ok in *.

Ltac range_tac := unfold_ranges; bool_hyps; try lia; try zdiv.

Lemma within_iff lo hi b : within lo hi b = true ↔ lo <= b <= hi.
Proof. unfold within. rewrite andb_true_iff, !Z.leb_le. done. Qed.

Lemma within_spec lo hi b : within lo hi b = bool_decide (lo <= b <= hi).
Proof. apply eq_bool_prop_intro. rewrite bool_decide_spec. rewrite Is_true_true. apply within_iff. Qed.

Lemma scalar_iff r : scalar r = true ↔ (0 <= r <= 0xD7FF ∨ 0xE000 <= r <= 0x10FFFF).
Proof.
  unfold scalar, IsSurrogate, MaxRune, within.
  rewrite andb_true_iff, negb_true_iff, andb_true_iff, andb_false_iff.
  rewrite !Z.leb_le, !Z.leb_gt. lia.
Qed.

(** [encode_rune] on each width. *)
Lemma encode_rune_1 r : 0 <= r <= 0x7F → encode_rune r = [r].
Proof. intros. unfold encode_rune. rewrite (proj2 (within_iff _ _ _)) by lia. done. Qed.

Lemma encode_rune_2 r : 0x80 <= r <= 0x7FF →
  encode_rune r = [0xC0 + r / 64; 0x80 + r mod 64].
Proof.
  intros. unfold encode_rune. destruct (within 0 127 r) eqn:E; range_tac.
  destruct ((128 <=? r) && (r <=? 2047)) eqn:E2; [done|].
  apply andb_false_iff in E2 as [E2|E2]; range_tac.
Qed.

Lemma encode_rune_3 r : 0x800 <= r <= 0xFFFF → scalar r = true →
  encode_rune r = [0xE0 + r / 4096; 0x80 + (r / 64) mod 64; 0x80 + r mod 64].
Proof.
  intros Hr Hs. unfold encode_rune. rewrite Hs.
  destruct (within 0 127 r) eqn:E; [range_tac|].
  destruct (within 0x80 0x7FF r) eqn:E2; [range_tac|].
  simpl. destruct (r <=? 0xFFFF) eqn:E3; range_tac. done.
Qed.

Lemma encode_rune_4 r : 0x10000 <= r <= 0x10FFFF →
  encode_rune r = [0xF0 + r / 262144; 0x80 + (r / 4096) mod 64;
                   0x80 + (r / 64) mod 64; 0x80 + r mod 64].
Proof.
  intros Hr. unfold encode_rune.
  destruct (within 0 127 r) eqn:E; [range_tac|].
  destruct (within 0x80 0x7FF r) eqn:E2; [range_tac|].
  rewrite (proj2 (scalar_iff r)) by lia.
  simpl. destruct (r <=? 0xFFFF) eqn:E3; [range_tac|done].
Qed.

Lemma encode_rune_invalid r : scalar r = false → encode_rune r = [0xEF; 0xBF; 0xBD].
Proof.
  intros Hs. unfold encode_rune. rewrite Hs.
  destruct (within 0 127 r) eqn:E.
  { apply within_iff in E. rewrite (proj2 (scalar_iff r)) in Hs by lia. done. }
  destruct (within 0x80 0x7FF r) eqn:E2; [|done].
  apply within_iff in E2. rewrite (proj2 (scalar_iff r)) in Hs by lia. done.
Qed.

(** The four width classes of a scalar value. *)
Lemma scalar_cases r : scalar r = true →
  0 <= r <= 0x7F ∨ 0x80 <= r <= 0x7FF ∨
  (0x800 <= r <= 0xFFFF ∧ (r <= 0xD7FF ∨ 0xE000 <= r)) ∨ 0x10000 <= r <= 0x10FFFF.
Proof. rewrite scalar_iff. lia. Qed.

Ltac scalar_split r Hs :=
  let H := fresh "Hr" in
  pose proof (scalar_cases r Hs) as [H|[H|[H|H]]];
  [ rewrite (encode_rune_1 r H) | rewrite (encode_rune_2 r H)
  | rewrite (encode_rune_3 r (proj1 H) Hs) | rewrite (encode_rune_4 r H) ].

Lemma encode_rune_bytes_ok r : bytes_ok (encode_rune r).
Proof.
  destruct (scalar r) eqn:Hs.
  - scalar_split r Hs; repeat constructor; unfold byte_ok; zdiv.
  - rewrite encode_rune_invalid by done. repeat constructor; unfold byte_ok; lia.
Qed.

Lemma encode_rune_nonempty r : (1 <= length (encode_rune r) <= 4)%nat.
Proof.
  destruct (scalar r) eqn:Hs.
  - scalar_split r Hs; simpl; lia.
  - rewrite encode_rune_invalid by done. simpl; lia.
Qed.

Lemma within_true lo hi b : lo <= b <= hi → within lo hi b = true.
Proof. apply within_iff. Qed.

Lemma within_false lo hi b : b < lo ∨ hi < b → within lo hi b = false.
Proof. intros H. apply not_true_iff_false. rewrite within_iff. lia. Qed.

Ltac decide_ranges :=
  repeat first
    [ rewrite within_true by (first [lia | zdiv])
    | rewrite within_false by (first [lia | zdiv])
    | match goal with
      | |- context [?a =? ?b] =>
        first [ rewrite (proj2 (Z.eqb_eq a b)) by (first [lia | zdiv])
              | rewrite (proj2 (Z.eqb_neq a b)) by (first [lia | zdiv]) ]
      | |- context [?a <? ?b] =>
        first [ rewrite (proj2 (Z.ltb_lt a b)) by (first [lia | zdiv])
              | rewrite (proj2 (Z.ltb_ge a b)) by (first [lia | zdiv]) ]
      end ].

(** Leading bytes by sequence length. *)
Lemma accept_range_2 b : 0xC2 <= b <= 0xDF → accept_range b = Some (2%nat, 0x80, 0xBF).
Proof. intros. unfold accept_range. by decide_ranges. Qed.

Lemma accept_range_3 b : 0xE0 <= b <= 0xEF →
  accept_range b = Some (3%nat, (if b =? 0xE0 then 0xA0 else 0x80), (if b =? 0xED then 0x9F else 0xBF)).
Proof.
  intros. unfold accept_range. rewrite (within_false 0xC2) by lia.
  destruct (b =? 0xE0) eqn:E1; bool_hyps.
  { subst. done. }
  destruct (within 0xE1 0xEC b) eqn:E2.
  { apply within_iff in E2. by decide_ranges. }
  destruct (b =? 0xED) eqn:E3; bool_hyps; [done|].
  destruct (within 0xEE 0xEF b) eqn:E4; [done|].
  rewrite within_spec in E2, E4. bool_hyps. lia.
Qed.

Lemma accept_range_4 b : 0xF0 <= b <= 0xF4 →
  accept_range b = Some (4%nat, (if b =? 0xF0 then 0x90 else 0x80), (if b =? 0xF4 then 0x8F else 0xBF)).
Proof.
  intros. assert (b = 0xF0 ∨ b = 0xF1 ∨ b = 0xF2 ∨ b = 0xF3 ∨ b = 0xF4) by lia.
  naive_solver.
Qed.

(** Decoding what [AppendRune] wrote gives the rune back, whatever follows. *)
Lemma decode_encode r l : scalar r = true →
  decode_rune (encode_rune r ++ l) = (r, length (encode_rune r)).
Proof.
  intros Hs. scalar_split r Hs; cbn [app length]; unfold decode_rune, RuneSelf.
  - by decide_ranges.
  - rewrite (proj2 (Z.ltb_ge _ _)) by zdiv. rewrite accept_range_2 by zdiv.
    decide_ranges. f_equal. zdiv.
  - rewrite (proj2 (Z.ltb_ge _ _)) by zdiv. rewrite accept_range_3 by zdiv.
    rewrite (within_true (if _ =? _ then _ else _)) by (repeat case_if; bool_hyps; zdiv).
    unfold cont. decide_ranges. cbn. f_equal. zdiv.
  - rewrite (proj2 (Z.ltb_ge _ _)) by zdiv. rewrite accept_range_4 by zdiv.
    rewrite (within_true (if _ =? _ then _ else _)) by (repeat case_if; bool_hyps; zdiv).
    unfold cont. decide_ranges. cbn. f_equal. zdiv.
Qed.

(** What a non-error result of [DecodeRune] means. *)
Definition decoded_ok (r : Z) (n : nat) : Prop := ¬ (r = RuneError ∧ n = 1%nat).

Lemma accept_range_Some b0 n lo hi : accept_range b0 = Some (n, lo, hi) →
  (n = 2%nat ∧ 0xC2 <= b0 <= 0xDF ∧ lo = 0x80 ∧ hi = 0xBF) ∨
  (n = 3%nat ∧ 0xE0 <= b0 <= 0xEF ∧ (lo = if b0 =? 0xE0 then 0xA0 else 0x80) ∧
     (hi = if b0 =? 0xED then 0x9F else 0xBF)) ∨
  (n = 4%nat ∧ 0xF0 <= b0 <= 0xF4 ∧ (lo = if b0 =? 0xF0 then 0x90 else 0x80) ∧
     (hi = if b0 =? 0xF4 then 0x8F else 0xBF)).
Proof.
  intros H.
  assert (0xC2 <= b0 <= 0xDF ∨ 0xE0 <= b0 <= 0xEF ∨ 0xF0 <= b0 <= 0xF4) as [Hb|[Hb|Hb]].
  { unfold accept_range in H. repeat case_if; try discriminate; range_tac. }
  - rewrite accept_range_2 in H by done. naive_solver.
  - rewrite accept_range_3 in H by done. naive_solver.
  - rewrite accept_range_4 in H by done. naive_solver.
Qed.

Lemma decode_rune_cases p r n : decode_rune p = (r, n) →
  (p = [] ∧ r = RuneError ∧ n = 0%nat) ∨
  (p ≠ [] ∧ r = RuneError ∧ n = 1%nat) ∨
  (∃ b0 l, p = b0 :: l ∧ b0 < 0x80 ∧ r = b0 ∧ n = 1%nat) ∨
  (scalar r = true ∧ n = length (encode_rune r) ∧ (2 <= n)%nat ∧ ∃ l, p = encode_rune r ++ l).
Proof.
  intros H. destruct p as [|b0 p1]; [cbn in H; naive_solver|right].
  unfold decode_rune in H. destruct (b0 <? RuneSelf) eqn:E0.
  { unfold RuneSelf in E0. bool_hyps. right; left. naive_solver. }
  unfold RuneSelf in E0. bool_hyps.
  destruct (accept_range b0) as [[[m lo] hi]|] eqn:Ea; [|left; naive_solver].
  apply accept_range_Some in Ea as [(->&Hb&->&->)|[(->&Hb&->&->)|(->&Hb&->&->)]].
  - destruct p1 as [|b1 p2]; [left; naive_solver|].
    destruct (within 128 191 b1) eqn:E1; [|left; naive_solver].
    apply within_iff in E1. injection H as <- <-. right; right.
    rewrite encode_rune_2 by zdiv. repeat split; [|simpl; lia|exists p2; simpl; f_equal; [zdiv|f_equal; zdiv]].
    apply scalar_iff. zdiv.
  - destruct p1 as [|b1 [|b2 p3]]; [left; naive_solver..|].
    destruct (within _ _ b1 && cont b2) eqn:E1; [|left; naive_solver].
    unfold cont in E1. apply andb_prop in E1 as [E1 E2]. apply within_iff in E1, E2.
    injection H as <- <-. right; right.
    assert (scalar (b0 mod 16 * 4096 + b1 mod 64 * 64 + b2 mod 64) = true) as Hs.
    { apply scalar_iff. repeat case_if; bool_hyps; zdiv. }
    rewrite encode_rune_3 by (try done; repeat case_if; bool_hyps; zdiv).
    repeat split; [done|simpl; lia|exists p3; simpl].
    repeat case_if; bool_hyps; repeat f_equal; zdiv.
  - destruct p1 as [|b1 [|b2 [|b3 p4]]]; [left; naive_solver..|].
    destruct (within _ _ b1 && cont b2 && cont b3) eqn:E1; [|left; naive_solver].
    unfold cont in E1. apply andb_prop in E1 as [E1 E3]. apply andb_prop in E1 as [E1 E2].
    apply within_iff in E1, E2, E3.
    injection H as <- <-. right; right.
    rewrite encode_rune_4 by (repeat case_if; bool_hyps; zdiv).
    repeat split; [|simpl; lia|exists p4; simpl].
    + apply scalar_iff. repeat case_if; bool_hyps; zdiv.
    + repeat case_if; bool_hyps; repeat f_equal; zdiv.
Qed.

Lemma decode_rune_width p r n : decode_rune p = (r, n) → p ≠ [] →
  (1 <= n <= 4)%nat ∧ (n <= length p)%nat.
Proof.
  intros H Hne. apply decode_rune_cases in H as
    [(?&?&?)|[(?&?&->)|[(b0&l&->&?&?&->)|(?&->&?&l&->)]]]; [done|..].
  - destruct p; [done|simpl; lia].
  - simpl; lia.
  - rewrite length_app. pose proof (encode_rune_nonempty r). lia.
Qed.

Lemma decode_rune_scalar p r n : bytes_ok p → decode_rune p = (r, n) → scalar r = true.
Proof.
  intros Hok H. apply decode_rune_cases in H as
    [(?&->&?)|[(?&->&->)|[(b0&l&->&?&->&->)|(?&->&?&l&->)]]]; try done.
  apply Forall_cons in Hok as [[??] _]. apply scalar_iff. lia.
Qed.

(** A valid leading rune is determined by its own bytes. *)
Lemma decode_rune_prefix p r n l : bytes_ok p → p ≠ [] → decode_rune p = (r, n) →
  decoded_ok r n → decode_rune (p ++ l) = (r, n).
Proof.
  intros Hok Hne H Hd. unfold decoded_ok in Hd. apply decode_rune_cases in H as
    [(?&?&?)|[(?&?&?)|[(b0&l'&->&Hlt&->&->)|(Hs&->&?&l'&->)]]]; [done|naive_solver|..].
  - cbn. unfold RuneSelf. rewrite (proj2 (Z.ltb_lt _ _)) by done. done.
  - rewrite <- app_assoc. by apply decode_encode.
Qed.

Lemma decode_rune_encoded p r n : bytes_ok p → p ≠ [] → decode_rune p = (r, n) →
  decoded_ok r n → n = length (encode_rune r) ∧ ∃ l, p = encode_rune r ++ l.
Proof.
  intros Hok Hne H Hd. unfold decoded_ok in Hd. apply decode_rune_cases in H as
    [(?&?&?)|[(?&?&?)|[(b0&l'&->&Hlt&->&->)|(Hs&->&?&l'&->)]]]; [done|naive_solver|..].
  - apply Forall_cons in Hok as [[??] _]. rewrite encode_rune_1 by lia. split; [done|by exists l'].
  - split; [done|by exists l'].
Qed.

Lemma runes_skip_drop k s : runes_skip k s = runes (drop k s).
Proof.
  unfold runes. revert s. induction k as [|k IH]; intros s; [done|].
  destruct s; [done|]. cbn. apply IH.
Qed.

Lemma runes_cons s : s ≠ [] →
  runes s = (decode_rune s).1 :: runes (drop (decode_rune s).2 s).
Proof.
  intros Hne. destruct s as [|b s']; [done|]. unfold runes at 1.
  destruct (decode_rune (b :: s')) as [r n] eqn:E. cbn [runes_skip fst snd]. rewrite E.
  apply decode_rune_width in E as [[? _] _]; [|done].
  rewrite runes_skip_drop. destruct n as [|n]; [lia|]. simpl. by rewrite Nat.sub_0_r.
Qed.

Lemma runes_encode r s : scalar r = true → runes (encode_rune r ++ s) = r :: runes s.
Proof.
  intros Hs. rewrite runes_cons.
  - rewrite decode_encode by done. cbn [fst snd]. by rewrite drop_app_length.
  - pose proof (encode_rune_nonempty r). destruct (encode_rune r); simpl in *; [lia|done].
Qed.

Lemma runes_ascii b s : 0 <= b < 0x80 → runes (b :: s) = b :: runes s.
Proof.
  intros Hb. replace (b :: s) with (encode_rune b ++ s) by (rewrite encode_rune_1 by lia; done).
  rewrite runes_encode; [done|]. apply scalar_iff. lia.
Qed.

Lemma runes_encode_runes rs : Forall (λ r, scalar r = true) rs → runes (encode_runes rs) = rs.
Proof.
  induction 1 as [|r rs Hr _ IH]; [done|].
  unfold encode_runes in *. cbn [map concat]. rewrite runes_encode by done. by rewrite IH.
Qed.

(** Every rune a [for range] loop yields is a scalar value. *)
Lemma runes_scalar s : bytes_ok s → Forall (λ r, scalar r = true) (runes s).
Proof.
  remember (length s) as n eqn:Hn. revert s Hn.
  induction n as [n IH] using lt_wf_ind. intros s -> Hok.
  destruct (decide (s = [])) as [->|Hne]; [constructor|].
  rewrite runes_cons by done. destruct (decode_rune s) as [r k] eqn:E. cbn [fst snd].
  constructor; [by eapply decode_rune_scalar|].
  apply decode_rune_width in E as [[? _] ?]; [|done].
  eapply IH; [|reflexivity|by apply Forall_drop]. rewrite length_drop. lia.
Qed.

Lemma encode_runes_app rs1 rs2 : encode_runes (rs1 ++ rs2) = encode_runes rs1 ++ encode_runes rs2.
Proof. unfold encode_runes. by rewrite map_app, concat_app. Qed.

Lemma encode_runes_ok rs : bytes_ok (encode_runes rs).
Proof.
  induction rs as [|r rs IH]; [constructor|].
  change (bytes_ok (encode_rune r ++ encode_runes rs)).
  apply Forall_app. split; [apply encode_rune_bytes_ok|done].
Qed.

Lemma Utf8_nil : Utf8 [].
Proof. by exists []. Qed.

Lemma Utf8_app s1 s2 : Utf8 s1 → Utf8 s2 → Utf8 (s1 ++ s2).
Proof.
  intros (r1&H1&->) (r2&H2&->). exists (r1 ++ r2). rewrite encode_runes_app.
  split; [by apply Forall_app|done].
Qed.

Lemma Utf8_rune r : Utf8 (encode_rune r).
Proof.
  destruct (scalar r) eqn:Hs.
  - exists [r]. unfold encode_runes. simpl. rewrite app_nil_r. auto.
  - exists [RuneError]. rewrite encode_rune_invalid by done. split; [by constructor|done].
Qed.

Lemma Utf8_ascii b : 0 <= b < 0x80 → Utf8 [b].
Proof. intros. rewrite <- (encode_rune_1 b) by lia. apply Utf8_rune. Qed.

(** Plain ASCII text, by evaluation. *)
Lemma Utf8_ascii_text s : forallb (within 0 127) s = true → Utf8 s.
Proof.
  rewrite forallb_Forall. induction 1 as [|b s Hb _ IH]; [apply Utf8_nil|].
  apply (Utf8_app [b]); [|done]. apply Utf8_ascii. unfold within in Hb. bool_hyps. lia.
Qed.

Lemma Utf8_bytes_ok s : Utf8 s → bytes_ok s.
Proof. intros (rs&_&->). apply encode_runes_ok. Qed.

(** Re-encoding the runes of a well-formed string is the identity. *)
Lemma Utf8_encode_runes s : Utf8 s → encode_runes (runes s) = s.
Proof. intros (rs&H&->). by rewrite runes_encode_runes. Qed.

(** Induction over well-formed UTF-8, one rune at a time. *)
Lemma Utf8_ind (P : bytes → Prop) :
  P [] → (∀ r s, scalar r = true → Utf8 s → P s → P (encode_rune r ++ s)) →
  ∀ s, Utf8 s → P s.
Proof.
  intros H0 Hs s (rs&Hrs&->). induction Hrs as [|r rs Hr Hrs IH]; [done|].
  apply Hs; [done|by exists rs|done].
Qed.

(** If no rune of [s] is the replacement character, [s] is well-formed. *)
Lemma runes_no_error_Utf8 s : bytes_ok s → RuneError ∉ runes s → Utf8 s.
Proof.
  remember (length s) as n eqn:Hn. revert s Hn.
  induction n as [n IH] using lt_wf_ind. intros s -> Hok Hno.
  destruct (decide (s = [])) as [->|Hne]; [apply Utf8_nil|].
  rewrite runes_cons in Hno by done. destruct (decode_rune s) as [r k] eqn:E. cbn [fst snd] in Hno.
  apply not_elem_of_cons in Hno as [Hr Hno].
  pose proof (decode_rune_scalar _ _ _ Hok E) as Hsc.
  destruct (decode_rune_encoded s r k Hok Hne E) as [-> [l ->]].
  { intros [-> _]. done. }
  rewrite drop_app_length in Hno. apply Utf8_app; [apply Utf8_rune|].
  pose proof (encode_rune_nonempty r).
  eapply IH; [|reflexivity| |done]; [rewrite length_app; lia|by apply Forall_app in Hok as [_ ?]].
Qed.

#[export] Hint Resolve encode_rune_bytes_ok encode_runes_ok Utf8_nil Utf8_app Utf8_rune : go.
