(* ===== verification/GoStrings.v ===== *)
(** * Go strings: the part of [strings] and [unicode] the service uses

    A Go [string] is an immutable byte sequence, so it is a Rocq [string]
    (a sequence of 8-bit characters); [bytes_of_string] and
    [string_of_bytes] are the conversions []byte(s) and string(b).
    Code points above Latin-1 are classified by the Unicode character
    database of the Go release, a parameter ([UnicodeTables]); the Latin-1
    part and the white-space set are written out as in package [unicode]. *)
From stdpp Require Import base list strings.
From Stdlib Require Import ZArith Lia Ascii.
From S2P Require Import Prelude Utf8.

Local Open Scope Z_scope.

(** ** Conversions *)

Fixpoint bytes_of_string (s : string) : bytes :=
  match s with
  | EmptyString => []
  | String c s' => Z.of_N (N_of_ascii c) :: bytes_of_string s'
  end.

Fixpoint string_of_bytes (b : bytes) : string :=
  match b with
  | [] => EmptyString
  | z :: b' => String (ascii_of_N (Z.to_N z)) (string_of_bytes b')
  end.

(** ** Code point classes *)

Class UnicodeTables := {
  letter_table : Z → bool;   (** unicode.Letter above U+00FF *)
  digit_table : Z → bool;    (** unicode.Digit above U+00FF *)
  lower_table : Z → Z        (** unicode.ToLower above U+00FF *)
}.

(** unicode.IsSpace. *)
Definition IsSpace (r : Z) : bool :=
  within 9 13 r || (r =? 0x20) || (r =? 0x85) || (r =? 0xA0) || (r =? 0x1680)
  || within 0x2000 0x200A r || within 0x2028 0x2029 r || (r =? 0x202F)
  || (r =? 0x205F) || (r =? 0x3000).

Section Classes.
Context {U : UnicodeTables}.

(** unicode.IsDigit. *)
Definition IsDigit (r : Z) : bool :=
  if r <=? 0xFF then within 0x30 0x39 r else digit_table r.

(** unicode.IsLetter. *)
Definition IsLetter (r : Z) : bool :=
  if r <=? 0xFF then
    within 0x41 0x5A r || within 0x61 0x7A r || (r =? 0xAA) || (r =? 0xB5) || (r =? 0xBA)
    || within 0xC0 0xD6 r || within 0xD8 0xF6 r || within 0xF8 0xFF r
  else letter_table r.

(** unicode.ToLower. *)
Definition rune_to_lower (r : Z) : Z :=
  if r <=? 0xFF then
    (if within 0x41 0x5A r || within 0xC0 0xD6 r || within 0xD8 0xDE r then r + 32 else r)
  else lower_table r.
End Classes.

(** Facts of the character database the proofs rely on: the replacement
    character is neither a letter nor a digit, lower-casing is idempotent,
    stays within the scalar values and neither makes nor loses white space. *)
Class UnicodeLaws (U : UnicodeTables) : Prop := {
  replacement_not_letter : letter_table RuneError = false;
  replacement_not_digit : digit_table RuneError = false;
  letter_not_space r : letter_table r = true → IsSpace r = false;
  digit_not_space r : digit_table r = true → IsSpace r = false;
  lower_scalar r : 0xFF < r → scalar r = true → scalar (lower_table r) = true;
  lower_idem r : 0xFF < r → rune_to_lower (lower_table r) = lower_table r;
  lower_space r : 0xFF < r → IsSpace (lower_table r) = IsSpace r;
  lower_at r : 0xFF < r → lower_table r ≠ 0x40
}.

(** A database with no entry above Latin-1, for evaluation. *)
Definition Latin1Tables : UnicodeTables :=
  {| letter_table _ := false; digit_table _ := false; lower_table r := r |}.

(** ** Trimming and lower-casing *)

Fixpoint trim_left (skip : nat) (s : bytes) : bytes :=
  match s with
  | [] => []
  | _ :: s' =>
    match skip with
    | S k => trim_left k s'
    | O => let '(r, n) := decode_rune s in
           if IsSpace r then trim_left (n - 1) s' else s
    end
  end.

Definition all_space (s : bytes) : bool :=
  match trim_left 0 s with [] => true | _ => false end.

(** Drop the longest suffix made of white space only. *)
Fixpoint trim_right (s : bytes) : bytes :=
  match s with
  | [] => []
  | b :: s' => if all_space s then [] else b :: trim_right s'
  end.

Definition trim_bytes (s : bytes) : bytes := trim_right (trim_left 0 s).

(** strings.TrimSpace. *)
Definition TrimSpace (s : string) : string :=
  string_of_bytes (trim_bytes (bytes_of_string s)).

(** strings.ToLower: [strings.Map unicode.ToLower], which also replaces
    every invalid byte by U+FFFD. *)
Definition ToLower {U : UnicodeTables} (s : string) : string :=
  string_of_bytes (encode_runes (map rune_to_lower (runes (bytes_of_string s)))).

(** ** Searching and splitting *)

(** strings.HasPrefix. *)
Definition HasPrefix (s prefix : string) : bool := String.prefix prefix s.

(** strings.Contains. *)
Fixpoint Contains (s sub : string) : bool :=
  String.prefix sub s ||
  match s with EmptyString => false | String _ s' => Contains s' sub end.

(** strings.TrimPrefix. *)
Fixpoint TrimPrefix (s prefix : string) : string :=
  match prefix with
  | EmptyString => s
  | String c prefix' =>
    match s with
    | String d s' => if (c =? d)%char then
        (if String.prefix prefix' s' then TrimPrefix s' prefix' else s) else s
    | EmptyString => s
    end
  end.

(** strings.TrimRight with a one-character cutset. *)
Fixpoint TrimRight (s : string) (c : ascii) : string :=
  match s with
  | EmptyString => EmptyString
  | String d s' =>
    match TrimRight s' c with
    | EmptyString => if (d =? c)%char then EmptyString else String d EmptyString
    | t => String d t
    end
  end.

(** strings.Split on a one-character separator. *)
Fixpoint Split (s : string) (sep : ascii) : list string :=
  match s with
  | EmptyString => [EmptyString]
  | String d s' =>
    if (d =? sep)%char then EmptyString :: Split s' sep
    else match Split s' sep with
         | t :: ts => String d t :: ts
         | [] => [String d EmptyString]
         end
  end.

(** strings.Join. *)
Fixpoint Join (parts : list string) (sep : string) : string :=
  match parts with
  | [] => EmptyString
  | [p] => p
  | p :: ps => (p +:+ sep +:+ Join ps sep)%string
  end.

(** strings.Cut on a one-character separator: before, after, found. *)
Fixpoint Cut (s : string) (sep : ascii) : string * string * bool :=
  match s with
  | EmptyString => (EmptyString, EmptyString, false)
  | String d s' =>
    if (d =? sep)%char then (EmptyString, s', true)
    else let '(before, after, found) := Cut s' sep in (String d before, after, found)
  end.

(** ** Lemmas: conversions *)

Lemma bytes_of_string_ok s : bytes_ok (bytes_of_string s).
Proof.
  induction s as [|c s IH]; constructor; [|done].
  unfold byte_ok. pose proof (N_ascii_bounded c). lia.
Qed.

Lemma string_of_bytes_of_string s : string_of_bytes (bytes_of_string s) = s.
Proof.
  induction s as [|c s IH]; [done|]. simpl. rewrite IH. f_equal.
  rewrite N2Z.id. apply ascii_N_embedding.
Qed.

Lemma bytes_of_string_of_bytes b : bytes_ok b → bytes_of_string (string_of_bytes b) = b.
Proof.
  induction 1 as [|z b Hz _ IH]; [done|]. simpl. rewrite IH. f_equal.
  unfold byte_ok in Hz. rewrite N_ascii_embedding by lia. lia.
Qed.

Lemma bytes_of_string_app s t : bytes_of_string (s +:+ t) = bytes_of_string s ++ bytes_of_string t.
Proof.
  induction s as [|c s IH]; [done|].
  change (String c s +:+ t)%string with (String c (s +:+ t)). cbn [bytes_of_string app]. by rewrite IH.
Qed.

Lemma string_of_bytes_app a b : string_of_bytes (a ++ b) = (string_of_bytes a +:+ string_of_bytes b)%string.
Proof. induction a as [|c s IH]; [done|]. cbn [string_of_bytes app]. by rewrite IH. Qed.

Lemma bytes_of_string_inj s t : bytes_of_string s = bytes_of_string t → s = t.
Proof. intros H. rewrite <- (string_of_bytes_of_string s), H. apply string_of_bytes_of_string. Qed.

Lemma bytes_of_string_nil s : bytes_of_string s = [] ↔ s = ""%string.
Proof. destruct s; split; intros; try done. Qed.

#[export] Hint Resolve bytes_of_string_ok : go.

(** ** Lemmas: white space and trimming *)

Lemma IsSpace_not_error : IsSpace RuneError = false.
Proof. done. Qed.

Lemma space_decoded_ok r n : IsSpace r = true → decoded_ok r n.
Proof. intros H [-> _]. done. Qed.

Lemma trim_left_skip k s : trim_left k s = trim_left 0 (drop k s).
Proof.
  revert s. induction k as [|k IH]; intros s; [done|]. destruct s; [done|]. cbn [trim_left drop]. apply IH.
Qed.

Lemma trim_left_cons s : s ≠ [] →
  trim_left 0 s = if IsSpace (decode_rune s).1 then trim_left 0 (drop (decode_rune s).2 s) else s.
Proof.
  intros Hne. destruct s as [|b s']; [done|].
  destruct (decode_rune (b :: s')) as [r n] eqn:E. cbn [trim_left fst snd]. rewrite E.
  destruct (IsSpace r); [|done].
  apply decode_rune_width in E as [[? _] _]; [|done].
  rewrite trim_left_skip. destruct n; [lia|]. simpl. by rewrite Nat.sub_0_r.
Qed.

(** Induction on byte sequences that follows the rune structure. *)
Lemma rune_step_ind (P : bytes → Prop) :
  P [] → (∀ s, s ≠ [] → P (drop (decode_rune s).2 s) → P s) → ∀ s, P s.
Proof.
  intros H0 HS s. remember (length s) as n eqn:Hn. revert s Hn.
  induction n as [n IH] using lt_wf_ind. intros s ->.
  destruct (decide (s = [])) as [->|Hne]; [done|]. apply HS; [done|].
  destruct (decode_rune s) as [r k] eqn:E. apply decode_rune_width in E as [[? _] ?]; [|done].
  eapply IH; [|reflexivity]. cbn. rewrite length_drop. lia.
Qed.

Lemma all_space_cons s : s ≠ [] →
  all_space s = IsSpace (decode_rune s).1 && all_space (drop (decode_rune s).2 s).
Proof.
  intros Hne. unfold all_space. rewrite trim_left_cons by done.
  destruct (IsSpace _); [done|]. destruct s; done.
Qed.

Lemma decode_space_app s t : bytes_ok s → s ≠ [] → IsSpace (decode_rune s).1 = true →
  decode_rune (s ++ t) = decode_rune s.
Proof.
  intros Hok Hne H. destruct (decode_rune s) as [r n] eqn:E.
  eapply decode_rune_prefix; try done. by apply space_decoded_ok.
Qed.

Lemma drop_decode_app s t : s ≠ [] →
  drop (decode_rune s).2 (s ++ t) = drop (decode_rune s).2 s ++ t.
Proof.
  intros Hne. destruct (decode_rune s) as [r n] eqn:E. apply decode_rune_width in E as [_ ?]; [|done].
  by apply drop_app_le.
Qed.

Lemma all_space_app s t : bytes_ok s → all_space s = true → all_space (s ++ t) = all_space t.
Proof.
  revert t. induction s as [|s Hne IH] using rune_step_ind; intros t Hok H; [done|].
  rewrite all_space_cons in H by done. apply andb_prop in H as [H1 H2].
  rewrite all_space_cons by (by destruct s). rewrite decode_space_app by done.
  rewrite drop_decode_app by done. rewrite H1. apply IH; [by apply Forall_drop|done].
Qed.

(** [trim_left] removes a white-space prefix and nothing else. *)
Lemma trim_left_spec s : bytes_ok s →
  ∃ p, s = p ++ trim_left 0 s ∧ all_space p = true.
Proof.
  induction s as [|s Hne IH] using rune_step_ind; intros Hok; [by exists []|].
  rewrite trim_left_cons by done. destruct (IsSpace (decode_rune s).1) eqn:Hsp; [|by exists []].
  destruct IH as (p&Hp&Hall); [by apply Forall_drop|].
  destruct (decode_rune s) as [r n] eqn:E. cbn [fst snd] in *.
  destruct (decode_rune_encoded s r n Hok Hne E (space_decoded_ok r n Hsp)) as [-> [l ->]].
  rewrite drop_app_length in Hp |- *. exists (encode_rune r ++ p).
  split; [rewrite <- app_assoc; by f_equal|].
  pose proof (decode_rune_scalar _ _ _ Hok E) as Hs.
  rewrite all_space_cons by (pose proof (encode_rune_nonempty r); destruct (encode_rune r); simpl in *; [lia|done]).
  rewrite decode_encode by done. cbn [fst snd]. by rewrite drop_app_length, Hsp.
Qed.

(** No white space is left in front. *)
Lemma trim_left_head s : trim_left 0 s ≠ [] → IsSpace (decode_rune (trim_left 0 s)).1 = false.
Proof.
  induction s as [|s Hne IH] using rune_step_ind; [done|].
  rewrite trim_left_cons by done. destruct (IsSpace (decode_rune s).1) eqn:Hsp; [done|by intros _].
Qed.

(** [trim_right] removes a white-space suffix and nothing else. *)
Lemma trim_right_spec s : ∃ q, s = trim_right s ++ q ∧ all_space q = true.
Proof.
  induction s as [|b s IH]; [by exists []|].
  cbn [trim_right]. destruct (all_space (b :: s)) eqn:E; [by exists (b :: s)|].
  destruct IH as (q&Hq&Hall). exists q. split; [|done]. simpl. by f_equal.
Qed.

Lemma trim_right_tail s q : bytes_ok s → q `suffix_of` trim_right s → q ≠ [] → all_space q = false.
Proof.
  revert q. induction s as [|b s IH]; cbn [trim_right]; intros q Hok Hs Hq.
  { apply suffix_nil_inv in Hs. done. }
  apply Forall_cons in Hok as [Hb Hok].
  destruct (all_space (b :: s)) eqn:E; [by apply suffix_nil_inv in Hs|].
  destruct q as [|x q]; [done|].
  apply suffix_cons_inv in Hs as [Heq|Hs]; [rewrite Heq; clear x q Heq Hq|by apply IH].
  apply not_true_iff_false. intros Hall. apply not_true_iff_false in E. apply E.
  destruct (trim_right_spec s) as (q&Hsq&Hq'). rewrite Hsq.
  change (b :: trim_right s ++ q) with ((b :: trim_right s) ++ q).
  rewrite all_space_app; [done| |done].
  constructor; [done|]. rewrite Hsq in Hok. by apply Forall_app in Hok as [? _].
Qed.

Lemma trim_left_id s : (s ≠ [] → IsSpace (decode_rune s).1 = false) → trim_left 0 s = s.
Proof.
  intros H. destruct (decide (s = [])) as [->|Hne]; [done|].
  rewrite trim_left_cons by done. by rewrite H.
Qed.

Lemma trim_right_id s : (∀ q, q `suffix_of` s → q ≠ [] → all_space q = false) → trim_right s = s.
Proof.
  induction s as [|b s IH]; [done|]. intros H. cbn [trim_right].
  rewrite H by done. f_equal. apply IH. intros q Hq. apply H. by apply suffix_cons_r.
Qed.

(** What [TrimSpace] returns: the input is white space, the result, white
    space; and the result neither starts nor ends with white space. *)
Lemma trim_bytes_spec s : bytes_ok s →
  ∃ p q, s = p ++ trim_bytes s ++ q ∧ all_space p = true ∧ all_space q = true.
Proof.
  intros Hok. destruct (trim_left_spec s Hok) as (p&Hp&Hap).
  destruct (trim_right_spec (trim_left 0 s)) as (q&Hq&Haq).
  exists p, q. split; [|done]. unfold trim_bytes. by rewrite <- Hq.
Qed.

Lemma trim_bytes_ok s : bytes_ok s → bytes_ok (trim_bytes s).
Proof.
  intros Hok. destruct (trim_bytes_spec s Hok) as (p&q&Heq&_). rewrite Heq in Hok.
  apply Forall_app in Hok as [_ Hok]. by apply Forall_app in Hok as [? _].
Qed.

Lemma trim_bytes_head s : bytes_ok s → trim_bytes s ≠ [] →
  IsSpace (decode_rune (trim_bytes s)).1 = false.
Proof.
  intros Hok Hne. apply not_true_iff_false. intros Hsp.
  destruct (trim_right_spec (trim_left 0 s)) as (q&Hq&_).
  pose proof (decode_space_app (trim_bytes s) q (trim_bytes_ok s Hok) Hne Hsp) as Hd.
  unfold trim_bytes in Hd at 1. rewrite <- Hq in Hd.
  assert (trim_left 0 s ≠ []) as Hne'.
  { intros E. unfold trim_bytes in Hne. by rewrite E in Hne. }
  pose proof (trim_left_head s Hne'). congruence.
Qed.

Lemma trim_bytes_idem s : bytes_ok s → trim_bytes (trim_bytes s) = trim_bytes s.
Proof.
  intros Hok. pose proof (trim_bytes_head s Hok) as Hh. unfold trim_bytes at 1.
  rewrite (trim_left_id (trim_bytes s)) by done. apply trim_right_id.
  intros q Hq Hne. destruct (trim_left_spec s Hok) as (p&Hp&_).
  eapply trim_right_tail; [|exact Hq|done].
  rewrite Hp in Hok. by apply Forall_app in Hok as [_ ?].
Qed.

Lemma TrimSpace_bytes s : bytes_of_string (TrimSpace s) = trim_bytes (bytes_of_string s).
Proof. unfold TrimSpace. apply bytes_of_string_of_bytes, trim_bytes_ok, bytes_of_string_ok. Qed.

Lemma TrimSpace_idem s : TrimSpace (TrimSpace s) = TrimSpace s.
Proof.
  unfold TrimSpace at 1. rewrite TrimSpace_bytes.
  rewrite trim_bytes_idem by apply bytes_of_string_ok. reflexivity.
Qed.

#[export] Hint Rewrite TrimSpace_idem : go_simpl.

(** ** Lemmas: runes of a string *)

Lemma runes_nonempty s : s ≠ [] → runes s ≠ [].
Proof. intros H. by rewrite runes_cons. Qed.

Lemma runes_app_Utf8 s t : Utf8 s → runes (s ++ t) = runes s ++ runes t.
Proof.
  intros H. revert t. induction H as [|r s Hr _ IH] using Utf8_ind; intros t; [done|].
  rewrite <- app_assoc, !runes_encode by done. simpl. by rewrite IH.
Qed.

(** An ASCII byte occurs in a byte sequence iff it occurs as a rune. *)
Lemma runes_ascii_elem c s : bytes_ok s → 0 <= c < 0x80 → c ∈ s ↔ c ∈ runes s.
Proof.
  intros Hok Hc. revert Hok. induction s as [|s Hne IH] using rune_step_ind; intros Hok; [done|].
  rewrite runes_cons by done. destruct (decode_rune s) as [r n] eqn:E. cbn [fst snd] in *.
  specialize (IH (Forall_drop _ _ _ Hok)).
  rewrite elem_of_cons, <- IH. clear IH.
  rewrite <- (take_drop n s) at 1. rewrite elem_of_app.
  enough (c ∈ take n s ↔ c = r) as -> by done.
  pose proof (decode_rune_cases _ _ _ E) as
    [(?&?&?)|[(?&->&->)|[(b0&l&->&Hlt&->&->)|(Hs&->&Hn&l&->)]]]; [done|..].
  - destruct s as [|b0 s]; [done|]. cbn [take].
    rewrite elem_of_cons. apply Forall_cons in Hok as [Hb _].
    cbn in E. destruct (b0 <? RuneSelf) eqn:Elt; unfold RuneSelf in Elt; bool_hyps.
    + injection E as E. unfold RuneError in E. lia.
    + rewrite take_0. split; [intros [->|Hin]; [lia|by apply elem_of_nil in Hin]|unfold RuneError; lia].
  - cbn [take]. rewrite take_0, list_elem_of_singleton. done.
  - rewrite take_app_length. split.
    + intros Hin. exfalso. revert Hn Hin. scalar_split r Hs; cbn [length]; [lia|..];
        intros _; rewrite !elem_of_cons, elem_of_nil; intros Hin;
        repeat destruct Hin as [Hin|Hin]; try done; zdiv.
    + intros ->. rewrite encode_rune_1 in Hn by lia. simpl in Hn. lia.
Qed.

#[export] Instance Latin1Laws : UnicodeLaws Latin1Tables.
Proof.
  split; try done.
  - intros r Hr. unfold rune_to_lower. cbn [lower_table Latin1Tables].
    by rewrite (proj2 (Z.leb_gt _ _)).
  - intros r Hr. cbn. lia.
Qed.

Lemma all_space_runes s : all_space s = true → Forall (λ r, IsSpace r = true) (runes s).
Proof.
  induction s as [|s Hne IH] using rune_step_ind; intros H; [constructor|].
  rewrite all_space_cons in H by done. apply andb_prop in H as [H1 H2].
  rewrite runes_cons by done. constructor; auto.
Qed.

(** A string with an ASCII character that is not white space is not blank. *)
Lemma TrimSpace_visible s c : c ∈ bytes_of_string s → 0 <= c < 0x80 → IsSpace c = false → TrimSpace s ≠ ""%string.
Proof.
  intros Hin Hc Hsp Hnil. apply (f_equal bytes_of_string) in Hnil. rewrite TrimSpace_bytes in Hnil. cbn in Hnil.
  pose proof (bytes_of_string_ok s) as Hok.
  destruct (trim_bytes_spec (bytes_of_string s) Hok) as (p&q&Hs&Hp&Hq). rewrite Hnil in Hs. cbn [app] in Hs.
  assert (all_space (bytes_of_string s) = true) as Hall.
  { rewrite Hs. rewrite Hs in Hok. apply Forall_app in Hok as [Hokp _]. by rewrite all_space_app. }
  apply all_space_runes in Hall. rewrite Forall_forall in Hall.
  apply runes_ascii_elem in Hin; [|done|done]. apply Hall in Hin. congruence.
Qed.
