(* ===== verification/Sha256.v ===== *)
(** * SHA-256 and HMAC (crypto/sha256, crypto/hmac)

    The standard-library functions behind the request signature, FIPS 180-4
    and RFC 2104 over byte lists; 32-bit words are [Z] with their wrap-around
    written out.  The test vectors at the end evaluate them. *)
From stdpp Require Import base strings list.
From Stdlib Require Import ZArith Lia.
From S2P Require Import Prelude Utf8 GoStrings.

Local Open Scope Z_scope.

Definition w32 (z : Z) : Z := Z.land z 0xffffffff.
Definition add32 (x y : Z) : Z := w32 (x + y).
Definition rotr (n x : Z) : Z := Z.lor (Z.shiftr x n) (w32 (Z.shiftl x (32 - n))).
Definition not32 (x : Z) : Z := Z.lxor x 0xffffffff.

Definition Ch (x y z : Z) : Z := Z.lxor (Z.land x y) (Z.land (not32 x) z).
Definition Maj (x y z : Z) : Z := Z.lxor (Z.lxor (Z.land x y) (Z.land x z)) (Z.land y z).
Definition Sigma0 (x : Z) : Z := Z.lxor (Z.lxor (rotr 2 x) (rotr 13 x)) (rotr 22 x).
Definition Sigma1 (x : Z) : Z := Z.lxor (Z.lxor (rotr 6 x) (rotr 11 x)) (rotr 25 x).
Definition sigma0 (x : Z) : Z := Z.lxor (Z.lxor (rotr 7 x) (rotr 18 x)) (Z.shiftr x 3).
Definition sigma1 (x : Z) : Z := Z.lxor (Z.lxor (rotr 17 x) (rotr 19 x)) (Z.shiftr x 10).

(** The constants of the standard: the first 32 bits of the fractional parts
    of the cube roots (rounds) and square roots (initial digest) of the first
    primes. *)
Definition prime (n : Z) : bool :=
  forallb (λ d, negb (n mod Z.of_nat d =? 0)) (seq 2 (Z.to_nat (Z.sqrt n) - 1)).
Definition primes : list Z := filter (λ n, prime n = true) (map Z.of_nat (seq 2 310)).

(** The greatest [x] below [2 ^ k] more than [x] with [x ^ 3 <= n], bit by bit. *)
Fixpoint cube_root (k : nat) (x n : Z) : Z :=
  match k with
  | O => x
  | S k' => let y := x + 2 ^ Z.of_nat k' in cube_root k' (if y ^ 3 <=? n then y else x) n
  end.

Definition round_constants : list Z :=
  Eval vm_compute in map (λ p, w32 (cube_root 36 0 (p * 2 ^ 96))) primes.

Record Digest := mkDigest {
  d_a : Z; d_b : Z; d_c : Z; d_d : Z; d_e : Z; d_f : Z; d_g : Z; d_h : Z
}.

Definition init_digest : Digest :=
  Eval vm_compute in
    match map (λ p, w32 (Z.sqrt (p * 2 ^ 64))) primes with
    | a :: b :: c :: d :: e :: f :: g :: h :: _ => mkDigest a b c d e f g h
    | _ => mkDigest 0 0 0 0 0 0 0 0
    end.

Example constants_ends :
  length round_constants = 64%nat ∧ head round_constants = Some 0x428a2f98 ∧ last round_constants = Some 0xc67178f2 ∧
  d_a init_digest = 0x6a09e667 ∧ d_h init_digest = 0x5be0cd19.
Proof. by vm_compute. Qed.

(** Big-endian words of a block. *)
Fixpoint be_words (b : bytes) : list Z :=
  match b with
  | b0 :: b1 :: b2 :: b3 :: b' =>
      Z.lor (Z.lor (Z.shiftl b0 24) (Z.shiftl b1 16)) (Z.lor (Z.shiftl b2 8) b3) :: be_words b'
  | _ => []
  end.

Definition be_bytes (n : nat) (z : Z) : bytes :=
  map (λ i, Z.land (Z.shiftr z (8 * Z.of_nat i)) 0xff) (rev (seq 0 n)).

(** The message schedule, last word first. *)
Fixpoint schedule (n : nat) (w : list Z) : list Z :=
  match n with
  | O => w
  | S n' =>
      let at_ i := nth i w 0 in
      schedule n' (add32 (add32 (sigma1 (at_ 1%nat)) (at_ 6%nat)) (add32 (sigma0 (at_ 14%nat)) (at_ 15%nat)) :: w)
  end.

Definition round (s : Digest) (kw : Z * Z) : Digest :=
  let '(mkDigest a b c d e f g h) := s in
  let t1 := add32 (add32 (add32 h (Sigma1 e)) (Ch e f g)) (add32 kw.1 kw.2) in
  let t2 := add32 (Sigma0 a) (Maj a b c) in
  mkDigest (add32 t1 t2) a b c (add32 d t1) e f g.

Definition compress (s : Digest) (block : bytes) : Digest :=
  let w := rev (schedule 48 (rev (be_words block))) in
  let r := foldl round s (zip round_constants w) in
  mkDigest (add32 (d_a s) (d_a r)) (add32 (d_b s) (d_b r)) (add32 (d_c s) (d_c r)) (add32 (d_d s) (d_d r))
    (add32 (d_e s) (d_e r)) (add32 (d_f s) (d_f r)) (add32 (d_g s) (d_g r)) (add32 (d_h s) (d_h r)).

(** Padding to a multiple of 64 bytes: 0x80, zeros, 64-bit bit length. *)
Definition pad (msg : bytes) : bytes :=
  let n := length msg in
  let zeros := ((119 - n mod 64) mod 64)%nat in
  msg ++ 0x80 :: replicate zeros 0 ++ be_bytes 8 (Z.land (8 * Z.of_nat n) (Z.ones 64)).

(** Fold over the 64-byte blocks; [n] blocks. *)
Fixpoint blocks (n : nat) (s : Digest) (b : bytes) : Digest :=
  match n with
  | O => s
  | S n' => blocks n' (compress s (take 64 b)) (drop 64 b)
  end.

Definition sha256 (msg : bytes) : bytes :=
  let p := pad msg in
  let s := blocks (length p / 64) init_digest p in
  concat (map (be_bytes 4) [d_a s; d_b s; d_c s; d_d s; d_e s; d_f s; d_g s; d_h s]).

(** ** HMAC *)

Definition hmac_key (key : bytes) : bytes :=
  let k := if (64 <? length key)%nat then sha256 key else key in
  k ++ replicate (64 - length k) 0.

Definition hmac_sha256 (key msg : bytes) : bytes :=
  let k := hmac_key key in
  sha256 (map (Z.lxor 0x5c) k ++ sha256 (map (Z.lxor 0x36) k ++ msg)).

(** ** Test vectors (FIPS 180-4 and RFC 4231) *)

Definition hex_value (c : Z) : Z := if c <=? 57 then c - 48 else c - 87.
Fixpoint unhex (b : bytes) : bytes :=
  match b with
  | x :: y :: b' => 16 * hex_value x + hex_value y :: unhex b'
  | _ => []
  end.

Example sha256_abc : sha256 (bytes_of_string "abc") = unhex (bytes_of_string
  "ba7816bf8f01cfea414140de5dae2223b00361a396177a9cb410ff61f20015ad").
Proof. vm_compute. reflexivity. Qed.

Example sha256_two_blocks :
  sha256 (bytes_of_string "abcdbcdecdefdefgefghfghighijhijkijkljklmklmnlmnomnopnopq") = unhex (bytes_of_string
  "248d6a61d20638b8e5c026930c3e6039a33ce45964ff2167f6ecedd419db06c1").
Proof. vm_compute. reflexivity. Qed.

Example hmac_rfc4231_2 :
  hmac_sha256 (bytes_of_string "Jefe") (bytes_of_string "what do ya want for nothing?") = unhex (bytes_of_string
  "5bdcc146bf60754e6a042426089575c75a003f089d2739839dec58b964ec3843").
Proof. vm_compute. reflexivity. Qed.
