(* ===== verification/NetIP.v ===== *)
(** * Addresses (net/netip, net)

    What the rate limiter uses of the standard library: netip.ParseAddr,
    net.ParseCIDR, IPNet.Contains, IP.String and net.SplitHostPort, over byte
    lists.  An [IP] is a byte slice of length 4 or 16; nil is [[]]. *)
From stdpp Require Import base strings list pretty.
From Stdlib Require Import ZArith Lia.
From S2P Require Import Prelude Utf8 GoStrings.

Local Open Scope Z_scope.

Definition IP : Type := bytes.

(** ** Characters *)

Definition c_dot : Z := 46.
Definition c_colon : Z := 58.
Definition c_percent : Z := 37.
Definition c_slash : Z := 47.
Definition c_lbracket : Z := 91.
Definition c_rbracket : Z := 93.

Definition is_digit (b : Z) : bool := within 48 57 b.

Definition hex_val (b : Z) : option Z :=
  if within 48 57 b then Some (b - 48)
  else if within 97 102 b then Some (b - 97 + 10)
  else if within 65 70 b then Some (b - 65 + 10)
  else None.

(** strings.Cut at the first occurrence of a byte. *)
Fixpoint cut_at (c : Z) (s : bytes) : option (bytes * bytes) :=
  match s with
  | [] => None
  | b :: s' =>
      if b =? c then Some ([], s')
      else match cut_at c s' with Some (l, r) => Some (b :: l, r) | None => None end
  end.

(** Cut at the last occurrence. *)
Fixpoint cut_last (c : Z) (s : bytes) : option (bytes * bytes) :=
  match s with
  | [] => None
  | b :: s' =>
      match cut_last c s' with
      | Some (l, r) => Some (b :: l, r)
      | None => if b =? c then Some ([], s') else None
      end
  end.

(** ** netip.ParseAddr *)

(** parseIPv4Fields from octet [pos]: [val] and [digLen] describe the octet
    being read. *)
Fixpoint ipv4_fields (s : bytes) (pos : nat) (val : Z) (digLen : nat) : option bytes :=
  match s with
  | [] => if (digLen =? 0)%nat || (pos <? 3)%nat then None else Some [val]
  | c :: s' =>
      if is_digit c then
        if (digLen =? 1)%nat && (val =? 0) then None
        else
          let val := val * 10 + (c - 48) in
          if 255 <? val then None else ipv4_fields s' pos val (S digLen)
      else if c =? c_dot then
        if (digLen =? 0)%nat then None
        else if (pos =? 3)%nat then None
        else match ipv4_fields s' (S pos) 0 0 with Some t => Some (val :: t) | None => None end
      else None
  end.

Definition parseIPv4 (s : bytes) : option IP := ipv4_fields s 0 0 0.

(** The hex digits of a group: value, digits read and the rest. *)
Fixpoint hex_group (s : bytes) (acc : Z) (off : nat) : option (Z * nat * bytes) :=
  match s with
  | [] => Some (acc, off, [])
  | c :: s' =>
      match hex_val c with
      | None => Some (acc, off, s)
      | Some d =>
          if (3 <? off)%nat then None
          else if 0xFFFF <? 16 * acc + d then None
          else hex_group s' (16 * acc + d) (S off)
      end
  end.

(** The loop of parseIPv6: [ip] is the bytes written so far and [ellipsis]
    the position of the double colon.  At most eight groups are read. *)
Fixpoint ipv6_loop (n : nat) (s : bytes) (ip : bytes) (ellipsis : option nat)
    : option (bytes * bytes * option nat) :=
  match n with
  | O => Some (s, ip, ellipsis)
  | S n' =>
      match hex_group s 0 0 with
      | None => None
      | Some (_, O, _) => None
      | Some (acc, _, rest) =>
          let ip' := ip ++ [acc / 256; acc mod 256] in
          match rest with
          | [] => Some ([], ip', ellipsis)
          | c :: rest' =>
              if c =? c_dot then
                if match ellipsis with None => negb (length ip =? 12)%nat | Some _ => false end then None
                else if (16 <? length ip + 4)%nat then None
                else match parseIPv4 s with
                     | Some v4 => Some ([], ip ++ v4, ellipsis)
                     | None => None
                     end
              else if negb (c =? c_colon) then None
              else
                match rest' with
                | [] => None
                | d :: rest'' =>
                    if d =? c_colon then
                      match ellipsis with
                      | Some _ => None
                      | None =>
                          match rest'' with
                          | [] => Some ([], ip', Some (length ip'))
                          | _ => ipv6_loop n' rest'' ip' (Some (length ip'))
                          end
                      end
                    else ipv6_loop n' rest' ip' ellipsis
                end
          end
      end
  end.

(** The 16 bytes once the loop is done. *)
Definition ipv6_finish (s ip : bytes) (ellipsis : option nat) : option IP :=
  match s with
  | _ :: _ => None
  | [] =>
      match ellipsis with
      | None => if (length ip <? 16)%nat then None else Some ip
      | Some e =>
          if (length ip <? 16)%nat
          then Some (take e ip ++ replicate (16 - length ip) 0 ++ drop e ip)
          else None
      end
  end.

(** The part of parseIPv6 after the zone is split off. *)
Definition ipv6_body (s zone : bytes) : option (IP * bytes) :=
  let '(t, ellipsis) := match s with
                        | a :: b :: t => if (a =? c_colon) && (b =? c_colon) then (t, Some 0%nat) else (s, None)
                        | _ => (s, None)
                        end in
  match t, ellipsis with
  | [], Some _ => Some (replicate 16 0, zone)
  | _, _ =>
      match ipv6_loop 8 t [] ellipsis with
      | Some (rest, ip, e) => match ipv6_finish rest ip e with Some a => Some (a, zone) | None => None end
      | None => None
      end
  end.

(** parseIPv6: the address and its zone. *)
Definition parseIPv6 (s : bytes) : option (IP * bytes) :=
  match cut_at c_percent s with
  | Some (_, []) => None
  | Some (s', zone) => ipv6_body s' zone
  | None => ipv6_body s []
  end.

(** ParseAddr: the first of the three characters decides. *)
Fixpoint addr_kind (s : bytes) : option Z :=
  match s with
  | [] => None
  | c :: s' =>
      if (c =? c_dot) || (c =? c_colon) || (c =? c_percent) then Some c else addr_kind s'
  end.

Definition ParseAddr (s : bytes) : option (IP * bytes) :=
  match addr_kind s with
  | Some c =>
      if c =? c_dot then match parseIPv4 s with Some ip => Some (ip, []) | None => None end
      else if c =? c_colon then parseIPv6 s
      else None
  | None => None
  end.

(** ** net.IP and net.IPNet *)

Definition v4InV6Prefix : bytes := replicate 10 0 ++ [0xff; 0xff].

Definition To4 (ip : IP) : option IP :=
  if (length ip =? 4)%nat then Some ip
  else if (length ip =? 16)%nat && bool_decide (take 12 ip = v4InV6Prefix) then Some (drop 12 ip)
  else None.

(** addr.Unmap().AsSlice() and addr.As16(). *)
Definition Unmap (ip : IP) : IP := default ip (To4 ip).
Definition As16 (ip : IP) : IP := if (length ip =? 4)%nat then v4InV6Prefix ++ ip else ip.

Record IPNet := mkIPNet { net_IP : IP; net_Mask : bytes }.

(** CIDRMask: [ones] leading one bits in [n] bytes. *)
Fixpoint CIDRMask (ones : nat) (n : nat) : bytes :=
  match n with
  | O => []
  | S n' =>
      if (8 <=? ones)%nat then 0xff :: CIDRMask (ones - 8) n'
      else (0xff - Z.shiftr 0xff (Z.of_nat ones)) :: CIDRMask 0 n'
  end.

Definition and_bytes (a b : bytes) : bytes := zip_with Z.land a b.

(** IP.Mask. *)
Definition Mask (ip : IP) (m : bytes) : IP :=
  let m := if (length m =? 16)%nat && (length ip =? 4)%nat && forallb (Z.eqb 0xff) (take 12 m)
           then drop 12 m else m in
  let ip := if (length m =? 4)%nat && (length ip =? 16)%nat && bool_decide (take 12 ip = v4InV6Prefix)
            then drop 12 ip else ip in
  if (length ip =? length m)%nat then and_bytes ip m else [].

(** The digits of a mask length below 0xFFFFFF, with nothing after them. *)
Fixpoint dtoi (n : Z) (s : bytes) : option Z :=
  match s with
  | [] => Some n
  | c :: s' =>
      if is_digit c then
        let n := n * 10 + (c - 48) in if 0xFFFFFF <=? n then None else dtoi n s'
      else None
  end.

Definition ParseCIDR (s : bytes) : option IPNet :=
  match cut_at c_slash s with
  | None => None
  | Some (addr, mask) =>
      match ParseAddr addr with
      | Some (ip, []) =>
          match mask with
          | [] => None
          | _ =>
              match dtoi 0 mask with
              | None => None
              | Some n =>
                  if 8 * Z.of_nat (length ip) <? n then None
                  else
                    let m := CIDRMask (Z.to_nat n) (length ip) in
                    Some (mkIPNet (Mask (As16 ip) m) m)
              end
          end
      | _ => None
      end
  end.

Definition networkNumberAndMask (n : IPNet) : bytes * bytes :=
  let ip := default (net_IP n) (To4 (net_IP n)) in
  let m := net_Mask n in
  if negb ((length ip =? 4)%nat || (length ip =? 16)%nat) then ([], [])
  else if (length m =? 4)%nat then (if (length ip =? 4)%nat then (ip, m) else ([], []))
  else if (length m =? 16)%nat then (ip, if (length ip =? 4)%nat then drop 12 m else m)
  else ([], []).

Definition net_Contains (n : IPNet) (ip : IP) : bool :=
  let '(nn, m) := networkNumberAndMask n in
  let ip := default ip (To4 ip) in
  (length ip =? length nn)%nat && bool_decide (and_bytes nn m = and_bytes ip m).

(** ** IP.String *)

Definition dotted (ip : bytes) : string := Join (map pretty ip) ".".

Fixpoint groups (ip : bytes) : list Z :=
  match ip with
  | a :: b :: ip' => 256 * a + b :: groups ip'
  | _ => []
  end.

(** Hexadecimal without leading zeros. *)
Definition hex_char (d : Z) : Z := if d <? 10 then 48 + d else 87 + d.
Definition hex16 (g : Z) : bytes :=
  let ds := [Z.shiftr g 12; Z.land (Z.shiftr g 8) 15; Z.land (Z.shiftr g 4) 15; Z.land g 15] in
  map hex_char
    (if g =? 0 then [0]
     else if g <? 16 then drop 3 ds else if g <? 256 then drop 2 ds else if g <? 4096 then drop 1 ds else ds).

(** Length of the run of zero groups at the front. *)
Fixpoint zero_run (gs : list Z) : nat :=
  match gs with
  | g :: gs' => if g =? 0 then S (zero_run gs') else O
  | [] => O
  end.

(** The first longest run of at least two zero groups, as (start, end). *)
Fixpoint longest_run (i : nat) (gs : list Z) (best : nat * nat) : nat * nat :=
  match gs with
  | [] => best
  | _ :: gs' =>
      let l := zero_run gs in
      longest_run (S i) gs' (if (2 <=? l)%nat && (best.2 - best.1 <? l)%nat then (i, i + l)%nat else best)
  end.

Definition colon_hex (gs : list Z) : string := Join (map (λ g, string_of_bytes (hex16 g)) gs) ":".

Definition ipv6_string (ip : bytes) : string :=
  let gs := groups ip in
  let '(a, b) := longest_run 0 gs (0, 0)%nat in
  if (b =? 0)%nat then colon_hex gs
  else (colon_hex (take a gs) +:+ "::" +:+ colon_hex (drop b gs))%string.

Definition IPString (ip : IP) : string :=
  match ip with
  | [] => "<nil>"
  | _ => match To4 ip with Some v4 => dotted v4 | None => ipv6_string ip end
  end.

(** ** net.SplitHostPort *)

Definition has (c : Z) (s : bytes) : bool := bool_decide (c ∈ s).

Definition SplitHostPort (s : bytes) : option (bytes * bytes) :=
  match cut_last c_colon s with
  | None => None
  | Some (before, port) =>
      match s with
      | 91 :: inner =>
          match cut_at c_rbracket inner with
          | None => None
          | Some (host, after) =>
              (* the closing bracket stands just before the last colon *)
              if negb (bool_decide (after = c_colon :: port)) then None
              else if has c_lbracket inner then None
              else if has c_rbracket after then None
              else Some (host, port)
          end
      | _ =>
          if has c_colon before then None
          else if has c_lbracket s then None
          else if has c_rbracket s then None
          else Some (before, port)
      end
  end.

(** strconv.ParseUint(s, 10, 16) succeeds. *)
Definition parse_uint16 (s : bytes) : bool :=
  match s with
  | [] => false
  | _ => match foldl (λ acc c, match acc with
                               | Some n => if is_digit c then Some (n * 10 + (c - 48)) else None
                               | None => None end) (Some 0) s with
         | Some n => n <=? 0xFFFF
         | None => false
         end
  end.

(** ** Lengths *)

Lemma ipv4_fields_length s : ∀ pos val dig ip, (pos <= 3)%nat →
  ipv4_fields s pos val dig = Some ip → (length ip = 4 - pos)%nat.
Proof.
  induction s as [|c s IH]; intros pos val dig ip Hpos; cbn [ipv4_fields].
  - case_if; [done|]. apply orb_false_elim in Heqb as [_ H]. apply Nat.ltb_ge in H.
    intros [= <-]. cbn. lia.
  - repeat case_if; try done; [by apply IH|]. apply Nat.eqb_neq in Heqb2.
    destruct (ipv4_fields s (S pos) 0 0) eqn:E; [|done]. intros [= <-].
    apply IH in E; [|lia]. cbn. lia.
Qed.

Lemma ipv6_loop_length n : ∀ s ip e s' ip' e',
  (length ip + 2 * n <= 16)%nat → ipv6_loop n s ip e = Some (s', ip', e') → (length ip' <= 16)%nat.
Proof.
  induction n as [|n IH]; intros s ip e s' ip' e' Hlen; cbn [ipv6_loop]; [intros [= <- <- <-]; lia|].
  destruct (hex_group s 0 0) as [[[acc off] rest]|]; [|done]. destruct off; [done|].
  assert (∀ ip0 e0 t, (length ip0 = length ip + 2)%nat → ipv6_loop n t ip0 e0 = Some (s', ip', e') →
    (length ip' <= 16)%nat) as Hrec by (intros ip0 e0 t Hl; apply IH; lia).
  assert (length (ip ++ [acc / 256; acc mod 256]) = (length ip + 2)%nat) as Hl by (by rewrite length_app).
  destruct rest as [|c rest]; [intros [= <- <- <-]; lia|]. case_if.
  - case_if; [done|]. case_if; [done|]. destruct (parseIPv4 s) as [v4|] eqn:Ev; [|done].
    intros [= <- <- <-]. apply ipv4_fields_length in Ev; [|lia]. rewrite length_app.
    apply Nat.ltb_ge in Heqb1. lia.
  - case_if; [done|]. destruct rest as [|d rest]; [done|]. case_if; [|by apply Hrec].
    destruct e; [done|]. destruct rest; [intros [= <- <- <-]; lia|]. by apply Hrec.
Qed.

Lemma ipv6_finish_length s ip e a :
  (length ip <= 16)%nat → ipv6_finish s ip e = Some a → (length a = 16)%nat.
Proof.
  intros Hle. unfold ipv6_finish. destruct s; [|done]. destruct e as [e|].
  - destruct (Nat.ltb_spec (length ip) 16); [|done]. intros [= <-].
    rewrite !length_app, length_replicate, length_take, length_drop. lia.
  - destruct (Nat.ltb_spec (length ip) 16); [done|]. intros [= <-]. lia.
Qed.

Lemma ipv6_body_length s zone ip z : ipv6_body s zone = Some (ip, z) → (length ip = 16)%nat.
Proof.
  unfold ipv6_body. destruct (match s with a :: b :: t => _ | _ => _ end) as [t e].
  assert (match ipv6_loop 8 t [] e with
      | Some (rest, ip, e) => match ipv6_finish rest ip e with Some a => Some (a, zone) | None => None end
      | None => None end = Some (ip, z) → (length ip = 16)%nat) as Hl.
  { destruct (ipv6_loop 8 t [] e) as [[[rest ip0] e0]|] eqn:El; [|done].
    apply ipv6_loop_length in El; [|cbn; lia].
    destruct (ipv6_finish rest ip0 e0) eqn:Ef; [|done]. intros [= <- _].
    by apply ipv6_finish_length in Ef. }
  destruct t, e; try done. by intros [= <- _].
Qed.

Lemma ParseAddr_length s ip zone : ParseAddr s = Some (ip, zone) → (length ip = 4 ∨ length ip = 16)%nat.
Proof.
  unfold ParseAddr. destruct (addr_kind s) as [c|]; [|done]. case_if.
  - destruct (parseIPv4 s) as [v4|] eqn:E; [|done]. intros [= <- <-]. left.
    by apply ipv4_fields_length in E; [|lia].
  - case_if; [|done]. intros H. right. unfold parseIPv6 in H.
    destruct (cut_at c_percent s) as [[s1 [|z zs]]|]; [done|by eapply ipv6_body_length..].
Qed.

Lemma Mask_length ip m : (length ip = 16)%nat → (length m = 4 ∨ length m = 16)%nat →
  (length m = 4%nat → take 12 ip = v4InV6Prefix) → length (Mask ip m) = length m.
Proof.
  intros Hip Hm Hpre. unfold Mask. rewrite Hip. cbn [Nat.eqb]. rewrite andb_false_r. cbn [andb].
  destruct Hm as [Hm|Hm]; rewrite Hm; cbn [Nat.eqb andb].
  - rewrite bool_decide_true by auto. rewrite length_drop, Hip. cbn [Nat.eqb Nat.sub].
    unfold and_bytes. rewrite length_zip_with, length_drop. lia.
  - rewrite Hip. cbn. unfold and_bytes. rewrite length_zip_with. lia.
Qed.

Lemma CIDRMask_length ones n : length (CIDRMask ones n) = n.
Proof. revert ones. induction n as [|n IH]; intros ones; cbn; [done|]. case_if; cbn; by rewrite IH. Qed.

(** A network from ParseCIDR does not contain the nil address. *)
Lemma ParseCIDR_not_nil s c : ParseCIDR s = Some c → net_Contains c [] = false.
Proof.
  unfold ParseCIDR. destruct (cut_at c_slash s) as [[addr mask]|]; [|done].
  destruct (ParseAddr addr) as [[ip [|]]|] eqn:E; [|done..]. apply ParseAddr_length in E.
  destruct mask; [done|]. destruct (dtoi 0 _) as [n|]; [|done]. case_if; [done|]. intros [= <-].
  set (m := CIDRMask (Z.to_nat n) (length ip)).
  assert (length m = length ip) as Hm by apply CIDRMask_length.
  assert (length (As16 ip) = 16%nat) as Ha.
  { unfold As16. destruct E as [E|E]; rewrite E; cbn [Nat.eqb]; [by rewrite length_app, E|done]. }
  assert (length (Mask (As16 ip) m) = length m) as HM.
  { apply Mask_length; [done|lia|]. intros H4. unfold As16. rewrite (proj2 (Nat.eqb_eq _ _)) by lia. done. }
  unfold net_Contains, networkNumberAndMask. cbn [net_IP net_Mask].
  set (nn := default (Mask (As16 ip) m) (To4 (Mask (As16 ip) m))).
  assert (length nn = 4%nat ∨ length nn = length m ∧ length m = 16%nat) as Hnn.
  { subst nn. unfold To4. destruct (Nat.eqb_spec (length (Mask (As16 ip) m)) 4); cbn; [by left|].
    destruct (Nat.eqb_spec (length (Mask (As16 ip) m)) 16); cbn [andb]; [|lia].
    case_bool_decide; cbn; [left; rewrite length_drop; lia|right; lia]. }
  assert (length m = 4 ∨ length m = 16)%nat as Hmm by lia.
  destruct Hnn as [Hnn|[Hnn _]], Hmm as [Hmm|Hmm]; rewrite Hmm in *; rewrite Hnn; cbn [Nat.eqb orb negb];
    by rewrite Hnn.
Qed.

(** ** Networks as prefixes

    A parsed network is a prefix length, a number and its mask of the same
    width; two of them share an address exactly when one contains the base
    address of the other. *)

Lemma CIDRMask_full k : ∀ n i, CIDRMask k n !! i = Some 0xff → (8 * S i <= k)%nat.
Proof.
  intros n. revert k. induction n as [|n IH]; intros k i H; [done|]. cbn [CIDRMask] in H.
  destruct (Nat.leb_spec 8 k) as [Hk|Hk].
  - destruct i as [|i]; [lia|]. apply IH in H. lia.
  - destruct i as [|i]; [|apply IH in H; lia]. cbn in H. injection H as H.
    do 8 (destruct k as [|k]; [by cbn in H|]). lia.
Qed.

Lemma CIDRMask_drop k j n : (8 * j <= k)%nat → drop j (CIDRMask k (j + n)) = CIDRMask (k - 8 * j) n.
Proof.
  revert k. induction j as [|j IH]; intros k H; [by rewrite Nat.sub_0_r|]. cbn [Nat.add CIDRMask].
  rewrite (proj2 (Nat.leb_le _ _)) by lia. cbn [drop]. rewrite IH by lia. f_equal. lia.
Qed.

Lemma CIDRMask_bytes k n : Forall (λ b, 0 <= b <= 0xff) (CIDRMask k n).
Proof.
  revert k. induction n as [|n IH]; intros k; cbn [CIDRMask]; [constructor|].
  destruct (Nat.leb_spec 8 k) as [Hk|Hk]; constructor; try done.
  do 8 (destruct k as [|k]; [by cbn|]). lia.
Qed.

Lemma and_bytes_mask a b n : (a <= b)%nat → and_bytes (CIDRMask b n) (CIDRMask a n) = CIDRMask a n.
Proof.
  unfold and_bytes. revert a b. induction n as [|n IH]; intros a b H; cbn [CIDRMask zip_with]; [done|].
  destruct (Nat.leb_spec 8 a), (Nat.leb_spec 8 b); try lia; cbn [zip_with]; rewrite IH by lia; f_equal.
  - do 8 (destruct a as [|a]; [done|]). lia.
  - do 8 (destruct b as [|b]; [do 8 (destruct a as [|a]; [done || lia|]); lia|]). lia.
Qed.

Lemma and_bytes_assoc x y z : and_bytes (and_bytes x y) z = and_bytes x (and_bytes y z).
Proof.
  unfold and_bytes. revert y z. induction x as [|a x IH]; intros [|b y] [|c z]; cbn; try done.
  by rewrite IH, Z.land_assoc.
Qed.

(** The number, mask and prefix length of a parsed network. *)
Lemma ParseCIDR_normal s c : ParseCIDR s = Some c → ∃ k nn,
  networkNumberAndMask c = (nn, CIDRMask k (length nn)) ∧ default (net_IP c) (To4 (net_IP c)) = nn.
Proof.
  unfold ParseCIDR. destruct (cut_at c_slash s) as [[addr mask]|]; [|done].
  destruct (ParseAddr addr) as [[ip [|]]|] eqn:E; [|done..]. apply ParseAddr_length in E.
  destruct mask; [done|]. destruct (dtoi 0 _) as [n|]; [|done]. case_if; [done|]. intros [= <-].
  cbn [net_IP net_Mask]. set (k := Z.to_nat n). pose proof (CIDRMask_length k (length ip)) as Hm.
  unfold networkNumberAndMask. cbn [net_IP net_Mask].
  destruct E as [E|E]; rewrite E in *.
  - assert (Mask (As16 ip) (CIDRMask k 4) = and_bytes ip (CIDRMask k 4)) as ->.
    { assert (length (v4InV6Prefix ++ ip) = 16%nat) as H16 by (rewrite length_app, E; done).
      unfold As16, Mask. rewrite E. cbn [Nat.eqb]. rewrite H16, Hm. cbn [Nat.eqb andb]. rewrite Hm. cbn [Nat.eqb andb].
      change (take 12 (v4InV6Prefix ++ ip)) with v4InV6Prefix. rewrite bool_decide_true by done.
      change (drop 12 (v4InV6Prefix ++ ip)) with ip. by rewrite E. }
    assert (length (and_bytes ip (CIDRMask k 4)) = 4%nat) as Hl by (unfold and_bytes; rewrite length_zip_with; lia).
    exists k, (and_bytes ip (CIDRMask k 4)). unfold To4. rewrite Hl. cbn [Nat.eqb default from_option id orb negb].
    by rewrite Hl, Hm.
  - assert (Mask (As16 ip) (CIDRMask k 16) = and_bytes ip (CIDRMask k 16)) as ->.
    { unfold As16, Mask. rewrite E. cbn [Nat.eqb]. rewrite E, Hm. cbn [Nat.eqb andb]. rewrite ?E, ?Hm. cbn [Nat.eqb andb]. by rewrite E. }
    set (x := and_bytes ip (CIDRMask k 16)).
    assert (length x = 16%nat) as Hl by (unfold x, and_bytes; rewrite length_zip_with; lia).
    unfold To4. rewrite Hl. cbn [Nat.eqb andb]. case_bool_decide as Hp; cbn [default from_option id].
    + exists (k - 96)%nat, (drop 12 x). rewrite length_drop, Hl, Hm. cbn [Nat.sub Nat.eqb orb negb].
      split; [|done]. f_equal. apply (CIDRMask_drop k 12 4).
      assert (CIDRMask k 16 !! 11%nat = Some 0xff) as H11; [|by apply CIDRMask_full in H11].
      assert (x !! 11%nat = Some 0xff) as Hx by (rewrite <- (lookup_take_lt x 12 11) by lia; by rewrite Hp).
      unfold x, and_bytes in Hx. apply lookup_zip_with_Some in Hx as (a&b&Hab&_&Hb). rewrite Hb. f_equal.
      pose proof (proj1 (Forall_lookup _ _) (CIDRMask_bytes k 16) _ _ Hb) as Hr. cbn in Hr.
      assert (Z.land 0xff b = 0xff) as Hf by (rewrite Hab at 1; rewrite <- Z.land_assoc, Z.land_diag; by symmetry).
      assert (Z.land 0xff b = b) as Hb'; [|congruence].
      change 0xff with (Z.ones 8). rewrite Z.land_comm, Z.land_ones by lia. apply Z.mod_small. lia.
    + exists k, x. rewrite Hl, Hm. done.
Qed.

(** Two networks with a common address: the one with the shorter prefix
    contains the base of the other. *)
Lemma networks_overlap s1 s2 a b ip : ParseCIDR s1 = Some a → ParseCIDR s2 = Some b →
  net_Contains a ip = true → net_Contains b ip = true →
  net_Contains a (net_IP b) = true ∨ net_Contains b (net_IP a) = true.
Proof.
  intros Ha Hb. apply ParseCIDR_normal in Ha as (ka&na&Hna&Hia). apply ParseCIDR_normal in Hb as (kb&nb&Hnb&Hib).
  unfold net_Contains. rewrite Hna, Hnb, Hia, Hib. set (x := default ip (To4 ip)).
  rewrite !andb_true_iff, !Nat.eqb_eq, !bool_decide_eq_true. intros [Hla Hca] [Hlb Hcb].
  assert (length na = length nb) as Hl by lia. rewrite Hl in *.
  destruct (decide (ka <= kb)%nat) as [Hk|Hk]; [left|right]; (split; [lia|]).
  - rewrite Hca, <- (and_bytes_mask ka kb) by lia. rewrite <- !and_bytes_assoc. by rewrite <- Hcb.
  - rewrite Hcb, <- (and_bytes_mask kb ka) by lia. rewrite <- !and_bytes_assoc. by rewrite <- Hca.
Qed.

(** A network contains its base address. *)
Lemma network_contains_base s c : ParseCIDR s = Some c → net_Contains c (net_IP c) = true.
Proof.
  intros (k&nn&Hn&Hi)%ParseCIDR_normal. unfold net_Contains. rewrite Hn, Hi.
  by rewrite Nat.eqb_refl, bool_decide_true.
Qed.

(** ** Examples *)

Definition show (s : string) : option string :=
  match ParseAddr (bytes_of_string s) with Some (ip, []) => Some (IPString (Unmap ip)) | _ => None end.

Example parse_examples :
  map show ["10.0.0.1"; "256.1.1.1"; "01.1.1.1"; "1.2.3"; "1.2.3.4.5"; "2001:DB8::1"; "::"; "::ffff:1.2.3.4";
            "1::2::3"; "1:2:3:4:5:6:7:8"; "1:2:3:4:5:6:7::"; "1:0:0:2:0:0:0:3"; "fe80::1%eth0"; "1:2:3:4:5:6:7:8:9";
            "1:2:3:4:5:6:1.2.3.4"; ":1"; "12345::"]%string
  = [Some "10.0.0.1"; None; None; None; None; Some "2001:db8::1"; Some "::"; Some "1.2.3.4";
     None; Some "1:2:3:4:5:6:7:8"; Some "1:2:3:4:5:6:7:0"; Some "1:0:0:2::3"; None; None;
     Some "1:2:3:4:5:6:102:304"; None; None]%string.
Proof. vm_compute. reflexivity. Qed.
