(* ===== verification/GoTime.v ===== *)
(** * Time and durations

    A [time.Time] is the number of nanoseconds since January 1, year 1, UTC
    (Go's internal epoch), so the zero [Time] is [0] and [UTC()] is the
    identity.  A [time.Duration] is an int64: subtraction of times saturates
    and negation wraps, as package [time] and the language define them.
    The calendar part gives the two layouts the service formats times in. *)
From stdpp Require Import base list strings pretty.
From Stdlib Require Import ZArith Lia Ascii.
From S2P Require Import Prelude Utf8 GoStrings.

Local Open Scope Z_scope.

Abbreviation Time := Z (only parsing).
Abbreviation Duration := Z (only parsing).

Definition Nanosecond : Duration := 1.
Definition Millisecond : Duration := 1000000.
Definition Second : Duration := 1000000000.
Definition Minute : Duration := 60 * Second.
Definition Hour : Duration := 60 * Minute.

Definition minDuration : Duration := - 2 ^ 63.
Definition maxDuration : Duration := 2 ^ 63 - 1.

(** Two's complement int64. *)
Definition wrap64 (z : Z) : Z := (z + 2 ^ 63) mod 2 ^ 64 - 2 ^ 63.

Definition int64_ok (z : Z) : Prop := minDuration <= z <= maxDuration.

(** [t.Sub(u)]: saturating. *)
Definition Sub (t u : Time) : Duration := Z.max minDuration (Z.min maxDuration (t - u)).
Definition Add (t : Time) (d : Duration) : Time := t + d.
Definition Before (t u : Time) : bool := t <? u.
Definition After (t u : Time) : bool := u <? t.
Definition TimeEqual (t u : Time) : bool := t =? u.
Definition IsZero (t : Time) : bool := t =? 0.
Definition UTC (t : Time) : Time := t.

(** [time.Unix(sec, 0)]: the internal second counter is an int64. *)
Definition unixToInternal : Z := 62135596800.
Definition Unix (sec : Z) : Time := wrap64 (sec + unixToInternal) * Second.

(** [d.Milliseconds()]: truncated division. *)
Definition Milliseconds (d : Duration) : Z := Z.quot d 1000000.

(** ** Calendar *)

Definition day_ns : Z := 86400 * Second.

Definition leap (y : Z) : bool :=
  ((y mod 4 =? 0) && negb (y mod 100 =? 0)) || (y mod 400 =? 0).

(** Days from the epoch to January 1 of year [y]. *)
Definition year_start (y : Z) : Z :=
  365 * (y - 1) + (y - 1) / 4 - (y - 1) / 100 + (y - 1) / 400.

Definition month_lengths (lp : bool) : list Z :=
  [31; if lp then 29 else 28; 31; 30; 31; 30; 31; 31; 30; 31; 30; 31].

Fixpoint month_day (lens : list Z) (m yday : Z) : Z * Z :=
  match lens with
  | [] => (m, yday + 1)
  | l :: ls => if yday <? l then (m, yday + 1) else month_day ls (m + 1) (yday - l)
  end.

(** Year containing day [d], by 400-, 100-, 4- and 1-year cycles. *)
Definition year_of_day (d : Z) : Z :=
  let n400 := d / 146097 in
  let r := d mod 146097 in
  let n100 := Z.min 3 (r / 36524) in
  let r := r - n100 * 36524 in
  let n4 := r / 1461 in
  let r := r - n4 * 1461 in
  let n1 := Z.min 3 (r / 365) in
  400 * n400 + 100 * n100 + 4 * n4 + n1 + 1.

(** [(year, month, day)] of a day number. *)
Definition civil (d : Z) : Z * Z * Z :=
  let y := year_of_day d in
  let '(m, dd) := month_day (month_lengths (leap y)) 1 (d - year_start y) in
  (y, m, dd).

Definition days_of_civil (y m d : Z) : Z :=
  year_start y + foldr Z.add 0 (take (Z.to_nat (m - 1)) (month_lengths (leap y))) + (d - 1).

(** ** Formatting *)

Definition digit_char (d : Z) : ascii := ascii_of_N (Z.to_N (48 + d)).

(** The [w] low decimal digits of [z], most significant first. *)
Fixpoint pad_dec (w : nat) (z : Z) : string :=
  match w with
  | O => EmptyString
  | S w' => String (digit_char (z / 10 ^ Z.of_nat w' mod 10)) (pad_dec w' z)
  end.

Definition year_string (y : Z) : string :=
  if within 0 9999 y then pad_dec 4 y else pretty y.

Definition date_time_string (t : Time) : string :=
  let '(y, m, d) := civil (t / day_ns) in
  let s := t mod day_ns / Second in
  (year_string y +:+ "-" +:+ pad_dec 2 m +:+ "-" +:+ pad_dec 2 d +:+ "T" +:+
   pad_dec 2 (s / 3600) +:+ ":" +:+ pad_dec 2 (s / 60 mod 60) +:+ ":" +:+ pad_dec 2 (s mod 60))%string.

(** Fraction with trailing zeros dropped, as the [.999999999] layout prints it. *)
Definition frac_string (ns : Z) : string :=
  if ns =? 0 then EmptyString else TrimRight ("." +:+ pad_dec 9 ns)%string "0"%char.

(** [t.UTC().Format(time.RFC3339Nano)]. *)
Definition format_rfc3339nano (t : Time) : string :=
  (date_time_string t +:+ frac_string (t mod Second) +:+ "Z")%string.

(** [t.UTC().Format("2006-01-02T15:04:05.000000000Z")]. *)
Definition format_fixed_nano (t : Time) : string :=
  (date_time_string t +:+ "." +:+ pad_dec 9 (t mod Second) +:+ "Z")%string.

Example format_example :
  format_rfc3339nano (Unix 1752623999 + 120000000) = "2025-07-15T23:59:59.12Z"%string ∧
  format_fixed_nano (Unix 1752623999 + 120000000) = "2025-07-15T23:59:59.120000000Z"%string ∧
  format_rfc3339nano 0 = "0001-01-01T00:00:00Z"%string.
Proof. vm_compute. done. Qed.

(** ** Lemmas *)

Lemma wrap64_id z : int64_ok z → wrap64 z = z.
Proof. unfold int64_ok, wrap64, minDuration, maxDuration. intros. rewrite Z.mod_small by lia. lia. Qed.

Lemma Sub_exact t u : int64_ok (t - u) → Sub t u = t - u.
Proof. unfold int64_ok, Sub. lia. Qed.

Lemma Sub_int64 t u : int64_ok (Sub t u).
Proof. unfold int64_ok, Sub, minDuration, maxDuration. lia. Qed.

Lemma Sub_gt t u d : int64_ok d → d < maxDuration → (d < Sub t u ↔ d < t - u).
Proof. unfold int64_ok, Sub. lia. Qed.

Lemma year_of_day_bounds d :
  year_start (year_of_day d) <= d < year_start (year_of_day d + 1).
Proof.
  unfold year_of_day, year_start.
  set (n400 := d / 146097). set (r := d mod 146097).
  assert (0 <= r < 146097 ∧ d = 146097 * n400 + r) as [Hr Hd] by (unfold r, n400; zdiv).
  clearbody n400 r. subst d.
  set (n100 := Z.min 3 (r / 36524)).
  assert (0 <= n100 <= 3 ∧ 0 <= r - n100 * 36524 < 36525 ∧ (n100 = 3 ∨ r - n100 * 36524 < 36524))
    as (H100&Hr2&Hx) by (unfold n100; zdiv).
  clearbody n100. set (r2 := r - n100 * 36524) in *.
  set (n4 := r2 / 1461). assert (0 <= n4 <= 24 ∧ 0 <= r2 - n4 * 1461 < 1461) as (H4&Hr3) by (unfold n4; zdiv).
  assert (r = n100 * 36524 + r2) by (unfold r2; lia). clearbody r2 n4.
  set (r3 := r2 - n4 * 1461) in *. set (n1 := Z.min 3 (r3 / 365)).
  assert (0 <= n1 <= 3 ∧ 0 <= r3 - n1 * 365 < 366 ∧ (n1 = 3 ∨ r3 - n1 * 365 < 365)) as (H1&Hr4&Hy) by (unfold n1; zdiv).
  assert (r2 = n4 * 1461 + r3) by (unfold r3; lia). clearbody r3 n1. subst r r2.
  assert (n100 = 3 ∨ n4 < 24 ∨ (n4 = 24 ∧ n1 < 3) ∨ (n4 = 24 ∧ n1 = 3 ∧ r3 < 1460)) by lia.
  zdiv.
Qed.
