(* ===== verification/Strconv.v ===== *)
(** * Numbers as Go reads and computes them

    strconv.ParseInt and ParseBool, encoding/hex, float64 arithmetic (IEEE
    binary64 with rounding to nearest, ties to even, through the Standard
    Library's executable specification), Duration.Seconds and
    time.ParseDuration with its overflow checks. *)
From stdpp Require Import base strings list.
From Stdlib Require Import ZArith Lia Ascii SpecFloat.
From S2P Require Import Prelude Utf8 GoStrings GoTime.

Local Open Scope Z_scope.

(** ** strconv.ParseInt(s, 10, 64) and encoding/hex *)

Definition dec_digit (b : Z) : option Z := if within 48 57 b then Some (b - 48) else None.

(** The value of a non-empty digit string. *)
Fixpoint dec_value (acc : Z) (s : bytes) : option Z :=
  match s with
  | [] => Some acc
  | b :: s' => match dec_digit b with Some d => dec_value (10 * acc + d) s' | None => None end
  end.

(** An optional sign: is it a minus, and the text after it. *)
Definition split_sign (s : bytes) : bool * bytes :=
  match s with
  | c :: t => if c =? 43 then (false, t) else if c =? 45 then (true, t) else (false, s)
  | [] => (false, [])
  end.

Definition ParseInt (s : string) : option Z :=
  let '(neg, digits) := split_sign (bytes_of_string s) in
  match digits with
  | [] => None
  | _ =>
    match dec_value 0 digits with
    | None => None
    | Some un =>
        if negb neg && (maxDuration <? un) then None
        else if neg && (- minDuration <? un) then None
        else Some (if neg then - un else un)
    end
  end.

Definition hex_nibble (b : Z) : option Z :=
  if within 48 57 b then Some (b - 48)
  else if within 97 102 b then Some (b - 97 + 10)
  else if within 65 70 b then Some (b - 65 + 10)
  else None.

Fixpoint hex_decode (s : bytes) : option bytes :=
  match s with
  | [] => Some []
  | x :: y :: s' =>
      match hex_nibble x, hex_nibble y, hex_decode s' with
      | Some a, Some b, Some t => Some (16 * a + b :: t)
      | _, _, _ => None
      end
  | [_] => None
  end.

(** strconv.ParseBool. *)
Definition ParseBool (s : string) : option bool :=
  if bool_decide (s ∈ ["1"; "t"; "T"; "true"; "TRUE"; "True"]%string) then Some true
  else if bool_decide (s ∈ ["0"; "f"; "F"; "false"; "FALSE"; "False"]%string) then Some false
  else None.

(** ** float64 *)

Definition float64 : Type := spec_float.

Definition float_of_int (z : Z) : float64 := binary_normalize 53 1024 z 0 false.
Definition float_add : float64 → float64 → float64 := SFadd 53 1024.
Definition float_mul : float64 → float64 → float64 := SFmul 53 1024.
Definition float_div : float64 → float64 → float64 := SFdiv 53 1024.
Definition float_ltb (a b : float64) : bool := SFltb a b.

(** Values json.Marshal accepts. *)
Definition float_finite (f : float64) : bool :=
  match f with S754_zero _ | S754_finite _ _ _ => true | _ => false end.

(** uint64(f) of a value in range: truncation toward zero. *)
Definition float_trunc (f : float64) : Z :=
  match f with
  | S754_finite sgn m e =>
      let a := if 0 <=? e then Z.pos m * 2 ^ e else Z.pos m / 2 ^ (- e) in
      if sgn then - a else a
  | _ => 0
  end.

(** Duration.Seconds. *)
Definition Seconds (d : Duration) : float64 :=
  float_add (float_of_int (Z.quot d Second)) (float_div (float_of_int (Z.rem d Second)) (float_of_int Second)).

(** ** time.ParseDuration *)

(** leadingInt: [None] on overflow. *)
Fixpoint leadingInt (x : Z) (s : bytes) : option (Z * bytes) :=
  match s with
  | c :: s' =>
    if within 48 57 c then
      if 2 ^ 63 / 10 <? x then None
      else let y := x * 10 + (c - 48) in if 2 ^ 63 <? y then None else leadingInt y s'
    else Some (x, s)
  | [] => Some (x, [])
  end.

(** leadingFraction: digits after an overflow are dropped; the scale is a
    float64. *)
Fixpoint leadingFraction (x : Z) (scale : float64) (overflow : bool) (s : bytes) : Z * float64 * bytes :=
  match s with
  | c :: s' =>
    if within 48 57 c then
      if overflow || ((2 ^ 63 - 1) / 10 <? x) then leadingFraction x scale true s'
      else let y := x * 10 + (c - 48) in
        if 2 ^ 63 <? y then leadingFraction x scale true s'
        else leadingFraction y (float_mul scale (float_of_int 10)) false s'
    else (x, scale, s)
  | [] => (x, scale, [])
  end.

(** The bytes up to the next digit or period. *)
Fixpoint unit_text (s : bytes) : bytes * bytes :=
  match s with
  | c :: s' => if (c =? 46) || within 48 57 c then ([], s) else let '(u, r) := unit_text s' in (c :: u, r)
  | [] => ([], [])
  end.

(** unitMap; both micro signs are accepted. *)
Definition unit_ns (u : bytes) : option Z :=
  if bool_decide (u = bytes_of_string "ns") then Some 1
  else if bool_decide (u ∈ [bytes_of_string "us"; [0xC2; 0xB5; 115]; [0xCE; 0xBC; 115]]) then Some 1000
  else if bool_decide (u = bytes_of_string "ms") then Some Millisecond
  else if bool_decide (u = bytes_of_string "s") then Some Second
  else if bool_decide (u = bytes_of_string "m") then Some Minute
  else if bool_decide (u = bytes_of_string "h") then Some Hour
  else None.

(** One number with its unit, in nanoseconds, and the rest of the text. *)
Definition duration_term (s : bytes) : option (Z * bytes) :=
  match s with
  | [] => None
  | c :: _ =>
    if (c =? 46) || within 48 57 c then
      match leadingInt 0 s with
      | None => None
      | Some (v, s1) =>
        let pre := negb (length s1 =? length s)%nat in
        let '(f, scale, s2, post) :=
          match s1 with
          | 46 :: t => let '(f, scale, r) := leadingFraction 0 (float_of_int 1) false t in
                       (f, scale, r, negb (length r =? length t)%nat)
          | _ => (0, float_of_int 1, s1, false)
          end in
        if negb pre && negb post then None
        else
          let '(u, s3) := unit_text s2 in
          match unit_ns u with
          | None => None
          | Some unit =>
            if 2 ^ 63 / unit <? v then None
            else
              let v := v * unit in
              if 0 <? f then
                let v := v + float_trunc (float_mul (float_of_int f) (float_div (float_of_int unit) scale)) in
                if 2 ^ 63 <? v then None else Some (v, s3)
              else Some (v, s3)
          end
      end
    else None
  end.

(** The terms of a text, added up in a uint64; [n] bounds their number, each
    takes a byte. *)
Fixpoint duration_terms (n : nat) (d : Z) (s : bytes) : option Z :=
  match n, s with
  | _, [] => Some d
  | O, _ => None
  | S n', _ =>
    match duration_term s with
    | None => None
    | Some (v, s') => let d := (d + v) mod 2 ^ 64 in if 2 ^ 63 <? d then None else duration_terms n' d s'
    end
  end.

Definition ParseDuration (text : string) : option Duration :=
  let '(neg, s) := split_sign (bytes_of_string text) in
  if bool_decide (s = [48]) then Some 0
  else if bool_decide (s = []) then None
  else
    match duration_terms (length s) 0 s with
    | None => None
    | Some d => if neg then Some (- d) else if 2 ^ 63 - 1 <? d then None else Some d
    end.

Example ParseDuration_examples :
  map ParseDuration ["5m"; "1h30m"; "1.5h"; ".5s"; "-2m3.4s"; "0"; "+0"; "1"; "1x"; ""; "-"; "1."; "1.s"; ".s";
                     "9223372036854775807ns"; "9223372036854775808ns"; "-9223372036854775808ns"; "0.1ms"; "100000000000h"]%string
  = [Some (5 * Minute); Some (90 * Minute); Some (90 * Minute); Some (500 * Millisecond); Some (-123400 * Millisecond);
     Some 0; Some 0; None; None; None; None; None; Some Second; None;
     Some maxDuration; None; Some minDuration; Some 100000; None].
Proof. vm_compute. reflexivity. Qed.

(** ** Lemmas *)

Lemma ParseInt_int64 s v : ParseInt s = Some v → int64_ok v.
Proof.
  unfold ParseInt. destruct (split_sign _) as [neg ds].
  destruct ds as [|b ds]; [done|]. destruct (dec_value 0 (b :: ds)) as [un|] eqn:E; [|done].
  assert (0 <= un) as H0.
  { assert (∀ l a, 0 <= a → dec_value a l = Some un → 0 <= un) as Hd; [|by eapply Hd, E].
    clear. induction l as [|c l IH]; intros a Ha H; [cbn in H; by simplify_eq|].
    cbn [dec_value] in H. unfold dec_digit in H. destruct (within 48 57 c) eqn:Ec; [|done].
    apply within_iff in Ec. eapply IH; [|exact H]. lia. }
  unfold int64_ok. destruct neg; cbn [negb andb]; case_if; intros; simplify_eq; unfold minDuration, maxDuration in *; lia.
Qed.

Lemma leadingInt_length s : ∀ x v r, leadingInt x s = Some (v, r) → (length r <= length s)%nat.
Proof.
  induction s as [|c s IH]; intros x v r H; cbn [leadingInt] in H; [by simplify_eq|].
  destruct (within 48 57 c); [|by simplify_eq]. do 2 (case_match; [done|]). apply IH in H. cbn. lia.
Qed.

Lemma leadingFraction_length s : ∀ x sc o f sc' r, leadingFraction x sc o s = (f, sc', r) → (length r <= length s)%nat.
Proof.
  induction s as [|c s IH]; intros x sc o f sc' r H; cbn [leadingFraction] in H; [by simplify_eq|].
  destruct (within 48 57 c); [|by simplify_eq]. repeat case_match; apply IH in H; cbn; lia.
Qed.

Lemma unit_text_length s u r : unit_text s = (u, r) → (length u + length r = length s)%nat.
Proof.
  revert u r. induction s as [|c s IH]; intros u r H; cbn [unit_text] in H; [by simplify_eq|].
  case_match; [by simplify_eq|]. destruct (unit_text s) as [u' r']. simplify_eq. cbn. rewrite <- (IH _ _ eq_refl). lia.
Qed.

(** A term takes at least a byte of the text, its unit. *)
Lemma duration_term_length s v r : duration_term s = Some (v, r) → (length r < length s)%nat.
Proof.
  unfold duration_term. destruct s as [|c s]; [done|]. case_match; [|done].
  destruct (leadingInt 0 (c :: s)) as [[v0 s1]|] eqn:E1; [|done]. apply leadingInt_length in E1.
  set (q := match s1 with 46 :: t => _ | _ => _ end). assert (∃ f sc s2 post, q = (f, sc, s2, post) ∧ (length s2 <= length s1)%nat) as (f&sc&s2&post&->&H2).
  { subst q. clear. assert (∀ t, ∃ f sc s2 post, (let '(f, scale, r) := leadingFraction 0 (float_of_int 1) false t in
      (f, scale, r, negb (length r =? length t)%nat)) = (f, sc, s2, post) ∧ (length s2 <= length (46%Z :: t))%nat) as Hfr.
    { intros t. destruct (leadingFraction 0 (float_of_int 1) false t) as [[f sc] r] eqn:E.
      apply leadingFraction_length in E. do 4 eexists. split; [reflexivity|]. cbn. lia. }
    repeat match goal with |- context [match ?x with _ => _ end] => is_var x; destruct x end;
      first [apply Hfr | do 4 eexists; split; [reflexivity|]; lia]. }
  case_match; [done|]. destruct (unit_text s2) as [u s3] eqn:E3. apply unit_text_length in E3.
  destruct (unit_ns u) as [unit|] eqn:Eu; [|done]. destruct u as [|b u]; [done|]. cbn [length] in E3.
  repeat case_match; intros; simplify_eq; lia.
Qed.

(** The bound on the number of terms is never reached. *)
Lemma duration_terms_fuel n s : ∀ m d, (length s <= n)%nat → (length s <= m)%nat → duration_terms n d s = duration_terms m d s.
Proof.
  revert s. induction n as [|n IH]; intros [|c s] m d Hn Hm; try by destruct m.
  { cbn in Hn. lia. }
  destruct m as [|m]; [cbn in Hm; lia|]. cbn [duration_terms].
  destruct (duration_term (c :: s)) as [[v r]|] eqn:E; [|done]. apply duration_term_length in E. cbn in E, Hn, Hm.
  case_match; [done|]. apply IH; lia.
Qed.

(** ** Durations are int64 values *)

(** Floats without a minus sign. *)
Definition unsigned (f : float64) : Prop :=
  match f with S754_zero s | S754_infinity s | S754_finite s _ _ => s = false | S754_nan => True end.

Lemma round_unsigned m e l : unsigned (binary_round_aux 53 1024 false m e l).
Proof.
  unfold binary_round_aux. destruct (shr_fexp _ _ m e l) as [r1 e1]. destruct (shr_fexp _ _ _ e1 _) as [r2 e2].
  destruct (shr_m r2); [done| |done]. by destruct (e2 <=? _).
Qed.

Lemma float_of_int_unsigned z : 0 <= z → unsigned (float_of_int z).
Proof.
  intros Hz. unfold float_of_int, binary_normalize. destruct z as [|p|p]; [done| |lia].
  unfold binary_round. destruct (shl_align _ _ _). apply round_unsigned.
Qed.

Lemma float_mul_unsigned a b : unsigned a → unsigned b → unsigned (float_mul a b).
Proof. destruct a, b; cbn [unsigned]; intros Ha Hb; subst; try done. apply round_unsigned. Qed.

Lemma float_div_unsigned a b : unsigned a → unsigned b → unsigned (float_div a b).
Proof.
  destruct a, b; cbn [unsigned]; intros Ha Hb; subst; try done. unfold float_div, SFdiv.
  destruct (SFdiv_core_binary _ _ _ _ _ _) as [[q x] l]. apply round_unsigned.
Qed.

Lemma float_trunc_nonneg f : unsigned f → 0 <= float_trunc f.
Proof.
  destruct f as [| | |s m e]; cbn; try done. intros ->. destruct (Z.leb_spec 0 e).
  - assert (0 <= 2 ^ e) by (apply Z.pow_nonneg; lia). nia.
  - apply Z.div_pos; [lia|]. apply Z.pow_pos_nonneg; lia.
Qed.

Lemma leadingInt_nonneg s : ∀ x v r, 0 <= x → leadingInt x s = Some (v, r) → 0 <= v.
Proof.
  induction s as [|c s IH]; intros x v r Hx H; cbn [leadingInt] in H; [by simplify_eq|].
  destruct (within 48 57 c) eqn:Ec; [|by simplify_eq]. apply within_iff in Ec.
  do 2 (case_match; [done|]). eapply IH; [|exact H]. lia.
Qed.

Lemma leadingFraction_unsigned s : ∀ x sc o f sc' r, 0 <= x → unsigned sc →
  leadingFraction x sc o s = (f, sc', r) → 0 <= f ∧ unsigned sc'.
Proof.
  induction s as [|c s IH]; intros x sc o f sc' r Hx Hs H; cbn [leadingFraction] in H; [by simplify_eq|].
  destruct (within 48 57 c) eqn:Ec; [|by simplify_eq]. apply within_iff in Ec.
  repeat case_match; eapply IH in H; try done; [lia|]. apply float_mul_unsigned; [done|by apply float_of_int_unsigned].
Qed.

Lemma unit_ns_pos u n : unit_ns u = Some n → 0 < n.
Proof. unfold unit_ns. repeat case_match; intros; simplify_eq; done. Qed.

Lemma duration_term_range s v r : duration_term s = Some (v, r) → 0 <= v.
Proof.
  unfold duration_term. destruct s as [|c s]; [done|]. case_match; [|done].
  destruct (leadingInt 0 (c :: s)) as [[v0 s1]|] eqn:E1; [|done]. apply leadingInt_nonneg in E1; [|done].
  set (q := match s1 with 46 :: t => _ | _ => _ end).
  assert (∃ f sc s2 post, q = (f, sc, s2, post) ∧ 0 <= f ∧ unsigned sc) as (f&sc&s2&post&->&Hf&Hsc).
  { subst q. clear. assert (∀ t, ∃ f sc s2 post, (let '(f, scale, r) := leadingFraction 0 (float_of_int 1) false t in
      (f, scale, r, negb (length r =? length t)%nat)) = (f, sc, s2, post) ∧ 0 <= f ∧ unsigned sc) as Hfr.
    { intros t. destruct (leadingFraction 0 (float_of_int 1) false t) as [[f sc] r] eqn:E.
      apply leadingFraction_unsigned in E; [|done|by apply float_of_int_unsigned]. do 4 eexists. split; [reflexivity|]. done. }
    repeat match goal with |- context [match ?x with _ => _ end] => is_var x; destruct x end;
      first [apply Hfr | do 4 eexists; split; [reflexivity|]; split; [done|by apply float_of_int_unsigned]]. }
  case_match; [done|]. destruct (unit_text s2) as [u s3]. destruct (unit_ns u) as [n|] eqn:Eu; [|done]. apply unit_ns_pos in Eu.
  pose proof (float_trunc_nonneg (float_mul (float_of_int f) (float_div (float_of_int n) sc))
    (float_mul_unsigned _ _ (float_of_int_unsigned f Hf) (float_div_unsigned _ _ (float_of_int_unsigned n ltac:(lia)) Hsc))) as Ht.
  repeat case_match; intros; simplify_eq; nia.
Qed.

Lemma duration_terms_range n : ∀ s d v, 0 <= d <= 2 ^ 63 → duration_terms n d s = Some v → 0 <= v <= 2 ^ 63.
Proof.
  induction n as [|n IH]; intros [|c s] d v Hd H; cbn [duration_terms] in H; simplify_eq; try done.
  destruct (duration_term (c :: s)) as [[t r]|] eqn:E; [|done]. apply duration_term_range in E.
  pose proof (Z.mod_pos_bound (d + t) (2 ^ 64) ltac:(lia)).
  destruct (Z.ltb_spec (2 ^ 63) ((d + t) mod 2 ^ 64)); [done|]. eapply IH; [|exact H]. lia.
Qed.

Lemma ParseDuration_int64 s v : ParseDuration s = Some v → int64_ok v.
Proof.
  unfold ParseDuration. destruct (split_sign _) as [neg ds].
  case_bool_decide; [by intros; simplify_eq|]. case_bool_decide; [done|].
  destruct (duration_terms (length ds) 0 ds) as [d|] eqn:E; [|done]. apply duration_terms_range in E; [|lia].
  unfold int64_ok, minDuration, maxDuration. destruct neg; [intros [= <-]; lia|].
  destruct (Z.ltb_spec (2 ^ 63 - 1) d); [done|]. intros [= <-]. lia.
Qed.

(** ** What the texts denote

    Numerals by place value, apart from how the parsers read them. *)

Fixpoint digits_value (ds : bytes) : Z :=
  match ds with
  | [] => 0
  | d :: ds' => (d - 48) * 10 ^ Z.of_nat (length ds') + digits_value ds'
  end.

Definition digits (ds : bytes) : Prop := ds ≠ [] ∧ Forall (λ b, 48 <= b <= 57) ds.

Inductive signed (P : bytes → Z → Prop) : bytes → Z → Prop :=
  | no_sign s v : P s v → signed P s v
  | plus_sign s v : P s v → signed P (43 :: s) v
  | minus_sign s v : P s v → signed P (45 :: s) (- v).

(** An integer: digits with an optional sign. *)
Definition int_text : bytes → Z → Prop := signed (λ s v, digits s ∧ v = digits_value s).

Definition units : list (bytes * Z) :=
  [(bytes_of_string "ns", 1); (bytes_of_string "us", 1000); ([0xC2; 0xB5; 115], 1000); ([0xCE; 0xBC; 115], 1000);
   (bytes_of_string "ms", 1000000); (bytes_of_string "s", 1000000000); (bytes_of_string "m", 60000000000);
   (bytes_of_string "h", 3600000000000)].

(** Whole numbers with their units, in nanoseconds altogether.  No single
    term is exactly 2^63 nanoseconds: two of those add up to 0 in the
    uint64 of the parser ([ParseDuration_wraps]). *)
Inductive terms_text : bytes → Z → Prop :=
  | last_term ds u n : digits ds → (u, n) ∈ units → digits_value ds * n ≠ 2 ^ 63 → terms_text (ds ++ u) (digits_value ds * n)
  | more_terms ds u n s v : digits ds → (u, n) ∈ units → digits_value ds * n ≠ 2 ^ 63 → terms_text s v →
      terms_text (ds ++ u ++ s) (digits_value ds * n + v).

Definition duration_text : bytes → Z → Prop := signed terms_text.

Example ParseDuration_wraps : ParseDuration "9223372036854775808ns9223372036854775808ns" = Some 0.
Proof. by vm_compute. Qed.

Lemma digits_value_nonneg ds : Forall (λ b, 48 <= b <= 57) ds → 0 <= digits_value ds.
Proof. induction 1 as [|d ds Hd _ IH]; cbn [digits_value]; [done|]. pose proof (Z.pow_nonneg 10 (Z.of_nat (length ds))). nia. Qed.

Lemma pow_succ_length (ds : bytes) d : 10 ^ Z.of_nat (length (d :: ds)) = 10 * 10 ^ Z.of_nat (length ds).
Proof. cbn [length]. rewrite Nat2Z.inj_succ, Z.pow_succ_r by lia. done. Qed.

Lemma dec_value_digits ds : Forall (λ b, 48 <= b <= 57) ds →
  ∀ acc, dec_value acc ds = Some (acc * 10 ^ Z.of_nat (length ds) + digits_value ds).
Proof.
  induction 1 as [|d ds Hd _ IH]; intros acc; cbn [dec_value digits_value]; [f_equal; cbn; lia|].
  unfold dec_digit. rewrite within_true by lia. rewrite IH, pow_succ_length. f_equal. lia.
Qed.

Lemma dec_value_inv ds : ∀ acc v, dec_value acc ds = Some v → Forall (λ b, 48 <= b <= 57) ds.
Proof.
  induction ds as [|d ds IH]; intros acc v H; [constructor|]. cbn [dec_value] in H. unfold dec_digit in H.
  destruct (within 48 57 d) eqn:E; [|done]. apply within_iff in E. constructor; [lia|]. by eapply IH.
Qed.

(** A text whose unsigned part starts with a digit, by its sign. *)
Lemma split_sign_signed (P : bytes → Z → Prop) s v : (∀ t x, P t x → ∃ d t', t = d :: t' ∧ 48 <= d <= 57) → signed P s v →
  ∃ neg t x, split_sign s = (neg, t) ∧ P t x ∧ v = if (neg : bool) then - x else x.
Proof.
  intros HP [t x H|t x H|t x H]; [|by exists false, t, x|by exists true, t, x].
  destruct (HP _ _ H) as (d&t'&->&Hd). exists false, (d :: t'), x. split; [|done]. unfold split_sign.
  by rewrite (proj2 (Z.eqb_neq d 43)), (proj2 (Z.eqb_neq d 45)) by lia.
Qed.

Lemma signed_split (P : bytes → Z → Prop) s neg t x : split_sign s = (neg, t) → P t x →
  signed P s (if (neg : bool) then - x else x).
Proof.
  unfold split_sign. destruct s as [|c s]; [intros [= <- <-]; by constructor|].
  destruct (Z.eqb_spec c 43) as [->|]; [intros [= <- <-]; by constructor|].
  destruct (Z.eqb_spec c 45) as [->|]; intros [= <- <-]; by constructor.
Qed.

Lemma digits_first ds rest : digits ds → ∃ d t, ds ++ rest = d :: t ∧ 48 <= d <= 57.
Proof. intros [Hne Hf]. destruct Hf as [|d ds Hd _]; [done|]. by exists d, (ds ++ rest). Qed.

(** ParseInt accepts exactly the int64 values, and reads them as written. *)
Lemma ParseInt_iff s v : ParseInt s = Some v ↔ int_text (bytes_of_string s) v ∧ int64_ok v.
Proof.
  split.
  - intros H. split; [|by eapply ParseInt_int64]. unfold ParseInt in H.
    destruct (split_sign _) as [neg ds] eqn:Es. destruct ds as [|d ds]; [done|].
    destruct (dec_value 0 (d :: ds)) as [un|] eqn:E; [|done]. pose proof (dec_value_inv _ _ _ E) as Hf.
    rewrite (dec_value_digits _ Hf) in E. injection E as <-. do 2 (case_match; [done|]). injection H as <-.
    eapply signed_split; [done|]. split; [by split|done].
  - intros [Ht Hv]. apply split_sign_signed in Ht as (neg&ds&x&Hs&[Hd ->]&->).
    2: { intros t x [Hdt _]. destruct (digits_first t [] Hdt) as (d&t'&E&?). rewrite app_nil_r in E. eauto. }
    unfold ParseInt. rewrite Hs. destruct Hd as [Hne Hf]. rewrite (dec_value_digits _ Hf). destruct ds as [|d ds]; [done|].
    cbn [Z.mul Z.add]. unfold int64_ok in Hv.
    destruct neg; cbn [negb andb]; rewrite (proj2 (Z.ltb_ge _ _)) by lia; done.
Qed.

(** A numeral denotes one number. *)
Lemma int_text_fun s x y : int_text s x → int_text s y → x = y.
Proof.
  intros Hx Hy. assert (∀ t v, digits t ∧ v = digits_value t → ∃ d t', t = d :: t' ∧ 48 <= d <= 57) as HP.
  { intros t v [Hd _]. destruct (digits_first t [] Hd) as (d&t'&E&?). rewrite app_nil_r in E. eauto. }
  apply split_sign_signed in Hx as (n1&t1&x1&E1&[_ ->]&->), Hy as (n2&t2&x2&E2&[_ ->]&->); try done.
  rewrite E1 in E2. by injection E2 as <- <-.
Qed.

Lemma leadingInt_digits ds rest : Forall (λ b, 48 <= b <= 57) ds →
  match rest with c :: _ => within 48 57 c = false | [] => True end →
  ∀ x, 0 <= x <= 2 ^ 63 → let v := x * 10 ^ Z.of_nat (length ds) + digits_value ds in
  leadingInt x (ds ++ rest) = if v <=? 2 ^ 63 then Some (v, rest) else None.
Proof.
  intros Hf Hr. induction Hf as [|d ds Hd Hf IH]; intros x Hx; cbn zeta.
  { cbn [app length digits_value]. rewrite Z.pow_0_r, Z.mul_1_r, Z.add_0_r, (proj2 (Z.leb_le _ _)) by lia.
    destruct rest as [|c rest]; [done|]. cbn [leadingInt]. by rewrite Hr. }
  cbn [app leadingInt digits_value]. rewrite within_true, pow_succ_length by lia.
  pose proof (Z.pow_pos_nonneg 10 (Z.of_nat (length ds)) ltac:(lia) ltac:(lia)) as Hp.
  pose proof (digits_value_nonneg ds Hf) as Hv. set (p := 10 ^ Z.of_nat (length ds)) in *.
  assert (x * (10 * p) + ((d - 48) * p + digits_value ds) = (x * 10 + (d - 48)) * p + digits_value ds) as -> by lia.
  destruct (Z.ltb_spec (2 ^ 63 / 10) x) as [Hb|Hb].
  { rewrite (proj2 (Z.leb_gt _ _)); [done|]. assert (2 ^ 63 < x * 10) by (change (2 ^ 63 / 10) with 922337203685477580 in Hb; lia). nia. }
  destruct (Z.ltb_spec (2 ^ 63) (x * 10 + (d - 48))) as [Hy|Hy].
  { rewrite (proj2 (Z.leb_gt _ _)); [done|]. nia. }
  rewrite IH by lia. done.
Qed.

Lemma units_table u n : (u, n) ∈ units → unit_ns u = Some n ∧ 0 < n ∧
  (∃ c u', u = c :: u') ∧ Forall (λ c, ((c =? 46) || within 48 57 c) = false) u.
Proof.
  unfold units. rewrite !elem_of_cons, elem_of_nil.
  intros H; repeat destruct H as [H|H]; try done; injection H as -> ->;
    (split; [by vm_compute|]; split; [done|]; split; [by do 2 eexists|]; repeat constructor).
Qed.

Lemma unit_text_unit u rest : Forall (λ c, ((c =? 46) || within 48 57 c) = false) u →
  match rest with c :: _ => 48 <= c <= 57 | [] => True end → unit_text (u ++ rest) = (u, rest).
Proof.
  intros Hu Hr. induction Hu as [|c u Hc _ IH]; cbn [app unit_text].
  - destruct rest as [|c rest]; [done|]. cbn [unit_text]. rewrite within_true by lia. by rewrite orb_true_r.
  - by rewrite Hc, IH.
Qed.

(** One whole term: its value, unless it exceeds 2^63 nanoseconds. *)
Lemma duration_term_whole ds u n rest : digits ds → (u, n) ∈ units →
  match rest with c :: _ => 48 <= c <= 57 | [] => True end →
  duration_term (ds ++ u ++ rest) = if digits_value ds * n <=? 2 ^ 63 then Some (digits_value ds * n, rest) else None.
Proof.
  intros Hd Hu Hr. destruct (units_table u n Hu) as (Hn&Hpos&(c&u'&Eu)&Hf).
  destruct (digits_first ds (u ++ rest) Hd) as (d&t&Et&Hd0). unfold duration_term. rewrite Et at 1.
  rewrite within_true, orb_true_r by lia. destruct Hd as [Hne Hds].
  assert (within 48 57 c = false ∧ c ≠ 46) as [Hc Hc46].
  { rewrite Eu in Hf. apply Forall_cons in Hf as [Hf _]. apply orb_false_iff in Hf as [H ?]. by apply Z.eqb_neq in H. }
  pose proof (leadingInt_digits ds (u ++ rest) Hds) as Hl. rewrite Eu in Hl at 1. specialize (Hl Hc 0 ltac:(lia)). cbn zeta in Hl.
  rewrite Z.mul_0_l, Z.add_0_l in Hl. rewrite Hl. pose proof (digits_value_nonneg ds Hds) as Hv.
  destruct (Z.leb_spec (digits_value ds) (2 ^ 63)) as [Hle|Hgt].
  2: { rewrite (proj2 (Z.leb_gt _ _)); [done|nia]. }
  assert (length (u ++ rest) ≠ length (ds ++ u ++ rest)) as Hpre by (rewrite !length_app; destruct ds; [done|cbn; lia]).
  assert (match u ++ rest with
    | 46 :: t => let '(f, scale, r) := leadingFraction 0 (float_of_int 1) false t in (f, scale, r, negb (length r =? length t)%nat)
    | _ => (0, float_of_int 1, u ++ rest, false) end = (0, float_of_int 1, u ++ rest, false)) as ->.
  { rewrite Eu. cbn [app]. clear -Hc46. destruct c as [|p|p]; try done. do 6 (destruct p as [p|p|]; try done). }
  rewrite (proj2 (Nat.eqb_neq _ _)) by done. cbn [negb andb]. rewrite unit_text_unit, Hn by done.
  destruct (Z.ltb_spec (2 ^ 63 / n) (digits_value ds)) as [Hb|Hb].
  - rewrite (proj2 (Z.leb_gt _ _)); [done|]. pose proof (Z.mul_succ_div_gt (2 ^ 63) n Hpos). nia.
  - rewrite (proj2 (Z.leb_le _ _)); [done|]. pose proof (Z.mul_div_le (2 ^ 63) n Hpos). nia.
Qed.

Lemma terms_first s v : terms_text s v → ∃ d t, s = d :: t ∧ 48 <= d <= 57.
Proof. intros [ds u n Hd _ _|ds u n t x Hd _ _ _]; by apply digits_first. Qed.

Lemma terms_nonneg s v : terms_text s v → 0 <= v.
Proof.
  induction 1 as [ds u n [_ Hd] Hu _|ds u n s v [_ Hd] Hu _ _ IH];
    apply digits_value_nonneg in Hd; destruct (units_table u n Hu) as (_&Hp&_); nia.
Qed.

(** The terms of a text, whole: their sum, unless it exceeds 2^63. *)
Lemma duration_terms_whole s v : terms_text s v → ∀ m d, (length s <= m)%nat → 0 <= d <= 2 ^ 63 →
  duration_terms m d s = if d + v <=? 2 ^ 63 then Some (d + v) else None.
Proof.
  assert (∀ ds u n s m d v, digits ds → (u, n) ∈ units → digits_value ds * n ≠ 2 ^ 63 →
    match s with c :: _ => 48 <= c <= 57 | [] => True end → 0 <= v → 0 <= d <= 2 ^ 63 →
    (∀ m d, (length s <= m)%nat → 0 <= d <= 2 ^ 63 → duration_terms m d s = if d + v <=? 2 ^ 63 then Some (d + v) else None) →
    (length (ds ++ u ++ s) <= m)%nat →
    duration_terms m d (ds ++ u ++ s) = if d + (digits_value ds * n + v) <=? 2 ^ 63 then Some (d + (digits_value ds * n + v)) else None) as Hstep.
  { intros ds u n s' m d x Hd Hu Hne Hs Hx Hdr IH Hm. destruct (digits_first ds (u ++ s') Hd) as (c&t&Et&_).
    destruct m as [|m]; [rewrite Et in Hm; cbn in Hm; lia|]. cbn [duration_terms]. rewrite Et at 1.
    rewrite (duration_term_whole ds u n s') by done. pose proof (proj2 Hd) as Hf. apply digits_value_nonneg in Hf.
    destruct (units_table u n Hu) as (_&Hp&(c0&u0&->)&_). set (q := digits_value ds * n) in *.
    assert (0 <= q) by (subst q; nia).
    destruct (Z.leb_spec q (2 ^ 63)) as [Hq|Hq]; [|by rewrite (proj2 (Z.leb_gt _ _)) by lia].
    rewrite Z.mod_small by lia. destruct (Z.ltb_spec (2 ^ 63) (d + q)); [by rewrite (proj2 (Z.leb_gt _ _)) by lia|].
    rewrite IH; [by rewrite Z.add_assoc| |lia]. rewrite !length_app in Hm. cbn [length] in Hm. lia. }
  induction 1 as [ds u n Hd Hu Hne|ds u n s v Hd Hu Hne Hs IH]; intros m d Hm Hdr.
  - pose proof (Hstep ds u n [] m d 0 Hd Hu Hne I ltac:(lia) Hdr) as H. rewrite app_nil_r, Z.add_0_r in H. apply H; [|done].
    intros k e _ He. rewrite Z.add_0_r, (proj2 (Z.leb_le _ _)) by lia. by destruct k.
  - apply Hstep; try done; [|by eapply terms_nonneg]. by destruct (terms_first s v Hs) as (c&t&->&?).
Qed.

(** ParseDuration reads whole terms as their exact sum, or not at all. *)
Lemma ParseDuration_whole s v : duration_text (bytes_of_string s) v →
  ParseDuration s = if decide (int64_ok v) then Some v else None.
Proof.
  intros Ht. apply split_sign_signed in Ht as (neg&t&x&Hs&Hx&->); [|apply terms_first].
  unfold ParseDuration. rewrite Hs. destruct (terms_first t x Hx) as (d&t'&Et&Hd). pose proof (terms_nonneg t x Hx) as Hnn.
  rewrite (bool_decide_false (t = [])) by (by rewrite Et).
  rewrite (duration_terms_whole t x Hx) by lia. rewrite Z.add_0_l. rewrite bool_decide_false.
  2: { intros ->. inversion Hx as [ds u n [Hne _] Hu Hv E|ds u n r y [Hne _] Hu Hv Hr E];
       destruct (units_table u n Hu) as (_&_&(c&u'&->)&Hf); apply (f_equal length) in E; rewrite !length_app in E;
       destruct ds; [done| |done|]; cbn in E; lia. }
  unfold int64_ok, minDuration, maxDuration. destruct neg.
  - destruct (Z.leb_spec x (2 ^ 63)); case_decide; (done || lia).
  - destruct (Z.leb_spec x (2 ^ 63)); [destruct (Z.ltb_spec (2 ^ 63 - 1) x)|]; case_decide; (done || lia).
Qed.
