(* ===== verification/Json.v ===== *)
(** * encoding/json and time.Time's JSON form

    What the service uses of encoding/json: the syntax check of Unmarshal
    ([parse_document], RFC 8259 with Go's nesting limit), string unquoting
    ([unquote]), the matching of object keys to struct fields ([field_match])
    and Time.UnmarshalJSON ([time_unmarshal]).

    The parser recurses on fuel; [parse_document] gives it more than twice
    the length of its input, and [parse_fuel_enough] shows that any further
    fuel gives the same answer. *)
From stdpp Require Import base strings list.
From Stdlib Require Import ZArith Lia Ascii.
From S2P Require Import Prelude Utf8 GoStrings GoTime.

Local Open Scope Z_scope.

(** ** Syntax *)

(** A string keeps its raw text between the quotes. *)
Inductive json : Type :=
  | JNull
  | JBool (b : bool)
  | JNum (raw : bytes)
  | JStr (raw : bytes)
  | JArr (elems : list json)
  | JObj (members : list (bytes * json)).

Definition is_ws (c : Z) : bool := (c =? 32) || (c =? 9) || (c =? 10) || (c =? 13).

Fixpoint skip_ws (s : bytes) : bytes :=
  match s with
  | c :: s' => if is_ws c then skip_ws s' else s
  | [] => []
  end.

Definition is_dec (c : Z) : bool := within 48 57 c.
Definition is_hex (c : Z) : bool := within 48 57 c || within 97 102 c || within 65 70 c.

Definition hex_num (c : Z) : Z :=
  if within 48 57 c then c - 48 else if within 97 102 c then c - 97 + 10 else c - 65 + 10.

(** The text of a string after its opening quote: raw body and what follows
    the closing quote. *)
Fixpoint scan_string (s : bytes) : option (bytes * bytes) :=
  match s with
  | [] => None
  | c :: s1 =>
    if c =? 34 then Some ([], s1)
    else if c =? 92 then
      match s1 with
      | [] => None
      | e :: s2 =>
        if bool_decide (e ∈ [34; 92; 47; 98; 102; 110; 114; 116]) then
          match scan_string s2 with Some (b, r) => Some (c :: e :: b, r) | None => None end
        else if e =? 117 then
          match s2 with
          | h1 :: h2 :: h3 :: h4 :: s3 =>
            if is_hex h1 && is_hex h2 && is_hex h3 && is_hex h4 then
              match scan_string s3 with
              | Some (b, r) => Some (c :: e :: h1 :: h2 :: h3 :: h4 :: b, r)
              | None => None
              end
            else None
          | _ => None
          end
        else None
      end
    else if c <? 32 then None
    else match scan_string s1 with Some (b, r) => Some (c :: b, r) | None => None end
  end.

Fixpoint digits (s : bytes) : bytes * bytes :=
  match s with
  | c :: s' => if is_dec c then let '(d, r) := digits s' in (c :: d, r) else ([], s)
  | [] => ([], [])
  end.

(** At least one digit. *)
Definition digits1 (s : bytes) : option (bytes * bytes) :=
  match digits s with ([], _) => None | dr => Some dr end.

Definition scan_int (s : bytes) : option (bytes * bytes) :=
  match s with
  | c :: s' => if c =? 48 then Some ([48], s') else digits1 s
  | [] => None
  end.

Definition scan_frac (s : bytes) : option (bytes * bytes) :=
  match s with
  | c :: s' => if c =? 46 then match digits1 s' with Some (d, r) => Some (46 :: d, r) | None => None end
               else Some ([], s)
  | [] => Some ([], [])
  end.

Definition scan_exp (s : bytes) : option (bytes * bytes) :=
  match s with
  | c :: s' =>
    if (c =? 101) || (c =? 69) then
      match s' with
      | g :: s'' =>
        if (g =? 43) || (g =? 45)
        then match digits1 s'' with Some (d, r) => Some (c :: g :: d, r) | None => None end
        else match digits1 s' with Some (d, r) => Some (c :: d, r) | None => None end
      | [] => None
      end
    else Some ([], s)
  | [] => Some ([], [])
  end.

Definition scan_number (s : bytes) : option (bytes * bytes) :=
  let '(sign, s1) := match s with c :: s' => if c =? 45 then ([45], s') else ([], s) | [] => ([], s) end in
  match scan_int s1 with
  | None => None
  | Some (i, s2) =>
    match scan_frac s2 with
    | None => None
    | Some (f, s3) =>
      match scan_exp s3 with
      | None => None
      | Some (e, s4) => Some (sign ++ i ++ f ++ e, s4)
      end
    end
  end.

(** A literal word. *)
Fixpoint scan_word (w s : bytes) : option bytes :=
  match w with
  | [] => Some s
  | c :: w' => match s with d :: s' => if d =? c then scan_word w' s' else None | [] => None end
  end.

Definition maxNestingDepth : Z := 10000.

(** A value and the text after it; [depth] counts the open containers. *)
Fixpoint parse_value (fuel : nat) (depth : Z) (s : bytes) : option (json * bytes) :=
  match fuel with
  | O => None
  | S fuel =>
    match skip_ws s with
    | [] => None
    | c :: t =>
      if c =? 34 then match scan_string t with Some (b, r) => Some (JStr b, r) | None => None end
      else if c =? 123 then
        if maxNestingDepth <=? depth then None
        else match skip_ws t with
             | d :: r => if d =? 125 then Some (JObj [], r)
                         else match parse_members fuel (depth + 1) t with
                              | Some (ms, r) => Some (JObj ms, r)
                              | None => None
                              end
             | [] => None
             end
      else if c =? 91 then
        if maxNestingDepth <=? depth then None
        else match skip_ws t with
             | d :: r => if d =? 93 then Some (JArr [], r)
                         else match parse_elems fuel (depth + 1) t with
                              | Some (es, r) => Some (JArr es, r)
                              | None => None
                              end
             | [] => None
             end
      else if c =? 116 then match scan_word [114; 117; 101] t with Some r => Some (JBool true, r) | None => None end
      else if c =? 102 then match scan_word [97; 108; 115; 101] t with Some r => Some (JBool false, r) | None => None end
      else if c =? 110 then match scan_word [117; 108; 108] t with Some r => Some (JNull, r) | None => None end
      else match scan_number (c :: t) with Some (n, r) => Some (JNum n, r) | None => None end
    end
  end
with parse_members (fuel : nat) (depth : Z) (s : bytes) : option (list (bytes * json) * bytes) :=
  match fuel with
  | O => None
  | S fuel =>
    match skip_ws s with
    | q :: t =>
      if negb (q =? 34) then None
      else
        match scan_string t with
        | None => None
        | Some (key, r1) =>
          match skip_ws r1 with
          | colon :: r2 =>
            if negb (colon =? 58) then None
            else
              match parse_value fuel depth r2 with
              | None => None
              | Some (v, r3) =>
                match skip_ws r3 with
                | d :: r4 =>
                  if d =? 125 then Some ([(key, v)], r4)
                  else if d =? 44 then
                    match parse_members fuel depth r4 with
                    | Some (ms, r5) => Some ((key, v) :: ms, r5)
                    | None => None
                    end
                  else None
                | [] => None
                end
              end
          | [] => None
          end
        end
    | [] => None
    end
  end
with parse_elems (fuel : nat) (depth : Z) (s : bytes) : option (list json * bytes) :=
  match fuel with
  | O => None
  | S fuel =>
    match parse_value fuel depth s with
    | None => None
    | Some (v, r3) =>
      match skip_ws r3 with
      | d :: r4 =>
        if d =? 93 then Some ([v], r4)
        else if d =? 44 then
          match parse_elems fuel depth r4 with
          | Some (es, r5) => Some (v :: es, r5)
          | None => None
          end
        else None
      | [] => None
      end
    end
  end.

(** The document Unmarshal accepts: one value and white space. *)
Definition parse_document (s : bytes) : option json :=
  match parse_value (2 * length s + 1) 0 s with
  | Some (v, r) => match skip_ws r with [] => Some v | _ => None end
  | None => None
  end.

(** ** Strings *)

(** getu4: the value of a \u escape at the front of [s], or -1. *)
Definition getu4 (s : bytes) : Z :=
  match s with
  | b :: u :: h1 :: h2 :: h3 :: h4 :: _ =>
    if (b =? 92) && (u =? 117) && is_hex h1 && is_hex h2 && is_hex h3 && is_hex h4
    then ((hex_num h1 * 16 + hex_num h2) * 16 + hex_num h3) * 16 + hex_num h4
    else -1
  | _ => -1
  end.

(** One step of unquoteBytes at a non-empty rest: the bytes written and the
    bytes read. *)
Definition unquote_step (s : bytes) : option (bytes * nat) :=
  match s with
  | [] => None
  | c :: s1 =>
    if c =? 92 then
      match s1 with
      | [] => None
      | e :: _ =>
        if bool_decide (e ∈ [34; 92; 47; 39]) then Some ([e], 2%nat)
        else if e =? 98 then Some ([8], 2%nat)
        else if e =? 102 then Some ([12], 2%nat)
        else if e =? 110 then Some ([10], 2%nat)
        else if e =? 114 then Some ([13], 2%nat)
        else if e =? 116 then Some ([9], 2%nat)
        else if e =? 117 then
          let rr := getu4 s in
          if rr <? 0 then None
          else if IsSurrogate rr then
            let rr1 := getu4 (drop 6 s) in
            let dec := DecodeSurrogates rr rr1 in
            if negb (dec =? RuneError) then Some (encode_rune dec, 12%nat)
            else Some (encode_rune RuneError, 6%nat)
          else Some (encode_rune rr, 6%nat)
        else None
      end
    else if (c =? 34) || (c <? 32) then None
    else if c <? RuneSelf then Some ([c], 1%nat)
    else let '(r, n) := decode_rune s in Some (encode_rune r, n)
  end.

(** A decoding loop: [step] says what is written and how far to go; [skip]
    counts the bytes already consumed by the last step. *)
Fixpoint decode_loop (step : bytes → option (bytes * nat)) (skip : nat) (s : bytes) : option bytes :=
  match s with
  | [] => Some []
  | _ :: s' =>
    match skip with
    | S k => decode_loop step k s'
    | O =>
      match step s with
      | None => None
      | Some (out, n) =>
        match decode_loop step (n - 1) s' with Some t => Some (out ++ t) | None => None end
      end
    end
  end.

(** unquoteBytes on the text between the quotes. *)
Definition unquote (raw : bytes) : option bytes := decode_loop unquote_step 0 raw.

(** ** Struct fields *)

(** foldRune, up to the rune classes that meet ASCII. *)
Definition fold_rune (r : Z) : Z :=
  if within 97 122 r then r - 32
  else if r =? 0x212A then 75
  else if r =? 0x17F then 83
  else r.

Definition fold_name (key : bytes) : list Z := map fold_rune (runes key).

(** The field of [names] an object key denotes: an exact name first, then a
    name equal up to case. *)
Definition field_match (names : list string) (key : bytes) : option string :=
  match List.find (λ n, bool_decide (bytes_of_string n = key)) names with
  | Some n => Some n
  | None => List.find (λ n, bool_decide (fold_name (bytes_of_string n) = fold_name key)) names
  end.

(** ** time.Time *)

Definition two_digits (s : bytes) : option (Z * bytes) :=
  match s with
  | a :: b :: s' => if is_dec a && is_dec b then Some (10 * (a - 48) + (b - 48), s') else None
  | _ => None
  end.

(** getnum(value, false). *)
Definition one_or_two_digits (s : bytes) : option (Z * bytes) :=
  match s with
  | a :: s' =>
    if is_dec a then
      match s' with
      | b :: s'' => if is_dec b then Some (10 * (a - 48) + (b - 48), s'') else Some (a - 48, s')
      | [] => Some (a - 48, s')
      end
    else None
  | [] => None
  end.

Definition four_digits (s : bytes) : option (Z * bytes) :=
  match two_digits s with
  | Some (a, s') => match two_digits s' with Some (b, s'') => Some (100 * a + b, s'') | None => None end
  | None => None
  end.

Definition expect (c : Z) (s : bytes) : option bytes :=
  match s with d :: s' => if d =? c then Some s' else None | [] => None end.

(** Digits of a fraction as nanoseconds; digits after the ninth are dropped. *)
Fixpoint frac_ns (n : nat) (ds : bytes) : Z :=
  match n with
  | O => 0
  | S n' => match ds with
            | [] => 0
            | d :: ds' => (d - 48) * 10 ^ Z.of_nat n' + frac_ns n' ds'
            end
  end.

(** A fraction after the seconds, if there is one. *)
Definition opt_frac (s : bytes) : Z * bytes :=
  match s with
  | c :: s' =>
    if ((c =? 46) || (c =? 44)) then
      match digits s' with
      | ([], _) => (0, s)
      | (ds, r) => (frac_ns 9 ds, r)
      end
    else (0, s)
  | [] => (0, [])
  end.

(** The zone: Z or a signed offset in seconds, and nothing after it. *)
Definition zone_offset (s : bytes) : option Z :=
  match s with
  | c :: s1 =>
    if c =? 90 then match s1 with [] => Some 0 | _ => None end
    else
      match two_digits s1 with
      | None => None
      | Some (hh, s2) =>
        match expect 58 s2 with
        | None => None
        | Some s3 =>
          match two_digits s3 with
          | Some (mm, []) =>
            if (24 <? hh) || (60 <? mm) then None
            else if c =? 43 then Some ((hh * 60 + mm) * 60)
            else if c =? 45 then Some (- ((hh * 60 + mm) * 60))
            else None
          | _ => None
          end
        end
      end
  | [] => None
  end.

Definition days_in (y m : Z) : Z := nth (Z.to_nat (m - 1)) (month_lengths (leap y)) 0.

(** The instant of date and time fields, checked as Parse checks them. *)
Definition instant (y m d hh mm ss ns off : Z) : option Time :=
  if within 1 12 m && within 1 (days_in y m) d && within 0 23 hh && within 0 59 mm && within 0 59 ss
  then Some (days_of_civil y m d * day_ns + ((hh * 60 + mm) * 60 + ss - off) * Second + ns)
  else None.

(** time.Parse(time.RFC3339, s). *)
Definition parse_rfc3339 (s : bytes) : option Time :=
  match four_digits s with None => None | Some (y, s) =>
  match expect 45 s with None => None | Some s =>
  match two_digits s with None => None | Some (m, s) =>
  match expect 45 s with None => None | Some s =>
  match two_digits s with None => None | Some (d, s) =>
  match expect 84 s with None => None | Some s =>
  match one_or_two_digits s with None => None | Some (hh, s) =>
  match expect 58 s with None => None | Some s =>
  match two_digits s with None => None | Some (mm, s) =>
  match expect 58 s with None => None | Some s =>
  match two_digits s with None => None | Some (ss, s) =>
  let '(ns, s) := opt_frac s in
  match zone_offset s with None => None | Some off => instant y m d hh mm ss ns off
  end end end end end end end end end end end end.

(** Time.UnmarshalJSON over the receiver's value; [None] is an error. *)
Definition time_unmarshal (t : Time) (v : json) : option Time :=
  match v with
  | JNull => Some t
  | JStr raw => parse_rfc3339 raw
  | _ => None
  end.

(** A string field: null leaves it, other kinds are type errors. *)
Definition string_unmarshal (old : string) (v : json) : option string :=
  match v with
  | JNull => Some old
  | JStr raw => match unquote raw with Some b => Some (string_of_bytes b) | None => None end
  | _ => None
  end.

(** ** The parser's fuel *)

Lemma skip_ws_length s : (length (skip_ws s) <= length s)%nat.
Proof. induction s as [|c s IH]; cbn; [done|]. case_if; cbn; lia. Qed.

Lemma scan_string_length s b r : scan_string s = Some (b, r) → (length r < length s)%nat.
Proof.
  revert s b r. fix IH 1. intros [|c s1] b r; cbn [scan_string]; [done|].
  case_if; [intros [= <- <-]; cbn; lia|]. case_if.
  - destruct s1 as [|e s2]; [done|]. case_if.
    + destruct (scan_string s2) as [[b' r']|] eqn:E; [|done]. intros [= <- <-].
      apply IH in E. cbn. lia.
    + case_if; [|done]. destruct s2 as [|h1 [|h2 [|h3 [|h4 s3]]]]; try done. case_if; [|done].
      destruct (scan_string s3) as [[b' r']|] eqn:E; [|done]. intros [= <- <-].
      apply IH in E. cbn. lia.
  - case_if; [done|]. destruct (scan_string s1) as [[b' r']|] eqn:E; [|done]. intros [= <- <-].
    apply IH in E. cbn. lia.
Qed.

Lemma digits_length s d r : digits s = (d, r) → (length d + length r = length s)%nat.
Proof.
  revert d r. induction s as [|c s IH]; intros d r; cbn [digits]; [by intros [= <- <-]|].
  case_if; [|by intros [= <- <-]]. destruct (digits s) as [d' r'] eqn:E. intros [= <- <-].
  specialize (IH d' r' eq_refl). cbn. lia.
Qed.

Lemma digits1_length s d r : digits1 s = Some (d, r) → (length r < length s)%nat.
Proof.
  unfold digits1. destruct (digits s) as [[|x d'] r'] eqn:E; [done|]. intros [= <- <-].
  apply digits_length in E. cbn in E. lia.
Qed.

Lemma scan_word_length w s r : scan_word w s = Some r → (length r <= length s)%nat.
Proof.
  revert s. induction w as [|c w IH]; intros s; cbn; [by intros [= <-]|].
  destruct s as [|d s]; [done|]. case_if; [|done]. intros H. apply IH in H. cbn. lia.
Qed.

Lemma scan_number_length s n r : scan_number s = Some (n, r) → (length r < length s)%nat.
Proof.
  unfold scan_number. destruct (match s with c :: s' => _ | [] => _ end) as [sign s1] eqn:Es.
  assert (length s1 <= length s)%nat as H1.
  { destruct s as [|c s]; [by injection Es as <- <-|]. cbn. destruct (c =? 45); injection Es as <- <-; cbn; lia. }
  destruct (scan_int s1) as [[i s2]|] eqn:Ei; [|done].
  assert (length s2 < length s1)%nat as H2.
  { unfold scan_int in Ei. destruct s1 as [|c s1]; [done|]. destruct (c =? 48).
    - injection Ei as <- <-. cbn. lia.
    - by apply digits1_length in Ei. }
  destruct (scan_frac s2) as [[f s3]|] eqn:Ef; [|done].
  assert (length s3 <= length s2)%nat as H3.
  { unfold scan_frac in Ef. destruct s2 as [|c s2]; [by injection Ef as <- <-|]. destruct (c =? 46).
    - destruct (digits1 s2) as [[d r']|] eqn:E; [|done]. injection Ef as <- <-. apply digits1_length in E. cbn. lia.
    - by injection Ef as <- <-. }
  destruct (scan_exp s3) as [[e s4]|] eqn:Ee; [|done]. intros [= <- <-].
  assert (length s4 <= length s3)%nat; [|lia].
  unfold scan_exp in Ee. destruct s3 as [|c s3]; [by injection Ee as <- <-|]. case_if; [|by injection Ee as <- <-].
  destruct s3 as [|g s3']; [done|]. case_if.
  - destruct (digits1 s3') as [[d r']|] eqn:E; [|done]. injection Ee as <- <-. apply digits1_length in E. cbn. lia.
  - destruct (digits1 (g :: s3')) as [[d r']|] eqn:E; [|done]. injection Ee as <- <-.
    apply digits1_length in E. cbn in *. lia.
Qed.

(** What each parser leaves is shorter than what it was given. *)
Lemma parse_length fuel : ∀ depth s,
  (∀ v r, parse_value fuel depth s = Some (v, r) → (length r < length s)%nat) ∧
  (∀ ms r, parse_members fuel depth s = Some (ms, r) → (length r < length s)%nat) ∧
  (∀ es r, parse_elems fuel depth s = Some (es, r) → (length r < length s)%nat).
Proof.
  induction fuel as [|fuel IH]; intros depth s; [done|].
  pose proof (skip_ws_length s) as Hws. split_and!; cbn [parse_value parse_members parse_elems].
  - intros v r. destruct (skip_ws s) as [|c t] eqn:Es; [done|]. cbn in Hws.
    case_if. { destruct (scan_string t) as [[b r']|] eqn:E; [|done]. intros [= <- <-].
               apply scan_string_length in E. lia. }
    case_if. { case_if; [done|]. pose proof (skip_ws_length t) as Ht.
      destruct (skip_ws t) as [|d r'] eqn:Et; [done|]. cbn in Ht. case_if; [intros [= <- <-]; lia|].
      destruct (parse_members fuel (depth + 1) t) as [[ms r'']|] eqn:E; [|done]. intros [= <- <-].
      apply IH in E. lia. }
    case_if. { case_if; [done|]. pose proof (skip_ws_length t) as Ht.
      destruct (skip_ws t) as [|d r'] eqn:Et; [done|]. cbn in Ht. case_if; [intros [= <- <-]; lia|].
      destruct (parse_elems fuel (depth + 1) t) as [[ms r'']|] eqn:E; [|done]. intros [= <- <-].
      apply IH in E. lia. }
    do 3 (case_if; [destruct (scan_word _ t) as [r'|] eqn:E; [|done]; intros [= <- <-];
                    apply scan_word_length in E; lia|]).
    destruct (scan_number (c :: t)) as [[n r']|] eqn:E; [|done]. intros [= <- <-].
    apply scan_number_length in E. cbn in E. lia.
  - intros ms r. destruct (skip_ws s) as [|q t] eqn:Es; [done|]. cbn in Hws. case_if; [done|].
    destruct (scan_string t) as [[key r1]|] eqn:E1; [|done]. apply scan_string_length in E1.
    pose proof (skip_ws_length r1) as H1. destruct (skip_ws r1) as [|colon r2]; [done|]. cbn in H1.
    case_if; [done|]. destruct (parse_value fuel depth r2) as [[v r3]|] eqn:E3; [|done]. apply IH in E3.
    pose proof (skip_ws_length r3) as H3. destruct (skip_ws r3) as [|d r4]; [done|]. cbn in H3.
    case_if; [intros [= <- <-]; lia|]. case_if; [|done].
    destruct (parse_members fuel depth r4) as [[ms' r5]|] eqn:E5; [|done]. intros [= <- <-]. apply IH in E5. lia.
  - intros es r. destruct (parse_value fuel depth s) as [[v r3]|] eqn:E3; [|done]. apply IH in E3.
    pose proof (skip_ws_length r3) as H3. destruct (skip_ws r3) as [|d r4]; [done|]. cbn in H3.
    case_if; [intros [= <- <-]; lia|]. case_if; [|done].
    destruct (parse_elems fuel depth r4) as [[es' r5]|] eqn:E5; [|done]. intros [= <- <-]. apply IH in E5. lia.
Qed.

(** Fuel above twice the length changes nothing. *)
Lemma parse_fuel f1 : ∀ f2 depth s,
  ((2 * length s < f1)%nat → (2 * length s < f2)%nat → parse_value f1 depth s = parse_value f2 depth s) ∧
  ((2 * length s + 1 < f1)%nat → (2 * length s + 1 < f2)%nat →
     parse_members f1 depth s = parse_members f2 depth s ∧ parse_elems f1 depth s = parse_elems f2 depth s).
Proof.
  induction f1 as [|f1 IH]; intros [|f2] depth s; (split; [intros H1 H2|intros H1 H2]); try lia.
  - cbn [parse_value]. pose proof (skip_ws_length s) as Hws. destruct (skip_ws s) as [|c t]; [done|]. cbn in Hws.
    destruct (IH f2 (depth + 1) t) as [_ Ht]. destruct Ht as [-> ->]; [lia..|]. done.
  - cbn [parse_members parse_elems]. split.
    + pose proof (skip_ws_length s) as Hws. destruct (skip_ws s) as [|q t]; [done|]. cbn in Hws.
      case_if; [done|]. destruct (scan_string t) as [[key r1]|] eqn:E1; [|done]. apply scan_string_length in E1.
      pose proof (skip_ws_length r1) as Hr1. destruct (skip_ws r1) as [|colon r2]; [done|]. cbn in Hr1.
      case_if; [done|]. destruct (IH f2 depth r2) as [-> _]; [|lia..].
      destruct (parse_value f2 depth r2) as [[v r3]|] eqn:E3; [|done]. apply parse_length in E3.
      pose proof (skip_ws_length r3) as H3. destruct (skip_ws r3) as [|d r4]; [done|]. cbn in H3.
      destruct (IH f2 depth r4) as [_ Ht]. destruct Ht as [-> _]; [lia..|]. done.
    + destruct (IH f2 depth s) as [-> _]; [|lia..].
      destruct (parse_value f2 depth s) as [[v r3]|] eqn:E3; [|done]. apply parse_length in E3.
      pose proof (skip_ws_length r3) as H3. destruct (skip_ws r3) as [|d r4]; [done|]. cbn in H3.
      destruct (IH f2 depth r4) as [_ Ht]. destruct Ht as [_ ->]; [lia..|]. done.
Qed.

Lemma parse_fuel_enough fuel depth s : (2 * length s < fuel)%nat →
  parse_value fuel depth s = parse_value (2 * length s + 1) depth s.
Proof. intros H. apply parse_fuel; lia. Qed.

(** ** Unmarshal into a struct

    [set name v a] is the effect of a member on the field [name]; [None] is an
    error.  A key that matches no field is skipped. *)
Section Struct.
Context {A : Type} (names : list string) (set : string → json → A → option A).

Fixpoint decode_members (ms : list (bytes * json)) (a : A) : option A :=
  match ms with
  | [] => Some a
  | (key, v) :: ms' =>
    match unquote key with
    | None => None
    | Some k =>
      match field_match names k with
      | None => decode_members ms' a
      | Some name => match set name v a with Some a' => decode_members ms' a' | None => None end
      end
    end
  end.

(** json.Unmarshal(data, &a). *)
Definition unmarshal_struct (data : bytes) (a : A) : option A :=
  match parse_document data with
  | Some JNull => Some a
  | Some (JObj ms) => decode_members ms a
  | _ => None
  end.
End Struct.

(** Text for the examples: double quotes written as single ones. *)
Definition single_quoted (s : string) : bytes := map (λ b, if b =? 39 then 34 else b) (bytes_of_string s).

Example parse_example :
  parse_document (single_quoted " {'a':[1,-2.5e+3,true],'b':{'c':null}, 'd' : '\u00e9\n'} ") =
    Some (JObj [(bytes_of_string "a", JArr [JNum (bytes_of_string "1"); JNum (bytes_of_string "-2.5e+3"); JBool true]);
                (bytes_of_string "b", JObj [(bytes_of_string "c", JNull)]);
                (bytes_of_string "d", JStr (bytes_of_string "\u00e9\n"))]) ∧
  map (λ s, parse_document (single_quoted s)) ["{'a':01}"; "[1,]"; "{'a' 1}"; "'\x'"; "[1] 2"; "nul"]%string
    = repeat None 6.
Proof. vm_compute. done. Qed.

Example rfc3339_example :
  map (λ s, option_map format_rfc3339nano (parse_rfc3339 (bytes_of_string s)))
    ["2025-07-15T23:59:59.12Z"; "2024-02-29T00:00:00+08:00"; "2023-02-29T00:00:00Z"; "2025-07-15T3:04:05,5Z";
     "2025-07-15 03:04:05Z"; "2025-07-15T03:04:05"; "2025-13-01T00:00:00Z"]%string
  = [Some "2025-07-15T23:59:59.12Z"; Some "2024-02-28T16:00:00Z"; None; Some "2025-07-15T03:04:05.5Z";
     None; None; None]%string.
Proof. vm_compute. done. Qed.
