(* ===== verification/GoBase.v ===== *)
(** * Errors, panics, memory and state shared by the components

    - [error]: the error values the service builds and inspects, with
      [errors.Is]/[errors.As] walking the wrap tree;
    - [M S]: Go statements as state transformers whose outcome is a value or
      a panic, with [defer_] running on both;
    - [Slice] and the byte memory: buffers are shared by reference, so a
      zeroing through one slice is seen through every alias;
    - [St W]: memory, observability log, HTTP response and the world [W] of
      the collaborators a component calls. *)
From stdpp Require Import base gmap strings list pretty.
From Stdlib Require Import ZArith Lia.
From S2P Require Import Prelude Utf8 GoStrings GoTime.

Local Open Scope Z_scope.

(** ** Errors *)

Inductive error : Type :=
  | ErrorText (msg : string)
  | ErrorQuoted (msg arg : string)      (* fmt.Errorf(msg + " %q", arg) *)
  | ErrExternalIdentity
  | ErrUnknownIdentity
  | ErrInvalidEventType
  | ContextError (msg : string)
  | ErrEOF                              (* io.EOF *)
  | ErrServerClosed                     (* http.ErrServerClosed *)
  | Wrapped (msg : string) (err : error)
  | Joined (errs : list error)
  | WorkerPermanentError (Reason : string) (Err : option error)
  | GraphPermanentError (StatusCode : Z) (Operation : string) (Err : option error)
  | GraphTransientError (StatusCode : Z) (Operation : string) (Err : option error).

(** [graphclient.graphErrorString]; [detail] is the nested error's text. *)
Definition graphErrorString (prefix : string) (statusCode : Z) (operation : string)
    (detail : option string) : string :=
  (prefix
   +:+ (if bool_decide (operation = "") then "" else " during " +:+ operation)
   +:+ (if (statusCode =? 0)%Z then "" else ": status " +:+ pretty statusCode)
   +:+ match detail with Some d => ": " +:+ d | None => "" end)%string.

(** [worker.PermanentError.Error], given the text of the nested error. *)
Definition permanentErrorString (reason : string) (detail : option string) : string :=
  match detail with
  | None => reason
  | Some d => if bool_decide (TrimSpace reason = "") then d else (reason +:+ ": " +:+ d)%string
  end.

(** %q on ASCII text; the printability of other code points, which %q also
    consults, only affects how an error reads. *)
Definition quote_char (c : Ascii.ascii) : string :=
  match Ascii.N_of_ascii c with
  | 34%N => String (Ascii.ascii_of_nat 92) (String c "")
  | 92%N => String c (String c "")
  | 10%N => String (Ascii.ascii_of_nat 92) "n"
  | 13%N => String (Ascii.ascii_of_nat 92) "r"
  | 9%N => String (Ascii.ascii_of_nat 92) "t"
  | _ => String c ""
  end.

Fixpoint quote_chars (s : string) : string :=
  match s with
  | EmptyString => ""
  | String c s' => (quote_char c +:+ quote_chars s')%string
  end.

Definition quote (s : string) : string :=
  (String (Ascii.ascii_of_nat 34) (quote_chars s +:+ String (Ascii.ascii_of_nat 34) ""))%string.

(** The [Error] method. *)
Fixpoint ErrorString (e : error) : string :=
  match e with
  | ErrorText m | ContextError m => m
  | ErrorQuoted m arg => (m +:+ " " +:+ quote arg)%string
  | ErrExternalIdentity => "external email identities are not migrated in phase 1"
  | ErrUnknownIdentity => "cn is not a supported phase 1 identity"
  | ErrInvalidEventType => "migration: invalid event type"
  | ErrEOF => "EOF"
  | ErrServerClosed => "http: Server closed"
  | Wrapped m e' => (m +:+ ": " +:+ ErrorString e')%string
  | Joined es => Join (map ErrorString es) (String (Ascii.ascii_of_nat 10) "")
  | WorkerPermanentError r inner =>
      permanentErrorString r (match inner with Some e' => Some (ErrorString e') | None => None end)
  | GraphPermanentError st op inner =>
      graphErrorString "permanent graph error" st op
        (match inner with Some e' => Some (ErrorString e') | None => None end)
  | GraphTransientError st op inner =>
      graphErrorString "transient graph error" st op
        (match inner with Some e' => Some (ErrorString e') | None => None end)
  end.

(** Depth-first search of the wrap tree, the traversal of [errors.Is] and
    [errors.As]; [p] is the test applied to each error. *)
Fixpoint find_err (p : error → bool) (e : error) : option error :=
  if p e then Some e else
  match e with
  | Wrapped _ e' => find_err p e'
  | Joined es =>
      (fix go (es : list error) : option error :=
         match es with
         | [] => None
         | e' :: es' => match find_err p e' with Some r => Some r | None => go es' end
         end) es
  | WorkerPermanentError _ (Some e') => find_err p e'
  | GraphPermanentError _ _ (Some e') => find_err p e'
  | GraphTransientError _ _ (Some e') => find_err p e'
  | _ => None
  end.

Definition is_unknown_identity (e : error) : bool :=
  match e with ErrUnknownIdentity => true | _ => false end.
Definition is_external_identity (e : error) : bool :=
  match e with ErrExternalIdentity => true | _ => false end.
Definition is_worker_permanent (e : error) : bool :=
  match e with WorkerPermanentError _ _ => true | _ => false end.
Definition is_graph_permanent (e : error) : bool :=
  match e with GraphPermanentError _ _ _ => true | _ => false end.

Definition is_server_closed (e : error) : bool :=
  match e with ErrServerClosed => true | _ => false end.

(** [errors.Is] against a package-level error, [errors.As] against a type. *)
Definition errors_Is (e : error) (p : error → bool) : bool :=
  match find_err p e with Some _ => true | None => false end.
Definition errors_As (e : error) (p : error → bool) : option error := find_err p e.

(** [errors.Join]: nil errors are dropped, and the join of none is nil. *)
Definition errors_Join (es : list (option error)) : option error :=
  match omap id es with
  | [] => None
  | errs => Some (Joined errs)
  end.

(** A [(T, error)] pair of which exactly one part is meaningful. *)
Inductive result (A : Type) : Type :=
  | Ok (a : A)
  | Err (e : error).
Arguments Ok {A} a.
Arguments Err {A} e.

(** ** Statements *)

Inductive outcome (A : Type) : Type :=
  | Ret (a : A)
  | Panic (v : string).
Arguments Ret {A} a.
Arguments Panic {A} v.

Definition M (S A : Type) : Type := S → outcome A * S.

#[export] Instance M_ret S : MRet (M S) := λ A a s, (Ret a, s).
#[export] Instance M_bind S : MBind (M S) := λ A B f m s,
  match m s with
  | (Ret a, s') => f a s'
  | (Panic v, s') => (Panic v, s')
  end.

Definition panic {S A} (v : string) : M S A := λ s, (Panic v, s).
Definition get {S} : M S S := λ s, (Ret s, s).
Definition modify {S} (f : S → S) : M S unit := λ s, (Ret tt, f s).

(** [defer f()] around a body: [f] runs on return and on panic. *)
Definition defer_ {S A} (f : M S unit) (m : M S A) : M S A := λ s,
  let '(o, s1) := m s in
  match f s1 with
  | (Ret _, s2) => (o, s2)
  | (Panic v, s2) => (Panic v, s2)
  end.

(** [defer func() { if recover() != nil { h } }()] around a body. *)
Definition recover_ {S} (h : M S unit) (m : M S unit) : M S unit := λ s,
  match m s with
  | (Ret u, s1) => (Ret u, s1)
  | (Panic _, s1) => h s1
  end.

(** ** Byte buffers *)

(** A slice: its backing array and its length; the backing array is as long
    as the capacity. *)
Record Slice := mkSlice { s_loc : nat; s_len : nat }.

#[export] Instance Slice_eq_dec : EqDecision Slice.
Proof. solve_decision. Defined.

Abbreviation Mem := (list bytes) (only parsing).

Definition slice_bytes (m : Mem) (sl : Slice) : bytes :=
  take (s_len sl) (default [] (m !! s_loc sl)).

(** [make([]byte, len(b), cap)] holding [b]. *)
Definition mem_alloc (m : Mem) (b : bytes) (cap : nat) : Slice * Mem :=
  (mkSlice (length m) (length b), m ++ [b ++ replicate (cap - length b) 0]).

Definition zero_prefix (n : nat) (b : bytes) : bytes :=
  map (λ _, 0) (take n b) ++ drop n b.

(** [passwordcrypto.ZeroBytes] on the memory. *)
Definition mem_zero (m : Mem) (sl : Slice) : Mem := alter (zero_prefix (s_len sl)) (s_loc sl) m.

Definition all_zero (b : bytes) : Prop := Forall (λ z, z = 0) b.

(** ** Lemmas *)

Lemma zero_prefix_length n b : length (zero_prefix n b) = length b.
Proof. unfold zero_prefix. rewrite length_app, length_map, <- length_app, take_drop. done. Qed.

Lemma take_zero_prefix n b : all_zero (take n (zero_prefix n b)).
Proof.
  unfold zero_prefix, all_zero. destruct (decide (n <= length b)%nat).
  - rewrite take_app_le by (rewrite length_map, length_take; lia).
    rewrite take_ge by (rewrite length_map, length_take; lia).
    apply Forall_map, Forall_true. done.
  - rewrite drop_ge, app_nil_r by lia. apply Forall_take, Forall_map, Forall_true. done.
Qed.

Lemma zero_prefix_all_zero n k b : all_zero (take k b) → all_zero (take k (zero_prefix n b)).
Proof.
  unfold all_zero, zero_prefix. rewrite !Forall_lookup. intros H i z Hi.
  apply lookup_take_Some in Hi as [Hi Hk].
  destruct (decide (i < n)%nat) as [Hn|Hn].
  - destruct (decide (i < length b)%nat) as [Hb|Hb].
    + rewrite lookup_app_l in Hi by (rewrite length_map, length_take; lia).
      rewrite list_lookup_fmap in Hi. apply fmap_Some in Hi as (?&_&->). done.
    + apply lookup_lt_Some in Hi. rewrite length_app, length_map, length_take, length_drop in Hi. lia.
  - destruct (decide (n <= length b)%nat).
    + rewrite lookup_app_r in Hi by (rewrite length_map, length_take; lia).
      rewrite length_map, length_take, Nat.min_l, lookup_drop in Hi by lia.
      replace (n + (i - n))%nat with i in Hi by lia. apply (H i). by apply lookup_take_Some.
    + apply lookup_lt_Some in Hi. rewrite length_app, length_map, length_take, length_drop in Hi. lia.
Qed.

Lemma mem_zero_self m sl : all_zero (slice_bytes (mem_zero m sl) sl).
Proof.
  unfold slice_bytes, mem_zero. rewrite list_lookup_alter_eq.
  destruct (m !! s_loc sl) as [b|] eqn:E; simpl; [apply take_zero_prefix|].
  rewrite take_nil. constructor.
Qed.

(** Zeroing one slice never un-zeroes another. *)
Lemma mem_zero_preserves m sl sl' :
  all_zero (slice_bytes m sl) → all_zero (slice_bytes (mem_zero m sl') sl).
Proof.
  unfold slice_bytes, mem_zero. intros H. destruct (decide (s_loc sl = s_loc sl')) as [E|E].
  - rewrite E in *. rewrite list_lookup_alter_eq. destruct (m !! s_loc sl') as [b|]; [|done].
    simpl in *. by apply zero_prefix_all_zero.
  - by rewrite list_lookup_alter_ne.
Qed.

Lemma mem_zero_other m sl sl' : s_loc sl ≠ s_loc sl' → slice_bytes (mem_zero m sl') sl = slice_bytes m sl.
Proof. intros H. unfold slice_bytes, mem_zero. by rewrite list_lookup_alter_ne. Qed.

Lemma mem_zero_length m sl : length (mem_zero m sl) = length m.
Proof. unfold mem_zero. apply length_alter. Qed.

#[export] Hint Resolve mem_zero_self mem_zero_preserves : go.
