(* ===== verification/Observability.v ===== *)
(** * Observability boundary (internal/observability)

    Metric and action names, the safe-identity attributes and the recorder
    interface.  A component's calls to its recorder and logger are values of
    [ObsEvent] appended to the log of the state, in call order; a recorder
    implementation is a fold over that log ([capture_event] is
    CaptureRecorder). *)
From stdpp Require Import base gmap strings list pretty.
From Stdlib Require Import ZArith.
From S2P Require Import Prelude Utf8 GoStrings GoTime.

Local Open Scope Z_scope.

Definition MetricHookRequestsTotal := "hook_requests_total"%string.
Definition MetricMigrationSkippedTotal := "migration_skipped_total"%string.
Definition MetricMiddlewareRequestsTotal := "middleware_requests_total"%string.
Definition MetricWorkerMessagesTotal := "worker_messages_total"%string.
Definition MetricGraphUpsertDuration := "graph_upsert_duration_seconds"%string.
Definition MetricQueueDepth := "queue_depth"%string.

Definition ActionHookAccepted := "hook_password_sync_accepted"%string.
Definition ActionHookSkipped := "hook_password_sync_skipped"%string.
Definition ActionHookRejected := "hook_password_sync_rejected"%string.
Definition ActionMiddlewareRejected := "middleware_request_rejected"%string.
Definition ActionMiddlewareRecovered := "middleware_panic_recovered"%string.
Definition ActionWorkerCompleted := "worker_password_sync_completed"%string.
Definition ActionWorkerFailed := "worker_password_sync_failed"%string.
Definition ActionWorkerInvalid := "worker_message_invalid"%string.
Definition ActionWorkerAbandoned := "worker_message_abandoned"%string.
Definition ActionGraphUpsert := "graph_password_upsert"%string.

(** slog attribute values of the kinds the service uses. *)
Inductive AttrValue : Type :=
  | VString (s : string)
  | VInt (z : Z)
  | VBool (b : bool)
  | VGroup (attrs : list (string * AttrValue)).

Abbreviation Attr := (string * AttrValue)%type (only parsing).
Abbreviation Labels := (gmap string string) (only parsing).

Record SafeIdentity := mkSafeIdentity {
  si_TraceID : string;
  si_CN : string;
  si_UPN : string;
  si_EventType : string;
  si_IdentityType : string
}.

(** The [attrs = append(...)] guarded by a non-empty value. *)
Definition opt_attr (key value : string) : list Attr :=
  if bool_decide (value = ""%string) then [] else [(key, VString value)].

Definition SafeIdentityAttrs (identity : SafeIdentity) : list Attr :=
  opt_attr "traceId" (si_TraceID identity) ++
  opt_attr "cn" (si_CN identity) ++
  opt_attr "upn" (si_UPN identity) ++
  opt_attr "eventType" (si_EventType identity) ++
  opt_attr "identityType" (si_IdentityType identity).

(** fmt.Sprint of an attribute's value; a group prints as a list of
    key=value pairs. *)
Fixpoint value_text (v : AttrValue) : string :=
  match v with
  | VString s => s
  | VInt z => pretty z
  | VBool b => if b then "true" else "false"
  | VGroup attrs => "[" +:+ Join (map (λ kv, kv.1 +:+ "=" +:+ value_text kv.2) attrs) " " +:+ "]"
  end%string.

Definition LabelsFromAttrs (attrs : list Attr) : Labels :=
  foldl (λ labels attr, <[attr.1 := value_text attr.2]> labels) ∅ attrs.

(** Of several attributes with one key the last is kept. *)
Lemma LabelsFromAttrs_lookup attrs k :
  LabelsFromAttrs attrs !! k = value_text <$> (last (filter (λ kv, kv.1 = k) attrs) ≫= λ kv, Some kv.2).
Proof.
  unfold LabelsFromAttrs. induction attrs as [|[k' v] attrs IH] using rev_ind; [done|].
  rewrite foldl_snoc, filter_app. cbn [fst snd]. destruct (decide (k' = k)) as [->|Hne].
  - rewrite lookup_insert_eq, filter_cons_True, filter_nil, last_snoc by done. done.
  - rewrite lookup_insert_ne, IH, filter_cons_False, filter_nil, app_nil_r by done. done.
Qed.

(** Calls on the Recorder interface and on the slog logger. *)
Inductive ObsEvent : Type :=
  | Inc (name : string) (labels : Labels)
  | ObserveDuration (name : string) (duration : Duration) (labels : Labels)
  | SetGauge (name : string) (value : Z) (labels : Labels)
  | LogAttrs (msg : string) (attrs : list Attr).

(** ** CaptureRecorder *)

Record Sample := mkSample {
  sample_Name : string;
  sample_Labels : Labels;
  sample_Duration : Duration;
  sample_Value : Z
}.

Record CaptureRecorder := mkCapture {
  counters : gmap string (list Sample);
  durations : gmap string (list Sample);
  gauges : gmap string (list Sample)
}.

Definition NewCaptureRecorder : CaptureRecorder := mkCapture ∅ ∅ ∅.

Definition samples_of (m : gmap string (list Sample)) (name : string) : list Sample :=
  default [] (m !! name).

(** Inc, ObserveDuration and SetGauge of CaptureRecorder. *)
Definition capture_event (r : CaptureRecorder) (e : ObsEvent) : CaptureRecorder :=
  match e with
  | Inc name labels =>
      mkCapture (<[name := samples_of (counters r) name ++ [mkSample name labels 0 1]]> (counters r))
        (durations r) (gauges r)
  | ObserveDuration name d labels =>
      mkCapture (counters r)
        (<[name := samples_of (durations r) name ++ [mkSample name labels d 0]]> (durations r))
        (gauges r)
  | SetGauge name v labels =>
      mkCapture (counters r) (durations r)
        (<[name := samples_of (gauges r) name ++ [mkSample name labels 0 v]]> (gauges r))
  | LogAttrs _ _ => r
  end.

Definition Counters (r : CaptureRecorder) (name : string) : list Sample :=
  samples_of (counters r) name.
Definition Durations (r : CaptureRecorder) (name : string) : list Sample :=
  samples_of (durations r) name.
Definition Gauges (r : CaptureRecorder) (name : string) : list Sample :=
  samples_of (gauges r) name.

(** Samples the log contributes to a counter, in order. *)
Definition counter_samples (name : string) (log : list ObsEvent) : list Sample :=
  omap (λ e, match e with
             | Inc n labels => if bool_decide (n = name) then Some (mkSample n labels 0 1) else None
             | _ => None
             end) log.

(** The recorder keeps every increment, in call order, under its own name. *)
Lemma capture_counters r log name :
  Counters (foldl capture_event r log) name = Counters r name ++ counter_samples name log.
Proof.
  revert r. induction log as [|e log IH]; intros r; [by rewrite app_nil_r|].
  cbn [foldl]. rewrite IH. unfold Counters, samples_of.
  destruct e as [n l|n d l|n v l|m a]; cbn [capture_event counters counter_samples omap list_omap]; try done.
  case_bool_decide as E.
  - subst. rewrite lookup_insert_eq. simpl. by rewrite <- app_assoc.
  - by rewrite lookup_insert_ne.
Qed.
