(* ===== verification/Logger.v ===== *)
(** * The masking log handler (pkg/logger/logger.go)

    Attributes are trees: a value is text, some other scalar, a group, or a
    LogValuer, which stands for the value its LogValue method returns, if it
    does not panic.  log/slog drops groups without attributes from the groups
    and records it builds (GroupValue and Record.AddAttrs).  The wrapped handler is modelled by what it was told: the attributes and groups
    of its WithAttrs and WithGroup calls and the record it handles. *)
From stdpp Require Import base strings list.
From Stdlib Require Import ZArith Lia Ascii.
From S2P Require Import Prelude Utf8 GoStrings.

Inductive value : Type :=
  | VString (s : string)
  | VAny (x : nat)
  | VTooMany                               (* the error Resolve gives up with *)
  | VPanicked                              (* the error Resolve makes of a panic *)
  | VGroup (attrs : list (string * value))
  | VLogValuer (v : value)
  | VPanickingValuer.

Abbreviation attr := (string * value)%type (only parsing).

(** slog's limit on LogValue calls in Resolve. *)
Definition maxLogValues : nat := 100.

Section Mask.
Context {U : UnicodeTables}.

(** keyNormalizer.Replace: separators removed. *)
Fixpoint strip_separators (s : string) : string :=
  match s with
  | EmptyString => EmptyString
  | String c s' => if bool_decide (c ∈ ["_"; "-"; "."]%char) then strip_separators s' else String c (strip_separators s')
  end.

Definition isSensitiveKey (key : string) : bool :=
  let normalized := strip_separators (ToLower key) in
  Contains normalized "password" || Contains normalized "passwd" || Contains normalized "secret" || Contains normalized "token".

Definition mask : value := VString "****".

(** Value.isEmptyGroup. *)
Definition isEmptyGroup (v : value) : bool := match v with VGroup [] => true | _ => false end.

(** slog.GroupValue: a group of the attributes that are not empty groups. *)
Definition GroupValue (attrs : list attr) : value := VGroup (filter (λ kv, isEmptyGroup kv.2 = false) attrs).

(** Record.AddAttrs drops them too. *)
Definition AddAttrs (front attrs : list attr) : list attr := front ++ filter (λ kv, isEmptyGroup kv.2 = false) attrs.

(** The value maskAttr gives an attribute that is not sensitive: [n] counts
    the values Resolve still looks at. *)
Fixpoint mask_value (n : nat) (v : value) : value :=
  match n with
  | O => VTooMany
  | S n' =>
    match v with
    | VLogValuer v' => mask_value n' v'
    | VPanickingValuer => VPanicked
    | VGroup attrs =>
      GroupValue (map (λ kv, (kv.1, if isSensitiveKey kv.1 then mask else mask_value maxLogValues kv.2)) attrs)
    | v => v
    end
  end.

Definition maskAttr (a : attr) : attr := (a.1, if isSensitiveKey a.1 then mask else mask_value maxLogValues a.2).
Definition MaskAttrs (attrs : list attr) : list attr := map maskAttr attrs.

(** ** The handler *)

Inductive handler_op := WithAttrsOp (attrs : list attr) | WithGroupOp (name : string).

Record LogRecord := mkLogRecord { Message : string; Attrs : list attr }.

(** A handler by what was put on it. *)
Definition SlogHandler : Type := list handler_op.

Definition masking_WithAttrs (h : SlogHandler) (attrs : list attr) : SlogHandler := h ++ [WithAttrsOp (MaskAttrs attrs)].
Definition masking_WithGroup (h : SlogHandler) (name : string) : SlogHandler := h ++ [WithGroupOp name].

(** What the wrapped handler is given to handle. *)
Definition masking_Handle (h : SlogHandler) (record : LogRecord) : SlogHandler * LogRecord :=
  (h, mkLogRecord (Message record) (foldl (λ masked a, AddAttrs masked [maskAttr a]) [] (Attrs record))).

(** The calls made on a masking handler, in order. *)
Definition masking_op (h : SlogHandler) (op : handler_op) : SlogHandler :=
  match op with WithAttrsOp attrs => masking_WithAttrs h attrs | WithGroupOp name => masking_WithGroup h name end.

(** ** What may reach the wrapped handler *)

(** No sensitive key keeps its value, at any depth, and no LogValuer is left
    to be resolved later. *)
Inductive masked : value → Prop :=
  | masked_string s : masked (VString s)
  | masked_any x : masked (VAny x)
  | masked_too_many : masked VTooMany
  | masked_panicked : masked VPanicked
  | masked_group attrs : Forall (λ kv, isSensitiveKey kv.1 = true ∧ kv.2 = mask ∨ isSensitiveKey kv.1 = false ∧ masked kv.2) attrs →
      masked (VGroup attrs).

Definition masked_attrs (attrs : list attr) : Prop :=
  Forall (λ kv, isSensitiveKey kv.1 = true ∧ kv.2 = mask ∨ isSensitiveKey kv.1 = false ∧ masked kv.2) attrs.

(** Induction over the attributes of groups. *)
Section ValueInd.
Variable P : value → Prop.
Hypothesis Hstring : ∀ s, P (VString s).
Hypothesis Hany : ∀ x, P (VAny x).
Hypothesis Htoo : P VTooMany.
Hypothesis Hpanicked : P VPanicked.
Hypothesis Hgroup : ∀ attrs, Forall (λ kv, P kv.2) attrs → P (VGroup attrs).
Hypothesis Hvaluer : ∀ v, P v → P (VLogValuer v).
Hypothesis Hpanicking : P VPanickingValuer.

Fixpoint value_nested_ind (v : value) : P v :=
  match v with
  | VString s => Hstring s
  | VAny x => Hany x
  | VTooMany => Htoo
  | VPanicked => Hpanicked
  | VGroup attrs =>
      Hgroup attrs ((fix go (l : list (string * value)) : Forall (λ kv, P kv.2) l :=
        match l with
        | [] => Forall_nil_2 _
        | kv :: l' => Forall_cons_2 _ _ _ (value_nested_ind kv.2) (go l')
        end) attrs)
  | VLogValuer v' => Hvaluer v' (value_nested_ind v')
  | VPanickingValuer => Hpanicking
  end.
End ValueInd.

Lemma mask_value_masked v : ∀ n, masked (mask_value n v).
Proof.
  induction v as [s|x| | |attrs IH|v IH|] using value_nested_ind; intros [|n]; cbn [mask_value]; try by constructor.
  - constructor. apply Forall_forall. intros kv [_ Hin]%list_elem_of_filter. revert kv Hin. apply Forall_forall.
    apply Forall_map. eapply Forall_impl; [exact IH|]. intros [k v] H. cbn. destruct (isSensitiveKey k); auto.
  - apply IH.
Qed.

Lemma maskAttr_masked a : isSensitiveKey (maskAttr a).1 = true ∧ (maskAttr a).2 = mask ∨
  isSensitiveKey (maskAttr a).1 = false ∧ masked (maskAttr a).2.
Proof. destruct a as [k v]. cbn. destruct (isSensitiveKey k); [by left|right]. split; [done|apply mask_value_masked]. Qed.

Lemma MaskAttrs_masked attrs : masked_attrs (MaskAttrs attrs).
Proof. apply Forall_map, Forall_forall. intros a _. apply maskAttr_masked. Qed.

Lemma handled_attrs attrs :
  foldl (λ masked a, AddAttrs masked [maskAttr a]) [] attrs = filter (λ kv, isEmptyGroup kv.2 = false) (MaskAttrs attrs).
Proof.
  induction attrs as [|a attrs IH] using rev_ind; [done|]. rewrite foldl_snoc, IH. unfold MaskAttrs, AddAttrs.
  by rewrite map_app, filter_app.
Qed.

(** A value with nothing to show: it resolves to a group of which every
    attribute, none of them sensitive, has nothing to show. *)
Fixpoint shows_nothing (n : nat) (v : value) : bool :=
  match n with
  | O => false
  | S n' =>
    match v with
    | VLogValuer v' => shows_nothing n' v'
    | VGroup attrs => forallb (λ kv, negb (isSensitiveKey kv.1) && shows_nothing maxLogValues kv.2) attrs
    | _ => false
    end
  end.

Definition attr_shows (a : attr) : bool := isSensitiveKey a.1 || negb (shows_nothing maxLogValues a.2).

Lemma mask_value_empty v : ∀ n, isEmptyGroup (mask_value n v) = shows_nothing n v.
Proof.
  induction v as [s|x| | |attrs IH|v IH|] using value_nested_ind; intros [|n]; try done; [|apply IH].
  cbn [mask_value shows_nothing]. unfold GroupValue. cbn [isEmptyGroup].
  induction IH as [|[k v] attrs Hv _ IHa]; [done|]. cbn [map forallb fst snd] in *. rewrite filter_cons. cbn [fst snd].
  destruct (isSensitiveKey k); cbn [negb andb]; [by rewrite decide_True|].
  rewrite Hv. destruct (shows_nothing maxLogValues v); cbn [andb]; [by rewrite decide_False|by rewrite decide_True].
Qed.

Lemma maskAttr_empty a : isEmptyGroup (maskAttr a).2 = negb (attr_shows a).
Proof.
  destruct a as [k v]. unfold maskAttr, attr_shows. cbn [fst snd]. destruct (isSensitiveKey k); cbn [orb]; [done|].
  by rewrite mask_value_empty, negb_involutive.
Qed.

Lemma handled_keys attrs : (filter (λ kv, isEmptyGroup kv.2 = false) (MaskAttrs attrs)).*1 = (filter (λ kv, attr_shows kv = true) attrs).*1.
Proof.
  induction attrs as [|a attrs IH]; [done|]. cbn [MaskAttrs map]. rewrite !filter_cons.
  destruct (decide (isEmptyGroup (maskAttr a).2 = false)) as [E|E], (decide (attr_shows a = true)) as [F|F];
    rewrite maskAttr_empty, negb_false_iff in E; try done. cbn [fmap list_fmap]. by f_equal.
Qed.

(** A scalar, or a group of such values under keys that are not sensitive. *)
Inductive harmless : value → Prop :=
  | harmless_string s : harmless (VString s)
  | harmless_any x : harmless (VAny x)
  | harmless_too_many : harmless VTooMany
  | harmless_panicked : harmless VPanicked
  | harmless_group attrs : attrs ≠ [] → Forall (λ kv, isSensitiveKey kv.1 = false ∧ harmless kv.2) attrs → harmless (VGroup attrs).

Lemma harmless_shows v : harmless v → isEmptyGroup v = false.
Proof. by intros [| | | |[]]. Qed.

Lemma mask_value_harmless v : ∀ n, harmless v → mask_value (S n) v = v.
Proof.
  induction v as [s|x| | |attrs IH|v IH|] using value_nested_ind; intros n Hh; try done; [|by inversion Hh..].
  inversion Hh as [| | | |? _ H]; subst. cbn [mask_value]. unfold GroupValue. f_equal. clear Hh.
  induction attrs as [|[k v] attrs IHa]; [done|]. apply Forall_cons in IH as [IHv IH], H as [[Hk Hv] H]. cbn [fst snd map] in *.
  specialize (IHv 99%nat Hv). change 100%nat with maxLogValues in IHv. rewrite Hk, IHv.
  rewrite filter_cons_True by by apply harmless_shows. f_equal. by apply IHa.
Qed.

Lemma handled_harmless attrs : Forall (λ kv, isSensitiveKey kv.1 = false ∧ harmless kv.2) attrs →
  filter (λ kv, isEmptyGroup kv.2 = false) (MaskAttrs attrs) = attrs.
Proof.
  induction 1 as [|[k v] attrs [Hk Hv] _ IH]; [done|]. cbn [MaskAttrs map]. unfold maskAttr at 1. cbn [fst snd] in *. rewrite Hk.
  pose proof (mask_value_harmless v 99 Hv) as Hm. change 100%nat with maxLogValues in Hm. rewrite Hm.
  rewrite filter_cons_True by by apply harmless_shows. f_equal. exact IH.
Qed.

(** C38 The masking handler: whatever attributes and groups were put on it and
    whatever record it handles, the wrapped handler is given, at every depth
    and in every attribute list, the mask for each sensitive key and never a
    value that still has to be resolved.  The attributes put on the handler
    keep their keys and order; a record keeps its message and, in their order,
    the keys of the attributes that are sensitive or have something to show
    (slog drops the others, whose values resolve to groups without
    attributes).  A record whose attributes are scalars and groups of scalars,
    without sensitive keys, LogValuers or empty groups, passes unchanged. *)
Theorem masking_handler_masks (ops : list handler_op) (record : LogRecord) :
  let '(h, out) := masking_Handle (foldl masking_op [] ops) record in
  Forall2 (λ op given,
    match op, given with
    | WithAttrsOp attrs, WithAttrsOp attrs' => masked_attrs attrs' ∧ attrs'.*1 = attrs.*1
    | WithGroupOp name, WithGroupOp name' => name' = name
    | _, _ => False
    end) ops h ∧
  masked_attrs (Attrs out) ∧ (Attrs out).*1 = (filter (λ kv, attr_shows kv = true) (Attrs record)).*1 ∧
  Message out = Message record ∧
  (Forall (λ kv, isSensitiveKey kv.1 = false ∧ harmless kv.2) (Attrs record) → out = record).
Proof.
  unfold masking_Handle. cbn [Attrs Message]. rewrite handled_attrs. split_and!; [| |apply handled_keys|done|].
  - induction ops as [|op ops IH] using rev_ind; [done|]. rewrite foldl_snoc.
    destruct op as [attrs|name]; cbn; (apply Forall2_app; [done|]); constructor; try done.
    split; [apply MaskAttrs_masked|]. unfold MaskAttrs. by rewrite <- list_fmap_compose.
  - apply Forall_forall. intros kv [_ Hin]%list_elem_of_filter. pose proof (MaskAttrs_masked (Attrs record)) as Hm.
    unfold masked_attrs in Hm. rewrite Forall_forall in Hm. by apply Hm.
  - intros H. destruct record as [m attrs]. cbn in *. f_equal. by apply handled_harmless.
Qed.
End Mask.

Example masking_examples :
  let _ := Latin1Tables in
  map isSensitiveKey ["User_Password"; "pass-word"; "API.Token"; "x-secret-id"; "passwd"; "path"; "cn"]%string
    = [true; true; true; true; true; false; false] ∧
  maskAttr ("req", VLogValuer (VGroup [("cn", VString "a"); ("password", VGroup [("n", VAny 1)])]))%string
    = ("req", VGroup [("cn", VString "a"); ("password", VString "****")])%string ∧
  (masking_Handle [] (mkLogRecord "m" [("e", VLogValuer (VGroup [("f", VGroup [])])); ("token", VGroup []); ("n", VAny 1)])).2
    = mkLogRecord "m" [("token", VString "****"); ("n", VAny 1)]%string.
Proof. vm_compute. done. Qed.
