(* ===== verification/GoState.v ===== *)
(** * The state of a component

    [St W] is what the code of a request handler or of the worker can change:
    the byte buffers, the observability log, the HTTP response under
    construction, and the world [W] of the collaborators it calls through its
    interfaces.  An interface method is a function [W → outcome A * W]; [call]
    runs one, so a collaborator changes the world and nothing else. *)
From stdpp Require Import base gmap strings list.
From Stdlib Require Import ZArith.
From S2P Require Import Prelude Utf8 GoStrings GoTime GoBase Observability.

Local Open Scope Z_scope.

(** http.ResponseWriter: [0] is a status not yet written.  [r_recorded] is
    the [status] field of the access log's statusRecorder, the wrapper the
    inner handlers write through: every WriteHeader call sets it. *)
Record Response := mkResponse {
  r_status : Z;
  r_header : gmap string string;
  r_body : list string;
  r_recorded : Z
}.

Definition NewResponse : Response := mkResponse 0 ∅ [] 0.

Record St (W : Type) := mkSt {
  mem : Mem;
  obs : list ObsEvent;
  resp : Response;
  world : W
}.
Arguments mkSt {W} _ _ _ _.
Arguments mem {W} _.
Arguments obs {W} _.
Arguments resp {W} _.
Arguments world {W} _.

Section Ops.
Context {W : Type}.
Implicit Types s : St W.

Definition set_mem (m : Mem) s : St W := mkSt m (obs s) (resp s) (world s).
Definition set_resp (r : Response) s : St W := mkSt (mem s) (obs s) r (world s).
Definition set_world (w : W) s : St W := mkSt (mem s) (obs s) (resp s) w.

(** Call an interface method. *)
Definition call {A} (f : W → outcome A * W) : M (St W) A := λ s,
  let '(o, w) := f (world s) in (o, set_world w s).

Definition emit (e : ObsEvent) : M (St W) unit :=
  modify (λ s, mkSt (mem s) (obs s ++ [e]) (resp s) (world s)).

Definition alloc (b : bytes) (cap : nat) : M (St W) Slice := λ s,
  let '(sl, m) := mem_alloc (mem s) b cap in (Ret sl, set_mem m s).

Definition read_slice (sl : Slice) : M (St W) bytes := λ s, (Ret (slice_bytes (mem s) sl), s).

(** passwordcrypto.ZeroBytes; a nil slice is [None]. *)
Definition ZeroBytes (sl : option Slice) : M (St W) unit :=
  match sl with
  | Some sl => modify (λ s, set_mem (mem_zero (mem s) sl) s)
  | None => mret tt
  end.

(** w.WriteHeader: only the first call sets the status of the response. *)
Definition WriteHeader (status : Z) : M (St W) unit :=
  modify (λ s, let r := resp s in
    set_resp (mkResponse (if r_status r =? 0 then status else r_status r) (r_header r) (r_body r) status) s).

(** w.Header().Set: headers sent with the status can no longer change. *)
Definition SetHeader (key value : string) : M (St W) unit :=
  modify (λ s, let r := resp s in
    if r_status r =? 0
    then set_resp (mkResponse (r_status r) (<[key := value]> (r_header r)) (r_body r) (r_recorded r)) s
    else s).

(** w.Write: an unset status becomes 200. *)
Definition WriteBody (b : string) : M (St W) unit :=
  modify (λ s, let r := resp s in
    set_resp (mkResponse (if r_status r =? 0 then 200 else r_status r) (r_header r) (r_body r ++ [b])
                (if r_recorded r =? 0 then 200 else r_recorded r)) s).
End Ops.

(** ** Contexts

    A [context.Context] as the request path uses it: the request id stored by
    package requestid and the error [Err()] reports at the time of the call. *)
Record Context := mkContext {
  ctx_request_id : option string;
  ctx_err : option error
}.

(** Unfold the statement combinators of a component definition. *)
Ltac step_go :=
  unfold mbind, M_bind, mret, M_ret, defer_, recover_, call, emit, modify, get, panic,
    read_slice, set_mem, set_resp, set_world; cbn [world mem obs resp].

(** Reduce the control structure of a statement without touching arithmetic. *)
Tactic Notation "red_go" "in" hyp(H) :=
  cbn beta iota zeta delta [world mem obs resp set_world set_mem set_resp fst snd] in H.
Tactic Notation "red_go" := cbn beta iota zeta delta [world mem obs resp set_world set_mem set_resp fst snd].

(** ** Inversion of statements *)

Lemma mret_inv {S A} (a : A) (s : S) o s' :
  (mret a : M S A) s = (o, s') → o = Ret a ∧ s' = s.
Proof. intros H. by injection H as <- <-. Qed.

Lemma bind_inv {S A B} (m : M S A) (f : A → M S B) s o s' :
  (m ≫= f) s = (o, s') →
  (∃ a s1, m s = (Ret a, s1) ∧ f a s1 = (o, s')) ∨ (∃ v, m s = (Panic v, s') ∧ o = Panic v).
Proof.
  unfold mbind, M_bind. destruct (m s) as [[a|v] s1]; [eauto|].
  intros [= <- <-]. eauto.
Qed.

Lemma call_inv {W A} (f : W → outcome A * W) (s : St W) o s' :
  call f s = (o, s') → ∃ w', f (world s) = (o, w') ∧ s' = set_world w' s.
Proof. unfold call. destruct (f (world s)) as [o1 w1]. intros [= <- <-]. eauto. Qed.

Lemma emit_inv {W} e (s : St W) o s' :
  emit e s = (o, s') → o = Ret tt ∧ s' = mkSt (mem s) (obs s ++ [e]) (resp s) (world s).
Proof. intros H. by injection H as <- <-. Qed.

(** Composition rules, for running a statement forwards. *)
Lemma bind_ret {S A B} (m : M S A) (f : A → M S B) s a s1 :
  m s = (Ret a, s1) → (m ≫= f) s = f a s1.
Proof. unfold mbind, M_bind. by intros ->. Qed.

Lemma bind_panic {S A B} (m : M S A) (f : A → M S B) s v s1 :
  m s = (Panic v, s1) → (m ≫= f) s = (Panic v, s1).
Proof. unfold mbind, M_bind. by intros ->. Qed.

Lemma call_run {W A} (f : W → outcome A * W) (s : St W) o w' :
  f (world s) = (o, w') → call f s = (o, set_world w' s).
Proof. unfold call. by intros ->. Qed.

Lemma defer_run {S A} (f : M S unit) (m : M S A) s o s1 s2 :
  m s = (o, s1) → f s1 = (Ret tt, s2) → defer_ f m s = (o, s2).
Proof. unfold defer_. by intros -> ->. Qed.
