(* ===== verification/HookJson.v ===== *)
(** * The password decoder of the hook (internal/handler/hook.go)

    [decodeJSONStringBytes] unquotes a JSON string into a buffer that can be
    wiped.  The index loop of the source is a recursion over the rest of the
    text between the quotes; what it has written when it stops with an error
    is part of its result, because the deferred function wipes it. *)
From stdpp Require Import base strings list.
From Stdlib Require Import ZArith Lia.
From S2P Require Import Prelude Utf8 GoStrings GoTime Json GoBase Observability GoState.

Local Open Scope Z_scope.

(** A digit of hex4. *)
Definition hex4_digit (b : Z) : option Z :=
  if (48 <=? b) && (b <=? 57) then Some (b - 48)
  else if (97 <=? b) && (b <=? 102) then Some (b - 97 + 10)
  else if (65 <=? b) && (b <=? 70) then Some (b - 65 + 10)
  else None.

Definition byte_string (b : Z) : string := string_of_bytes [b].

Fixpoint hex4_loop (r : Z) (data : bytes) : result Z :=
  match data with
  | [] => Ok r
  | b :: data' =>
    match hex4_digit b with
    | Some d => hex4_loop (Z.shiftl r 4 + d) data'
    | None => Err (ErrorQuoted "password contains invalid unicode escape byte" (byte_string b))
    end
  end.

Definition hex4 (data : bytes) : result Z := hex4_loop 0 data.

(** The rune and the number of bytes after the u. *)
Definition decodeUnicodeEscape (data : bytes) : result (Z * nat) :=
  if (length data <? 4)%nat then Err (ErrorText "password contains short unicode escape")
  else
    match hex4 (take 4 data) with
    | Err e => Err e
    | Ok r =>
      if negb (IsSurrogate r) then Ok (r, 4%nat)
      else if (r <? 0xD800) || (0xDBFF <? r) then Ok (RuneError, 4%nat)
      else if (length data <? 10)%nat || negb (nth 4 data 0 =? 92) || negb (nth 5 data 0 =? 117)
      then Ok (RuneError, 4%nat)
      else
        match hex4 (take 4 (drop 6 data)) with
        | Err _ => Ok (RuneError, 4%nat)
        | Ok low =>
          let decoded := DecodeSurrogates r low in
          if decoded =? RuneError then Ok (RuneError, 4%nat) else Ok (decoded, 10%nat)
        end
    end.

(** One turn of the loop at a non-empty rest: bytes appended, bytes read. *)
Definition password_step (s : bytes) : result (bytes * nat) :=
  match s with
  | [] => Ok ([], 0%nat)
  | b :: s1 =>
    if negb (b =? 92) then
      if b =? 34 then Err (ErrorText "password contains invalid unescaped json string terminator")
      else if b <? 0x20 then Err (ErrorText "password contains invalid json string control character")
      else if b <? RuneSelf then Ok ([b], 1%nat)
      else let '(r, size) := decode_rune s in Ok (encode_rune r, size)
    else
      match s1 with
      | [] => Err (ErrorText "password contains invalid json escape")
      | e :: s2 =>
        if (e =? 34) || (e =? 92) || (e =? 47) then Ok ([e], 2%nat)
        else if e =? 98 then Ok ([8], 2%nat)
        else if e =? 102 then Ok ([12], 2%nat)
        else if e =? 110 then Ok ([10], 2%nat)
        else if e =? 114 then Ok ([13], 2%nat)
        else if e =? 116 then Ok ([9], 2%nat)
        else if e =? 117 then
          match decodeUnicodeEscape s2 with
          | Err err => Err err
          | Ok (r, consumed) => Ok (encode_rune r, (2 + consumed)%nat)
          end
        else Err (ErrorQuoted "password contains invalid json escape" (byte_string e))
      end
  end.

(** The loop: what is in [out] at the end, and the error if there is one. *)
Fixpoint password_loop (skip : nat) (s : bytes) : bytes * option error :=
  match s with
  | [] => ([], None)
  | _ :: s' =>
    match skip with
    | S k => password_loop k s'
    | O =>
      match password_step s with
      | Err e => ([], Some e)
      | Ok (out, n) => let '(t, err) := password_loop (n - 1) s' in (out ++ t, err)
      end
    end
  end.

(** data[0] and data[len(data)-1] are quotes. *)
Definition quoted (data : bytes) : bool :=
  (2 <=? length data)%nat && (nth 0 data 0 =? 34) && (nth (length data - 1) data 0 =? 34).

Section Decode.
Context {W : Type}.

(** decodeJSONStringBytes; [maxBytesPerInvalidUTF8Byte] is 3. *)
Definition decodeJSONStringBytes (data : bytes) : M (St W) (result Slice) :=
  if negb (quoted data) then mret (Err (ErrorText "password must be a json string"))
  else
    let inner := take (length data - 2) (drop 1 data) in
    let '(out, err) := password_loop 0 inner in
    sl ← alloc out ((length data - 2) * 3);
    match err with
    | Some e => ZeroBytes (Some sl) ;; mret (Err e)
    | None => mret (Ok sl)
    end.

(** passwordBytes.UnmarshalJSON on the raw text of a value: the new slice
    and the error. *)
Definition UnmarshalJSON (p : option Slice) (v : json) : M (St W) (option Slice * option error) :=
  ZeroBytes p ;;
  match v with
  | JNull => mret (None, None)
  | JStr raw =>
    r ← decodeJSONStringBytes (34 :: raw ++ [34]);
    match r with
    | Ok sl => mret (Some sl, None)
    | Err e => mret (None, Some e)
    end
  | _ => mret (None, Some (ErrorText "password must be a json string"))
  end.
End Decode.

(** ** Agreement with encoding/json *)

Lemma hex4_digit_is_hex b : hex4_digit b = if is_hex b then Some (hex_num b) else None.
Proof.
  unfold hex4_digit, is_hex, hex_num, within. destruct ((48 <=? b) && (b <=? 57)); [done|].
  destruct ((97 <=? b) && (b <=? 102)); [done|]. by destruct ((65 <=? b) && (b <=? 70)).
Qed.

(** Four hex digits as hex4 and getu4 read them. *)
Definition u4_value (h1 h2 h3 h4 : Z) : Z :=
  ((hex_num h1 * 16 + hex_num h2) * 16 + hex_num h3) * 16 + hex_num h4.

Lemma hex4_spec h1 h2 h3 h4 :
  match hex4 [h1; h2; h3; h4] with
  | Ok r => is_hex h1 && is_hex h2 && is_hex h3 && is_hex h4 = true ∧ r = u4_value h1 h2 h3 h4
  | Err _ => is_hex h1 && is_hex h2 && is_hex h3 && is_hex h4 = false
  end.
Proof.
  unfold hex4, u4_value. cbn [hex4_loop]. rewrite !hex4_digit_is_hex.
  destruct (is_hex h1), (is_hex h2), (is_hex h3), (is_hex h4); cbn; try done. split; [done|].
  rewrite !Z.shiftl_mul_pow2 by lia. change (2 ^ 4) with 16. lia.
Qed.

(** The raw texts the JSON scanner accepts between two quotes. *)
Inductive json_text : bytes → Prop :=
  | text_nil : json_text []
  | text_plain c t : c ≠ 34 → c ≠ 92 → 32 <= c → json_text t → json_text (c :: t)
  | text_escape e t : e ∈ [34; 92; 47; 98; 102; 110; 114; 116] → json_text t → json_text (92 :: e :: t)
  | text_unicode h1 h2 h3 h4 t :
      is_hex h1 && is_hex h2 && is_hex h3 && is_hex h4 = true → json_text t →
      json_text (92 :: 117 :: h1 :: h2 :: h3 :: h4 :: t).

Lemma text_unicode_inv g1 g2 g3 g4 t : json_text (92 :: 117 :: g1 :: g2 :: g3 :: g4 :: t) → json_text t.
Proof.
  assert (117 ∉ [34; 92; 47; 98; 102; 110; 114; 116]) as Hn by (apply (bool_decide_unpack _); by vm_compute).
  intros H. by inversion H.
Qed.

Lemma scan_string_text s raw rest : scan_string s = Some (raw, rest) → json_text raw.
Proof.
  revert s raw rest. fix IH 1. intros [|c s1] raw rest; cbn [scan_string]; [done|].
  destruct (Z.eqb_spec c 34); [intros [= <- _]; constructor|]. destruct (Z.eqb_spec c 92) as [->|].
  - destruct s1 as [|e s2]; [done|]. case_bool_decide.
    + destruct (scan_string s2) as [[b r]|] eqn:E; [|done]. intros [= <- _].
      apply text_escape; [done|by eapply IH].
    + destruct (Z.eqb_spec e 117) as [->|]; [|done].
      destruct s2 as [|h1 [|h2 [|h3 [|h4 s3]]]]; try done. case_if; [|done].
      destruct (scan_string s3) as [[b r]|] eqn:E; [|done]. intros [= <- _].
      apply text_unicode; [done|by eapply IH].
  - destruct (Z.ltb_spec c 32); [done|].
    destruct (scan_string s1) as [[b r]|] eqn:E; [|done]. intros [= <- _].
    apply text_plain; [done..|by eapply IH].
Qed.

Lemma encode_rune_high r : (2 <= length (encode_rune r))%nat → Forall (λ b, 0x80 <= b) (encode_rune r).
Proof.
  unfold encode_rune. destruct (within 0 127 r) eqn:E1; [cbn; lia|].
  intros _. destruct (within 128 2047 r) eqn:E2; [apply within_iff in E2; repeat constructor; zdiv|].
  destruct (negb (scalar r)) eqn:E3; [repeat constructor; lia|]. bool_hyps. apply scalar_iff in E3.
  unfold within in E1, E2. repeat constructor; case_if; bool_hyps; repeat constructor; zdiv.
Qed.

Lemma text_high_drop l t : Forall (λ b, 0x80 <= b) l → json_text (l ++ t) → json_text t.
Proof.
  induction 1 as [|b l Hb Hl IH]; [done|]. cbn [app]. intros H. apply IH.
  inversion H; subst; first [done|lia].
Qed.

(** The two surrogate tests agree on four-digit values. *)
Lemma u4_value_range h1 h2 h3 h4 :
  is_hex h1 && is_hex h2 && is_hex h3 && is_hex h4 = true → 0 <= u4_value h1 h2 h3 h4 < 65536.
Proof.
  assert (∀ h, is_hex h = true → 0 <= hex_num h < 16) as Hh.
  { intros h. unfold is_hex, hex_num, within.
    destruct ((48 <=? h) && (h <=? 57)) eqn:A; [bool_hyps; lia|].
    destruct ((97 <=? h) && (h <=? 102)) eqn:B; [bool_hyps; lia|]. cbn. intros C. bool_hyps. lia. }
  intros H. apply andb_prop in H as [H H4]. apply andb_prop in H as [H H3]. apply andb_prop in H as [H1 H2].
  apply Hh in H1, H2, H3, H4. unfold u4_value. lia.
Qed.

Lemma getu4_text h1 h2 h3 h4 t : is_hex h1 && is_hex h2 && is_hex h3 && is_hex h4 = true →
  getu4 (92 :: 117 :: h1 :: h2 :: h3 :: h4 :: t) = u4_value h1 h2 h3 h4.
Proof. intros H. unfold getu4. rewrite !Z.eqb_refl. cbn [andb]. by rewrite H. Qed.

Lemma getu4_not t : (∀ h1 h2 h3 h4 t', t = 92 :: 117 :: h1 :: h2 :: h3 :: h4 :: t' →
    is_hex h1 && is_hex h2 && is_hex h3 && is_hex h4 = false) → getu4 t = -1.
Proof.
  intros H. unfold getu4. destruct t as [|b [|u [|h1 [|h2 [|h3 [|h4 t']]]]]]; try done.
  destruct (Z.eqb_spec b 92) as [->|]; [|done]. destruct (Z.eqb_spec u 117) as [->|]; [|done]. cbn [andb].
  by rewrite (H h1 h2 h3 h4 t' eq_refl).
Qed.

(** The unicode escape, as both decoders read it. *)
Lemma unicode_escape_agrees h1 h2 h3 h4 t :
  is_hex h1 && is_hex h2 && is_hex h3 && is_hex h4 = true → json_text t →
  ∃ r consumed, decodeUnicodeEscape (h1 :: h2 :: h3 :: h4 :: t) = Ok (r, consumed) ∧
    unquote_step (92 :: 117 :: h1 :: h2 :: h3 :: h4 :: t) = Some (encode_rune r, (2 + consumed)%nat) ∧
    ((consumed = 4%nat) ∨ (consumed = 10%nat ∧ json_text (drop 6 t))).
Proof.
  intros Hhex Ht. unfold unquote_step. cbn [Z.eqb Pos.eqb]. change (bool_decide (117 ∈ [34; 92; 47; 39])) with false.
  rewrite getu4_text by done. set (rr := u4_value h1 h2 h3 h4).
  pose proof (u4_value_range _ _ _ _ Hhex) as Hr. fold rr in Hr.
  rewrite (proj2 (Z.ltb_ge rr 0)) by lia.
  change (drop 6 (92 :: 117 :: h1 :: h2 :: h3 :: h4 :: t)) with t.
  unfold decodeUnicodeEscape. change (take 4 (h1 :: h2 :: h3 :: h4 :: t)) with [h1; h2; h3; h4].
  change (drop 6 (h1 :: h2 :: h3 :: h4 :: t)) with (drop 2 t). cbn [length Nat.ltb Nat.leb nth].
  pose proof (hex4_spec h1 h2 h3 h4) as Hx. destruct (hex4 [h1; h2; h3; h4]) as [r|e]; [|by rewrite Hhex in Hx].
  destruct Hx as [_ ->]. fold rr. destruct (IsSurrogate rr) eqn:Es; cbn [negb]; [|exists rr, 4%nat; auto].
  unfold IsSurrogate in Es. apply within_iff in Es.
  assert (∀ x, (x = RuneError → ∃ r consumed, Ok (RuneError, 4%nat) = Ok (r, consumed) ∧
    (if negb (x =? RuneError) then Some (encode_rune x, 12%nat) else Some (encode_rune RuneError, 6%nat))
      = Some (encode_rune r, (2 + consumed)%nat) ∧ (consumed = 4%nat ∨ consumed = 10%nat ∧ json_text (drop 6 t))))
    as Hbad by (intros x ->; exists RuneError, 4%nat; auto).
  destruct ((rr <? 55296) || (56319 <? rr)) eqn:Eh.
  { apply Hbad. unfold DecodeSurrogates. rewrite (within_false 55296 56319) by (apply orb_prop in Eh as [Eh|Eh]; bool_hyps; lia).
    done. }
  bool_hyps.
  assert (∀ low, within 56320 57343 low = false → DecodeSurrogates rr low = RuneError) as Hlow.
  { intros low Hl. unfold DecodeSurrogates. by rewrite Hl, andb_false_r. }
  destruct t as [|b [|u [|g1 [|g2 [|g3 [|g4 t']]]]]]; try (by apply Hbad, Hlow).
  cbn [length Nat.ltb Nat.leb orb nth]. destruct (Z.eqb_spec b 92) as [->|Hb]; cbn [negb orb].
  2: { apply Hbad. rewrite getu4_not by (intros ????? [= -> _]; done). by apply Hlow. }
  destruct (Z.eqb_spec u 117) as [->|Hu]; cbn [negb].
  2: { apply Hbad. rewrite getu4_not by (intros ????? [= -> _]; done). by apply Hlow. }
  change (take 4 (drop 2 (92 :: 117 :: g1 :: g2 :: g3 :: g4 :: t'))) with [g1; g2; g3; g4].
  pose proof (hex4_spec g1 g2 g3 g4) as Hx. destruct (hex4 [g1; g2; g3; g4]) as [low|e].
  2: { apply Hbad. rewrite getu4_not by (by intros ????? [= <- <- <- <- _]). by apply Hlow. }
  destruct Hx as [Hg ->]. rewrite getu4_text by done.
  destruct (Z.eqb_spec (DecodeSurrogates rr (u4_value g1 g2 g3 g4)) RuneError) as [E|E]; cbn [negb].
  - exists RuneError, 4%nat. auto.
  - eexists _, 10%nat. split; [done|]. split; [done|]. right. split; [done|]. by eapply text_unicode_inv.
Qed.

Lemma simple_escape_agrees e t : e ∈ [34; 92; 47; 98; 102; 110; 114; 116] →
  ∃ out, unquote_step (92 :: e :: t) = Some (out, 2%nat) ∧ password_step (92 :: e :: t) = Ok (out, 2%nat) ∧
         (length out <= 3)%nat ∧ Utf8 out.
Proof.
  intros He. repeat (apply elem_of_cons in He as [->|He]; [eexists; split; [reflexivity|];
    split; [reflexivity|]; split; [cbn; lia|apply Utf8_ascii; lia]|]). by apply not_elem_of_nil in He.
Qed.

(** One turn of the loop agrees with one step of encoding/json. *)
Lemma step_agrees raw : json_text raw → raw ≠ [] →
  ∃ out n, unquote_step raw = Some (out, n) ∧ password_step raw = Ok (out, n) ∧ (1 <= n <= length raw)%nat ∧
    (length out <= 3 * n)%nat ∧ Utf8 out ∧ json_text (drop n raw).
Proof.
  intros H Hne. destruct H as [|c t H34 H92 H32 Ht|e t He Ht|h1 h2 h3 h4 t Hh Ht]; [done|..].
  - unfold unquote_step, password_step. rewrite (proj2 (Z.eqb_neq c 92)), (proj2 (Z.eqb_neq c 34)) by done.
    rewrite (proj2 (Z.ltb_ge c 32)) by lia. cbn [negb orb].
    destruct (Z.ltb_spec c RuneSelf) as [Hc|Hc].
    + exists [c], 1%nat. split_and!; try done; [cbn; lia|cbn; lia|]. apply Utf8_ascii. unfold RuneSelf in Hc. lia.
    + destruct (decode_rune (c :: t)) as [r n] eqn:Ed. exists (encode_rune r), n.
      pose proof (decode_rune_width _ _ _ Ed ltac:(done)) as [Hn Hlen].
      split_and!; try done; try lia; [|apply Utf8_rune|].
      * pose proof (encode_rune_nonempty r). apply decode_rune_cases in Ed
          as [(?&_&_)|[(_&->&->)|[(b0&l&[= <- <-]&Hb&_&_)|(_&->&_&_)]]]; [done|cbn; lia|unfold RuneSelf in Hc; lia|lia].
      * apply decode_rune_cases in Ed as [(?&_&_)|[(_&->&->)|[(b0&l&[= <- <-]&Hb&_&->)|(_&->&H2&l&Hl)]]];
          [done|done|done|].
        rewrite Hl, drop_app_length. eapply text_high_drop; [by apply encode_rune_high|]. rewrite <- Hl.
        by apply text_plain.
  - destruct (simple_escape_agrees e t He) as (out&Hu&Hp&Hl&Hutf). exists out, 2%nat.
    split_and!; try done; cbn; lia.
  - destruct (unicode_escape_agrees h1 h2 h3 h4 t Hh Ht) as (r&consumed&Hd&Hu&Hc).
    exists (encode_rune r), (2 + consumed)%nat. split; [done|].
    assert (password_step (92 :: 117 :: h1 :: h2 :: h3 :: h4 :: t) = Ok (encode_rune r, (2 + consumed)%nat)) as Hp.
    { unfold password_step. cbn [Z.eqb Pos.eqb negb orb]. by rewrite Hd. }
    pose proof (encode_rune_nonempty r). destruct Hc as [->|[-> Ht']].
    + split_and!; try done; cbn [length Nat.add]; try lia. apply Utf8_rune.
    + assert (6 <= length t)%nat as Hlen.
      { destruct (decide (6 <= length t)%nat); [done|exfalso]. unfold decodeUnicodeEscape in Hd.
        cbn [length] in Hd. rewrite (proj2 (Nat.ltb_lt _ 10)) in Hd by lia.
        repeat case_match; by simplify_eq. }
      split_and!; try done; try (cbn [length Nat.add]; lia). apply Utf8_rune.
Qed.

Lemma decode_loop_skip step k s : decode_loop step k s = decode_loop step 0 (drop k s).
Proof. revert s. induction k as [|k IH]; intros s; [done|]. destruct s; [done|]. apply IH. Qed.

Lemma password_loop_skip k s : password_loop k s = password_loop 0 (drop k s).
Proof. revert s. induction k as [|k IH]; intros s; [done|]. destruct s; [done|]. apply IH. Qed.

Lemma drop_step (n : nat) (c : Z) (s : bytes) : (1 <= n)%nat → drop (n - 1) s = drop n (c :: s).
Proof. intros H. destruct n; [lia|]. cbn. by rewrite Nat.sub_0_r. Qed.

(** On every text the scanner accepts, the loop succeeds with the bytes
    encoding/json would decode, at most three per byte read. *)
Lemma password_loop_text raw : json_text raw →
  ∃ b, unquote raw = Some b ∧ password_loop 0 raw = (b, None) ∧ (length b <= 3 * length raw)%nat ∧ Utf8 b.
Proof.
  unfold unquote. remember (length raw) as k eqn:Hk. revert raw Hk.
  induction k as [k IH] using (well_founded_induction lt_wf). intros raw -> H.
  destruct raw as [|c s]; [exists []; split_and!; try done; apply Utf8_nil|].
  destruct (step_agrees (c :: s) H ltac:(done)) as (out&n&Hu&Hp&Hn&Hl&Hutf&Hrest).
  destruct (IH (length (drop n (c :: s))) ltac:(rewrite length_drop; cbn in *; lia) _ eq_refl Hrest)
    as (b&Hb1&Hb2&Hbl&Hbu).
  exists (out ++ b). cbn [decode_loop password_loop].
  rewrite Hu, Hp, decode_loop_skip, password_loop_skip, !(drop_step n c s), Hb1, Hb2 by lia.
  split_and!; [done|done| |by apply Utf8_app]. rewrite length_app. rewrite length_drop in Hbl. cbn in *. lia.
Qed.

(** ** Memory behaviour *)

(** Every buffer from index [k] on is zero, but the one [p] points to, whose
    bytes beyond [p]'s length are zero. *)
Definition only_secret (k : nat) (p : option Slice) (m : Mem) : Prop :=
  (∀ sl, p = Some sl → (k <= s_loc sl < length m)%nat) ∧
  ∀ i b, (k <= i)%nat → m !! i = Some b →
    match p with
    | Some sl => if bool_decide (i = s_loc sl) then all_zero (drop (s_len sl) b) else all_zero b
    | None => all_zero b
    end.

Lemma only_secret_zero k p m : only_secret k p m →
  only_secret k None (match p with Some sl => mem_zero m sl | None => m end).
Proof.
  intros [Hloc Hb]. split; [done|]. destruct p as [sl|]; [|done]. intros i b Hi Hm. unfold mem_zero in Hm.
  destruct (decide (i = s_loc sl)) as [->|Hne].
  - rewrite list_lookup_alter_eq in Hm. apply fmap_Some in Hm as (b0&Hb0&->).
    specialize (Hb _ _ Hi Hb0). rewrite bool_decide_true in Hb by done.
    unfold zero_prefix. apply Forall_app. split; [|done]. apply Forall_map, Forall_true. done.
  - rewrite list_lookup_alter_ne in Hm by done. specialize (Hb _ _ Hi Hm). by rewrite bool_decide_false in Hb.
Qed.

Lemma only_secret_alloc k b cap m : (k <= length m)%nat → only_secret k None m →
  only_secret k (Some (mem_alloc m b cap).1) (mem_alloc m b cap).2.
Proof.
  intros Hk [_ Hm]. unfold mem_alloc. cbn [fst snd]. split.
  - intros sl [= <-]. cbn [s_loc]. rewrite length_app. cbn. lia.
  - intros i b0 Hi Hb. cbn [s_loc s_len]. case_bool_decide as E.
    + subst i. rewrite lookup_app_r, Nat.sub_diag in Hb by lia. injection Hb as <-.
      rewrite drop_app_length. apply Forall_replicate. done.
    + pose proof (lookup_lt_Some _ _ _ Hb) as Hlt. rewrite length_app in Hlt. cbn in Hlt.
      rewrite lookup_app_l in Hb by lia. by eapply Hm.
Qed.

Section DecodeMemory.
Context {W : Type}.
Implicit Types st : St W.

(** What decoding does to the state: it allocates at most one buffer, which
    is all zero unless it is returned. *)
Lemma decodeJSONStringBytes_memory k data st : (k <= length (mem st))%nat → only_secret k None (mem st) →
  ∃ r m', decodeJSONStringBytes data st = (Ret r, set_mem m' st) ∧ take k m' = take k (mem st) ∧
    (length (mem st) <= length m')%nat ∧
    only_secret k (match r with Ok sl => Some sl | Err _ => None end) m'.
Proof.
  intros Hk Hm. unfold decodeJSONStringBytes. destruct (quoted data); cbn [negb].
  2: { eexists _, (mem st). split; [by destruct st|]. split; [done|]. split; [lia|done]. }
  destruct (password_loop 0 _) as [out err].
  pose proof (only_secret_alloc k out ((length data - 2) * 3) (mem st) Hk Hm) as Ha.
  unfold alloc. step_go. destruct (mem_alloc (mem st) out ((length data - 2) * 3)) as [sl m'] eqn:Em.
  assert (take k m' = take k (mem st) ∧ (length (mem st) <= length m')%nat) as [Htk Hlen].
  { injection Em as <- <-. rewrite length_app. split; [by rewrite take_app_le|lia]. }
  cbn [fst snd] in Ha. destruct err as [e|].
  - pose proof (only_secret_zero _ _ _ Ha) as Hz. eexists _, (mem_zero m' sl). split; [reflexivity|].
    assert (k <= s_loc sl)%nat by (injection Em as <- _; cbn; lia).
    split; [|split; [by rewrite mem_zero_length|done]].
    rewrite <- Htk. apply list_eq. intros j. destruct (decide (j < k)%nat).
    + rewrite !lookup_take_lt by done. unfold mem_zero. by rewrite list_lookup_alter_ne by lia.
    + by rewrite !lookup_take_ge by lia.
  - eexists _, m'. split; [reflexivity|]. done.
Qed.
End DecodeMemory.

(** ** Properties *)

(** C23 The password decoder agrees with encoding/json: for every string
    literal the JSON syntax check accepts, it succeeds and yields exactly the
    bytes json.Unmarshal would put in a Go string (escapes, surrogate pairs,
    lone surrogates and invalid UTF-8 included).  The result is valid UTF-8
    and fits the buffer allocated up front (three bytes per byte of text), so
    no append ever copies the
    password to a second buffer. *)
Theorem password_decoder_agrees {W} (s raw rest : bytes) (st : St W) :
  scan_string s = Some (raw, rest) →
  ∃ b sl m', unquote raw = Some b ∧ Utf8 b ∧ (length b <= 3 * length raw)%nat ∧
    decodeJSONStringBytes (34 :: raw ++ [34]) st = (Ret (Ok sl), set_mem m' st) ∧
    slice_bytes m' sl = b ∧ length m' = S (length (mem st)).
Proof.
  intros H. apply scan_string_text, password_loop_text in H as (b&Hu&Hp&Hl&Hutf).
  assert (length (34 :: raw ++ [34]) = S (S (length raw))) as Hlen by (cbn; rewrite length_app; cbn; lia).
  unfold decodeJSONStringBytes.
  assert (quoted (34 :: raw ++ [34]) = true) as ->.
  { unfold quoted. rewrite Hlen. replace (S (S (length raw)) - 1)%nat with (S (length raw)) by lia.
    cbn [Nat.leb nth Z.eqb Pos.eqb andb]. rewrite app_nth2, Nat.sub_diag by lia. done. }
  cbn [negb]. assert (take (length (34 :: raw ++ [34]) - 2) (drop 1 (34 :: raw ++ [34])) = raw) as ->.
  { rewrite Hlen. replace (S (S (length raw)) - 2)%nat with (length raw) by lia. change (drop 1 (34 :: raw ++ [34])) with (raw ++ [34]).
    by rewrite take_app_length. }
  rewrite Hp. exists b. eexists _, _. split; [done|]. split; [done|]. split; [lia|]. split; [reflexivity|].
  cbn [fst snd]. split; [|rewrite length_app; cbn; lia]. unfold slice_bytes. cbn [s_loc s_len].
  rewrite lookup_app_r, Nat.sub_diag by lia. cbn. by rewrite take_app_length.
Qed.

(** The literal of the word with an escaped quote, a pair and a lone surrogate. *)
Definition sample_literal : bytes :=
  bytes_of_string "a\u00e9\ud83d\ude00\ud800x" ++ [92; 34; 255; 34; 125].

Lemma password_decoder_agrees_witness : ∃ b sl m',
    unquote (bytes_of_string "a\u00e9\ud83d\ude00\ud800x" ++ [92; 34; 255]) = Some b ∧ Utf8 b ∧
    (length b <= 3 * length (bytes_of_string "a\u00e9\ud83d\ude00\ud800x" ++ [92%Z; 34%Z; 255%Z]))%nat ∧
    decodeJSONStringBytes (34 :: (bytes_of_string "a\u00e9\ud83d\ude00\ud800x" ++ [92; 34; 255]) ++ [34])
      (mkSt [] [] NewResponse tt) = (Ret (Ok sl), set_mem m' (mkSt [] [] NewResponse tt)) ∧
    slice_bytes m' sl = b ∧ length m' = 1%nat.
Proof.
  apply (password_decoder_agrees sample_literal _ [125] (mkSt [] [] NewResponse tt)).
  vm_compute. reflexivity.
Defined.
