(* ===== verification/JsonPrint.v ===== *)
(** * Printing JSON, and reading it back

    A compact printer for the values the service writes (strings, booleans,
    null, arrays, objects) and the theorem that the parser of Json.v reads
    back what it prints.  The request bodies of the graph client and the
    messages on the queue are shown to be instances of it. *)
From stdpp Require Import base strings list.
From Stdlib Require Import ZArith Lia.
From S2P Require Import Prelude Utf8 GoStrings GoTime Json GoBase HookJson.

Local Open Scope Z_scope.

(** Elements separated by commas. *)
Fixpoint commas (l : list bytes) : bytes :=
  match l with
  | [] => []
  | [x] => x
  | x :: l' => x ++ 44 :: commas l'
  end.

Definition print_string (raw : bytes) : bytes := 34 :: raw ++ [34].

Fixpoint print (v : json) : bytes :=
  match v with
  | JNull => bytes_of_string "null"
  | JBool true => bytes_of_string "true"
  | JBool false => bytes_of_string "false"
  | JNum raw => raw
  | JStr raw => print_string raw
  | JArr es => 91 :: commas (map print es) ++ [93]
  | JObj ms => 123 :: commas (map (λ kv, print_string kv.1 ++ 58 :: print kv.2) ms) ++ [125]
  end.

Definition print_member (kv : bytes * json) : bytes := print_string kv.1 ++ 58 :: print kv.2.

(** Values without numbers whose strings the scanner accepts, nested at most
    [n] deep. *)
Fixpoint printable (n : nat) (v : json) : Prop :=
  match v with
  | JNull | JBool _ => True
  | JNum _ => False
  | JStr raw => json_text raw
  | JArr es => match n with O => False | S n => Forall (printable n) es end
  | JObj ms => match n with O => False | S n => Forall (λ kv, json_text kv.1 ∧ printable n kv.2) ms end
  end.

Lemma scan_text raw rest : json_text raw → scan_string (raw ++ 34 :: rest) = Some (raw, rest).
Proof.
  induction 1 as [|c t H34 H92 H32 Ht IH|e t He Ht IH|h1 h2 h3 h4 t Hh Ht IH]; cbn [app scan_string].
  - done.
  - rewrite (proj2 (Z.eqb_neq c 34)), (proj2 (Z.eqb_neq c 92)), (proj2 (Z.ltb_ge c 32)) by done. by rewrite IH.
  - cbn [Z.eqb Pos.eqb]. rewrite bool_decide_true by done. by rewrite IH.
  - cbn [Z.eqb Pos.eqb]. change (bool_decide (117 ∈ [34; 92; 47; 98; 102; 110; 114; 116])) with false.
    cbn [Z.eqb Pos.eqb]. by rewrite Hh, IH.
Qed.

Lemma commas_cons x l : l ≠ [] → commas (x :: l) = x ++ 44 :: commas l.
Proof. by destruct l. Qed.

Lemma skip_ws_quote t : skip_ws (34 :: t) = 34 :: t.
Proof. done. Qed.

(** A printed value starts with a character that is neither white space nor a
    closing bracket. *)
Lemma print_head n v : printable n v → ∃ c t, print v = c :: t ∧ is_ws c = false ∧ c ≠ 93 ∧ c ≠ 125.
Proof.
  destruct v as [|[]| |raw|es|ms]; intros H; [..|by destruct n| | |]; eexists _, _;
    (split; [reflexivity|]); done.
Qed.

Section RoundTrip.
Variable (n : nat).
Hypothesis IHn : ∀ v fuel depth rest, printable n v → (2 * length (print v ++ rest) < fuel)%nat →
  depth + Z.of_nat n <= maxNestingDepth → parse_value fuel depth (print v ++ rest) = Some (v, rest).

Lemma parse_printed_members ms : ∀ fuel depth rest,
  ms ≠ [] → Forall (λ kv, json_text kv.1 ∧ printable n kv.2) ms →
  (2 * length (commas (map print_member ms) ++ 125%Z :: rest) + 1 < fuel)%nat → depth + Z.of_nat n <= maxNestingDepth →
  parse_members fuel depth (commas (map print_member ms) ++ 125 :: rest) = Some (ms, rest).
Proof.
  induction ms as [|[k v] ms IH]; intros fuel depth rest Hne Hall Hfuel Hd; [done|].
  apply Forall_cons in Hall as [[Hk Hv] Hall]. cbn [fst snd] in Hk, Hv.
  assert (∀ tail, (commas (map print_member ((k, v) :: ms)) ++ 125 :: rest) = 34 :: k ++ 34 :: 58 :: print v ++ tail →
    (∃ d t, tail = d :: t ∧ is_ws d = false ∧
      (if d =? 125 then Some ([(k, v)], t) else if d =? 44 then
         match parse_members (pred fuel) depth t with Some (ms', r) => Some ((k, v) :: ms', r) | None => None end
       else None) = Some ((k, v) :: ms, rest)) →
    parse_members fuel depth (commas (map print_member ((k, v) :: ms)) ++ 125 :: rest) = Some ((k, v) :: ms, rest)) as Hstep.
  { intros tail Heq (d&t&->&Hws&Hres). rewrite Heq in *. destruct fuel as [|fuel]; [lia|]. cbn [pred] in Hres.
    cbn [parse_members]. rewrite skip_ws_quote. cbn [Z.eqb Pos.eqb negb]. rewrite scan_text by done.
    change (skip_ws (58 :: print v ++ d :: t)) with (58 :: print v ++ d :: t). cbn [Z.eqb Pos.eqb negb].
    rewrite IHn; [|done| |done].
    - cbn [skip_ws]. rewrite Hws. done.
    - cbn [length] in Hfuel. rewrite length_app in Hfuel. cbn [length] in Hfuel. lia. }
  destruct ms as [|kv ms].
  - apply (Hstep (125 :: rest)).
    + cbn [map commas]. unfold print_member, print_string. cbn. by rewrite <- !app_assoc.
    + exists 125, rest. done.
  - apply (Hstep (44 :: commas (map print_member (kv :: ms)) ++ 125 :: rest)).
    + cbn [map]. rewrite commas_cons by done. unfold print_member at 1, print_string. cbn.
      by rewrite <- !app_assoc.
    + eexists 44, _. split; [done|]. split; [done|]. cbn [Z.eqb Pos.eqb].
      rewrite IH; [done|done|done| |done].
      cbn [map] in Hfuel. rewrite commas_cons in Hfuel by done. rewrite <- app_assoc, length_app in Hfuel.
      cbn [map app length] in *. rewrite ?length_app in *. lia.
Qed.

Lemma parse_printed_elems es : ∀ fuel depth rest,
  es ≠ [] → Forall (printable n) es →
  (2 * length (commas (map print es) ++ 93%Z :: rest) + 1 < fuel)%nat → depth + Z.of_nat n <= maxNestingDepth →
  parse_elems fuel depth (commas (map print es) ++ 93 :: rest) = Some (es, rest).
Proof.
  induction es as [|v es IH]; intros fuel depth rest Hne Hall Hfuel Hd; [done|].
  apply Forall_cons in Hall as [Hv Hall]. destruct fuel as [|fuel]; [lia|].
  destruct es as [|v' es].
  - cbn [map commas] in *. cbn [parse_elems]. rewrite IHn; [done|done|lia|done].
  - cbn [map] in Hfuel |- *. rewrite commas_cons in Hfuel |- * by done. rewrite <- app_assoc in Hfuel |- *.
    cbn [app] in Hfuel |- *. cbn [parse_elems]. rewrite IHn; [|done|lia|done]. cbn [skip_ws].
    change (is_ws 44) with false. cbn [Z.eqb Pos.eqb].
    assert (parse_elems fuel depth (commas (map print (v' :: es)) ++ 93 :: rest) = Some (v' :: es, rest)) as HIH.
    { apply IH; [done|done| |done]. rewrite length_app in Hfuel. cbn [map length] in *. lia. }
    cbn [map] in HIH. by rewrite HIH.
Qed.
End RoundTrip.

(** What the printer prints, the parser reads back. *)
Lemma parse_print n : ∀ v fuel depth rest,
  printable n v → (2 * length (print v ++ rest) < fuel)%nat → depth + Z.of_nat n <= maxNestingDepth →
  parse_value fuel depth (print v ++ rest) = Some (v, rest).
Proof.
  induction n as [|n IH]; intros v fuel depth rest Hp Hfuel Hd; (destruct fuel as [|fuel]; [lia|]);
    destruct v as [|[]| |raw|es|ms]; cbn [printable] in Hp; try done.
  1,2: cbn [print print_string app parse_value]; rewrite skip_ws_quote; cbn [Z.eqb Pos.eqb];
       rewrite <- app_assoc; cbn [app]; by rewrite scan_text.
  - cbn [print app] in *. rewrite <- app_assoc in *. cbn [app] in *. cbn [parse_value skip_ws].
    change (is_ws 91) with false. change (is_ws 123) with false. cbn [Z.eqb Pos.eqb].
    rewrite (proj2 (Z.leb_gt maxNestingDepth depth)) by lia.
    destruct es as [|e es]; [done|].
    assert (∃ c t, commas (map print (e :: es)) ++ 93 :: rest = c :: t ∧ is_ws c = false ∧ c ≠ 93) as (c&t&Heq&Hws&Hc).
    { apply Forall_cons in Hp as [He _]. apply print_head in He as (c&t&Hpr&Hws&Hc&_).
      destruct es; cbn [map commas]; rewrite Hpr; by eexists _, _. }
    rewrite Heq. cbn [skip_ws]. rewrite Hws, (proj2 (Z.eqb_neq c 93)) by done. rewrite <- Heq.
    rewrite (parse_printed_elems n IH); [done|done|done| |lia]. cbn [length] in Hfuel. lia.
  - cbn [print app] in *. rewrite <- app_assoc in *. cbn [app] in *. cbn [parse_value skip_ws].
    change (is_ws 91) with false. change (is_ws 123) with false. cbn [Z.eqb Pos.eqb].
    rewrite (proj2 (Z.leb_gt maxNestingDepth depth)) by lia.
    destruct ms as [|kv ms]; [done|]. change (λ kv, print_string kv.1 ++ 58 :: print kv.2) with print_member in *.
    assert (∃ t, commas (map print_member (kv :: ms)) ++ 125 :: rest = 34 :: t) as (t&Heq).
    { destruct ms; cbn [map commas]; unfold print_member, print_string; by eexists. }
    rewrite Heq. rewrite skip_ws_quote. cbn [Z.eqb Pos.eqb]. rewrite <- Heq.
    rewrite (parse_printed_members n IH); [done|done|done| |lia]. cbn [length] in Hfuel. lia.
Qed.

Lemma parse_document_print n v : printable n v → Z.of_nat n <= maxNestingDepth →
  parse_document (print v) = Some v.
Proof.
  intros Hp Hn. unfold parse_document. rewrite <- (app_nil_r (print v)) at 2.
  by rewrite (parse_print n) by (rewrite ?app_nil_r; done || lia).
Qed.

(** ** Unquoting piece by piece *)

Lemma unquote_chunk x t out : x ≠ [] → unquote_step (x ++ t) = Some (out, length x) →
  unquote (x ++ t) = match unquote t with Some b => Some (out ++ b) | None => None end.
Proof.
  intros Hx H. unfold unquote. destruct x as [|c x]; [done|]. cbn [app decode_loop].
  change (c :: x ++ t) with ((c :: x) ++ t). rewrite H. rewrite decode_loop_skip. cbn [length].
  replace (S (length x) - 1)%nat with (length x) by lia. by rewrite drop_app_length.
Qed.

Lemma unquote_escape x t c : x ≠ [] → unquote_step (x ++ t) = Some ([c], length x) →
  unquote (x ++ t) = match unquote t with Some b => Some (c :: b) | None => None end.
Proof. apply unquote_chunk. Qed.

(** A rune outside ASCII stands for itself. *)
Lemma unquote_rune r t : scalar r = true → 0x80 <= r →
  unquote (encode_rune r ++ t) = match unquote t with Some b => Some (encode_rune r ++ b) | None => None end.
Proof.
  intros Hs Hr. pose proof (encode_rune_nonempty r) as Hne.
  assert (2 <= length (encode_rune r))%nat as H2.
  { unfold encode_rune. rewrite (within_false 0 127) by lia. repeat case_if; cbn; lia. }
  apply unquote_chunk; [intros Hnil; rewrite Hnil in H2; cbn in H2; lia|].
  pose proof (decode_encode r t Hs) as Hd. pose proof (encode_rune_high r H2) as Hh.
  destruct (encode_rune r) as [|c l] eqn:E; [cbn in H2; lia|]. apply Forall_cons in Hh as [Hc _].
  cbn [app] in *. unfold unquote_step.
  rewrite (proj2 (Z.eqb_neq c 92)), (proj2 (Z.eqb_neq c 34)), (proj2 (Z.ltb_ge c 32)) by lia. cbn [orb].
  unfold RuneSelf. rewrite (proj2 (Z.ltb_ge c 128)) by lia. rewrite Hd. by rewrite E.
Qed.

(** So does an ASCII character that needs no escape. *)
Lemma unquote_plain c t : 32 <= c < 128 → c ≠ 34 → c ≠ 92 →
  unquote (c :: t) = match unquote t with Some b => Some (c :: b) | None => None end.
Proof.
  intros Hc H34 H92. apply (unquote_chunk [c] t [c]); [done|]. cbn [app length]. unfold unquote_step.
  rewrite (proj2 (Z.eqb_neq c 92)), (proj2 (Z.eqb_neq c 34)), (proj2 (Z.ltb_ge c 32)) by lia. cbn [orb].
  unfold RuneSelf. by rewrite (proj2 (Z.ltb_lt c 128)) by lia.
Qed.

(** High bytes are plain text. *)
Lemma text_high l t : Forall (λ b, 0x80 <= b) l → json_text t → json_text (l ++ t).
Proof. intros Hl Ht. induction Hl as [|b l Hb _ IH]; [done|]. cbn. apply text_plain; (done || lia). Qed.
