(* ===== verification/TimeText.v ===== *)
(** * RFC 3339 texts read back

    The text that [format_rfc3339nano] prints for an instant in the years 0
    to 9999 is parsed by [parse_rfc3339] to the same instant, to the
    nanosecond.  Messages carry their enqueue time through the queue as such
    a text, and the worker's additional data is computed from what it reads. *)
From stdpp Require Import base list strings pretty.
From Stdlib Require Import ZArith Lia Ascii.
From S2P Require Import Prelude Utf8 GoStrings GoTime Json.

Local Open Scope Z_scope.

(** ** The calendar *)

Lemma year_length y : year_start (y + 1) - year_start y = foldr Z.add 0 (month_lengths (leap y)).
Proof.
  unfold year_start, month_lengths, leap. replace (y + 1 - 1) with y by lia.
  destruct (Z.eqb_spec (y mod 4) 0), (Z.eqb_spec (y mod 100) 0), (Z.eqb_spec (y mod 400) 0);
    cbn [andb orb negb foldr]; zdiv.
Qed.

Lemma month_day_spec lens : ∀ m yday, Forall (λ l, 0 < l) lens → 0 <= yday < foldr Z.add 0 lens →
  ∃ i l, month_day lens m yday = (m + Z.of_nat i, yday - foldr Z.add 0 (take i lens) + 1) ∧
    lens !! i = Some l ∧ 0 <= yday - foldr Z.add 0 (take i lens) < l.
Proof.
  induction lens as [|l lens IH]; intros m yday Hpos Hy; cbn [foldr] in Hy; [lia|].
  apply Forall_cons in Hpos as [Hl Hpos]. cbn [month_day]. destruct (Z.ltb_spec yday l) as [Hlt|Hge].
  - exists 0%nat, l. cbn. split_and!; [f_equal; lia|done|lia|lia].
  - destruct (IH (m + 1) (yday - l) Hpos) as (i&l'&Hm&Hi&Hr); [lia|].
    exists (S i), l'. rewrite Hm. cbn [take foldr lookup list_lookup].
    split_and!; [f_equal; lia|done|lia|lia].
Qed.

(** A day number and its civil date determine each other. *)
Lemma civil_spec d : ∃ y m dd, civil d = (y, m, dd) ∧ y = year_of_day d ∧ 1 <= m <= 12 ∧ 1 <= dd <= days_in y m ∧
  days_of_civil y m dd = d.
Proof.
  unfold civil. set (y := year_of_day d). pose proof (year_of_day_bounds d) as Hb. fold y in Hb.
  pose proof (year_length y) as Hl.
  destruct (month_day_spec (month_lengths (leap y)) 1 (d - year_start y)) as (i&l&Hm&Hi&Hr).
  { unfold month_lengths. repeat constructor; destruct (leap y); lia. }
  { lia. }
  rewrite Hm. exists y, (1 + Z.of_nat i), (d - year_start y - foldr Z.add 0 (take i (month_lengths (leap y))) + 1).
  pose proof (lookup_lt_Some _ _ _ Hi) as Hi12. cbn in Hi12.
  unfold days_of_civil, days_in. replace (Z.to_nat (1 + Z.of_nat i - 1)) with i by lia.
  rewrite (nth_lookup_Some _ _ _ _ Hi). split_and!; (done || lia).
Qed.

Lemma days_in_two y m : 1 <= m <= 12 → days_in y m <= 31.
Proof.
  intros Hm. unfold days_in, month_lengths.
  assert (Z.to_nat (m - 1) < 12)%nat as H by lia. revert H. generalize (Z.to_nat (m - 1)). intros n Hn.
  do 12 (destruct n as [|n]; [cbn; try destruct (leap y); lia|]). lia.
Qed.

(** ** Digits *)

Lemma digit_char_byte d : 0 <= d < 10 → Z.of_N (N_of_ascii (digit_char d)) = 48 + d.
Proof. intros H. unfold digit_char. rewrite N_ascii_embedding by lia. lia. Qed.

Lemma digit_range z k : 0 <= z / k mod 10 < 10.
Proof. apply Z.mod_pos_bound. lia. Qed.

Lemma pad_dec_cons w z :
  bytes_of_string (pad_dec (S w) z) = 48 + z / 10 ^ Z.of_nat w mod 10 :: bytes_of_string (pad_dec w z).
Proof. cbn [pad_dec bytes_of_string]. by rewrite digit_char_byte by apply digit_range. Qed.

Lemma is_dec_digit d : 0 <= d < 10 → is_dec (48 + d) = true.
Proof. intros. apply within_true. lia. Qed.

Lemma two_digits_pad z rest : 0 <= z < 100 →
  two_digits (bytes_of_string (pad_dec 2 z) ++ rest) = Some (z, rest).
Proof.
  intros Hz. rewrite !pad_dec_cons. cbn [pad_dec bytes_of_string app two_digits].
  rewrite !is_dec_digit by apply digit_range. cbn [andb]. do 2 f_equal. cbn [Z.of_nat Z.pow Z.pow_pos Pos.iter Z.mul]. zdiv.
Qed.

Lemma one_or_two_digits_pad z rest : 0 <= z < 100 →
  one_or_two_digits (bytes_of_string (pad_dec 2 z) ++ rest) = Some (z, rest).
Proof.
  intros Hz. rewrite !pad_dec_cons. cbn [pad_dec bytes_of_string app one_or_two_digits].
  rewrite !is_dec_digit by apply digit_range. do 2 f_equal. cbn [Z.of_nat Z.pow Z.pow_pos Pos.iter Z.mul]. zdiv.
Qed.

Lemma four_digits_pad z rest : 0 <= z < 10000 →
  four_digits (bytes_of_string (pad_dec 4 z) ++ rest) = Some (z, rest).
Proof.
  intros Hz. rewrite !pad_dec_cons. unfold four_digits. cbn [pad_dec bytes_of_string app two_digits].
  rewrite !is_dec_digit by apply digit_range. cbn [andb two_digits].
  rewrite !is_dec_digit by apply digit_range. cbn [andb]. do 2 f_equal.
  cbn [Z.of_nat Pos.of_succ_nat Pos.succ Z.pow Z.pow_pos Pos.iter Z.mul Pos.mul Pos.add]. zdiv.
Qed.

(** ** The fraction *)

Lemma TrimRight_spec s c : ∃ k, bytes_of_string s = bytes_of_string (TrimRight s c) ++ replicate k (Z.of_N (N_of_ascii c)).
Proof.
  induction s as [|d s (k&IH)]; [by exists 0%nat|]. cbn [TrimRight bytes_of_string]. rewrite IH.
  destruct (TrimRight s c) as [|e t]; [|by exists k].
  destruct (Ascii.eqb_spec d c) as [->|_]; [by exists (S k)|by exists k].
Qed.

Lemma TrimRight_cons d s c : d ≠ c → TrimRight (String d s) c = String d (TrimRight s c).
Proof. intros H. cbn [TrimRight]. destruct (TrimRight s c); [|done]. by destruct (Ascii.eqb_spec d c). Qed.

Lemma frac_ns_zeros n ds k : frac_ns n (ds ++ replicate k 48) = frac_ns n ds.
Proof.
  revert ds. induction n as [|n IH]; intros [|d ds]; cbn [frac_ns app]; try done.
  - destruct k as [|k]; [done|]. cbn [replicate frac_ns]. specialize (IH []). cbn [app] in IH.
    revert IH. clear. intros. assert (∀ n k, frac_ns n (replicate k 48) = 0) as H.
    { clear. induction n as [|n IH]; intros [|k]; cbn [frac_ns replicate]; try done. by rewrite IH. }
    by rewrite H.
  - by rewrite IH.
Qed.

Lemma frac_ns_pad w z : 0 <= z → frac_ns w (bytes_of_string (pad_dec w z)) = z mod 10 ^ Z.of_nat w.
Proof.
  intros Hz. induction w as [|w IH]; [by rewrite Z.mod_1_r|]. rewrite pad_dec_cons. cbn [frac_ns]. rewrite IH.
  replace (Z.of_nat (S w)) with (Z.of_nat w + 1) by lia. rewrite Z.pow_add_r, Z.pow_1_r by lia.
  rewrite Z.rem_mul_r by lia. lia.
Qed.

Lemma digits_all ds c rest : Forall (λ d, is_dec d = true) ds → is_dec c = false → digits (ds ++ c :: rest) = (ds, c :: rest).
Proof.
  intros H Hc. induction H as [|d ds Hd _ IH]; cbn [app digits]; [by rewrite Hc|]. by rewrite Hd, IH.
Qed.

Lemma pad_dec_digits w z : Forall (λ d, is_dec d = true) (bytes_of_string (pad_dec w z)).
Proof.
  induction w as [|w IH]; [constructor|]. rewrite pad_dec_cons. constructor; [|done].
  apply is_dec_digit, digit_range.
Qed.

Lemma opt_frac_string ns rest : 0 <= ns < Second →
  opt_frac (bytes_of_string (frac_string ns) ++ 90 :: rest) = (ns, 90 :: rest).
Proof.
  intros Hns. unfold frac_string. destruct (Z.eqb_spec ns 0) as [->|Hne]; [done|].
  change ("." +:+ pad_dec 9 ns)%string with (String "." (pad_dec 9 ns)).
  rewrite TrimRight_cons by done. cbn [bytes_of_string app].
  change (Z.of_N (N_of_ascii ".")) with 46. unfold opt_frac. cbn [Z.eqb Pos.eqb orb].
  destruct (TrimRight_spec (pad_dec 9 ns) "0"%char) as (k&Hk). change (Z.of_N (N_of_ascii "0")) with 48 in Hk.
  set (ds := bytes_of_string (TrimRight (pad_dec 9 ns) "0")) in *.
  assert (frac_ns 9 ds = ns) as Hf.
  { rewrite <- (frac_ns_zeros 9 ds k), <- Hk, frac_ns_pad by lia. apply Z.mod_small. unfold Second in Hns. lia. }
  assert (Forall (λ d, is_dec d = true) ds) as Hd.
  { pose proof (pad_dec_digits 9 ns) as H. rewrite Hk in H. by apply Forall_app in H as [H _]. }
  rewrite digits_all by done. destruct ds; [|by rewrite Hf].
  cbn in Hf. lia.
Qed.

(** ** The round trip *)

(** The instants whose year has four digits. *)
Definition four_digit_year (t : Time) : Prop := 0 <= year_of_day (t / day_ns) <= 9999.

Lemma expect_head c rest : expect c (c :: rest) = Some rest.
Proof. cbn [expect]. by rewrite Z.eqb_refl. Qed.

Lemma parse_format t : four_digit_year t → parse_rfc3339 (bytes_of_string (format_rfc3339nano t)) = Some t.
Proof.
  intros Hy. unfold format_rfc3339nano, date_time_string.
  destruct (civil_spec (t / day_ns)) as (y&m&d&Hc&Hyd&Hm&Hd&Hdays). rewrite Hc.
  unfold four_digit_year in Hy. rewrite <- Hyd in Hy. pose proof (days_in_two y m Hm) as H31.
  unfold year_string. rewrite within_true by lia.
  set (s := t mod day_ns / Second). assert (0 <= s < 86400) as Hs by (unfold s, day_ns, Second; zdiv).
  assert (0 <= t mod Second < Second) as Hns by (unfold Second; zdiv).
  rewrite !bytes_of_string_app, <- !app_assoc. unfold parse_rfc3339.
  rewrite four_digits_pad by lia. cbn [bytes_of_string app].
  change (Z.of_N (N_of_ascii "-")) with 45. change (Z.of_N (N_of_ascii "T")) with 84.
  change (Z.of_N (N_of_ascii ":")) with 58. change (Z.of_N (N_of_ascii "Z")) with 90.
  rewrite expect_head, two_digits_pad, expect_head, two_digits_pad, expect_head by lia.
  rewrite one_or_two_digits_pad, expect_head by zdiv.
  rewrite two_digits_pad, expect_head by zdiv. rewrite two_digits_pad by zdiv.
  rewrite opt_frac_string by done. cbn [zone_offset Z.eqb Pos.eqb].
  unfold instant. rewrite !within_true by zdiv. cbn [andb]. f_equal. rewrite Hdays.
  unfold s, day_ns, Second. zdiv.
Qed.

(** ** The order of fixed-width texts

    The Redis store compares times as texts.  Fixed-width decimal texts are
    ordered as their numbers are, and so are the texts of instants. *)

Fixpoint bytes_ltb (a b : bytes) : bool :=
  match a, b with
  | [], [] => false
  | [], _ => true
  | _, [] => false
  | x :: a', y :: b' => (x <? y) || ((x =? y) && bytes_ltb a' b')
  end.

Lemma bytes_ltb_app a b x y : length a = length b →
  bytes_ltb (a ++ x) (b ++ y) = bytes_ltb a b || (bool_decide (a = b) && bytes_ltb x y).
Proof.
  revert b. induction a as [|c a IH]; intros [|d b] Hl; cbn [app bytes_ltb length] in *; try done.
  rewrite IH by lia. destruct (Z.ltb_spec c d), (Z.eqb_spec c d); cbn [orb andb]; try lia; try done.
  - subst. destruct (decide (a = b)) as [->|Hne].
    + by rewrite !bool_decide_true.
    + rewrite !bool_decide_false by congruence. done.
  - rewrite bool_decide_false by congruence. done.
Qed.

Lemma bytes_ltb_irrefl a : bytes_ltb a a = false.
Proof. induction a as [|c a IH]; [done|]. cbn. by rewrite Z.ltb_irrefl, Z.eqb_refl, IH. Qed.

Lemma pad_dec_length w z : length (bytes_of_string (pad_dec w z)) = w.
Proof. induction w as [|w IH]; [done|]. rewrite pad_dec_cons. cbn. by rewrite IH. Qed.

Lemma pad_dec_order w z z' :
  bytes_ltb (bytes_of_string (pad_dec w z)) (bytes_of_string (pad_dec w z')) = (z mod 10 ^ Z.of_nat w <? z' mod 10 ^ Z.of_nat w) ∧
  (bytes_of_string (pad_dec w z) = bytes_of_string (pad_dec w z') ↔ z mod 10 ^ Z.of_nat w = z' mod 10 ^ Z.of_nat w).
Proof.
  induction w as [|w [IHl IHe]]; [by rewrite !Z.mod_1_r|].
  rewrite !pad_dec_cons. cbn [bytes_ltb]. rewrite IHl.
  set (p := 10 ^ Z.of_nat w) in *. assert (0 < p) as Hp by (apply Z.pow_pos_nonneg; lia).
  replace (10 ^ Z.of_nat (S w)) with (p * 10)
    by (unfold p; rewrite Nat2Z.inj_succ, Z.pow_succ_r by lia; ring).
  rewrite !Z.rem_mul_r by lia.
  pose proof (Z.mod_pos_bound z p Hp). pose proof (Z.mod_pos_bound z' p Hp).
  set (q := z / p mod 10) in *. set (q' := z' / p mod 10) in *. set (r := z mod p) in *. set (r' := z' mod p) in *.
  split.
  - destruct (Z.ltb_spec (48 + q) (48 + q')), (Z.eqb_spec (48 + q) (48 + q')), (Z.ltb_spec r r'); cbn [orb andb];
      symmetry; first [apply Z.ltb_lt; nia | apply Z.ltb_ge; nia].
  - split.
    + intros [= Hq Hr]. apply IHe in Hr. lia.
    + intros Heq. assert (q = q') as Hq by nia. assert (r = r') as Hr by nia. apply IHe in Hr. rewrite Hq, Hr. done.
Qed.

(** One field of a text: a number of the given width, and the rest. *)
Lemma field_order w z z' x y : 0 <= z < 10 ^ Z.of_nat w → 0 <= z' < 10 ^ Z.of_nat w →
  bytes_ltb (bytes_of_string (pad_dec w z) ++ x) (bytes_of_string (pad_dec w z') ++ y)
  = (z <? z') || ((z =? z') && bytes_ltb x y).
Proof.
  intros Hz Hz'. destruct (pad_dec_order w z z') as [Hl He]. rewrite !Z.mod_small in Hl, He by done.
  rewrite bytes_ltb_app by by rewrite !pad_dec_length. rewrite Hl. f_equal. f_equal.
  destruct (Z.eqb_spec z z') as [->|Hne]; [by rewrite bool_decide_true|]. rewrite bool_decide_false; [done|].
  rewrite He. done.
Qed.

Lemma same_byte c x y : bytes_ltb (c :: x) (c :: y) = bytes_ltb x y.
Proof. cbn. by rewrite Z.ltb_irrefl, Z.eqb_refl. Qed.

(** ** The order of dates *)

Lemma year_start_le a b : a <= b → year_start a <= year_start b.
Proof. intros H. unfold year_start. zdiv. Qed.

Lemma sum_take_lt l : ∀ i j, Forall (λ x, 0 <= x) l → (i < j <= length l)%nat →
  foldr Z.add 0 (take i l) + nth i l 0 <= foldr Z.add 0 (take j l).
Proof.
  induction l as [|x l IH]; intros i j Hl Hij; cbn [length] in Hij; [lia|].
  apply Forall_cons in Hl as [Hx Hl]. destruct j as [|j]; [lia|]. destruct i as [|i]; cbn [take foldr nth].
  - assert (∀ k (l : list Z), Forall (λ x, 0 <= x) l → 0 <= foldr Z.add 0 (take k l)) as Hpos.
    { clear. intros k l Hl. revert k. induction Hl as [|x l Hx _ IH]; intros [|k]; cbn; try lia. specialize (IH k). lia. }
    specialize (Hpos j l Hl). lia.
  - specialize (IH i j Hl ltac:(lia)). lia.
Qed.

(** Later days have later dates. *)
Lemma civil_order d1 d2 y1 m1 a1 y2 m2 a2 :
  civil d1 = (y1, m1, a1) → civil d2 = (y2, m2, a2) →
  (d1 <? d2) = (y1 <? y2) || ((y1 =? y2) && ((m1 <? m2) || ((m1 =? m2) && (a1 <? a2)))).
Proof.
  assert (∀ e1 e2 z1 n1 b1 z2 n2 b2, civil e1 = (z1, n1, b1) → civil e2 = (z2, n2, b2) →
    z1 < z2 ∨ (z1 = z2 ∧ (n1 < n2 ∨ (n1 = n2 ∧ b1 < b2))) → e1 < e2) as Hlt.
  { intros e1 e2 z1 n1 b1 z2 n2 b2 H1 H2 H.
    destruct (civil_spec e1) as (?&?&?&E1&Hy1&Hm1&Ha1&Hd1), (civil_spec e2) as (?&?&?&E2&Hy2&Hm2&Ha2&Hd2).
    rewrite H1 in E1. injection E1 as <- <- <-. rewrite H2 in E2. injection E2 as <- <- <-.
    pose proof (year_of_day_bounds e1) as B1. pose proof (year_of_day_bounds e2) as B2. rewrite <- Hy1 in B1. rewrite <- Hy2 in B2.
    destruct H as [H|[-> [H|[-> H]]]].
    - pose proof (year_start_le (z1 + 1) z2). lia.
    - unfold days_of_civil, days_in in *.
      pose proof (sum_take_lt (month_lengths (leap z2)) (Z.to_nat (n1 - 1)) (Z.to_nat (n2 - 1))) as Hs.
      assert (Forall (λ x, 0 <= x) (month_lengths (leap z2))) as Hp
        by (unfold month_lengths; repeat constructor; destruct (leap z2); lia).
      specialize (Hs Hp). cbn [month_lengths length] in Hs. specialize (Hs ltac:(lia)). lia.
    - unfold days_of_civil in *. lia. }
  intros H1 H2. pose proof (Hlt _ _ _ _ _ _ _ _ H1 H2) as Ha. pose proof (Hlt _ _ _ _ _ _ _ _ H2 H1) as Hb.
  assert (y1 = y2 → m1 = m2 → a1 = a2 → d1 = d2) as Heq.
  { intros -> -> ->. destruct (civil_spec d1) as (?&?&?&E1&_&_&_&Hd1), (civil_spec d2) as (?&?&?&E2&_&_&_&Hd2).
    rewrite H1 in E1. injection E1 as <- <- <-. rewrite H2 in E2. injection E2 as <- <- <-. lia. }
  destruct (Z.ltb_spec d1 d2), (Z.ltb_spec y1 y2), (Z.eqb_spec y1 y2), (Z.ltb_spec m1 m2), (Z.eqb_spec m1 m2), (Z.ltb_spec a1 a2);
    cbn [orb andb]; try done; lia.
Qed.

(** ** The fixed-width layout

    [format_fixed_nano] prints 2006-01-02T15:04:05.000000000Z: thirty bytes
    for a four-digit year, ordered as the instants are, and read back by
    [parse_fixed]. *)

(** The order of instants, from day, second of the day and nanosecond. *)
Lemma instant_order t u :
  let sec t := t mod day_ns / Second in
  (t <? u) = (t / day_ns <? u / day_ns) || ((t / day_ns =? u / day_ns) &&
    ((sec t <? sec u) || ((sec t =? sec u) && (t mod Second <? u mod Second)))).
Proof.
  intros sec. apply eq_true_iff_eq. rewrite !orb_true_iff, !andb_true_iff, !orb_true_iff, !andb_true_iff, !Z.eqb_eq, !Z.ltb_lt.
  unfold sec, day_ns, Second. zdiv.
Qed.

(** Lexicographic order of a pair is the order of the number it encodes. *)
Lemma clock_order s s' :
  (s <? s') = (s / 3600 <? s' / 3600) || ((s / 3600 =? s' / 3600) &&
    ((s / 60 mod 60 <? s' / 60 mod 60) || ((s / 60 mod 60 =? s' / 60 mod 60) && (s mod 60 <? s' mod 60)))).
Proof.
  apply eq_true_iff_eq. rewrite !orb_true_iff, !andb_true_iff, !orb_true_iff, !andb_true_iff, !Z.eqb_eq, !Z.ltb_lt. zdiv.
Qed.

Lemma civil_inj_eqb d1 d2 y1 m1 a1 y2 m2 a2 :
  civil d1 = (y1, m1, a1) → civil d2 = (y2, m2, a2) →
  (d1 =? d2) = (y1 =? y2) && (m1 =? m2) && (a1 =? a2).
Proof.
  intros H1 H2. destruct (Z.eqb_spec d1 d2) as [->|Hne].
  - rewrite H1 in H2. injection H2 as -> -> ->. by rewrite !Z.eqb_refl.
  - destruct (Z.eqb_spec y1 y2) as [->|]; [|done]. destruct (Z.eqb_spec m1 m2) as [->|]; [|done].
    destruct (Z.eqb_spec a1 a2) as [->|]; [|done]. exfalso. apply Hne.
    destruct (civil_spec d1) as (?&?&?&E1&_&_&_&<-), (civil_spec d2) as (?&?&?&E2&_&_&_&<-). congruence.
Qed.

Lemma clock_eqb s s' :
  (s =? s') = (s / 3600 =? s' / 3600) && (s / 60 mod 60 =? s' / 60 mod 60) && (s mod 60 =? s' mod 60).
Proof. apply eq_true_iff_eq. rewrite !andb_true_iff, !Z.eqb_eq. zdiv. Qed.

Lemma clock_fields t : let s := t mod day_ns / Second in
  0 <= s / 3600 < 24 ∧ 0 <= s / 60 mod 60 < 60 ∧ 0 <= s mod 60 < 60 ∧ 0 <= t mod Second < 10 ^ 9.
Proof.
  cbn zeta. assert (0 <= t mod day_ns / Second < 86400) as Hs by (unfold day_ns, Second; zdiv).
  split_and!; try (unfold Second; zdiv); generalize dependent (t mod day_ns / Second); intros s Hs; zdiv.
Qed.

(** Lexicographic order of six fields and of a date followed by a time. *)
Lemma lex_regroup (y yy m mm d dd h hh i ii s ss n : bool) :
  y || (yy && (m || (mm && (d || (dd && (h || (hh && (i || (ii && (s || (ss && n))))))))))) =
  (y || (yy && (m || (mm && d)))) || ((yy && mm && dd) && ((h || (hh && (i || (ii && s)))) || ((hh && ii && ss) && n))).
Proof. destruct y, yy, m, mm, d, dd, h, hh, i, ii, s, ss; reflexivity. Qed.

(** The fixed-width texts of four-digit years compare as the instants. *)
Lemma fixed_order t u : four_digit_year t → four_digit_year u →
  bytes_ltb (bytes_of_string (format_fixed_nano t)) (bytes_of_string (format_fixed_nano u)) = (t <? u).
Proof.
  intros Ht Hu. rewrite instant_order. cbn zeta. unfold format_fixed_nano, date_time_string.
  destruct (civil_spec (t / day_ns)) as (y&m&d&Hc&Hyd&Hm&Hd&_). rewrite Hc.
  destruct (civil_spec (u / day_ns)) as (y'&m'&d'&Hc'&Hyd'&Hm'&Hd'&_). rewrite Hc'.
  rewrite (civil_order _ _ _ _ _ _ _ _ Hc Hc'), (civil_inj_eqb _ _ _ _ _ _ _ _ Hc Hc').
  unfold four_digit_year in Ht, Hu. rewrite <- Hyd in Ht. rewrite <- Hyd' in Hu.
  pose proof (days_in_two y m Hm). pose proof (days_in_two y' m' Hm').
  unfold year_string. rewrite !within_true by lia.
  destruct (clock_fields t) as (Hh&Hi&Hs&Hns), (clock_fields u) as (Hh'&Hi'&Hs'&Hns').
  rewrite (clock_order (t mod day_ns / Second) (u mod day_ns / Second)), (clock_eqb (t mod day_ns / Second)).
  rewrite !bytes_of_string_app, <- !app_assoc. cbn [bytes_of_string app].
  rewrite field_order by (cbn; lia). rewrite same_byte.
  do 5 (rewrite field_order by (cbn; lia); rewrite same_byte).
  rewrite field_order by (cbn; lia). rewrite bytes_ltb_irrefl, andb_false_r, orb_false_r.
  apply lex_regroup.
Qed.

(** time.atoi: an optional sign, then digits only. *)
Definition time_atoi (s : bytes) : option Z :=
  let '(neg, ds) := match s with
                    | c :: s' => if (c =? 45) || (c =? 43) then (c =? 45, s') else (false, s)
                    | [] => (false, [])
                    end in
  if forallb is_dec ds then
    let v := foldl (λ acc d, 10 * acc + (d - 48)) 0 ds in Some (if neg then - v else v)
  else None.

(** The fraction of the layout: a separator and nine bytes. *)
Definition fixed_frac (s : bytes) : option (Z * bytes) :=
  match s with
  | c :: s' =>
    if ((c =? 46) || (c =? 44)) && (9 <=? length s')%nat then
      match time_atoi (take 9 s') with
      | Some ns => if ns <? 0 then None else Some (ns, drop 9 s')
      | None => None
      end
    else None
  | [] => None
  end.

(** time.Parse(2006-01-02T15:04:05.000000000Z, s): the final Z is a literal. *)
Definition parse_fixed (s : bytes) : option Time :=
  match four_digits s with None => None | Some (y, s) =>
  match expect 45 s with None => None | Some s =>
  match two_digits s with None => None | Some (m, s) =>
  match expect 45 s with None => None | Some s =>
  match two_digits s with None => None | Some (d, s) =>
  match expect 84 s with None => None | Some s =>
  match one_or_two_digits s with None => None | Some (hh, s) =>
  match expect 58 s with None => None | Some s =>
  match two_digits s with None => None | Some (mm, s) =>
  match expect 58 s with None => None | Some s =>
  match two_digits s with None => None | Some (ss, s) =>
  match fixed_frac s with None => None | Some (ns, s) =>
  match expect 90 s with
  | Some [] => instant y m d hh mm ss ns 0
  | _ => None
  end end end end end end end end end end end end end.

Example parse_fixed_examples :
  map (λ s, option_map format_fixed_nano (parse_fixed (bytes_of_string s)))
    ["2025-07-15T23:59:59.120000000Z"; "2025-07-15T23:59:59.+12000000Z"; "2025-07-15T23:59:59.12Z"; "2025-07-15T23:59:59.120000000"]%string
  = [Some "2025-07-15T23:59:59.120000000Z"; Some "2025-07-15T23:59:59.012000000Z"; None; None]%string.
Proof. vm_compute. done. Qed.

Lemma time_atoi_pad w z : (0 < w)%nat → time_atoi (bytes_of_string (pad_dec w z)) = Some (z mod 10 ^ Z.of_nat w).
Proof.
  intros Hw. unfold time_atoi. destruct w as [|w]; [lia|].
  assert (∀ n acc, foldl (λ acc d, 10 * acc + (d - 48)) acc (bytes_of_string (pad_dec n z)) = acc * 10 ^ Z.of_nat n + z mod 10 ^ Z.of_nat n) as Hf.
  { clear. induction n as [|n IH]; intros acc; [cbn; rewrite Z.mod_1_r; lia|].
    rewrite pad_dec_cons. cbn [foldl]. rewrite IH. rewrite Nat2Z.inj_succ, Z.pow_succ_r by lia.
    assert (0 < 10 ^ Z.of_nat n) by (apply Z.pow_pos_nonneg; lia).
    rewrite (Z.mul_comm 10 (10 ^ _)), Z.rem_mul_r by lia. ring. }
  pose proof (Hf (S w) 0) as Hv. pose proof (pad_dec_digits (S w) z) as Hd. rewrite pad_dec_cons in *.
  pose proof (digit_range z (10 ^ Z.of_nat w)) as Hr.
  rewrite (proj2 (Z.eqb_neq _ 45)), (proj2 (Z.eqb_neq _ 43)) by lia. cbn [orb].
  rewrite (proj2 (forallb_Forall _ _) Hd). f_equal. rewrite Hv. lia.
Qed.

(** The text read back. *)
Lemma parse_format_fixed t : four_digit_year t → parse_fixed (bytes_of_string (format_fixed_nano t)) = Some t.
Proof.
  intros Hy. unfold format_fixed_nano, date_time_string.
  destruct (civil_spec (t / day_ns)) as (y&m&d&Hc&Hyd&Hm&Hd&Hdays). rewrite Hc.
  unfold four_digit_year in Hy. rewrite <- Hyd in Hy. pose proof (days_in_two y m Hm) as H31.
  unfold year_string. rewrite within_true by lia. destruct (clock_fields t) as (Hh&Hi&Hs&Hns).
  set (s := t mod day_ns / Second) in *.
  rewrite !bytes_of_string_app, <- !app_assoc. unfold parse_fixed.
  rewrite four_digits_pad by lia. cbn [bytes_of_string app].
  change (Z.of_N (N_of_ascii "-")) with 45. change (Z.of_N (N_of_ascii "T")) with 84.
  change (Z.of_N (N_of_ascii ":")) with 58. change (Z.of_N (N_of_ascii "Z")) with 90.
  change (Z.of_N (N_of_ascii ".")) with 46.
  rewrite expect_head, two_digits_pad, expect_head, two_digits_pad, expect_head by lia.
  rewrite one_or_two_digits_pad, expect_head by lia.
  rewrite two_digits_pad, expect_head by lia. rewrite two_digits_pad by lia.
  assert (fixed_frac (46 :: bytes_of_string (pad_dec 9 (t mod Second)) ++ [90]) = Some (t mod Second, [90])) as ->.
  { unfold fixed_frac. pose proof (pad_dec_length 9 (t mod Second)) as Hl.
    rewrite length_app, Hl. cbn [Z.eqb Pos.eqb orb andb Nat.leb length Nat.add].
    rewrite take_app_length' by done. rewrite drop_app_length' by done.
    rewrite time_atoi_pad by lia. rewrite Z.mod_small by (cbn; lia).
    rewrite (proj2 (Z.ltb_ge _ _)) by lia. done. }
  rewrite expect_head. unfold instant. rewrite !within_true by lia. cbn [andb]. f_equal. rewrite Hdays.
  unfold s, day_ns, Second. zdiv.
Qed.
