(* ===== verification/SensitiveIO.v ===== *)
(** * Reading secrets without leaving copies (internal/sensitiveio/read.go)

    [ReadAll] grows its buffer by copying; [growZeroing] wipes the buffer it
    abandons.  A reader is a state transformer on its own state: [Read p s]
    returns the new contents of [p] (a reader may use all of [p] as scratch
    space), the number of bytes it delivered and its error.  The loop has
    fuel; [ReadAll_spec] gives enough of it for every reader that makes
    progress. *)
From stdpp Require Import base gmap strings list.
From Stdlib Require Import ZArith Lia.
From S2P Require Import Prelude Utf8 GoStrings GoTime GoBase Observability GoState.

Local Open Scope nat_scope.

(** ** Readers *)

Definition Reader (R : Type) : Type := bytes → R → (bytes * nat * option error) * R.

(** io.LimitReader; the state adds the bytes left. *)
Definition LimitReader {R} (r : Reader R) : Reader (Z * R) := λ p '(N, s),
  if (N <=? 0)%Z then ((p, 0, Some ErrEOF), (N, s))
  else
    let k := if (N <? Z.of_nat (length p))%Z then Z.to_nat N else length p in
    let '((q, n, err), s') := r (take k p) s in
    ((q ++ drop k p, n, err), ((N - Z.of_nat n)%Z, s')).

(** bytes.Reader over the bytes not yet read. *)
Definition BytesReader : Reader bytes := λ p s,
  match s with
  | [] => ((p, 0, Some ErrEOF), [])
  | _ => let n := Nat.min (length p) (length s) in ((take n s ++ drop n p, n, None), drop n s)
  end.

(** The contract of io.Reader the code relies on. *)
Class ReaderLaws {R} (r : Reader R) := {
  reader_bounds : ∀ p s q n e s', r p s = ((q, n, e), s') → length q = length p ∧ n <= length p
}.

(** A reader that makes progress: each call without error on a non-empty
    buffer delivers a byte, out of at most [μ] of them. *)
Class ReaderProgress {R} (r : Reader R) (μ : R → nat) := {
  reader_progress : ∀ p s q n s', r p s = ((q, n, None), s') → p ≠ [] →
    0 < n ∧ n + μ s' <= μ s
}.

(** A reader that leaves the part of the buffer it did not fill alone, as
    bytes.Reader does and io.LimitReader on such a reader.  (io.Reader allows
    more: all of the buffer may be used as scratch space.) *)
Definition tidy {R} (r : Reader R) : Prop :=
  ∀ p s q n e s', r p s = ((q, n, e), s') → drop n q = drop n p.

(** ** The operations *)

Section Ops.
Context {W R : Type}.

Definition slice_cap (m : Mem) (sl : Slice) : nat := length (default [] (m !! s_loc sl)).

(** The bytes a call on [buf[len(buf):cap(buf)]] leaves there. *)
Definition mem_write_tail (m : Mem) (sl : Slice) (q : bytes) : Mem :=
  alter (λ b, take (s_len sl) b ++ q) (s_loc sl) m.

Definition growZeroing (buf : Slice) (minCapacity : nat) : M (St W) Slice :=
  st ← get;
  let cap := slice_cap (mem st) buf in
  let newCapacity := cap + cap / 2 in
  let newCapacity := if newCapacity <? minCapacity then minCapacity else newCapacity in
  let newCapacity := if newCapacity =? 0 then 512 else newCapacity in
  next ← alloc (slice_bytes (mem st) buf) newCapacity;
  ZeroBytes (Some (mkSlice (s_loc buf) cap)) ;;
  mret next.

(** [r.Read(buf[len(buf):cap(buf)])] and [buf = buf[:len(buf)+n]]. *)
Definition read_into (r : Reader R) (buf : Slice) (s : R) : M (St W) (Slice * option error * R) :=
  st ← get;
  let p := drop (s_len buf) (default [] (mem st !! s_loc buf)) in
  let '((q, n, err), s') := r p s in
  modify (λ st, set_mem (mem_write_tail (mem st) buf q) st) ;;
  if slice_cap (mem st) buf <? s_len buf + n
  then panic "slice bounds out of range"
  else mret (mkSlice (s_loc buf) (s_len buf + n), err, s').

(** The body of the loop; [None] goes round again. *)
Definition read_step (r : Reader R) (buf : Slice) (s : R)
    : M (St W) (Slice * R * option (option error)) :=
  st ← get;
  buf ← (if s_len buf =? slice_cap (mem st) buf then growZeroing buf (s_len buf + 1) else mret buf);
  out ← read_into r buf s;
  let '(buf, err, s') := out in
  match err with
  | Some e => mret (buf, s', Some (match e with ErrEOF => None | _ => Some e end))
  | None =>
    st ← get;
    let cap := slice_cap (mem st) buf in
    buf ← (if cap - s_len buf <? cap / 16 then growZeroing buf (s_len buf + 1) else mret buf);
    mret (buf, s', None)
  end.

Fixpoint read_loop (fuel : nat) (r : Reader R) (buf : Slice) (s : R)
    : M (St W) (Slice * option error * R) :=
  match fuel with
  | 0 => panic "ReadAll: fuel"
  | S fuel =>
    out ← read_step r buf s;
    let '(buf, s', fin) := out in
    match fin with
    | Some err => mret (buf, err, s')
    | None => read_loop fuel r buf s'
    end
  end.

Definition ReadAll (fuel : nat) (r : Reader R) (s : R) : M (St W) (Slice * option error * R) :=
  buf ← alloc [] 512;
  read_loop fuel r buf s.
End Ops.

(** ** What the readers promise *)

#[export] Instance BytesReader_laws : ReaderLaws BytesReader.
Proof.
  split. intros p s q n e s' H. unfold BytesReader in H.
  destruct s as [|x s]; simplify_eq; [lia|].
  rewrite length_app, length_take, length_drop. cbn [length]. lia.
Qed.

#[export] Instance BytesReader_progress : ReaderProgress BytesReader length.
Proof.
  split. intros p s q n s' H Hp. unfold BytesReader in H.
  destruct s as [|x s]; simplify_eq. rewrite length_drop. destruct p; [done|]. cbn [length]. lia.
Qed.

#[export] Instance LimitReader_laws {R} (r : Reader R) `{!ReaderLaws r} : ReaderLaws (LimitReader r).
Proof.
  split. intros p [N s] q n e s' H. unfold LimitReader in H. case_if; [simplify_eq; lia|].
  match type of H with (let '(_, _) := r (take ?k p) s in _) = _ =>
    destruct (r (take k p) s) as [[[q1 n1] e1] s1] eqn:Hr; assert (k <= length p) by (case_if; bool_hyps; lia) end.
  apply reader_bounds in Hr as [Hq Hn]. rewrite length_take in Hq, Hn. simplify_eq.
  rewrite length_app, length_drop. lia.
Qed.

Lemma BytesReader_tidy : tidy BytesReader.
Proof.
  intros p s q n e s' H. unfold BytesReader in H. destruct s as [|x s]; simplify_eq; [done|].
  apply drop_app_length'. rewrite length_take. cbn [length]. lia.
Qed.

Lemma LimitReader_tidy {R} (r : Reader R) `{!ReaderLaws r} : tidy r → tidy (LimitReader r).
Proof.
  intros Ht p [N s] q n e s' H. unfold LimitReader in H. case_if; [by simplify_eq|].
  match type of H with (let '(_, _) := r (take ?k p) s in _) = _ =>
    set (k0 := k) in H; assert (k0 <= length p) as Hk by (subst k0; case_if; bool_hyps; lia) end.
  destruct (r (take k0 p) s) as [[[q1 n1] e1] s1] eqn:Hr. simplify_eq.
  pose proof (Ht _ _ _ _ _ _ Hr) as Hd. apply reader_bounds in Hr as [Hq Hn]. rewrite length_take in Hq, Hn.
  rewrite drop_app_le, Hd by lia. rewrite <- (take_drop k0 p) at 3. by rewrite drop_app_le by (rewrite length_take; lia).
Qed.

(** Under a limit, progress needs no bound on the inner reader. *)
Lemma LimitReader_progress {R} (r : Reader R) `{!ReaderLaws r}
    (Hprog : ∀ p s q n s', r p s = ((q, n, None), s') → p ≠ [] → 0 < n) :
  ReaderProgress (LimitReader r) (λ s, Z.to_nat s.1).
Proof.
  split. intros p [N s] q n s' H Hp. unfold LimitReader in H. case_if; [done|]. bool_hyps.
  match type of H with (let '(_, _) := r (take ?k p) s in _) = _ =>
    set (k0 := k) in H; assert (0 < k0 <= length p ∧ k0 <= Z.to_nat N) as [Hk HkN]
      by (subst k0; destruct p; [done|]; case_if; bool_hyps; cbn [length] in *; lia) end.
  destruct (r (take k0 p) s) as [[[q1 n1] e1] s1] eqn:Hr. simplify_eq.
  pose proof (Hprog _ _ _ _ _ Hr) as Hpos.
  apply reader_bounds in Hr as [_ Hn]. rewrite length_take in Hn. cbn [fst].
  assert (0 < n); [|lia]. apply Hpos. destruct p; [done|]. by destruct k0; [lia|].
Qed.

(** What a sequence of [Read] calls delivered, up to its first error. *)
Inductive reads {R} (r : Reader R) : R → bytes → error → R → Prop :=
  | reads_last p s q n e s' :
      r p s = ((q, n, Some e), s') → reads r s (take n q) e s'
  | reads_more p s q n s' b e s'' :
      r p s = ((q, n, None), s') → reads r s' b e s'' → reads r s (take n q ++ b) e s''.

(** A byte reader delivers all of its bytes and ends with EOF. *)
Lemma BytesReader_reads s b e s' : reads BytesReader s b e s' → b = s ∧ e = ErrEOF ∧ s' = [].
Proof.
  induction 1 as [p s q n e s' H|p s q n s' b e s'' H _ (->&->&->)]; unfold BytesReader in H;
    destruct s as [|x s]; simplify_eq; [by rewrite take_0|].
  repeat split. rewrite take_app_le, take_take by (rewrite length_take; lia).
  rewrite Nat.min_l by lia. apply take_drop.
Qed.

(** A limited reader delivers at most its limit. *)
Lemma LimitReader_reads {R} (r : Reader R) `{!ReaderLaws r} s b e s' :
  reads (LimitReader r) s b e s' → length b <= Z.to_nat s.1.
Proof.
  assert (∀ p N t q n e t', LimitReader r p (N, t) = ((q, n, e), t') →
    n <= Z.to_nat N ∧ (0 < n → t'.1 = (N - Z.of_nat n)%Z) ∧ (n = 0 → t'.1 = N)) as Hstep.
  { intros p N t q n e0 t' H. unfold LimitReader in H. case_if; [simplify_eq/=; lia|]. bool_hyps.
    match type of H with (let '(_, _) := r (take ?k p) t in _) = _ =>
      set (k0 := k) in H; assert (k0 <= Z.to_nat N) by (subst k0; case_if; bool_hyps; lia) end.
    destruct (r (take k0 p) t) as [[[q1 n1] e1] s1] eqn:Hr. simplify_eq/=.
    apply reader_bounds in Hr as [_ Hn]. rewrite length_take in Hn. lia. }
  induction 1 as [p [N t] q n e [N' t'] H|p [N t] q n [N' t'] b e s'' H _ IH]; cbn [fst] in *.
  - apply Hstep in H. rewrite length_take. lia.
  - apply Hstep in H as (Hn&Hp&Hz). cbn [fst] in *. rewrite length_app, length_take.
    destruct n; [rewrite Hz in IH by done; lia|]. rewrite Hp in IH by lia. lia.
Qed.

(** ** The loop invariant *)

(** Of the buffers from index [k] on, only [buf]'s may hold data. *)
Definition owned (k : nat) (buf : Slice) (m : Mem) : Prop :=
  k <= s_loc buf < length m ∧ s_len buf <= slice_cap m buf ∧
  ∀ i b, k <= i → i ≠ s_loc buf → m !! i = Some b → all_zero b.

(** Nothing but buffers from index [k] on has changed. *)
Definition frame {W} (k : nat) (st st' : St W) : Prop :=
  take k (mem st') = take k (mem st) ∧
  obs st' = obs st ∧ resp st' = resp st ∧ world st' = world st.

Lemma frame_refl {W} k (st : St W) : frame k st st.
Proof. done. Qed.

Lemma frame_trans {W} k (st1 st2 st3 : St W) : frame k st1 st2 → frame k st2 st3 → frame k st1 st3.
Proof. unfold frame. intuition congruence. Qed.

Lemma take_alter k i (f : bytes → bytes) (m : Mem) : k <= i → take k (alter f i m) = take k m.
Proof.
  intros Hk. apply list_eq. intros j. destruct (decide (j < k)).
  - rewrite !lookup_take_lt by done. by rewrite list_lookup_alter_ne by lia.
  - by rewrite !lookup_take_ge by lia.
Qed.

Section LoopLemmas.
Context {W R : Type} (r : Reader R) `{!ReaderLaws r}.
Implicit Types (st : St W) (buf : Slice).

(** Growing keeps the contents, wipes the old buffer and makes room. *)
Lemma growZeroing_run k buf st :
  owned k buf (mem st) →
  ∃ buf' st', growZeroing buf (s_len buf + 1) st = (Ret buf', st') ∧
    owned k buf' (mem st') ∧ slice_bytes (mem st') buf' = slice_bytes (mem st) buf ∧
    s_len buf' = s_len buf ∧ s_len buf' < slice_cap (mem st') buf' ∧ frame k st st'.
Proof.
  intros ((Hk&Hloc)&Hlen&Hclean).
  destruct (lookup_lt_is_Some_2 _ _ Hloc) as [old Hold].
  unfold slice_cap in Hlen. rewrite Hold in Hlen. cbn in Hlen.
  unfold growZeroing, slice_cap. step_go. rewrite Hold. cbn [default id].
  match goal with |- context [alloc _ ?c] =>
    set (nc := c); assert (s_len buf < nc) as Hnc
      by (subst nc; repeat case_if; repeat match goal with
          | H : (_ <? _) = true |- _ => apply Nat.ltb_lt in H
          | H : (_ <? _) = false |- _ => apply Nat.ltb_ge in H
          | H : (_ =? _) = true |- _ => apply Nat.eqb_eq in H end; lia) end.
  unfold alloc, mem_alloc, slice_bytes. rewrite Hold. cbn [default id mem set_mem obs resp world].
  rewrite length_take, Nat.min_l by done.
  eexists _, _. split; [reflexivity|]. cbn [mem set_mem obs resp world].
  unfold mem_zero. cbn [s_loc s_len].
  assert (∀ l, length l = nc → alter (zero_prefix (length old)) (s_loc buf) (mem st ++ [l]) !! length (mem st)
    = Some l) as Hnew.
  { intros l _. rewrite list_lookup_alter_ne by lia.
    rewrite lookup_app_r, Nat.sub_diag by lia. done. }
  assert (length (take (s_len buf) old ++ replicate (nc - s_len buf) 0%Z) = nc) as Hl.
  { rewrite length_app, length_take, length_replicate. lia. }
  specialize (Hnew _ Hl). split_and!; cbn [s_loc s_len].
  - split_and!; cbn [s_loc s_len].
    + lia.
    + rewrite length_alter, length_app. cbn. lia.
    + unfold slice_cap. cbn [s_loc]. rewrite Hnew. cbn [default id]. rewrite Hl. lia.
    + intros i b Hi Hne Hb. destruct (decide (i = s_loc buf)) as [->|Hi2].
      * rewrite list_lookup_alter_eq, lookup_app_l, Hold in Hb by lia. cbn in Hb.
        injection Hb as <-. pose proof (take_zero_prefix (length old) old) as Hz.
        by rewrite take_ge in Hz by (rewrite zero_prefix_length; lia).
      * rewrite list_lookup_alter_ne in Hb by done.
        pose proof (lookup_lt_Some _ _ _ Hb) as Hlt. rewrite length_app in Hlt. cbn in Hlt.
        rewrite lookup_app_l in Hb by lia. by eapply Hclean.
  - unfold slice_bytes. cbn [s_loc s_len]. rewrite Hnew. cbn [default id].
    rewrite take_app_le, take_take by (rewrite length_take; lia). by rewrite Nat.min_id.
  - done.
  - unfold slice_cap. cbn [s_loc s_len]. rewrite Hnew. cbn [default id]. rewrite Hl. lia.
  - split; [|done]. cbn. rewrite take_alter by done. by rewrite take_app_le by lia.
Qed.

(** One read appends what the reader delivered. *)
Lemma read_into_run k buf s st :
  owned k buf (mem st) →
  ∃ p q n e s' st', r p s = ((q, n, e), s') ∧
    (s_len buf < slice_cap (mem st) buf → p ≠ []) ∧
    read_into r buf s st = (Ret (mkSlice (s_loc buf) (s_len buf + n), e, s'), st') ∧
    owned k (mkSlice (s_loc buf) (s_len buf + n)) (mem st') ∧
    slice_bytes (mem st') (mkSlice (s_loc buf) (s_len buf + n)) = slice_bytes (mem st) buf ++ take n q ∧
    frame k st st'.
Proof.
  intros ((Hk&Hloc)&Hlen&Hclean).
  destruct (lookup_lt_is_Some_2 _ _ Hloc) as [old Hold].
  unfold slice_cap in Hlen. rewrite Hold in Hlen. cbn in Hlen.
  unfold read_into. step_go. rewrite Hold. cbn [default id].
  destruct (r (drop (s_len buf) old) s) as [[[q n] e] s'] eqn:Hr.
  pose proof (reader_bounds _ _ _ _ _ _ Hr) as [Hq Hn]. rewrite length_drop in Hq, Hn.
  exists (drop (s_len buf) old), q, n, e, s'.
  eexists. split; [done|]. split.
  { unfold slice_cap. rewrite Hold. cbn. intros Hlt Hnil. apply (f_equal length) in Hnil.
    rewrite length_drop in Hnil. cbn in Hnil. lia. }
  unfold slice_cap. rewrite Hold. cbn [default id].
  rewrite (proj2 (Nat.ltb_ge _ _)) by lia. split; [reflexivity|].
  cbn [mem set_mem obs resp world]. unfold mem_write_tail.
  split_and!.
  - split_and!; cbn [s_loc s_len]; [lia|by rewrite length_alter| |].
    + unfold slice_cap. cbn [s_loc]. rewrite list_lookup_alter_eq, Hold. cbn.
      rewrite length_app, length_take. lia.
    + intros i b Hi Hne Hb. rewrite list_lookup_alter_ne in Hb by done. by eapply Hclean.
  - unfold slice_bytes. cbn [s_loc s_len]. rewrite list_lookup_alter_eq, Hold. cbn.
    rewrite take_app, length_take, take_take. f_equal; f_equal; lia.
  - split; [|done]. cbn. by apply take_alter.
Qed.

(** Make room if a test says so. *)
Lemma grow_if_run k buf st (b : bool) :
  owned k buf (mem st) →
  ∃ buf' st', (if b then growZeroing buf (s_len buf + 1) else mret buf) st = (Ret buf', st') ∧
    owned k buf' (mem st') ∧ slice_bytes (mem st') buf' = slice_bytes (mem st) buf ∧
    (b = true ∨ s_len buf < slice_cap (mem st) buf → s_len buf' < slice_cap (mem st') buf') ∧
    frame k st st'.
Proof.
  intros Hown. destruct b.
  - destruct (growZeroing_run k buf st Hown) as (buf'&st'&Hg&Hown'&Hb&_&Hroom&Hfr). eauto 10.
  - exists buf, st. split_and!; try done. intros [?|?]; done.
Qed.

Lemma read_step_run k buf s st :
  owned k buf (mem st) →
  ∃ p q n e s' buf' st', r p s = ((q, n, e), s') ∧ p ≠ [] ∧
    read_step r buf s st =
      (Ret (buf', s', match e with Some ErrEOF => Some None | Some e => Some (Some e) | None => None end), st') ∧
    owned k buf' (mem st') ∧
    slice_bytes (mem st') buf' = slice_bytes (mem st) buf ++ take n q ∧ frame k st st'.
Proof.
  intros Hown. unfold read_step.
  rewrite (bind_ret _ _ _ st st) by done.
  destruct (grow_if_run k buf st (s_len buf =? slice_cap (mem st) buf) Hown)
    as (buf1&st1&Hg&Hown1&Hb1&Hroom&Hfr1).
  rewrite (bind_ret _ _ _ _ _ Hg).
  destruct (read_into_run k buf1 s st1 Hown1) as (p&q&n&e&s'&st2&Hr&Hp&Hread&Hown2&Hb2&Hfr2).
  rewrite (bind_ret _ _ _ _ _ Hread).
  assert (p ≠ []) as Hp'.
  { apply Hp, Hroom. destruct (Nat.eqb_spec (s_len buf) (slice_cap (mem st) buf)); [by left|].
    right. destruct Hown as (_&?&_). lia. }
  destruct e as [e|].
  - exists p, q, n, (Some e), s', (mkSlice (s_loc buf1) (s_len buf1 + n)), st2.
    split_and!; try done; [by destruct e|by rewrite Hb2, Hb1|by eapply frame_trans].
  - rewrite (bind_ret _ _ _ st2 st2) by done.
    match goal with |- context [if ?b then _ else _] =>
      destruct (grow_if_run k (mkSlice (s_loc buf1) (s_len buf1 + n)) st2 b Hown2)
        as (buf3&st3&Hg3&Hown3&Hb3&_&Hfr3) end.
    rewrite (bind_ret _ _ _ _ _ Hg3).
    exists p, q, n, None, s', buf3, st3.
    split_and!; try done; [by rewrite Hb3, Hb2, Hb1|].
    eapply frame_trans; [done|]. by eapply frame_trans.
Qed.

(** With more fuel than the reader has bytes, the loop returns. *)
Lemma read_loop_run (μ : R → nat) `{!ReaderProgress r μ} k fuel buf s st :
  owned k buf (mem st) → μ s < fuel →
  ∃ buf' s' b e st',
    read_loop fuel r buf s st = (Ret (buf', match e with ErrEOF => None | _ => Some e end, s'), st') ∧
    reads r s b e s' ∧ owned k buf' (mem st') ∧
    slice_bytes (mem st') buf' = slice_bytes (mem st) buf ++ b ∧ frame k st st'.
Proof.
  revert buf s st. induction fuel as [|fuel IH]; intros buf s st Hown Hμ; [lia|]. cbn [read_loop].
  destruct (read_step_run k buf s st Hown) as (p&q&n&e&s1&buf1&st1&Hr&Hp&Hstep&Hown1&Hb1&Hfr1).
  rewrite (bind_ret _ _ _ _ _ Hstep). destruct e as [e|].
  - exists buf1, s1, (take n q), e, st1. split_and!; try done; [by destruct e|by eapply reads_last].
  - apply reader_progress in Hr as Hpr; [|done].
    destruct (IH buf1 s1 st1 Hown1) as (buf'&s'&b&e&st'&Hloop&Hreads&Hown'&Hb'&Hfr'); [lia|].
    exists buf', s', (take n q ++ b), e, st'. split_and!; try done.
    + by eapply reads_more.
    + by rewrite Hb', Hb1, app_assoc.
    + by eapply frame_trans.
Qed.

(** [ReadAll] as a whole, for callers. *)
Lemma ReadAll_run (μ : R → nat) `{!ReaderProgress r μ} fuel s st :
  μ s < fuel →
  ∃ buf s' b e st',
    ReadAll fuel r s st = (Ret (buf, match e with ErrEOF => None | _ => Some e end, s'), st') ∧
    reads r s b e s' ∧ slice_bytes (mem st') buf = b ∧
    owned (length (mem st)) buf (mem st') ∧ frame (length (mem st)) st st'.
Proof.
  intros Hμ. unfold ReadAll.
  set (st0 := set_mem (mem st ++ [replicate 512 0%Z]) st).
  assert (owned (length (mem st)) (mkSlice (length (mem st)) 0) (mem st0)) as Hown.
  { split_and!; cbn [s_loc s_len st0 set_mem mem]; [lia|rewrite length_app; cbn; lia|lia|].
    intros i b Hi Hne Hb. apply lookup_lt_Some in Hb. rewrite length_app in Hb. cbn in Hb. lia. }
  destruct (read_loop_run μ _ fuel _ s st0 Hown Hμ) as (buf&s'&b&e&st'&Hloop&Hr&Hown'&Hb&Hfr).
  exists buf, s', b, e, st'. split_and!; try done.
  eapply frame_trans; [|done]. split; [|done]. cbn. by rewrite take_app_le.
Qed.
End LoopLemmas.

(** ** The rest of the buffer *)

(** The buffer of a slice holds nothing past the slice's length. *)
Definition tail_zero (m : Mem) (sl : Slice) : Prop := all_zero (drop (s_len sl) (default [] (m !! s_loc sl))).

Lemma all_zero_drop_prefix n k b : all_zero (drop n b) → all_zero (drop n (zero_prefix k b)).
Proof.
  unfold all_zero, zero_prefix. rewrite !Forall_lookup. intros H i z Hz. specialize (H i z). rewrite lookup_drop in Hz, H.
  destruct (decide (n + i < length (take k b))) as [Hlt|Hge].
  - rewrite lookup_app_l in Hz by (by rewrite length_map). rewrite list_lookup_fmap in Hz.
    destruct (take k b !! (n + i)); by simplify_eq/=.
  - rewrite lookup_app_r in Hz by (rewrite length_map; lia). rewrite length_map, lookup_drop, length_take in Hz.
    rewrite length_take in Hge. pose proof (lookup_lt_Some _ _ _ Hz). apply H. rewrite <- Hz. f_equal. lia.
Qed.

Lemma all_zero_prefix n b : all_zero (drop n b) → all_zero (zero_prefix n b).
Proof.
  intros H. unfold zero_prefix. apply Forall_app. split; [|done]. apply Forall_map, Forall_forall. done.
Qed.

Section TailLemmas.
Context {W R : Type} (r : Reader R) `{!ReaderLaws r} (Htidy : tidy r).
Implicit Types (st : St W) (buf : Slice).

Lemma alloc_tail (b : bytes) cap st sl st' : alloc b cap st = (Ret sl, st') → tail_zero (mem st') sl.
Proof.
  intros [= <- <-]. unfold tail_zero. cbn. rewrite lookup_app_r, Nat.sub_diag by lia. cbn.
  rewrite drop_app_length. by apply Forall_replicate.
Qed.

Lemma growZeroing_tail buf c st buf' st' : growZeroing buf c st = (Ret buf', st') → tail_zero (mem st') buf'.
Proof.
  unfold growZeroing. step_go. match goal with |- context [alloc ?b ?cap] => destruct (alloc b cap st) as [[sl|v] st1] eqn:Ha end; [|done].
  apply alloc_tail in Ha. intros H. cbn in H. injection H as <- <-. unfold tail_zero in *. cbn [mem set_mem].
  unfold mem_zero. cbn [s_loc s_len]. destruct (decide (s_loc sl = s_loc buf)) as [E|Hne]; [|by rewrite list_lookup_alter_ne].
  rewrite E in *. rewrite list_lookup_alter_eq. destruct (mem st1 !! s_loc buf); [by apply all_zero_drop_prefix|done].
Qed.

Lemma read_into_tail buf s st buf' e s' st' : (s_len buf <= slice_cap (mem st) buf)%nat → tail_zero (mem st) buf →
  read_into r buf s st = (Ret (buf', e, s'), st') → tail_zero (mem st') buf'.
Proof.
  unfold tail_zero, slice_cap. intros Hl Hz. unfold read_into. step_go.
  destruct (r (drop (s_len buf) (default [] (mem st !! s_loc buf))) s) as [[[q n] e1] s1] eqn:Hr.
  pose proof (Htidy _ _ _ _ _ _ Hr) as Hd. pose proof (reader_bounds _ _ _ _ _ _ Hr) as [Hq Hn].
  case_if; [done|]. intros [= <- <- <- <-]. cbn [mem set_mem s_loc s_len]. unfold mem_write_tail.
  rewrite list_lookup_alter_eq. destruct (mem st !! s_loc buf) as [b|]; cbn in *; [|rewrite drop_nil; constructor].
  rewrite <- drop_drop, drop_app_length' by (rewrite length_take; lia). rewrite Hd. unfold all_zero. by apply Forall_drop.
Qed.

Lemma read_step_tail k buf s st buf' s' fin st' : owned k buf (mem st) → tail_zero (mem st) buf →
  read_step r buf s st = (Ret (buf', s', fin), st') → tail_zero (mem st') buf'.
Proof.
  intros Hown Hz H. unfold read_step in H. rewrite (bind_ret _ _ _ st st) in H by done.
  destruct (grow_if_run k buf st (s_len buf =? slice_cap (mem st) buf) Hown) as (buf1&st1&Hg&Hown1&_&_&_).
  rewrite (bind_ret _ _ _ _ _ Hg) in H. assert (tail_zero (mem st1) buf1) as Hz1.
  { destruct (s_len buf =? slice_cap (mem st) buf); [by eapply growZeroing_tail|]. by injection Hg as <- <-. }
  destruct (read_into_run r k buf1 s st1 Hown1) as (p&q&n&e&s1&st2&_&_&Hread&Hown2&_).
  rewrite (bind_ret _ _ _ _ _ Hread) in H. apply read_into_tail in Hread as Hz2; [|apply Hown1|done].
  destruct e as [e|]; [by injection H as <- <- <- <-|]. rewrite (bind_ret _ _ _ st2 st2) in H by done.
  match type of H with context [if ?b then growZeroing ?x ?c else _] =>
    destruct (grow_if_run k x st2 b Hown2) as (buf3&st3&Hg3&_); rewrite (bind_ret _ _ _ _ _ Hg3) in H; destruct b end;
    injection H as <- <- <- <-; [by eapply growZeroing_tail|]. by injection Hg3 as <- <-.
Qed.

Lemma read_loop_tail k fuel buf s st buf' e s' st' : owned k buf (mem st) → tail_zero (mem st) buf →
  read_loop fuel r buf s st = (Ret (buf', e, s'), st') → tail_zero (mem st') buf'.
Proof.
  revert buf s st. induction fuel as [|fuel IH]; intros buf s st Hown Hz H; [done|]. cbn [read_loop] in H.
  destruct (read_step_run r k buf s st Hown) as (p&q&n&e1&s1&buf1&st1&_&_&Hstep&Hown1&_).
  apply (read_step_tail k) in Hstep as Hz1; [|done..]. rewrite (bind_ret _ _ _ _ _ Hstep) in H.
  destruct e1 as [e1|]; [|by eapply IH]. by destruct e1; injection H as <- <- <- <-.
Qed.

Lemma ReadAll_tail fuel s st buf e s' st' : ReadAll fuel r s st = (Ret (buf, e, s'), st') → tail_zero (mem st') buf.
Proof.
  unfold ReadAll. intros [(sl&st1&Ha&H)|(v&_&?)]%bind_inv; [|done]. apply alloc_tail in Ha as Hz.
  eapply (read_loop_tail (length (mem st))); [|exact Hz|exact H]. injection Ha as <- <-.
  split_and!; cbn [s_loc s_len set_mem mem]; [lia|rewrite length_app; cbn; lia|cbn; lia|].
  intros i b Hi Hne Hb. apply lookup_lt_Some in Hb. rewrite length_app in Hb. cbn in Hb. lia.
Qed.
End TailLemmas.

(** ** Properties *)

(** C31 [ReadAll] terminates on every reader that makes progress and returns
    exactly the bytes the reader delivered up to its first error (EOF becomes
    success).  Whatever growing happened on the way, the returned buffer is
    the only one that holds data: every other buffer it allocated is all
    zero, over its whole capacity, and older memory is untouched. *)
Theorem read_all_leaves_one_copy {W R} (r : Reader R) (μ : R → nat)
    `{!ReaderLaws r} `{!ReaderProgress r μ} (fuel : nat) (s : R) (st : St W) :
  μ s < fuel →
  ∃ buf s' e st',
    ReadAll fuel r s st = (Ret (buf, match e with ErrEOF => None | _ => Some e end, s'), st') ∧
    reads r s (slice_bytes (mem st') buf) e s' ∧
    take (length (mem st)) (mem st') = mem st ∧
    (∀ i b, length (mem st) <= i → i ≠ s_loc buf → mem st' !! i = Some b → all_zero b) ∧
    obs st' = obs st ∧ resp st' = resp st ∧ world st' = world st.
Proof.
  intros Hμ. destruct (ReadAll_run r μ fuel s st Hμ) as (buf&s'&b&e&st'&Hrun&Hr&Hb&(_&_&Hc)&Hm&Hrest).
  exists buf, s', e, st'. subst b. rewrite (take_ge (mem st)) in Hm by lia.
  split_and!; try done; apply Hrest.
Qed.

Definition toy_st : St unit := mkSt [[1; 2]%Z] [] NewResponse tt.

Lemma read_all_leaves_one_copy_witness : ∃ buf s' e st',
    ReadAll 701 BytesReader (replicate 700 65%Z) toy_st
      = (Ret (buf, match e with ErrEOF => None | _ => Some e end, s'), st') ∧
    reads BytesReader (replicate 700 65%Z) (slice_bytes (mem st') buf) e s' ∧
    take (length (mem toy_st)) (mem st') = mem toy_st ∧
    (∀ i b, length (mem toy_st) <= i → i ≠ s_loc buf → mem st' !! i = Some b → all_zero b) ∧
    obs st' = obs toy_st ∧ resp st' = resp toy_st ∧ world st' = world toy_st.
Proof.
  apply (read_all_leaves_one_copy BytesReader length 701 (replicate 700 65%Z) toy_st).
  apply Nat.ltb_lt. vm_compute. reflexivity.
Defined.

(** Growing did happen in that run: two buffers were allocated. *)
Example toy_read_grows :
  length (mem (ReadAll 701 BytesReader (replicate 700 65%Z) toy_st).2) = 3.
Proof. vm_compute. reflexivity. Qed.
