(* ===== verification/Http.v ===== *)
(** * HTTP building blocks

    Requests and handlers, problem responses (pkg/problem), request ids
    (internal/requestid), and the recovery, access-log and observability
    middleware (internal/middleware).  JSON string encoding is that of
    encoding/json's Encoder (HTML escaping on). *)
From stdpp Require Import base gmap strings list pretty.
From Stdlib Require Import ZArith Lia Ascii.
From S2P Require Import Prelude Utf8 GoStrings GoTime GoBase Observability GoState.

Local Open Scope Z_scope.

(** The parts of *http.Request the service reads; [R] is the reader state of
    the body. *)
Record HttpRequest (R : Type) := mkHttpRequest {
  Method : string;
  Path : string;
  RemoteAddr : string;
  Header : gmap string (list string);
  Body : R;
  req_ctx : Context
}.
Arguments mkHttpRequest {R} _ _ _ _ _ _.
Arguments Method {R} _.
Arguments Path {R} _.
Arguments RemoteAddr {R} _.
Arguments Header {R} _.
Arguments Body {R} _.
Arguments req_ctx {R} _.

(** Header().Values and Header().Get; keys are in canonical form. *)
Definition Values {R} (r : HttpRequest R) (key : string) : list string := default [] (Header r !! key).
Definition HeaderGet {R} (r : HttpRequest R) (key : string) : string :=
  match Values r key with v :: _ => v | [] => ""%string end.

Definition with_body {R R'} (r : HttpRequest R) (body : R') : HttpRequest R' :=
  mkHttpRequest (Method r) (Path r) (RemoteAddr r) (Header r) body (req_ctx r).
Definition with_context {R} (r : HttpRequest R) (ctx : Context) : HttpRequest R :=
  mkHttpRequest (Method r) (Path r) (RemoteAddr r) (Header r) (Body r) ctx.

Definition Handler (W R : Type) : Type := HttpRequest R → M (St W) unit.

(** requestid.From. *)
Definition requestid_From (ctx : Context) : string := default ""%string (ctx_request_id ctx).

(** ** encoding/json strings *)

Definition hex_digit (d : Z) : Z := if d <? 10 then 48 + d else 87 + d.

(** htmlSafeSet: printable ASCII but the quote, the ampersand, angle brackets
    and the backslash. *)
Definition html_safe (b : Z) : bool :=
  within 0x20 0x7F b && negb (bool_decide (b ∈ [0x22; 0x26; 0x3C; 0x3E; 0x5C])).

Definition json_escape_byte (b : Z) : bytes :=
  if html_safe b then [b]
  else if (b =? 0x5C) || (b =? 0x22) then [0x5C; b]
  else if b =? 8 then [0x5C; 98]
  else if b =? 12 then [0x5C; 102]
  else if b =? 10 then [0x5C; 110]
  else if b =? 13 then [0x5C; 114]
  else if b =? 9 then [0x5C; 116]
  else [0x5C; 117; 48; 48; hex_digit (Z.shiftr b 4); hex_digit (Z.land b 0xF)].

Fixpoint json_escape (skip : nat) (s : bytes) : bytes :=
  match s with
  | [] => []
  | b :: s' =>
    match skip with
    | S k => json_escape k s'
    | O =>
      if b <? RuneSelf then json_escape_byte b ++ json_escape 0 s'
      else
        let '(r, n) := decode_rune s in
        (if (r =? RuneError) && (n =? 1)%nat then [0x5C; 117; 102; 102; 102; 100]
         else if (r =? 0x2028) || (r =? 0x2029) then [0x5C; 117; 50; 48; 50; hex_digit (Z.land r 0xF)]
         else take n s)
        ++ json_escape (n - 1) s'
    end
  end.

Definition json_string (s : string) : string :=
  string_of_bytes (0x22 :: json_escape 0 (bytes_of_string s) ++ [0x22]).

(** ** pkg/problem *)

Definition DefaultBaseURL := "https://nycu.edu.tw/problems"%string.

Record Problem := mkProblem {
  p_Type : string;
  p_Title : string;
  p_Status : Z;
  p_Detail : string;
  p_Instance : string;
  p_TraceID : string
}.

Definition typeURL (baseURL slug : string) : string :=
  let baseURL := TrimRight baseURL "/"%char in
  let baseURL := if bool_decide (baseURL = ""%string) then DefaultBaseURL else baseURL in
  (baseURL +:+ "/" +:+ slug)%string.

Definition Validation (baseURL instance traceID detail : string) : Problem :=
  mkProblem (typeURL baseURL "validation-error") "Validation Error" 400 detail instance traceID.
Definition Unauthorized (baseURL instance traceID detail : string) : Problem :=
  mkProblem (typeURL baseURL "unauthorized") "Unauthorized" 401 detail instance traceID.
Definition TooManyRequests (baseURL instance traceID detail : string) : Problem :=
  mkProblem (typeURL baseURL "too-many-requests") "Too Many Requests" 429 detail instance traceID.
Definition PayloadTooLarge (baseURL instance traceID detail : string) : Problem :=
  mkProblem (typeURL baseURL "payload-too-large") "Payload Too Large" 413 detail instance traceID.
Definition Internal (baseURL instance traceID detail : string) : Problem :=
  mkProblem (typeURL baseURL "internal-error") "Internal Server Error" 500 detail instance traceID.

(** A double quote, and a member of an object; [omitempty] drops an empty
    one. *)
Definition dq : string := String (ascii_of_nat 34) "".
Definition json_member (key value : string) : string := (dq +:+ key +:+ dq +:+ ":" +:+ value)%string.
Definition omit_empty (key value : string) : list string :=
  if bool_decide (value = ""%string) then [] else [json_member key (json_string value)].

(** The line Encode writes. *)
Definition encode_problem (p : Problem) : string :=
  ("{" +:+ Join ([json_member "type" (json_string (p_Type p));
                  json_member "title" (json_string (p_Title p));
                  json_member "status" (pretty (p_Status p))]
                 ++ omit_empty "detail" (p_Detail p)
                 ++ omit_empty "instance" (p_Instance p)
                 ++ omit_empty "traceId" (p_TraceID p)) "," +:+ "}" +:+ String (ascii_of_nat 10) "")%string.

Section Middleware.
Context {W R : Type}.

(** problem.Write. *)
Definition Write (p : Problem) : M (St W) unit :=
  SetHeader "Content-Type" "application/problem+json" ;;
  WriteHeader (p_Status p) ;;
  WriteBody (encode_problem p).

(** recordMiddlewareOutcome with a recorder and a logger, which every
    constructor of the package installs. *)
Definition recordMiddlewareOutcome (traceID middlewareName : string) (status : Z)
    (outcome reason : string) (extra : list Attr) : M (St W) unit :=
  let labels : Labels :=
    {[ "middleware" := middlewareName; "status" := pretty status; "outcome" := outcome ]} in
  let labels := if bool_decide (reason = ""%string) then labels else <["reason" := reason]> labels in
  emit (Inc MetricMiddlewareRequestsTotal labels) ;;
  let action := if bool_decide (outcome = "panic_recovered"%string)
                then ActionMiddlewareRecovered else ActionMiddlewareRejected in
  emit (LogAttrs action
    ([("action", VString action); ("traceId", VString traceID); ("middleware", VString middlewareName);
      ("status", VInt status); ("outcome", VString outcome)]%string
     ++ opt_attr "reason" reason ++ extra)).

(** RecoveryWithOptions. *)
Definition Recovery (problemBase : string) (next : Handler W R) : Handler W R := λ r,
  let problemBase := if bool_decide (TrimSpace problemBase = ""%string) then DefaultBaseURL else problemBase in
  recover_
    (recordMiddlewareOutcome (requestid_From (req_ctx r)) "recovery" 500 "panic_recovered" "panic" [] ;;
     Write (Internal problemBase (Path r) (requestid_From (req_ctx r)) "unexpected server error"))
    (next r).

(** AccessLog with a logger; [clock] is time.Now. *)
Definition AccessLog (clock : W → Time * W) (next : Handler W R) : Handler W R := λ r,
  start ← call (λ w, let '(t, w') := clock w in (Ret t, w'));
  modify (λ s, let p := resp s in
    set_resp (mkResponse (r_status p) (r_header p) (r_body p) 0) s) ;;
  next r ;;
  st ← get;
  now ← call (λ w, let '(t, w') := clock w in (Ret t, w'));
  let status := if r_recorded (resp st) =? 0 then 200 else r_recorded (resp st) in
  emit (LogAttrs "request"
    [("traceId", VString (requestid_From (req_ctx r))); ("method", VString (Method r));
     ("path", VString (Path r)); ("status", VInt status);
     ("durationMs", VInt (Milliseconds (Sub now start)))]%string).

(** requestid.Middleware; [rand] fills the sixteen bytes of New, or fails. *)
Definition hex_encode (b : bytes) : string :=
  string_of_bytes (concat (map (λ x, [hex_digit (Z.shiftr x 4); hex_digit (Z.land x 0xF)]) b)).

Definition requestid_New (rand : nat → W → option bytes * W) : M (St W) string :=
  b ← call (λ w, let '(b, w') := rand 16%nat w in (Ret b, w'));
  mret (match b with Some b => hex_encode b | None => "unknown"%string end).

Definition requestid_Middleware (rand : nat → W → option bytes * W) (next : Handler W R) : Handler W R := λ r,
  let id := TrimSpace (HeaderGet r "X-Request-Id") in
  id ← (if bool_decide (id = ""%string) then requestid_New rand else mret id);
  SetHeader "X-Request-Id" id ;;
  next (with_context r (mkContext (Some id) (ctx_err (req_ctx r)))).
End Middleware.

(** ** Properties *)

(** What [Write] leaves on a response whose status is not sent yet. *)
Lemma Write_run {W} (p : Problem) (st : St W) :
  r_status (resp st) = 0 → p_Status p ≠ 0 →
  Write p st = (Ret tt, set_resp (mkResponse (p_Status p)
    (<["Content-Type" := "application/problem+json"]> (r_header (resp st)))
    (r_body (resp st) ++ [encode_problem p]) (p_Status p)) st).
Proof.
  intros H0 Hp. unfold Write, SetHeader, WriteHeader, WriteBody. step_go. rewrite H0. cbn.
  by rewrite (proj2 (Z.eqb_neq _ _) Hp).
Qed.

(** The recovery middleware contains every panic of the handlers inside
    it: it never panics itself, it is invisible when the handler returns, and
    when the handler panics before sending a status the client gets the
    problem response with status 500, one rejection metric and one log line
    are recorded, and the panic value appears in neither. *)
Lemma recovery_contains_panics {W R} (base : string) (next : Handler W R) (r : HttpRequest R) (st : St W) :
  match next r st with
  | (Ret _, st1) => Recovery base next r st = (Ret tt, st1)
  | (Panic _, st1) =>
      ∃ st2, Recovery base next r st = (Ret tt, st2) ∧
        mem st2 = mem st1 ∧ world st2 = world st1 ∧
        (∃ labels attrs, obs st2 = obs st1 ++
           [Inc MetricMiddlewareRequestsTotal labels; LogAttrs ActionMiddlewareRecovered attrs] ∧
         attrs = [("action", VString ActionMiddlewareRecovered);
                  ("traceId", VString (requestid_From (req_ctx r))); ("middleware", VString "recovery");
                  ("status", VInt 500); ("outcome", VString "panic_recovered");
                  ("reason", VString "panic")]%string) ∧
        (r_status (resp st1) = 0 → r_status (resp st2) = 500 ∧
           ∃ p, p_Status p = 500 ∧ p_Detail p = "unexpected server error"%string ∧
                r_body (resp st2) = r_body (resp st1) ++ [encode_problem p])
  end.
Proof.
  unfold Recovery, recover_. destruct (next r st) as [[[]|v] st1]; [done|].
  unfold recordMiddlewareOutcome, Write, SetHeader, WriteHeader, WriteBody. step_go.
  destruct (r_status (resp st1) =? 0) eqn:E; cbn; rewrite ?E; cbn; eexists; split; [done| |done|];
    cbn; (split_and!; [done|done|eexists _, _; split; [by rewrite <- app_assoc|done]|]).
  - intros _. split; [done|]. eexists (Internal _ _ _ _). done.
  - intros H. apply Z.eqb_neq in E. done.
Qed.
