(* ===== verification/JsonMarshal.v ===== *)
(** * encoding/json strings, written and read back

    json.Marshal prints a Go string with [json_escape]; for valid UTF-8 the
    text is one JSON string and unquotes to the same bytes.  Any other string
    still prints as one JSON string, with the replacement character for what
    is not UTF-8. *)
From stdpp Require Import base strings list.
From Stdlib Require Import ZArith Lia.
From S2P Require Import Prelude Utf8 GoStrings GoTime Json GoBase Observability GoState HookJson JsonPrint Http.

Local Open Scope Z_scope.

Lemma json_escape_skip k s : json_escape k s = json_escape 0 (drop k s).
Proof. revert k. induction s as [|b s IH]; intros [|k]; cbn [json_escape drop]; try done. Qed.

(** ** One ASCII character *)

(** Go through the ASCII characters, with the escape of each evaluated. *)
Ltac each_ascii b Hb :=
  let Hin := fresh in
  assert (b ∈ map Z.of_nat (seq 0 128)) as Hin
    by (apply list_elem_of_fmap; exists (Z.to_nat b); rewrite elem_of_seq; lia);
  clear Hb; cbn [map seq Z.of_nat Pos.of_succ_nat Pos.succ] in Hin;
  repeat (apply elem_of_cons in Hin as [->|Hin];
    [match goal with |- context [json_escape_byte ?n] =>
       let e := eval vm_compute in (json_escape_byte n) in change (json_escape_byte n) with e end; cbn [app]|]);
  [..|by apply elem_of_nil in Hin].

Lemma escape_byte_text b t : 0 <= b < 128 → json_text t → json_text (json_escape_byte b ++ t).
Proof.
  intros Hb Ht. each_ascii b Hb.
  all: first [by apply text_plain | apply text_escape; [apply (bool_decide_unpack _); by vm_compute|done] | by apply text_unicode].
Qed.

Lemma escape_byte_unquote b t : 0 <= b < 128 →
  unquote (json_escape_byte b ++ t) = match unquote t with Some x => Some (b :: x) | None => None end.
Proof.
  intros Hb. each_ascii b Hb.
  all: first [apply unquote_plain; lia | by apply (unquote_escape [_]) | by apply (unquote_escape [_; _])
             | by apply (unquote_escape [_; _; _; _; _; _])].
Qed.

(** ** A string *)

Lemma json_escape_rune r s : scalar r = true → 0x80 <= r →
  json_escape 0 (encode_rune r ++ s) =
    (if (r =? 0x2028) || (r =? 0x2029) then [0x5C; 117; 50; 48; 50; hex_digit (Z.land r 0xF)] else encode_rune r)
    ++ json_escape 0 s.
Proof.
  intros Hs Hr. pose proof (decode_encode r s Hs) as Hd.
  assert (2 <= length (encode_rune r))%nat as H2.
  { unfold encode_rune. rewrite (within_false 0 127) by lia. repeat case_if; cbn; lia. }
  pose proof (encode_rune_high r H2) as Hh.
  destruct (encode_rune r) as [|c l] eqn:E; [cbn in H2; lia|]. apply Forall_cons in Hh as [Hc _].
  cbn [app length] in *. cbn [json_escape]. unfold RuneSelf. rewrite (proj2 (Z.ltb_ge c 128)) by lia. rewrite Hd.
  replace (S (length l) =? 1)%nat with false by (symmetry; apply Nat.eqb_neq; lia). rewrite andb_false_r.
  rewrite json_escape_skip. replace (S (length l) - 1)%nat with (length l) by lia. rewrite drop_app_length.
  case_if; [done|]. f_equal. change (c :: l ++ s) with ((c :: l) ++ s).
  change (S (length l)) with (length (c :: l)). by rewrite take_app_length.
Qed.

(** The three kinds of first rune. *)
Lemma json_escape_step s : bytes_ok s → s ≠ [] →
  ∃ e r n, decode_rune s = (r, n) ∧ json_escape 0 s = e ++ json_escape 0 (drop n s) ∧
    (∀ t, unquote (e ++ t) = match unquote t with Some b => Some (encode_rune r ++ b) | None => None end) ∧
    (∀ t, json_text t → json_text (e ++ t)).
Proof.
  intros Hok Hne. destruct (decode_rune s) as [r n] eqn:E.
  pose proof E as Hc. apply decode_rune_cases in Hc as
    [(?&?&?)|[(_&->&->)|[(b0&l&->&Hlt&->&->)|(Hs&->&Hn&l&->)]]]; [done|..].
  - destruct s as [|b s]; [done|]. exists [0x5C; 117; 102; 102; 102; 100], RuneError, 1%nat. split; [done|].
    assert ((b <? RuneSelf) = false) as Hb.
    { apply Z.ltb_ge. destruct (Z.ltb_spec b 0x80) as [Hlt|]; [|done].
      cbn in E. unfold RuneSelf in E. rewrite (proj2 (Z.ltb_lt b 128)) in E by lia. injection E as E.
      unfold RuneError in E. lia. }
    split_and!.
    + cbn [json_escape]. rewrite Hb, E. cbn [Z.eqb Pos.eqb Nat.eqb andb Nat.sub drop]. done.
    + intros t. by apply (unquote_chunk [_; _; _; _; _; _]).
    + intros t Ht. by apply text_unicode.
  - apply Forall_cons in Hok as [[Hb _] _]. exists (json_escape_byte b0), b0, 1%nat.
    rewrite encode_rune_1 by lia. split_and!; [done| | |].
    + cbn [json_escape drop]. unfold RuneSelf. by rewrite (proj2 (Z.ltb_lt b0 128)) by lia.
    + intros t. apply escape_byte_unquote. lia.
    + intros t. apply escape_byte_text. lia.
  - assert (0x80 <= r) as Hr.
    { destruct (Z.ltb_spec r 128); [|lia]. apply scalar_iff in Hs. rewrite encode_rune_1 in Hn by lia. cbn in Hn. lia. }
    eexists _, r, _. split; [done|]. rewrite json_escape_rune, drop_app_length by done. split; [reflexivity|].
    destruct (Z.eqb_spec r 0x2028) as [->|]; [|destruct (Z.eqb_spec r 0x2029) as [->|]]; cbn [orb]; split; intros t.
    1,3: by apply (unquote_chunk [_; _; _; _; _; _]).
    1,2: intros Ht; by apply text_unicode.
    + by apply unquote_rune.
    + apply text_high. by apply encode_rune_high.
Qed.

(** The text is a JSON string, and it reads back as the runes of the string:
    what is not UTF-8 becomes the replacement character. *)
Lemma json_escape_reads s : bytes_ok s →
  unquote (json_escape 0 s) = Some (encode_runes (runes s)) ∧ json_text (json_escape 0 s).
Proof.
  induction s as [|s Hne IH] using rune_step_ind; intros Hok; [by repeat constructor|].
  destruct (json_escape_step s Hok Hne) as (e&r&n&Hd&->&Hu&Ht). rewrite Hd in IH. cbn [snd] in IH.
  destruct IH as [IHu IHt]; [by apply Forall_drop|]. split; [|by apply Ht].
  rewrite Hu, IHu, (runes_cons s), Hd by done. done.
Qed.

(** Valid UTF-8 reads back as it is. *)
Lemma json_escape_unquote s : Utf8 s → unquote (json_escape 0 s) = Some s.
Proof.
  intros H. rewrite (proj1 (json_escape_reads s (Utf8_bytes_ok s H))). by rewrite Utf8_encode_runes.
Qed.

(** A Go string with everything that is not UTF-8 replaced. *)
Definition valid_utf8 (s : string) : string := string_of_bytes (encode_runes (runes (bytes_of_string s))).

Lemma valid_utf8_id s : Utf8 (bytes_of_string s) → valid_utf8 s = s.
Proof. intros H. unfold valid_utf8. by rewrite Utf8_encode_runes, string_of_bytes_of_string. Qed.

(** A string value as Marshal prints it, and as Unmarshal reads it. *)
Definition str_value (s : string) : json := JStr (json_escape 0 (bytes_of_string s)).

Lemma string_unmarshal_value old s : string_unmarshal old (str_value s) = Some (valid_utf8 s).
Proof.
  unfold str_value, string_unmarshal. by rewrite (proj1 (json_escape_reads _ (bytes_of_string_ok s))).
Qed.

Lemma str_value_text s : json_text (json_escape 0 (bytes_of_string s)).
Proof. apply json_escape_reads, bytes_of_string_ok. Qed.

(** One member of an object decoded into a struct. *)
Lemma decode_member {A} names (set : string → json → A → option A) k v ms a a' :
  unquote (bytes_of_string k) = Some (bytes_of_string k) → field_match names (bytes_of_string k) = Some k →
  set k v a = Some a' → decode_members names set ((bytes_of_string k, v) :: ms) a = decode_members names set ms a'.
Proof. intros Hk Hf Hs. cbn [decode_members]. by rewrite Hk, Hf, Hs. Qed.
