(* ===== verification/GraphClient.v ===== *)
(** * The directory client (internal/graphclient/client.go)

    Request bodies are built with Go's append, modelled on the byte memory:
    an append that does not fit copies to a new buffer and leaves the old one
    behind.  How much room the runtime reserves is a parameter, [grow].  The
    token source and the HTTP transport are parameters of the world; the base
    URL is the text that [graphURL] prints for it. *)
From stdpp Require Import base gmap strings list pretty.
From Stdlib Require Import ZArith Lia Ascii.
From S2P Require Import Prelude Utf8 GoStrings GoTime Json GoBase Observability GoState HookJson JsonPrint SensitiveIO Http.

Local Open Scope Z_scope.

Record User := mkUser {
  u_UPN : string;
  u_DisplayName : string;
  u_Mail : string
}.

(** ** Text *)

Definition hexDigit (b : Z) : Z := hex_digit (Z.land b 0x0f).

(** What one byte of a value appends. *)
Definition json_byte (b : Z) : bytes :=
  if (b =? 92) || (b =? 34) then [92; b]
  else if b =? 10 then [92; 110]
  else if b =? 13 then [92; 114]
  else if b =? 9 then [92; 116]
  else if b <? 0x20 then [92; 117; 48; 48; hexDigit (Z.shiftr b 4); hexDigit b]
  else [b].

(** The appends of appendJSONString, in order. *)
Definition json_chunks (value : bytes) : list bytes := [34] :: map json_byte value ++ [[34]].

(** appendJSONString as a function on the text. *)
Definition appendJSONString (dst value : bytes) : bytes := dst ++ concat (json_chunks value).

Definition mailNickname (upn : string) : string :=
  let '(local, _, found) := Cut upn "@"%char in
  if found && negb (bool_decide (TrimSpace local = ""%string)) then local else upn.

(** url.PathEscape for one byte: unreserved characters and [$&+=:@] stay. *)
Definition upper_hex (d : Z) : Z := if d <? 10 then 48 + d else 55 + d.
Definition path_escape_byte (b : Z) : bytes :=
  if within 48 57 b || within 65 90 b || within 97 122 b
     || bool_decide (b ∈ [45; 95; 46; 126; 36; 38; 43; 61; 58; 64])
  then [b]
  else [37; upper_hex (Z.shiftr b 4); upper_hex (Z.land b 0xF)].

(** graphPathSegment: PathEscape and then every at sign as %40. *)
Definition graphPathSegment (value : string) : string :=
  string_of_bytes (concat (map (λ b, if b =? 64 then [37; 52; 48] else [b])
    (concat (map path_escape_byte (bytes_of_string value))))).

Definition userPath (upn : string) : string := ("/v1.0/users/" +:+ graphPathSegment upn)%string.

(** A text with its double quotes written as single ones. *)
Definition lit (s : string) : bytes := single_quoted s.

(** The chunks of the two request bodies after their first literal. *)
Definition password_profile (password : bytes) : list bytes :=
  json_chunks password ++ [lit ",'forceChangePasswordNextSignIn':false}}"].

Definition patch_head : bytes := lit "{'passwordProfile':{'password':".
Definition patch_chunks (password : bytes) : list bytes := password_profile password.

Definition create_head : bytes := lit "{'accountEnabled':true,'displayName':".
Definition create_chunks (user : User) (password : bytes) : list bytes :=
  let mail := TrimSpace (u_Mail user) in
  json_chunks (bytes_of_string (u_DisplayName user))
  ++ [lit ",'mailNickname':"] ++ json_chunks (bytes_of_string (mailNickname (u_UPN user)))
  ++ [lit ",'userPrincipalName':"] ++ json_chunks (bytes_of_string (u_UPN user))
  ++ (if bool_decide (mail = ""%string) then []
      else [lit ",'mail':"] ++ json_chunks (bytes_of_string mail)
           ++ [lit ",'otherMails':["] ++ json_chunks (bytes_of_string mail) ++ [[93]])
  ++ [lit ",'passwordProfile':{'password':"] ++ password_profile password.

(** classifyGraphResponse. *)
Definition classifyGraphResponse (operation : string) (status : Z) : error :=
  if (status =? 400) || (status =? 403) then GraphPermanentError status operation None
  else GraphTransientError status operation None.

(** ** The client *)

(** A request as it leaves the client. *)
Record HttpCall := mkHttpCall {
  c_method : string;
  c_url : string;
  c_header : gmap string string;
  c_body : bytes
}.

Record HTTPClient (W : Type) := mkHTTPClient {
  base : string;
  scope : string;
  GetToken : Context → string → W → outcome (result string) * W;
  Do : HttpCall → W → outcome (result Z) * W;
  (** the error of http.NewRequestWithContext for a URL, if it has one *)
  request_error : string → option error;
  (** the capacity append reserves, from the old capacity and the need *)
  grow : nat → nat → nat;
  (** an observer of the finished request body; unset in the service *)
  afterRequestBodyBuilt : option (Slice → M (St W) unit)
}.
Arguments mkHTTPClient {W} _ _ _ _ _ _ _.
Arguments afterRequestBodyBuilt {W} _.
Arguments base {W} _.
Arguments scope {W} _.
Arguments GetToken {W} _ _ _ _.
Arguments Do {W} _ _ _.
Arguments request_error {W} _ _.
Arguments grow {W} _ _ _.

(** A parsed URL: its scheme, its host, and the text of [String] once query
    and fragment are dropped, which is what graphURL starts from. *)
Record URL := mkURL { u_Scheme : string; u_Host : string; u_text : string }.

Definition defaultBaseURL := "https://graph.microsoft.com"%string.
Definition defaultScope := "https://graph.microsoft.com/.default"%string.

Record GraphOptions (W : Type) := mkGraphOptions {
  opt_BaseURL : string;
  opt_HTTPClient : option (HttpCall → W → outcome (result Z) * W);
  opt_Scope : string;
  opt_AfterRequestBodyBuilt : option (Slice → M (St W) unit)
}.
Arguments mkGraphOptions {W} _ _ _ _.
Arguments opt_BaseURL {W} _.
Arguments opt_HTTPClient {W} _.
Arguments opt_Scope {W} _.
Arguments opt_AfterRequestBodyBuilt {W} _.

(** NewHTTPClient; [url_Parse] is url.Parse, [default_Do] the client with the
    default timeout, [req_err] and [gr] the two fields above. *)
Definition NewHTTPClient {W} (url_Parse : string → result URL) (default_Do : HttpCall → W → outcome (result Z) * W)
    (req_err : string → option error) (gr : nat → nat → nat)
    (credential : option (Context → string → W → outcome (result string) * W)) (options : GraphOptions W) : result (HTTPClient W) :=
  match credential with
  | None => Err (ErrorText "graph token credential is required")
  | Some cred =>
    let raw := TrimSpace (opt_BaseURL options) in
    let raw := if bool_decide (raw = ""%string) then defaultBaseURL else raw in
    match url_Parse raw with
    | Err e => Err (Wrapped "graph base URL is invalid" e)
    | Ok u =>
      if bool_decide (u_Scheme u = ""%string) || bool_decide (u_Host u = ""%string)
      then Err (Wrapped "graph base URL is invalid" (ErrorText "missing scheme or host"))
      else
        let sc := TrimSpace (opt_Scope options) in
        Ok (mkHTTPClient (u_text u) (if bool_decide (sc = ""%string) then defaultScope else sc) cred
              (default default_Do (opt_HTTPClient options)) req_err gr (opt_AfterRequestBodyBuilt options))
    end
  end.

Section Client.
Context {W : Type} (c : HTTPClient W).

(** append(dst, bs...). *)
Definition append (dst : Slice) (bs : bytes) : M (St W) Slice :=
  st ← get;
  let cap := slice_cap (mem st) dst in
  let need := (s_len dst + length bs)%nat in
  if (need <=? cap)%nat then
    modify (λ st, set_mem (alter (λ b, take (s_len dst) b ++ bs ++ drop need b) (s_loc dst) (mem st)) st) ;;
    mret (mkSlice (s_loc dst) need)
  else alloc (slice_bytes (mem st) dst ++ bs) (grow c cap need).

Fixpoint append_all (dst : Slice) (chunks : list bytes) : M (St W) Slice :=
  match chunks with
  | [] => mret dst
  | bs :: chunks' => dst' ← append dst bs; append_all dst' chunks'
  end.

(** A body: a literal converted to bytes and the appends after it. *)
Definition build (head : bytes) (chunks : list bytes) : M (St W) Slice :=
  body ← alloc head (grow c 0 (length head));
  append_all body chunks.

Definition buildPatchBody (password : bytes) : M (St W) Slice := build patch_head (patch_chunks password).
Definition buildCreateBody (user : User) (password : bytes) : M (St W) Slice :=
  build create_head (create_chunks user password).

Definition doGraphRequest (ctx : Context) (operation method path : string) (body : option Slice)
    : M (St W) (result Z) :=
  token ← call (GetToken c ctx (scope c));
  match token with
  | Err e => mret (Err (GraphTransientError 0 operation (Some (Wrapped "get graph token" e))))
  | Ok token =>
    let url := (TrimRight (base c) "/"%char +:+ path)%string in
    match request_error c url with
    | Some e => mret (Err (GraphTransientError 0 operation (Some (Wrapped "build graph request" e))))
    | None =>
      data ← match body with Some sl => read_slice sl | None => mret [] end;
      let header : gmap string string :=
        {[ "Accept"%string := "application/json"%string;
           "Authorization"%string := ("Bearer " +:+ token)%string ]} in
      let header := match body with
                    | Some _ => <["Content-Type"%string := "application/json"%string]> header
                    | None => header
                    end in
      r ← call (Do c (mkHttpCall method url header data));
      match r with
      | Err e => mret (Err (GraphTransientError 0 operation (Some e)))
      | Ok status => mret (Ok status)
      end
    end
  end.

Definition after_body (body : Slice) : M (St W) unit :=
  match afterRequestBodyBuilt c with Some f => f body | None => mret tt end.

(** The end of patchUserPassword and createUser: send, and wipe the body. *)
Definition send_body (ctx : Context) (operation method path : string) (body : Slice) : M (St W) (option error) :=
  defer_ (ZeroBytes (Some body)) (
    r ← doGraphRequest ctx operation method path (Some body);
    match r with
    | Err e => mret (Some e)
    | Ok status =>
        if (status <? 200) || (299 <? status) then mret (Some (classifyGraphResponse operation status))
        else mret None
    end).

Definition patchUserPassword (ctx : Context) (upn : string) (password : bytes) : M (St W) (option error) :=
  body ← buildPatchBody password;
  after_body body ;;
  send_body ctx "patch user" "PATCH" (userPath upn) body.

Definition createUser (ctx : Context) (user : User) (password : bytes) : M (St W) (option error) :=
  body ← buildCreateBody user password;
  after_body body ;;
  send_body ctx "create user" "POST" "/v1.0/users" body.

(** UpsertUserPassword; [password] is the borrowed buffer. *)
Definition UpsertUserPassword (ctx : Context) (user : User) (password : Slice) : M (St W) (option error) :=
  let upn := TrimSpace (u_UPN user) in
  if bool_decide (upn = ""%string) then
    mret (Some (GraphPermanentError 0 "validate user" (Some (ErrorText "user UPN is required"))))
  else if (s_len password =? 0)%nat then
    mret (Some (GraphPermanentError 0 "validate password" (Some (ErrorText "password is required"))))
  else
    r ← doGraphRequest ctx "lookup user" "GET" (userPath upn) None;
    match r with
    | Err e => mret (Some e)
    | Ok status =>
      pw ← read_slice password;
      if status =? 200 then patchUserPassword ctx upn pw
      else if status =? 404 then createUser ctx (mkUser upn (u_DisplayName user) (u_Mail user)) pw
      else mret (Some (classifyGraphResponse "lookup user" status))
    end.
End Client.

(** ** What the bodies say *)

Lemma json_byte_text b t : 0 <= b → json_text t → json_text (json_byte b ++ t).
Proof.
  intros Hb Ht. unfold json_byte.
  destruct ((b =? 92) || (b =? 34)) eqn:E.
  { apply text_escape; [|done]. apply orb_prop in E as [E|E]; bool_hyps; subst; set_solver. }
  bool_hyps. do 3 (case_if; [apply text_escape; [set_solver|done]|]).
  destruct (Z.ltb_spec b 32); [|apply text_plain; (done || lia)].
  apply text_unicode; [|done].
  assert (b ∈ map Z.of_nat (seq 0 32)) as Hin.
  { apply list_elem_of_fmap. exists (Z.to_nat b). rewrite elem_of_seq. lia. }
  cbn [map seq] in Hin. repeat (apply elem_of_cons in Hin as [->|Hin]; [done|]). by apply elem_of_nil in Hin.
Qed.

Lemma json_bytes_text v : Forall (λ b, 0 <= b) v → json_text (concat (map json_byte v)).
Proof. induction 1 as [|b v Hb _ IH]; cbn; [constructor|by apply json_byte_text]. Qed.

Lemma unquote_json_byte b t : 0 <= b < 128 →
  unquote (json_byte b ++ t) = match unquote t with Some x => Some (b :: x) | None => None end.
Proof.
  intros Hb. unfold json_byte.
  destruct ((b =? 92) || (b =? 34)) eqn:E.
  { apply unquote_escape; [done|]. apply orb_prop in E as [E|E]; bool_hyps; by subst. }
  bool_hyps. do 3 (case_if; [bool_hyps; subst; by apply unquote_escape|]). bool_hyps.
  destruct (Z.ltb_spec b 32); [|apply unquote_plain; lia].
  assert (b ∈ map Z.of_nat (seq 0 32)) as Hin.
  { apply list_elem_of_fmap. exists (Z.to_nat b). rewrite elem_of_seq. lia. }
  cbn [map seq] in Hin.
  repeat (apply elem_of_cons in Hin as [->|Hin]; [by apply unquote_escape|]). by apply elem_of_nil in Hin.
Qed.

(** A value printed by appendJSONString unquotes to itself. *)
Definition json_raw (value : bytes) : bytes := concat (map json_byte value).

Lemma json_raw_unquote v : Utf8 v → unquote (json_raw v) = Some v.
Proof.
  intros Hv. induction Hv as [|r s Hr _ IH] using Utf8_ind; [done|].
  unfold json_raw in *. rewrite map_app, concat_app.
  destruct (Z.ltb_spec r 128) as [Hlt|Hge].
  - assert (0 <= r) by (apply scalar_iff in Hr; lia).
    rewrite encode_rune_1 by lia. cbn [map concat app]. rewrite app_nil_r.
    rewrite unquote_json_byte by lia. by rewrite IH.
  - assert (concat (map json_byte (encode_rune r)) = encode_rune r) as ->.
    { assert (Forall (λ b, 0x80 <= b) (encode_rune r)) as Hh.
      { apply encode_rune_high. unfold encode_rune. rewrite (within_false 0 127) by lia. repeat case_if; cbn; lia. }
      induction Hh as [|b l Hb _ IHl]; [done|]. cbn [map concat]. rewrite IHl. unfold json_byte.
      rewrite (proj2 (Z.eqb_neq b 92)), (proj2 (Z.eqb_neq b 34)), (proj2 (Z.eqb_neq b 10)),
        (proj2 (Z.eqb_neq b 13)), (proj2 (Z.eqb_neq b 9)), (proj2 (Z.ltb_ge b 32)) by lia. done. }
    rewrite unquote_rune by done. by rewrite IH.
Qed.

Lemma json_chunks_concat v : concat (json_chunks v) = print_string (json_raw v).
Proof. unfold json_chunks, print_string, json_raw. cbn [concat app]. by rewrite concat_app. Qed.

Definition key (s : string) : bytes := bytes_of_string s.

(** The documents the two bodies are. *)
Definition profile_json (password : bytes) : bytes * json :=
  (key "passwordProfile",
   JObj [(key "password", JStr (json_raw password)); (key "forceChangePasswordNextSignIn", JBool false)]).

Definition patch_json (password : bytes) : json := JObj [profile_json password].

Definition create_json (user : User) (password : bytes) : json :=
  let str s := JStr (json_raw (bytes_of_string s)) in
  let mail := TrimSpace (u_Mail user) in
  JObj ([(key "accountEnabled", JBool true); (key "displayName", str (u_DisplayName user));
         (key "mailNickname", str (mailNickname (u_UPN user))); (key "userPrincipalName", str (u_UPN user))]
        ++ (if bool_decide (mail = ""%string) then []
            else [(key "mail", str mail); (key "otherMails", JArr [str mail])])
        ++ [profile_json password]).

Lemma patch_text password : patch_head ++ concat (patch_chunks password) = print (patch_json password).
Proof.
  unfold patch_chunks, password_profile. rewrite concat_app, json_chunks_concat. cbn [concat].
  rewrite app_nil_r. unfold patch_json, profile_json. cbn [print map commas]. unfold print_string. cbn [fst snd print].
  rewrite <- !app_assoc. unfold patch_head, lit, key. cbn -[json_raw]. by rewrite <- !app_assoc.
Qed.

Lemma create_text user password :
  create_head ++ concat (create_chunks user password) = print (create_json user password).
Proof.
  unfold create_chunks, password_profile, create_json, profile_json, create_head, lit, key.
  destruct (bool_decide (TrimSpace (u_Mail user) = ""%string));
    rewrite ?concat_app, ?json_chunks_concat; unfold print_string;
    cbn -[json_raw]; rewrite ?concat_app, ?json_chunks_concat; unfold print_string; cbn -[json_raw];
    repeat (rewrite <- ?app_assoc; cbn -[json_raw]); reflexivity.
Qed.

Lemma key_text s : forallb (λ b, (32 <=? b) && negb (b =? 34) && negb (b =? 92)) (bytes_of_string s) = true →
  json_text (key s).
Proof.
  unfold key. rewrite forallb_Forall. induction 1 as [|b l H _ IH]; [constructor|].
  bool_hyps. by apply text_plain.
Qed.

Ltac key_ok := apply key_text; reflexivity.

Lemma json_raw_text v : bytes_ok v → json_text (json_raw v).
Proof. intros H. apply json_bytes_text. eapply Forall_impl; [exact H|]. unfold byte_ok. lia. Qed.

Lemma profile_printable password : bytes_ok password →
  json_text (profile_json password).1 ∧ printable 1 (profile_json password).2.
Proof.
  intros H. split; [key_ok|]. cbn [profile_json snd printable].
  apply Forall_cons. split; [split; [key_ok|by apply json_raw_text]|].
  apply Forall_cons. split; [split; [key_ok|done]|constructor].
Qed.

Lemma patch_printable password : bytes_ok password → printable 2 (patch_json password).
Proof. intros H. constructor; [by apply profile_printable|constructor]. Qed.

Lemma create_printable user password : bytes_ok password → printable 2 (create_json user password).
Proof.
  intros H. unfold create_json. cbn [printable].
  assert (∀ s, json_text (json_raw (bytes_of_string s))) as Hs by (intros; apply json_raw_text, bytes_of_string_ok).
  repeat (apply Forall_cons; split; [split; cbn [fst snd printable]; [key_ok|by try apply Hs]|]).
  apply Forall_app. split; [|constructor; [by apply profile_printable|constructor]].
  case_if; [constructor|].
  repeat (apply Forall_cons; split; [split; cbn [fst snd printable]; [key_ok|repeat constructor; apply Hs]|]).
  constructor.
Qed.

(** ** Building a body in memory *)

(** A slice of a buffer allocated from index [k] on. *)
Definition live (k : nat) (sl : Slice) (m : Mem) : Prop :=
  (k <= s_loc sl < length m)%nat ∧ (s_len sl <= slice_cap m sl)%nat.

Lemma alloc_run {W} (b : bytes) cap (st : St W) :
  ∃ sl st', alloc b cap st = (Ret sl, st') ∧ slice_bytes (mem st') sl = b ∧
    live (length (mem st)) sl (mem st') ∧ frame (length (mem st)) st st'.
Proof.
  eexists _, _. split; [reflexivity|]. red_go.
  unfold slice_bytes, live, slice_cap, frame. cbn [s_loc s_len mem obs resp world].
  rewrite lookup_app_r, Nat.sub_diag by lia. cbn [lookup list_lookup default id].
  rewrite !length_app. cbn [length]. split_and!; try (done || lia); red_go; by rewrite take_app_length, ?firstn_all.
Qed.

Lemma frame_weaken {W} k k' (st st' : St W) : (k <= k')%nat → frame k' st st' → frame k st st'.
Proof.
  intros Hk [Hm H]. split; [|done]. rewrite <- (Nat.min_l k k') by lia. by rewrite <- !take_take, Hm.
Qed.

Section Build.
Context {W : Type} (c : HTTPClient W).
Implicit Types (st : St W).

Lemma append_run k dst bs st : live k dst (mem st) →
  ∃ dst' st', append c dst bs st = (Ret dst', st') ∧
    slice_bytes (mem st') dst' = slice_bytes (mem st) dst ++ bs ∧ live k dst' (mem st') ∧ frame k st st'.
Proof.
  intros [[Hk Hloc] Hlen]. destruct (lookup_lt_is_Some_2 _ _ Hloc) as [old Hold].
  unfold append. step_go. destruct (Nat.leb_spec (s_len dst + length bs) (slice_cap (mem st) dst)) as [Hfit|_].
  - eexists _, _. split; [reflexivity|]. red_go.
    unfold slice_bytes, live, frame, slice_cap in *. cbn [s_loc s_len mem obs resp world].
    rewrite list_lookup_alter_eq, Hold, length_alter in *. cbn [fmap option_fmap option_map default id] in *.
    split_and!; try (done || lia).
    + rewrite take_app, take_app, !length_take, take_take. cbn.
      rewrite (Nat.min_l (s_len dst) (length old)) by lia.
      replace (s_len dst + length bs - s_len dst)%nat with (length bs) by lia.
      rewrite firstn_all, Nat.sub_diag, take_0, app_nil_r, Nat.min_r by lia. done.
    + rewrite !length_app, length_take, length_drop. lia.
    + by apply take_alter.
  - destruct (alloc_run (slice_bytes (mem st) dst ++ bs) (grow c (slice_cap (mem st) dst) (s_len dst + length bs)) st)
      as (sl&st'&Hr&Hb&[Hl1 Hl2]&Hf1&Hf2).
    exists sl, st'. split_and!; try done; [split; (done || lia)|].
    apply (frame_weaken _ (length (mem st))); [lia|done].
Qed.

Lemma append_all_run k chunks : ∀ dst st, live k dst (mem st) →
  ∃ dst' st', append_all c dst chunks st = (Ret dst', st') ∧
    slice_bytes (mem st') dst' = slice_bytes (mem st) dst ++ concat chunks ∧
    live k dst' (mem st') ∧ frame k st st'.
Proof.
  induction chunks as [|bs chunks IH]; intros dst st Hl; cbn [append_all concat].
  - rewrite app_nil_r. exists dst, st. split_and!; auto using frame_refl.
  - destruct (append_run k dst bs st Hl) as (d1&st1&Hr&Hb&Hl1&Hf).
    destruct (IH d1 st1 Hl1) as (d2&st2&Hr2&Hb2&Hl2&Hf2).
    exists d2, st2. rewrite (bind_ret _ _ _ _ _ Hr). split_and!; try done.
    + by rewrite Hb2, Hb, app_assoc.
    + by eapply frame_trans.
Qed.

Lemma build_run head chunks st :
  ∃ sl st', build c head chunks st = (Ret sl, st') ∧ slice_bytes (mem st') sl = head ++ concat chunks ∧
    live (length (mem st)) sl (mem st') ∧ frame (length (mem st)) st st'.
Proof.
  destruct (alloc_run head (grow c 0 (length head)) st) as (s1&st1&Hr&Hb&Hl&Hf).
  destruct (append_all_run _ chunks _ _ Hl) as (s2&st2&Hr2&Hb2&Hl2&Hf2).
  exists s2, st2. unfold build. rewrite (bind_ret _ _ _ _ _ Hr), <- Hb.
  split_and!; try done. by eapply frame_trans.
Qed.
End Build.

(** ** Reading a body *)

Fixpoint assoc (k : bytes) (ms : list (bytes * json)) : option json :=
  match ms with
  | [] => None
  | (k', v) :: ms' => if bool_decide (k = k') then Some v else assoc k ms'
  end.

(** The value at a path of member names. *)
Fixpoint field (path : list string) (v : json) : option json :=
  match path, v with
  | [], _ => Some v
  | k :: path', JObj ms => match assoc (key k) ms with Some v' => field path' v' | None => None end
  | _ :: _, _ => None
  end.

Definition text_of (v : option json) : option bytes :=
  match v with Some (JStr raw) => unquote raw | _ => None end.

(** What a reader of the request body learns: the document is an object
    whose password profile holds [password]. *)
Definition states_password (doc : json) (password : bytes) : Prop :=
  text_of (field ["passwordProfile"; "password"] doc) = Some password ∧
  field ["passwordProfile"; "forceChangePasswordNextSignIn"] doc = Some (JBool false).

Definition states_user (doc : json) (user : User) : Prop :=
  field ["accountEnabled"] doc = Some (JBool true) ∧
  text_of (field ["displayName"] doc) = Some (bytes_of_string (u_DisplayName user)) ∧
  text_of (field ["mailNickname"] doc) = Some (bytes_of_string (mailNickname (u_UPN user))) ∧
  text_of (field ["userPrincipalName"] doc) = Some (bytes_of_string (u_UPN user)) ∧
  (if bool_decide (TrimSpace (u_Mail user) = ""%string) then field ["mail"] doc = None ∧ field ["otherMails"] doc = None
   else text_of (field ["mail"] doc) = Some (bytes_of_string (TrimSpace (u_Mail user))) ∧
     ∃ v, field ["otherMails"] doc = Some (JArr [v]) ∧ text_of (Some v) = Some (bytes_of_string (TrimSpace (u_Mail user)))).

(** The texts of a user that the create body prints. *)
Definition printed_values (user : User) : list string :=
  [u_DisplayName user; mailNickname (u_UPN user); u_UPN user; TrimSpace (u_Mail user)].

Lemma patch_states_password password : Utf8 password → states_password (patch_json password) password.
Proof.
  intros H%json_raw_unquote. unfold states_password, patch_json, profile_json.
  by generalize dependent (json_raw password).
Qed.

Lemma create_states user password :
  Forall (λ s, Utf8 (bytes_of_string s)) (printed_values user) → Utf8 password →
  states_user (create_json user password) user ∧ states_password (create_json user password) password.
Proof.
  intros HF Hp%json_raw_unquote.
  assert (Forall (λ s, unquote (json_raw (bytes_of_string s)) = Some (bytes_of_string s)) (printed_values user)) as Hu.
  { eapply Forall_impl; [exact HF|]. intros s. apply json_raw_unquote. }
  unfold printed_values in Hu. rewrite !Forall_cons in Hu. destruct Hu as (H1&H2&H3&H4&_).
  unfold states_user, states_password, create_json, profile_json.
  revert Hp H1 H2 H3 H4. generalize (json_raw password), (json_raw (bytes_of_string (u_DisplayName user))),
    (json_raw (bytes_of_string (mailNickname (u_UPN user)))), (json_raw (bytes_of_string (u_UPN user))),
    (json_raw (bytes_of_string (TrimSpace (u_Mail user)))).
  destruct (bool_decide (TrimSpace (u_Mail user) = ""%string)); intros; split; split_and?; try done. by eexists.
Qed.

Lemma buildPatchBody_run {W} (c : HTTPClient W) password (st : St W) :
  ∃ body st', buildPatchBody c password st = (Ret body, st') ∧
    slice_bytes (mem st') body = print (patch_json password) ∧
    live (length (mem st)) body (mem st') ∧ frame (length (mem st)) st st'.
Proof. rewrite <- patch_text. apply build_run. Qed.

Lemma buildCreateBody_run {W} (c : HTTPClient W) user password (st : St W) :
  ∃ body st', buildCreateBody c user password st = (Ret body, st') ∧
    slice_bytes (mem st') body = print (create_json user password) ∧
    live (length (mem st)) body (mem st') ∧ frame (length (mem st)) st st'.
Proof. rewrite <- create_text. apply build_run. Qed.

Section Theorems.
Context {W : Type} (c : HTTPClient W).
Implicit Types (st : St W).

(** C17 Both request bodies are complete JSON documents that say what was
    meant: whatever characters of valid UTF-8 the values contain, the body
    parses, its password member reads back as the password, and in the create
    body the name, nickname, UPN, mail and otherMails members read back as the
    user's values.  A value cannot end its string early or add members of its own.  Building
    a body changes nothing but buffers of its own. *)
Theorem graph_bodies_carry_values user password st :
  Forall (λ s, Utf8 (bytes_of_string s)) (printed_values user) → Utf8 password →
  (∃ body st' doc, buildPatchBody c password st = (Ret body, st') ∧
     parse_document (slice_bytes (mem st') body) = Some doc ∧
     states_password doc password ∧ frame (length (mem st)) st st') ∧
  (∃ body st' doc, buildCreateBody c user password st = (Ret body, st') ∧
     parse_document (slice_bytes (mem st') body) = Some doc ∧
     states_user doc user ∧ states_password doc password ∧ frame (length (mem st)) st st').
Proof.
  intros Hu Hp. pose proof (Utf8_bytes_ok _ Hp) as Hok. split.
  - destruct (buildPatchBody_run c password st) as (body&st'&Hr&Hb&_&Hf).
    exists body, st', (patch_json password). rewrite Hb, (parse_document_print 2) by (by apply patch_printable || done).
    auto using patch_states_password.
  - destruct (buildCreateBody_run c user password st) as (body&st'&Hr&Hb&_&Hf).
    exists body, st', (create_json user password).
    rewrite Hb, (parse_document_print 2) by (by apply create_printable || done).
    destruct (create_states user password Hu Hp). auto.
Qed.

(** ** One exchange *)

Definition request_header (token : string) (body : option bytes) : gmap string string :=
  let header := {[ "Accept"%string := "application/json"%string;
                   "Authorization"%string := ("Bearer " +:+ token)%string ]} in
  match body with
  | Some _ => <["Content-Type"%string := "application/json"%string]> header
  | None => header
  end.

(** A token is obtained, one request is sent, and it is answered. *)
Definition exchange (ctx : Context) (method path : string) (body : option bytes) (w : W) (status : Z) (w' : W) : Prop :=
  ∃ token w1, GetToken c ctx (scope c) w = (Ret (Ok token), w1) ∧
    let url := (TrimRight (base c) "/"%char +:+ path)%string in
    request_error c url = None ∧
    Do c (mkHttpCall method url (request_header token body) (default [] body)) w1 = (Ret (Ok status), w').

(** This request got no answer: no token, no request, or no response. *)
Definition unanswered (ctx : Context) (method path : string) (body : option bytes) (w : W) (cause : error) (w' : W) : Prop :=
  (∃ e, GetToken c ctx (scope c) w = (Ret (Err e), w') ∧ cause = Wrapped "get graph token" e) ∨
  ∃ token w1, GetToken c ctx (scope c) w = (Ret (Ok token), w1) ∧
    let url := (TrimRight (base c) "/"%char +:+ path)%string in
    (∃ e, request_error c url = Some e ∧ w' = w1 ∧ cause = Wrapped "build graph request" e) ∨
    request_error c url = None ∧
    Do c (mkHttpCall method url (request_header token body) (default [] body)) w1 = (Ret (Err cause), w').

(** The error of a request that got no answer. *)
Definition no_answer (ctx : Context) (operation method path : string) (body : option bytes) (w : W) (e : error) (w' : W) : Prop :=
  ∃ cause, e = GraphTransientError 0 operation (Some cause) ∧ unanswered ctx method path body w cause w'.

(** A request is answered once, and either answered or not. *)
Lemma exchange_fun ctx method path body w s1 w1 s2 w2 :
  exchange ctx method path body w s1 w1 → exchange ctx method path body w s2 w2 → s1 = s2 ∧ w1 = w2.
Proof.
  intros (t&x&Ht&_&Hd) (t'&x'&Ht'&_&Hd'). rewrite Ht in Ht'. injection Ht' as <- <-. rewrite Hd in Hd'. by injection Hd'.
Qed.

Lemma exchange_answered ctx method path body w s w1 cause w2 :
  exchange ctx method path body w s w1 → unanswered ctx method path body w cause w2 → False.
Proof.
  intros (t&x&Ht&Hr&Hd) [(e&Ht'&_)|(t'&x'&Ht'&[(e&Hr'&_)|[_ Hd']])];
    rewrite Ht in Ht'; try done; injection Ht' as <- <-; congruence.
Qed.

Lemma doGraphRequest_inv ctx operation method path body st o st' :
  doGraphRequest c ctx operation method path body st = (o, st') →
  ∃ w', st' = set_world w' st ∧
    match o with
    | Ret (Ok status) => exchange ctx method path (slice_bytes (mem st) <$> body) (world st) status w'
    | Ret (Err e) => no_answer ctx operation method path (slice_bytes (mem st) <$> body) (world st) e w'
    | Panic _ => True
    end.
Proof.
  unfold doGraphRequest. intros [(tok&s1&Ht&H)|(v&Ht&->)]%bind_inv;
    apply call_inv in Ht as (w1&Ht&->); [|by eauto].
  destruct tok as [tok|e]; [|apply mret_inv in H as [-> ->]; unfold no_answer, unanswered; eauto 12].
  destruct (request_error c _) eqn:Hre; [apply mret_inv in H as [-> ->]; unfold no_answer, unanswered; eauto 16|].
  assert ((match body with Some sl => read_slice sl | None => mret [] end : M (St W) bytes) (set_world w1 st)
    = (Ret (default [] (slice_bytes (mem st) <$> body)), set_world w1 st)) as Hd by by destruct body.
  rewrite (bind_ret _ _ _ _ _ Hd) in H.
  apply bind_inv in H as [(r&s2&Hc&H)|(v&Hc&->)]; apply call_inv in Hc as (w2&Hc&->); [|by exists w2].
  exists w2. destruct r as [status|e]; apply mret_inv in H as [-> ->]; (split; [done|]);
    [exists tok, w1; split_and!; try done; by destruct body|].
  eexists. split; [done|]. right. exists tok, w1. split; [done|]. right. split; [done|]. by destruct body.
Qed.

Lemma doGraphRequest_run ctx operation method path body st status w' :
  exchange ctx method path (slice_bytes (mem st) <$> body) (world st) status w' →
  doGraphRequest c ctx operation method path body st = (Ret (Ok status), set_world w' st).
Proof.
  intros (tok&w1&Ht&Hre&Hc). unfold doGraphRequest.
  rewrite (bind_ret _ _ _ _ _ (call_run _ _ _ _ Ht)). rewrite Hre.
  assert ((match body with Some sl => read_slice sl | None => mret [] end : M (St W) bytes) (set_world w1 st)
    = (Ret (default [] (slice_bytes (mem st) <$> body)), set_world w1 st)) as Hd by by destruct body.
  rewrite (bind_ret _ _ _ _ _ Hd). cbn zeta.
  rewrite (bind_ret _ _ _ (Ok status) (set_world w' st)); [done|].
  unfold call. cbn [world set_world]. by destruct body; cbn in *; rewrite Hc.
Qed.
(** What a finished send says of its outcome. *)
Definition sent (ctx : Context) (operation method path : string) (text : bytes) (w : W) (o : outcome (option error)) (w' : W) : Prop :=
  match o with
  | Ret None => ∃ status, 200 <= status <= 299 ∧ exchange ctx method path (Some text) w status w'
  | Ret (Some e) => no_answer ctx operation method path (Some text) w e w' ∨
      ∃ status, ¬ 200 <= status <= 299 ∧ exchange ctx method path (Some text) w status w' ∧
        e = classifyGraphResponse operation status
  | Panic _ => True
  end.

Lemma send_body_inv ctx operation method path body st o st' :
  send_body c ctx operation method path body st = (o, st') →
  ∃ w', st' = set_mem (mem_zero (mem st) body) (set_world w' st) ∧
    sent ctx operation method path (slice_bytes (mem st) body) (world st) o w'.
Proof.
  unfold send_body, defer_. match goal with |- context [let '(_, _) := ?x in _] => destruct x as [o1 s1] eqn:E end. intros [= <- <-].
  apply bind_inv in E as [(r&s2&Hd&H)|(v&Hd&->)]; apply doGraphRequest_inv in Hd as (w'&->&Hd); [|by exists w'].
  exists w'. destruct r as [status|e]; [|apply mret_inv in H as [-> ->]; split; [done|by left]].
  destruct (Z.ltb_spec status 200) as [Hlo|Hlo]; [|destruct (Z.ltb_spec 299 status) as [Hhi|Hhi]];
    apply mret_inv in H as [-> ->]; (split; [done|]);
    [right; exists status; split; [lia|done]|right; exists status; split; [lia|done]|exists status; split; [lia|done]].
Qed.

Lemma send_body_run ctx operation method path body st status w' :
  200 <= status <= 299 → exchange ctx method path (Some (slice_bytes (mem st) body)) (world st) status w' →
  ∃ st', send_body c ctx operation method path body st = (Ret None, st').
Proof.
  intros Hs Hx. unfold send_body, defer_.
  rewrite (bind_ret _ _ _ _ _ (doGraphRequest_run ctx operation method path (Some body) st status w' Hx)).
  rewrite (proj2 (Z.ltb_ge status 200)), (proj2 (Z.ltb_ge 299 status)) by lia. by eexists.
Qed.

(** ** The upsert *)

(** The second request, which depends on the answer to the lookup. *)
Definition update (found : bool) (user : User) (password : bytes) : string * string * string * bytes :=
  let upn := TrimSpace (u_UPN user) in
  if found then ("patch user", "PATCH", userPath upn, print (patch_json password))
  else ("create user", "POST", "/v1.0/users",
        print (create_json (mkUser upn (u_DisplayName user) (u_Mail user)) password))%string.

Definition updated (ctx : Context) (found : bool) (user : User) (password : bytes) (w : W)
    (o : outcome (option error)) (w' : W) : Prop :=
  let '(operation, method, path, text) := update found user password in
  sent ctx operation method path text w o w'.

(** The buffers of a call that built a body: the old ones, and new ones of
    which the body itself is wiped. *)
Definition body_wiped (found : bool) (user : User) (password : bytes) (m m' : Mem) : Prop :=
  ∃ body m1, (length m <= s_loc body)%nat ∧
    slice_bytes m1 body = (update found user password).2 ∧
    take (length m) m1 = m ∧ m' = mem_zero m1 body.

Context (Hafter : afterRequestBodyBuilt c = None).

(** Building a body and sending it, for either kind of body. *)
Lemma build_send_inv (build : M (St W) Slice) text ctx operation method path st o st' :
  (∃ body st1, build st = (Ret body, st1) ∧ slice_bytes (mem st1) body = text ∧
     live (length (mem st)) body (mem st1) ∧ frame (length (mem st)) st st1) →
  (body ← build; after_body c body;; send_body c ctx operation method path body) st = (o, st') →
  ∃ body m1 w', (length (mem st) <= s_loc body)%nat ∧ slice_bytes m1 body = text ∧
    take (length (mem st)) m1 = mem st ∧ st' = set_mem (mem_zero m1 body) (set_world w' st) ∧
    sent ctx operation method path text (world st) o w'.
Proof.
  intros (body&st1&Hb&Ht&[[Hl _] _]&Hm&Ho&Hr&Hw) H.
  rewrite (bind_ret _ _ _ _ _ Hb) in H. unfold after_body in H. rewrite Hafter in H.
  rewrite (bind_ret _ _ _ tt st1) in H by done.
  apply send_body_inv in H as (w'&->&H). exists body, (mem st1), w'.
  rewrite Ht, Hw in H. rewrite firstn_all in Hm. split_and!; try done.
  unfold set_mem, set_world. cbn. by rewrite Ho, Hr.
Qed.

Lemma UpsertUserPassword_inv ctx user password st o st' :
  UpsertUserPassword c ctx user password st = (o, st') →
  let upn := TrimSpace (u_UPN user) in
  let pw := slice_bytes (mem st) password in
  (st' = st ∧ (upn = ""%string ∧ o = Ret (Some (GraphPermanentError 0 "validate user" (Some (ErrorText "user UPN is required")))) ∨
    s_len password = 0%nat ∧ o = Ret (Some (GraphPermanentError 0 "validate password" (Some (ErrorText "password is required")))))) ∨
  upn ≠ ""%string ∧ s_len password ≠ 0%nat ∧
  ((∃ w1, st' = set_world w1 st ∧
      match o with
      | Ret None => False
      | Ret (Some e) => no_answer ctx "lookup user" "GET" (userPath upn) None (world st) e w1 ∨
          ∃ status, exchange ctx "GET" (userPath upn) None (world st) status w1 ∧ status ≠ 200 ∧ status ≠ 404 ∧
            e = classifyGraphResponse "lookup user" status
      | Panic _ => True
      end) ∨
   ∃ (found : bool) w1 w2 m', exchange ctx "GET" (userPath upn) None (world st) (if found then 200 else 404) w1 ∧
     updated ctx found user pw w1 o w2 ∧ body_wiped found user pw (mem st) m' ∧
     st' = set_mem m' (set_world w2 st)).
Proof.
  unfold UpsertUserPassword. cbn zeta.
  destruct (bool_decide_reflect (TrimSpace (u_UPN user) = ""%string)) as [Hu|Hu].
  { intros [-> ->]%mret_inv. eauto 10. }
  destruct (Nat.eqb_spec (s_len password) 0) as [Hp|Hp].
  { intros [-> ->]%mret_inv. eauto 10. }
  intros H. right. split_and!; try done.
  apply bind_inv in H as [(r&s1&Hd&H)|(v&Hd&->)]; apply doGraphRequest_inv in Hd as (w1&->&Hd); [|by eauto].
  cbn [fmap option_fmap option_map] in Hd. destruct r as [status|e]; [|apply mret_inv in H as [-> ->]; by eauto 10].
  rewrite (bind_ret _ _ _ (slice_bytes (mem st) password) (set_world w1 st)) in H by done.
  destruct (Z.eqb_spec status 200) as [->|H200]; [|destruct (Z.eqb_spec status 404) as [->|H404]].
  - right. apply (build_send_inv _ _ _ _ _ _ _ _ _ (buildPatchBody_run c _ _)) in H
      as (body&m1&w2&Hl&Ht&Hm&->&Hs).
    exists true, w1, w2, (mem_zero m1 body). split_and!; try done. by exists body, m1.
  - right. apply (build_send_inv _ _ _ _ _ _ _ _ _ (buildCreateBody_run c _ _ _)) in H
      as (body&m1&w2&Hl&Ht&Hm&->&Hs).
    exists false, w1, w2, (mem_zero m1 body). split_and!; try done. by exists body, m1.
  - left. apply mret_inv in H as [-> ->]. exists w1. split; [done|]. right. eauto 10.
Qed.

Lemma build_send_run (build : M (St W) Slice) text ctx operation method path st status w' :
  (∃ body st1, build st = (Ret body, st1) ∧ slice_bytes (mem st1) body = text ∧
     live (length (mem st)) body (mem st1) ∧ frame (length (mem st)) st st1) →
  200 <= status <= 299 → exchange ctx method path (Some text) (world st) status w' →
  ∃ st', (body ← build; after_body c body;; send_body c ctx operation method path body) st = (Ret None, st').
Proof.
  intros (body&st1&Hb&Ht&_&_&_&_&Hw) Hs Hx.
  rewrite (bind_ret _ _ _ _ _ Hb). unfold after_body. rewrite Hafter.
  rewrite (bind_ret _ _ _ tt st1) by done. rewrite <- Ht, <- Hw in Hx. by eapply send_body_run.
Qed.

(** The upsert succeeds exactly when the user name and the password are
    not empty, the lookup is answered 200 and the PATCH of that user's path
    with the password document then gets a 2xx, or the lookup is answered
    404 and the POST of the create document then gets a 2xx. *)
Lemma upsert_success_iff ctx user password st :
  (∃ st', UpsertUserPassword c ctx user password st = (Ret None, st')) ↔
  TrimSpace (u_UPN user) ≠ ""%string ∧ s_len password ≠ 0%nat ∧
  ∃ (found : bool) w1 w2 status,
    exchange ctx "GET" (userPath (TrimSpace (u_UPN user))) None (world st) (if found then 200 else 404) w1 ∧
    200 <= status <= 299 ∧
    let '(_, method, path, text) := update found user (slice_bytes (mem st) password) in
    exchange ctx method path (Some text) w1 status w2.
Proof.
  split.
  - intros [st' H]. apply UpsertUserPassword_inv in H as [(_&[[_ ?]|[_ ?]])|(Hu&Hp&[(w1&_&[])|H])]; [done|done|].
    destruct H as (found&w1&w2&m'&Hx&Hs&_&_). split_and!; try done.
    exists found, w1, w2. unfold updated in Hs. destruct (update _ _ _) as [[[op method] path] text].
    destruct Hs as (status&Hst&Hs). by exists status.
  - intros (Hu&Hp&found&w1&w2&status&Hx&Hs&Hy). unfold UpsertUserPassword.
    rewrite bool_decide_false, (proj2 (Nat.eqb_neq _ _)) by done.
    rewrite (bind_ret _ _ _ _ _ (doGraphRequest_run ctx _ "GET" _ None st _ w1 Hx)).
    rewrite (bind_ret _ _ _ (slice_bytes (mem st) password) (set_world w1 st)) by done.
    destruct found; cbn [Z.eqb Pos.eqb].
    + eapply build_send_run; [apply buildPatchBody_run|exact Hs|exact Hy].
    + eapply build_send_run; [apply buildCreateBody_run|exact Hs|exact Hy].
Qed.

(** The directory did not take the update: the lookup was answered with a
    status that decides on none, or the update with one that is not 2xx. *)
Definition rejected (ctx : Context) (user : User) (password : bytes) (w : W) (status : Z) (w' : W) : Prop :=
  let lookup := exchange ctx "GET" (userPath (TrimSpace (u_UPN user))) None w in
  status ≠ 200 ∧ status ≠ 404 ∧ lookup status w' ∨
  ¬ 200 <= status <= 299 ∧
  ∃ (found : bool) w1, lookup (if found then 200 else 404) w1 ∧
    let '(_, method, path, text) := update found user password in
    exchange ctx method path (Some text) w1 status w'.

(** The lookup got no answer, or the update it decided on. *)
Definition cut_off (ctx : Context) (user : User) (password : bytes) (w : W) (cause : error) (w' : W) : Prop :=
  unanswered ctx "GET" (userPath (TrimSpace (u_UPN user))) None w cause w' ∨
  ∃ (found : bool) w1,
    exchange ctx "GET" (userPath (TrimSpace (u_UPN user))) None w (if found then 200 else 404) w1 ∧
    let '(_, method, path, text) := update found user password in
    unanswered ctx method path (Some text) w1 cause w'.

(** How a failed call is reported, by what happened. *)
Definition failure (ctx : Context) (user : User) (password : bytes) (w : W) (e : error) (w' : W) : Prop :=
  match e with
  | GraphPermanentError code _ _ =>
      code = 0 ∧ w' = w ∧ (TrimSpace (u_UPN user) = ""%string ∨ password = []) ∨
      (code = 400 ∨ code = 403) ∧ rejected ctx user password w code w'
  | GraphTransientError code _ inner =>
      TrimSpace (u_UPN user) ≠ ""%string ∧ password ≠ [] ∧ code ≠ 400 ∧ code ≠ 403 ∧
      (inner = None ∧ rejected ctx user password w code w' ∨
       code = 0 ∧ ∃ cause, inner = Some cause ∧ cut_off ctx user password w cause w')
  | _ => False
  end.

Lemma rejected_failure ctx user password w op status w' :
  TrimSpace (u_UPN user) ≠ ""%string → password ≠ [] → rejected ctx user password w status w' →
  failure ctx user password w (classifyGraphResponse op status) w'.
Proof.
  intros Hu Hp Hr. unfold classifyGraphResponse.
  destruct (Z.eqb_spec status 400) as [->|]; [|destruct (Z.eqb_spec status 403) as [->|]]; cbn; auto 10.
Qed.

(** Which failures are permanent: the validation errors, before which
    nothing was sent or changed, and the answers 400 and 403 to the last
    request of the call.  Every other failure is transient: an answer with
    another status, or a request that got no answer, whose cause it then
    carries. *)
Lemma UpsertUserPassword_errors ctx user password st e st' :
  length (slice_bytes (mem st) password) = s_len password →
  UpsertUserPassword c ctx user password st = (Ret (Some e), st') →
  failure ctx user (slice_bytes (mem st) password) (world st) e (world st').
Proof.
  intros Hlen H. apply UpsertUserPassword_inv in H as [(->&[[Hu [= ->]]|[Hp [= ->]]])|(Hu&Hp&H)].
  - cbn. auto 6.
  - left. split_and!; try done. right. apply length_zero_iff_nil. congruence.
  - assert (slice_bytes (mem st) password ≠ []) as Hne by (intros E; rewrite E in Hlen; cbn in Hlen; lia).
    destruct H as [(w1&->&[(cause&->&Hf)|(status&Hx&?&?&->)])|(found&w1&w2&m'&Hx&Hs&_&->)].
    + cbn. split_and!; try done. right. split; [done|]. exists cause. split; [done|]. by left.
    + apply rejected_failure; try done. by left.
    + unfold updated in Hs. destruct (update _ _ _) as [[[op method] path] text] eqn:Hup.
      destruct Hs as [(cause&->&Hf)|(status&Hns&Hy&->)].
      * cbn. split_and!; try done. right. split; [done|]. exists cause. split; [done|]. right.
        exists found, w1. by rewrite Hup.
      * apply rejected_failure; try done. right. split; [done|]. exists found, w1. by rewrite Hup.
Qed.

(** C34 Whatever happens in the directory calls, a panic of the token source
    or of the transport included, the caller's buffers, the log and the
    response are as before, and if a request body was built, the buffer that
    held it is overwritten with zeros when the call ends. *)
Theorem upsert_wipes_body ctx user password st o st' :
  UpsertUserPassword c ctx user password st = (o, st') →
  obs st' = obs st ∧ resp st' = resp st ∧ take (length (mem st)) (mem st') = mem st ∧
  (mem st' = mem st ∨
   ∃ found body m1, slice_bytes m1 body = (update found user (slice_bytes (mem st) password)).2 ∧
     mem st' = mem_zero m1 body ∧ all_zero (slice_bytes (mem st') body)).
Proof.
  intros H. apply UpsertUserPassword_inv in H as [(->&_)|(_&_&[(w1&->&_)|H])].
  - rewrite firstn_all. auto.
  - cbn. rewrite firstn_all. auto.
  - destruct H as (found&w1&w2&m'&_&_&(body&m1&Hl&Ht&Hm&->)&->). cbn.
    split_and!; try done.
    + unfold mem_zero. by rewrite take_alter.
    + right. exists found, body, m1. auto using mem_zero_self.
Qed.
End Theorems.

(** ** The user's path *)

(** The reader's side of a path segment: percent-decoding. *)
Definition upper_hex_value (d : Z) : Z := if d <? 65 then d - 48 else d - 55.

Fixpoint path_unescape (s : bytes) : bytes :=
  match s with
  | [] => []
  | b :: s' =>
      if b =? 37 then
        match s' with
        | h :: l :: s'' => 16 * upper_hex_value h + upper_hex_value l :: path_unescape s''
        | _ => b :: path_unescape s'
        end
      else b :: path_unescape s'
  end.

Definition segment_byte (b : Z) : bytes :=
  concat (map (λ b, if b =? 64 then [37; 52; 48] else [b]) (path_escape_byte b)).

Lemma byte_cases (P : Z → bool) : forallb P (map Z.of_nat (seq 0 256)) = true → ∀ b, byte_ok b → P b = true.
Proof.
  rewrite forallb_Forall, Forall_forall. intros H b [Hlo Hhi]. apply H, list_elem_of_fmap.
  exists (Z.to_nat b). rewrite elem_of_seq. lia.
Qed.

(** One byte is itself or a percent triple of it, and no byte of a reserved
    meaning. *)
Definition segment_ok (b : Z) : bool :=
  match segment_byte b with
  | [x] => (x =? b) && negb (b =? 37)
  | [p; h; l] => (p =? 37) && (16 * upper_hex_value h + upper_hex_value l =? b)
  | _ => false
  end && forallb (λ x, within 0 255 x && negb (bool_decide (x ∈ [47; 63; 35; 64]))) (segment_byte b).

Lemma segment_byte_ok b : byte_ok b → segment_ok b = true.
Proof. apply byte_cases. by vm_compute. Qed.

Lemma segment_byte_unescape b rest : byte_ok b → path_unescape (segment_byte b ++ rest) = b :: path_unescape rest.
Proof.
  intros Hb%segment_byte_ok. unfold segment_ok in Hb. apply andb_prop in Hb as [H _].
  destruct (segment_byte b) as [|x [|h [|l [|? ?]]]] eqn:E; try done; bool_hyps; subst; cbn [app path_unescape].
  - by rewrite (proj2 (Z.eqb_neq _ _)).
  - done.
Qed.

Lemma segment_byte_plain b x : byte_ok b → x ∈ segment_byte b → byte_ok x ∧ x ∉ [47; 63; 35; 64].
Proof.
  intros Hb%segment_byte_ok Hx. unfold segment_ok in Hb. apply andb_prop in Hb as [_ H].
  rewrite forallb_Forall, Forall_forall in H. apply H in Hx. unfold within in Hx. bool_hyps. split; [split; lia|done].
Qed.

Lemma graphPathSegment_bytes s :
  bytes_of_string (graphPathSegment s) = concat (map segment_byte (bytes_of_string s)).
Proof.
  unfold graphPathSegment.
  assert (∀ l, concat (map (λ b, if b =? 64 then [37; 52; 48] else [b]) (concat (map path_escape_byte l)))
    = concat (map segment_byte l)) as ->.
  { induction l as [|x l IH]; [done|]. cbn [map concat]. by rewrite map_app, concat_app, IH. }
  apply bytes_of_string_of_bytes. pose proof (bytes_of_string_ok s) as Hs.
  induction Hs as [|b l Hb _ IH]; cbn [map concat]; [constructor|].
  apply Forall_app. split; [|done]. apply Forall_forall. intros x Hx. by eapply segment_byte_plain.
Qed.

(** The user's path names that user and no other: it decodes to the UPN, and
    it contains no separator of path segments, query or fragment. *)
Lemma graphPathSegment_decodes s : path_unescape (bytes_of_string (graphPathSegment s)) = bytes_of_string s.
Proof.
  rewrite graphPathSegment_bytes. pose proof (bytes_of_string_ok s) as Hs.
  induction Hs as [|b l Hb _ IH]; [done|]. cbn [map concat]. by rewrite segment_byte_unescape, IH.
Qed.

Lemma graphPathSegment_no_separator s x :
  x ∈ bytes_of_string (graphPathSegment s) → x ∉ [47; 63; 35; 64].
Proof.
  rewrite graphPathSegment_bytes. pose proof (bytes_of_string_ok s) as Hs.
  induction Hs as [|b l Hb _ IH]; cbn [map concat]; [by rewrite elem_of_nil|].
  rewrite elem_of_app. intros [H|H]; [by eapply segment_byte_plain|auto].
Qed.

Lemma userPath_inj s t : userPath s = userPath t → s = t.
Proof.
  intros H%(f_equal bytes_of_string). unfold userPath in H. rewrite !bytes_of_string_app in H.
  apply app_inv_head in H. apply (f_equal path_unescape) in H. rewrite !graphPathSegment_decodes in H.
  by apply bytes_of_string_inj.
Qed.

(** The path of a request names the intended user and nothing else: two
    users have the same path only if they are the same, and the segment made
    from the UPN contains no slash, question mark, hash or at sign, so a UPN
    cannot reach another resource of the directory. *)
Lemma user_path_identifies s t :
  (userPath s = userPath t ↔ s = t) ∧
  Forall (λ x, x ∉ [47; 63; 35; 64]) (bytes_of_string (graphPathSegment s)).
Proof.
  split; [split; [apply userPath_inj|by intros ->]|].
  apply Forall_forall, graphPathSegment_no_separator.
Qed.

(** ** Concrete runs *)

Module GraphWitnesses.
(** A directory that answers each request with the next status. *)
Definition toy_client : HTTPClient (list Z) :=
  mkHTTPClient "https://graph.example/" "scope"
    (λ _ _ w, (Ret (Ok "t"%string), w))
    (λ _ w, match w with s :: w' => (Ret (Ok s), w') | [] => (Ret (Err ErrEOF), []) end)
    (λ _, None) (λ old need, Nat.max (2 * old) need) None.

Definition toy_state (answers : list Z) : St (list Z) :=
  mkSt [bytes_of_string "pw/7"] [] NewResponse answers.

Definition toy_ctx : Context := mkContext None None.
Definition toy_user : User := mkUser "a@b" "A" "".
Definition toy_password : Slice := mkSlice 0 4.
(** A password with a quote, a backslash and a line feed. *)
Definition quoted_password : bytes := [112; 34; 44; 34; 92; 10].

Lemma graph_bodies_carry_values_witness :
  (∃ body st' doc, buildPatchBody toy_client quoted_password (toy_state []) = (Ret body, st') ∧
     parse_document (slice_bytes (mem st') body) = Some doc ∧
     states_password doc quoted_password ∧ frame 1 (toy_state []) st') ∧
  (∃ body st' doc, buildCreateBody toy_client toy_user quoted_password (toy_state []) = (Ret body, st') ∧
     parse_document (slice_bytes (mem st') body) = Some doc ∧
     states_user doc toy_user ∧ states_password doc quoted_password ∧ frame 1 (toy_state []) st').
Proof.
  apply (graph_bodies_carry_values toy_client toy_user quoted_password (toy_state [])).
  - repeat (apply Forall_cons; split; [apply Utf8_ascii_text; vm_compute; reflexivity|]). apply Forall_nil. exact I.
  - apply Utf8_ascii_text. vm_compute. reflexivity.
Defined.

Lemma upsert_success_iff_witness :
  ∃ st', UpsertUserPassword toy_client toy_ctx toy_user toy_password (toy_state [404; 201]) = (Ret None, st').
Proof.
  apply (upsert_success_iff toy_client eq_refl toy_ctx toy_user toy_password (toy_state [404; 201])).
  split_and!; [by vm_compute|done|]. exists false, [201], [], 201. split_and!; [|lia|lia|].
  - exists "t"%string, [404; 201]. by vm_compute.
  - exists "t"%string, [201]. by vm_compute.
Defined.

Lemma upsert_wipes_body_witness : ∃ o st',
  UpsertUserPassword toy_client toy_ctx toy_user toy_password (toy_state [200; 204]) = (o, st') ∧
  obs st' = [] ∧ resp st' = NewResponse ∧ take 1 (mem st') = [bytes_of_string "pw/7"] ∧
  (mem st' = [bytes_of_string "pw/7"] ∨
   ∃ found body m1, slice_bytes m1 body = (update found toy_user (bytes_of_string "pw/7")).2 ∧
     mem st' = mem_zero m1 body ∧ all_zero (slice_bytes (mem st') body)).
Proof.
  destruct (UpsertUserPassword toy_client toy_ctx toy_user toy_password (toy_state [200; 204])) as [o st'] eqn:E.
  exists o, st'. split; [reflexivity|].
  exact (upsert_wipes_body toy_client eq_refl toy_ctx toy_user toy_password (toy_state [200; 204]) _ _ E).
Defined.

(** The wiped body is not the only buffer that held the password: an append
    that outgrows its buffer leaves the old one behind, with what it held. *)
Example outgrown_buffer_keeps_password :
  match UpsertUserPassword toy_client toy_ctx toy_user toy_password (toy_state [200; 204]) with
  | (Ret None, st') => lit "{'passwordProfile':{'password':'pw/7'" ∈ map (take 37) (mem st')
  | _ => False
  end.
Proof. vm_compute. repeat first [left; reflexivity|right]. Qed.
End GraphWitnesses.
