(* ===== verification/Hmac.v ===== *)
(** * The request-signature middleware (internal/middleware/hmac.go)

    [Wrap] reads the body under a limit, checks the three headers, the clock
    skew, the signature and the nonce, in that order, and only then runs the
    inner handler.  SHA-256 and HMAC are those of Sha256.v. *)
From stdpp Require Import base gmap strings list fin_maps.
From Stdlib Require Import ZArith Lia Ascii.
From S2P Require Import Prelude Utf8 GoStrings Sha256 GoTime Strconv GoBase Observability GoState SensitiveIO Http.

Local Open Scope Z_scope.

(** ** Nonce stores *)

(** The NonceStore interface; [store_TTL] is the optional TTL method. *)
Record NonceStore (W : Type) := mkNonceStore {
  Use : string → Duration → W → outcome bool * W;
  store_TTL : option Duration
}.
Arguments mkNonceStore {W} _ _.
Arguments Use {W} _ _ _ _.
Arguments store_TTL {W} _.

Definition nonceTTL {W} (nonces : option (NonceStore W)) : Duration :=
  match nonces with
  | Some store =>
      match store_TTL store with
      | Some ttl => if 0 <? ttl then ttl else 60 * Second
      | None => 60 * Second
      end
  | None => 60 * Second
  end.

Module MemoryNonce.
Record MemoryNonceStore := mkMemoryNonceStore {
  ttl : Duration;
  seenAt : gmap string Time
}.

Definition NewMemoryNonceStore (t : Duration) : MemoryNonceStore :=
  mkMemoryNonceStore (if t <=? 0 then 60 * Second else t) ∅.

Definition TTL (s : MemoryNonceStore) : Duration := ttl s.

(** Drop the nonces older than [d] at [now]. *)
Definition purge (now : Time) (d : Duration) (m : gmap string Time) : gmap string Time :=
  filter (λ kv, ¬ (d < Sub now kv.2)) m.

(** Use; [now] is the reading of time.Now at its start. *)
Definition Use (nonce : string) (d : Duration) (now : Time) (s : MemoryNonceStore)
    : bool * MemoryNonceStore :=
  let kept := purge now d (seenAt s) in
  match kept !! nonce with
  | Some _ => (false, mkMemoryNonceStore (ttl s) kept)
  | None => (true, mkMemoryNonceStore (ttl s) (<[nonce := now]> kept))
  end.

(** The store as an implementation of the interface, kept in a part of the
    world; Use reads the clock first. *)
Section InWorld.
Context {W : Type} (clock : W → Time * W) (get : W → MemoryNonceStore) (set : MemoryNonceStore → W → W).

Definition memory_nonces (t : Duration) : NonceStore W :=
  mkNonceStore (λ nonce d w, let '(now, w1) := clock w in
                             let '(fresh, s) := Use nonce d now (get w1) in (Ret fresh, set s w1)) (Some t).

(** NewMemoryNonceStore: the new store, and the interface to it. *)
Definition new_memory_nonces (t : Duration) (w : W) : NonceStore W * W :=
  let s := NewMemoryNonceStore t in (memory_nonces (TTL s), set s w).
End InWorld.
End MemoryNonce.

(** ** The middleware *)

Definition defaultHMACMaxBodyBytes : Z := 64 * 1024.

Record HMAC (W : Type) := mkHMAC {
  secret : bytes;
  nonces : option (NonceStore W);
  skew : Duration;
  hm_nonceTTL : Duration;
  problemBase : string;
  maxBodyBytes : Z
}.
Arguments mkHMAC {W} _ _ _ _ _ _.
Arguments secret {W} _.
Arguments nonces {W} _.
Arguments skew {W} _.
Arguments hm_nonceTTL {W} _.
Arguments problemBase {W} _.
Arguments maxBodyBytes {W} _.

(** -d on an int64. *)
Definition absDuration (d : Duration) : Duration := if d <? 0 then wrap64 (- d) else d.

(** What the signature covers. *)
Definition mac_input (timestamp nonce : string) (body : bytes) : bytes :=
  bytes_of_string (timestamp +:+ "." +:+ nonce +:+ ".")%string ++ body.

Section Middleware.
Context {W : Type}.

Definition NewHMACWithOptions (sec : string) (ns : option (NonceStore W)) (sk : Duration)
    (base : string) (maxBody : Z) : result (HMAC W) :=
  if bool_decide (TrimSpace sec = ""%string) then Err (ErrorText "hmac secret is required")
  else if sk <=? 0 then Err (ErrorText "hmac clock skew must be positive")
  else if maxBody <? 0 then Err (ErrorText "hmac max body bytes must not be negative")
  else
    let maxBody := if maxBody =? 0 then defaultHMACMaxBodyBytes else maxBody in
    let base := if bool_decide (TrimSpace base = ""%string) then DefaultBaseURL else base in
    Ok (mkHMAC (bytes_of_string sec) ns sk (nonceTTL ns) base maxBody).

Definition NewHMACWithProblemBase (sec : string) (ns : option (NonceStore W)) (sk : Duration)
    (base : string) : result (HMAC W) :=
  NewHMACWithOptions sec ns sk base defaultHMACMaxBodyBytes.

Definition NewHMAC (sec : string) (ns : option (NonceStore W)) (sk : Duration) : result (HMAC W) :=
  NewHMACWithProblemBase sec ns sk DefaultBaseURL.

Definition validSignature (m : HMAC W) (timestamp nonce : string) (body : bytes) (header : string) : bool :=
  if negb (HasPrefix header "sha256=") then false
  else
    match hex_decode (bytes_of_string (TrimPrefix header "sha256=")) with
    | None => false
    | Some got => bool_decide (got = hmac_sha256 (secret m) (mac_input timestamp nonce body))
    end.

Section Request.
Context {R : Type} (m : HMAC W) (clock : W → Time * W) (read : Reader R).

Definition writeUnauthorized (r : HttpRequest R) (reason : string) : M (St W) unit :=
  recordMiddlewareOutcome (requestid_From (req_ctx r)) "hmac" 401 "unauthorized" reason [] ;;
  Write (Unauthorized (problemBase m) (Path r) (requestid_From (req_ctx r)) "request authentication failed").

Definition writePayloadTooLarge (r : HttpRequest R) : M (St W) unit :=
  recordMiddlewareOutcome (requestid_From (req_ctx r)) "hmac" 413 "payload_too_large" "request_body_too_large" [] ;;
  Write (PayloadTooLarge (problemBase m) (Path r) (requestid_From (req_ctx r)) "request body is too large").

(** The checks of Wrap once the body is read: [None] accepts, [Some reason]
    is the rejection written to the log. *)
Definition authenticate (r : HttpRequest R) (body : bytes) : M (St W) (option string) :=
  let timestampHeader := HeaderGet r "X-Hook-Timestamp" in
  let nonce := HeaderGet r "X-Hook-Nonce" in
  let signature := HeaderGet r "X-Hook-Signature" in
  match ParseInt timestampHeader with
  | None => mret (Some "missing_or_invalid_signature_headers"%string)
  | Some timestamp =>
    if bool_decide (nonce = ""%string) || bool_decide (signature = ""%string)
    then mret (Some "missing_or_invalid_signature_headers"%string)
    else
      now ← call (λ w, let '(t, w') := clock w in (Ret t, w'));
      if skew m <? absDuration (Sub now (Unix timestamp))
      then mret (Some "timestamp_outside_allowed_skew"%string)
      else if negb (validSignature m timestampHeader nonce body signature)
      then mret (Some "signature_mismatch"%string)
      else
        match nonces m with
        | None => mret None
        | Some store =>
          fresh ← call (Use store nonce (hm_nonceTTL m));
          mret (if (fresh : bool) then None else Some "nonce_replay"%string)
        end
  end.

(** The body of Wrap after the read, under the deferred zeroing. *)
Definition gate_body (next : Handler W bytes) (r : HttpRequest R) (body : Slice) (err : option error)
    : M (St W) unit :=
  match err with
  | Some _ => writeUnauthorized r "failed_to_read_request_body"
  | None =>
    if maxBodyBytes m <? Z.of_nat (s_len body) then writePayloadTooLarge r
    else
      raw ← read_slice body;
      rejected ← authenticate r raw;
      match rejected with
      | Some reason => writeUnauthorized r reason
      | None => next (with_body r raw)
      end
  end.

(** Wrap.  The reader of the inner request starts at the body's bytes. *)
Definition Wrap (fuel : nat) (next : Handler W bytes) : Handler W R := λ r,
  out ← ReadAll fuel (LimitReader read) (wrap64 (maxBodyBytes m + 1), Body r);
  let '(body, err, _) := out in
  defer_ (ZeroBytes (Some body)) (gate_body next r body err).
End Request.
End Middleware.

(** ** Lemmas *)

(** When the skew test lets a timestamp pass: the distance is within the
    skew, or the timestamp lies at least 2^63 nanoseconds in the future, where
    the saturated difference has no int64 negation. *)
Lemma absDuration_iff (sk t u : Z) : 0 < sk < maxDuration →
  absDuration (Sub t u) <= sk ↔ Z.abs (t - u) <= sk ∨ t - u <= minDuration.
Proof.
  intros Hsk. unfold absDuration, Sub, wrap64, minDuration, maxDuration in *.
  change (2 ^ 63) with 9223372036854775808 in *. change (2 ^ 64) with 18446744073709551616.
  change (- (9223372036854775808)) with (-9223372036854775808) in *.
  set (d := t - u). destruct (Z.ltb_spec (Z.max (-9223372036854775808) (Z.min (9223372036854775808 - 1) d)) 0)
    as [H|H]; [|lia].
  destruct (Z.le_gt_cases d (-9223372036854775808)) as [Hs|Hs].
  - rewrite Z.max_l by lia. change (- -9223372036854775808 + 9223372036854775808) with 18446744073709551616.
    rewrite Z.mod_same by done. lia.
  - rewrite Z.max_r, Z.min_r by lia. rewrite Z.mod_small by lia. lia.
Qed.

Lemma prefix_TrimPrefix p s : String.prefix p s = true ↔ s = (p +:+ TrimPrefix s p)%string.
Proof.
  revert s. induction p as [|c p IH]; intros s; [by destruct s|].
  destruct s as [|d s]; [done|]. cbn [String.prefix TrimPrefix].
  change (String c p +:+ ?t)%string with (String c (p +:+ t)).
  destruct (ascii_dec c d) as [->|Hne].
  - rewrite Ascii.eqb_refl. destruct (String.prefix p s) eqn:E.
    + split; [|done]. intros _. by rewrite <- (proj1 (IH s) E).
    + split; [done|]. intros H. injection H as H.
      assert (String.prefix p s = true); [|congruence]. rewrite H. clear.
      induction p as [|c p IH]; [by destruct d|]. 
      change (String c p +:+ String d s)%string with (String c (p +:+ String d s)). cbn.
      by destruct (ascii_dec c c).
  - split; [done|]. intros H. by injection H.
Qed.

Lemma ParseInt_no_dot s ts : ParseInt s = Some ts → 46 ∉ bytes_of_string s.
Proof.
  assert (∀ t, digits t → 46 ∉ t) as Hd.
  { intros t [_ Hf] Hin. rewrite Forall_forall in Hf. apply Hf in Hin. lia. }
  intros [Ht _]%ParseInt_iff. destruct Ht as [t v [H _]|t v [H _]|t v [H _]]; rewrite ?not_elem_of_cons; auto.
Qed.

(** ** Properties *)

(** The signature test accepts exactly the header that is the prefix
    sha256= followed by hexadecimal text of HMAC-SHA256, under the configured
    secret, over timestamp, nonce and body. *)
Lemma valid_signature_iff {W} (m : HMAC W) (timestamp nonce : string) (body : bytes) (header : string) :
  validSignature m timestamp nonce body header = true ↔
  ∃ h, header = ("sha256=" +:+ h)%string ∧
       hex_decode (bytes_of_string h) = Some (hmac_sha256 (secret m) (mac_input timestamp nonce body)).
Proof.
  unfold validSignature, HasPrefix. split.
  - destruct (String.prefix "sha256=" header) eqn:E; [|done]. cbn [negb].
    apply prefix_TrimPrefix in E. destruct (hex_decode _) as [got|] eqn:Eh; [|done].
    intros Hg. bool_hyps. subst got. eauto.
  - intros (h&->&Hh).
    assert (TrimPrefix ("sha256=" +:+ h) "sha256=" = h) as Ht by (by destruct h).
    assert (String.prefix "sha256=" ("sha256=" +:+ h) = true) as ->.
    { apply prefix_TrimPrefix. by rewrite Ht. }
    cbn [negb]. rewrite Ht, Hh. by apply bool_decide_true.
Qed.

(** An authenticated request passed the skew test. *)
Lemma authenticate_in_skew {W R} (m : HMAC W) (clock : W → Time * W) (r : HttpRequest R) (body : bytes) (st : St W) :
  0 < skew m < maxDuration → (authenticate m clock r body st).1 = Ret None →
  ∃ ts, ParseInt (HeaderGet r "X-Hook-Timestamp") = Some ts ∧
    let now := (clock (world st)).1 in Z.abs (now - Unix ts) <= skew m ∨ now - Unix ts <= minDuration.
Proof.
  intros Hsk. unfold authenticate. destruct (ParseInt _) as [ts|]; [|done]. destruct (bool_decide _ || _); [done|].
  step_go. destruct (clock (world st)) as [now w1]. red_go. pose proof (absDuration_iff (skew m) now (Unix ts) Hsk) as Habs.
  destruct (Z.ltb_spec (skew m) (absDuration (Sub now (Unix ts)))); [done|]. intros _. exists ts. split; [done|]. by apply Habs.
Qed.

(** C12 Which requests the middleware authenticates: the timestamp header is
    an integer, nonce and signature are present, the clock is within the skew
    of the timestamp (or the timestamp is at least 2^63 ns ahead, where the
    int64 negation in [absDuration] wraps), the signature is valid, and the
    nonce store, when there is one, says the nonce is fresh. *)
Theorem authenticate_iff {W R} (m : HMAC W) (clock : W → Time * W) (r : HttpRequest R) (body : bytes) (st : St W) :
  0 < skew m < maxDuration →
  (authenticate m clock r body st).1 = Ret None ↔
  ∃ ts, ParseInt (HeaderGet r "X-Hook-Timestamp") = Some ts ∧
    HeaderGet r "X-Hook-Nonce" ≠ ""%string ∧ HeaderGet r "X-Hook-Signature" ≠ ""%string ∧
    let '(now, w1) := clock (world st) in
    (Z.abs (now - Unix ts) <= skew m ∨ now - Unix ts <= minDuration) ∧
    validSignature m (HeaderGet r "X-Hook-Timestamp") (HeaderGet r "X-Hook-Nonce") body
      (HeaderGet r "X-Hook-Signature") = true ∧
    match nonces m with
    | None => True
    | Some store => (Use store (HeaderGet r "X-Hook-Nonce") (hm_nonceTTL m) w1).1 = Ret true
    end.
Proof.
  intros Hsk. unfold authenticate. set (sig := HeaderGet r "X-Hook-Signature").
  set (nonce := HeaderGet r "X-Hook-Nonce"). set (tsh := HeaderGet r "X-Hook-Timestamp").
  destruct (ParseInt tsh) as [ts|]; [|split; [done|by intros (?&?&_)]].
  destruct (bool_decide (nonce = ""%string) || bool_decide (sig = ""%string)) eqn:Eh.
  { split; [done|]. intros (?&_&Hn&Hs&_). apply orb_true_iff in Eh as [Eh|Eh]; bool_hyps; done. }
  bool_hyps. step_go. destruct (clock (world st)) as [now w1] eqn:Ec. red_go.
  pose proof (absDuration_iff (skew m) now (Unix ts) Hsk) as Habs.
  destruct (Z.ltb_spec (skew m) (absDuration (Sub now (Unix ts)))) as [Hlt|Hle].
  { split; [done|]. intros (ts'&[= <-]&_&_&Hs&_). lia. }
  destruct (validSignature m tsh nonce body sig) eqn:Ev; cbn [negb].
  2: { split; [done|]. by intros (?&?&_&_&_&?&_). }
  destruct (nonces m) as [store|].
  - red_go. destruct (Use store nonce (hm_nonceTTL m) w1) as [[fresh|v] w2]; red_go.
    + destruct fresh; (split; [intros Hret|intros (?&?&_&_&_&_&Hfresh)]); try done.
      exists ts. split_and!; try done. by apply Habs.
    + split; [done|]. by intros (?&?&_&_&_&_&?).
  - split; [intros _|done]. exists ts. split_and!; try done. by apply Habs.
Qed.

(** What is signed determines what was sent: for integer timestamps and
    nonces without a full stop, equal MAC inputs mean equal timestamp header,
    nonce and body. *)
Lemma mac_input_injective (ts1 ts2 n1 n2 : string) (b1 b2 : bytes) (v1 v2 : Z) :
  ParseInt ts1 = Some v1 → ParseInt ts2 = Some v2 →
  46 ∉ bytes_of_string n1 → 46 ∉ bytes_of_string n2 →
  mac_input ts1 n1 b1 = mac_input ts2 n2 b2 → ts1 = ts2 ∧ n1 = n2 ∧ b1 = b2.
Proof.
  intros H1 H2 Hn1 Hn2. apply ParseInt_no_dot in H1, H2. unfold mac_input.
  rewrite !bytes_of_string_app, <- !app_assoc. cbn [bytes_of_string app]. intros H.
  apply app_sep_inj in H as [Ht H]; [|done..].
  apply app_sep_inj in H as [Hn ->]; [|done..].
  split_and!; [by apply bytes_of_string_inj..|done].
Qed.

Lemma mac_input_injective_witness : "17"%string = "17"%string ∧ "n"%string = "n"%string ∧ [1] = [1].
Proof.
  apply (mac_input_injective "17" "17" "n" "n" [1] [1] 17 17); try reflexivity;
    apply (bool_decide_unpack _); vm_compute; exact I.
Defined.

(** ** The gate *)

Section Gate.
Context {W R : Type} (m : HMAC W) (clock : W → Time * W) (read : Reader R).
Implicit Types (next : Handler W bytes) (r : HttpRequest R) (st : St W).

Lemma Wrap_after_read fuel next r st body err s' st1 :
  ReadAll fuel (LimitReader read) (wrap64 (maxBodyBytes m + 1), Body r) st = (Ret (body, err, s'), st1) →
  Wrap m clock read fuel next r st = defer_ (ZeroBytes (Some body)) (gate_body m clock next r body err) st1.
Proof. intros H. unfold Wrap. by rewrite (bind_ret _ _ _ _ _ H). Qed.

(** A rejection answers with its status and leaves the world alone. *)
Lemma reject_run r (status : Z) (outc reason : string) (p : Problem) (st : St W) :
  r_status (resp st) = 0 → p_Status p = status → status ≠ 0 →
  ∃ st', (recordMiddlewareOutcome (requestid_From (req_ctx r)) "hmac" status outc reason [] ;; Write p) st
    = (Ret tt, st') ∧ r_status (resp st') = status ∧ world st' = world st ∧ mem st' = mem st.
Proof.
  intros H0 Hp Hs. unfold recordMiddlewareOutcome. step_go.
  eexists. rewrite Write_run by (cbn; congruence). by rewrite Hp.
Qed.

Lemma authenticate_frame r b st o st' :
  authenticate m clock r b st = (o, st') → st' = set_world (world st') st.
Proof.
  unfold authenticate. destruct (ParseInt _); [|intros H; apply mret_inv in H as [_ ->]; by destruct st].
  case_if; [intros H; apply mret_inv in H as [_ ->]; by destruct st|].
  intros H. apply bind_inv in H as [(now&st1&Hc&H)|(v&Hc&->)];
    apply call_inv in Hc as (w1&Hc&->); [|done].
  case_if; [apply mret_inv in H as [_ ->]; done|].
  case_if; [apply mret_inv in H as [_ ->]; done|].
  destruct (nonces m); [|apply mret_inv in H as [_ ->]; done].
  apply bind_inv in H as [(fresh&st2&Hu&H)|(v&Hu&->)]; apply call_inv in Hu as (w2&Hu&->); [|done].
  apply mret_inv in H as [_ ->]. done.
Qed.

(** A request that was not let through: answered, or a panic of the nonce
    store before any status was sent. *)
Definition refused (o : outcome unit) (st : St W) : Prop :=
  match o with
  | Ret _ => r_status (resp st) = 401 ∨ r_status (resp st) = 413
  | Panic _ => r_status (resp st) = 0
  end.

Lemma gate_body_cases next r body err st1 o st2 :
  r_status (resp st1) = 0 → gate_body m clock next r body err st1 = (o, st2) →
  (err = None ∧ Z.of_nat (s_len body) <= maxBodyBytes m ∧
   ∃ st3, authenticate m clock r (slice_bytes (mem st1) body) st1 = (Ret None, st3) ∧
          next (with_body r (slice_bytes (mem st1) body)) st3 = (o, st2)) ∨
  ((∀ next', gate_body m clock next' r body err st1 = (o, st2)) ∧ refused o st2 ∧
   ¬ (err = None ∧ Z.of_nat (s_len body) <= maxBodyBytes m ∧
      ∃ st3, authenticate m clock r (slice_bytes (mem st1) body) st1 = (Ret None, st3))).
Proof.
  intros H0 H.
  assert (∀ reason st, r_status (resp st) = 0 → writeUnauthorized m r reason st = (o, st2) →
    refused o st2) as H401.
  { intros reason st Hs Hw. unfold writeUnauthorized in Hw.
    edestruct (reject_run r 401 "unauthorized" reason) as (st'&Hrun&Hst&_);
      [exact Hs| | |rewrite Hrun in Hw; simplify_eq; by left]; done. }
  unfold gate_body in *. destruct err as [e|]; [right; split_and!; [by eauto..|by intros [? _]]|].
  case_if; bool_hyps.
  { right. split; [done|]. split; [|lia]. unfold writePayloadTooLarge in H.
    edestruct (reject_run r 413 "payload_too_large" "request_body_too_large") as (st'&Hrun&Hst&_);
      [exact H0| | |rewrite Hrun in H; simplify_eq; by right]; done. }
  rewrite (bind_ret _ _ st1 (slice_bytes (mem st1) body) st1) in H by done.
  destruct (authenticate m clock r (slice_bytes (mem st1) body) st1) as [[[reason|]|v] st3] eqn:Ea.
  - right. rewrite (bind_ret _ _ _ _ _ Ea) in H. split_and!.
    + intros next'. rewrite (bind_ret _ _ st1 (slice_bytes (mem st1) body) st1) by done.
      by rewrite (bind_ret _ _ _ _ _ Ea).
    + apply authenticate_frame in Ea. eapply H401; [|done]. by rewrite Ea.
    + by intros (_&_&st4&?).
  - left. rewrite (bind_ret _ _ _ _ _ Ea) in H. eauto 10.
  - right. rewrite (bind_panic _ _ _ _ _ Ea) in H.
    split; [|split; [simplify_eq; apply authenticate_frame in Ea; by rewrite Ea|by intros (_&_&st4&?)]].
    intros next'. rewrite (bind_ret _ _ st1 (slice_bytes (mem st1) body) st1) by done.
    by rewrite (bind_panic _ _ _ _ _ Ea).
Qed.
End Gate.

(** Every path through [Wrap]. *)
Lemma Wrap_spec {W R} (m : HMAC W) (clock : W → Time * W) (read : Reader R) `{!ReaderLaws read}
    (next : Handler W bytes) (r : HttpRequest R) (st : St W) (fuel : nat) :
  (∀ p s q n s', read p s = ((q, n, None), s') → p ≠ [] → (0 < n)%nat) →
  0 <= maxBodyBytes m < maxDuration → (Z.to_nat (maxBodyBytes m) + 1 < fuel)%nat →
  r_status (resp st) = 0 →
  ∃ body err rest raw st1 o st',
    Wrap m clock read fuel next r st = (o, st') ∧
    ReadAll fuel (LimitReader read) (wrap64 (maxBodyBytes m + 1), Body r) st = (Ret (body, err, rest), st1) ∧
    raw = slice_bytes (mem st1) body ∧ (length raw <= Z.to_nat (maxBodyBytes m) + 1)%nat ∧
    world st1 = world st ∧ all_zero (slice_bytes (mem st') body) ∧
    ((err = None ∧ Z.of_nat (length raw) <= maxBodyBytes m ∧
      ∃ st2, authenticate m clock r raw st1 = (Ret None, st2) ∧
             (o, st') = defer_ (ZeroBytes (Some body)) (next (with_body r raw)) st2) ∨
     ((∀ next', Wrap m clock read fuel next' r st = (o, st')) ∧ refused o st' ∧
      ¬ (err = None ∧ Z.of_nat (length raw) <= maxBodyBytes m ∧ ∃ st2, authenticate m clock r raw st1 = (Ret None, st2)))).
Proof.
  intros Hprog Hmax Hfuel H0.
  pose proof (LimitReader_progress read Hprog) as HP.
  assert (wrap64 (maxBodyBytes m + 1) = maxBodyBytes m + 1) as Hwrap.
  { apply wrap64_id. unfold int64_ok, minDuration, maxDuration in *. lia. }
  destruct (ReadAll_run (LimitReader read) (λ s, Z.to_nat s.1) fuel
    (wrap64 (maxBodyBytes m + 1), Body r) st) as (body&s'&b&e&st1&Hrun&Hreads&Hb&Hown&Hfr).
  { cbn [fst]. rewrite Hwrap. lia. }
  apply LimitReader_reads in Hreads; [|done]. cbn [fst] in Hreads. rewrite Hwrap in Hreads.
  destruct Hfr as (Hm&Hobs&Hresp&Hw). destruct Hown as (Hloc&Hlen&_).
  assert (s_len body = length b) as Hsl.
  { rewrite <- Hb. unfold slice_bytes, slice_cap in *. rewrite length_take. lia. }
  pose proof (λ nx, Wrap_after_read m clock read fuel nx r st body _ s' st1 Hrun) as Hwrapped.
  destruct (gate_body m clock next r body (match e with ErrEOF => None | _ => Some e end) st1)
    as [o st2] eqn:E.
  set (st' := set_mem (mem_zero (mem st2) body) st2).
  assert (∀ nx, gate_body m clock nx r body (match e with ErrEOF => None | _ => Some e end) st1 = (o, st2) →
    Wrap m clock read fuel nx r st = (o, st')) as Hall.
  { intros nx Hnx. rewrite Hwrapped. unfold defer_. by rewrite Hnx. }
  eexists body, _, s', b, st1, o, st'. split; [by apply Hall|]. split; [exact Hrun|].
  split; [done|]. split; [lia|]. split; [done|].
  split; [cbn; auto with go|].
  apply gate_body_cases in E as [(Hnone&Hsmall&st3&Ha&Hn)|(Hindep&Hst&Hno)]; [| |by rewrite Hresp].
  - left. split; [done|]. split; [lia|]. exists st3. rewrite Hb in Ha, Hn. split; [done|]. unfold defer_. by rewrite Hn.
  - right. split; [by intros nx; apply Hall|]. split; [done|]. by rewrite Hb, Hsl in Hno.
Qed.

(** The gate.  For a body reader that keeps io.Reader's contract and makes
    progress, [Wrap] reads at most one byte more than the limit and then
    either (a) the body was read without error, fits the limit and
    authenticates, and the result is the inner handler run on exactly the
    bytes that were signed; or (b) the inner handler is not run at all
    (the result is the same for every inner handler), and a returned result
    is a 401 or 413 response.  In both cases, and when the inner handler
    panics, the buffer that held the body is zero at the end. *)
Lemma hmac_gate {W R} (m : HMAC W) (clock : W → Time * W) (read : Reader R) `{!ReaderLaws read}
    (next : Handler W bytes) (r : HttpRequest R) (st : St W) (fuel : nat) :
  (∀ p s q n s', read p s = ((q, n, None), s') → p ≠ [] → (0 < n)%nat) →
  0 <= maxBodyBytes m < maxDuration → (Z.to_nat (maxBodyBytes m) + 1 < fuel)%nat →
  r_status (resp st) = 0 →
  ∃ body err rest raw st1 o st',
    Wrap m clock read fuel next r st = (o, st') ∧
    ReadAll fuel (LimitReader read) (wrap64 (maxBodyBytes m + 1), Body r) st = (Ret (body, err, rest), st1) ∧
    raw = slice_bytes (mem st1) body ∧ (length raw <= Z.to_nat (maxBodyBytes m) + 1)%nat ∧
    world st1 = world st ∧ all_zero (slice_bytes (mem st') body) ∧
    ((err = None ∧ Z.of_nat (length raw) <= maxBodyBytes m ∧
      ∃ st2, authenticate m clock r raw st1 = (Ret None, st2) ∧
             (o, st') = defer_ (ZeroBytes (Some body)) (next (with_body r raw)) st2) ∨
     ((∀ next', Wrap m clock read fuel next' r st = (o, st')) ∧
      (o = Ret tt → r_status (resp st') = 401 ∨ r_status (resp st') = 413))).
Proof.
  intros Hprog Hmax Hfuel H0.
  destruct (Wrap_spec m clock read next r st fuel Hprog Hmax Hfuel H0)
    as (body&err&rest&raw&st1&o&st'&Hw&Hr&Hraw&Hlen&Hworld&Hz&Hcase).
  exists body, err, rest, raw, st1, o, st'. split_and!; try done.
  destruct Hcase as [Hc|(Hindep&Href&_)]; [by left|]. right. split; [done|]. by intros ->.
Qed.

(** ** Replay *)

Import MemoryNonce.

(** The store never forgets a nonce within its time to live. *)
Lemma Use_keeps (nonce n : string) (d now t : Z) s :
  seenAt s !! n = Some t → ¬ d < Sub now t →
  seenAt (Use nonce d now s).2 !! n = Some t ∧ (nonce = n → (Use nonce d now s).1 = false).
Proof.
  intros Hn Hd. unfold Use.
  assert (purge now d (seenAt s) !! n = Some t) as Hp by (by apply map_lookup_filter_Some).
  destruct (decide (nonce = n)) as [->|Hne]; [by rewrite Hp|].
  split; [|done]. destruct (purge now d (seenAt s) !! nonce); cbn; [done|]. by rewrite lookup_insert_ne.
Qed.

Lemma Use_fresh (nonce : string) (d now : Z) s :
  (Use nonce d now s).1 = true → seenAt (Use nonce d now s).2 !! nonce = Some now.
Proof.
  unfold Use. destruct (purge now d (seenAt s) !! nonce); [done|]. intros _. cbn.
  by rewrite lookup_insert_eq.
Qed.

(** An attempt: a request with its body, the clock reading of the skew test
    and the reading inside Use. *)
Record Attempt := mkAttempt {
  a_req : HttpRequest bytes;
  a_body : bytes;
  a_skew : Time;
  a_use : Time
}.

(** The world of one attempt: its two clock readings and the nonce store. *)
Definition AttemptWorld : Type := Time * Time * MemoryNonceStore.

Definition attempt_nonces (d : Duration) : NonceStore AttemptWorld :=
  mkNonceStore (λ nonce ttl '(a, u, s), let '(b, s') := Use nonce ttl u s in (Ret b, (a, u, s'))) (Some d).

Definition attempt_clock (w : AttemptWorld) : Time * AttemptWorld := (w.1.1, w).

(** Run one attempt against a store: is it accepted, and the store after. *)
Definition attempt (m : HMAC AttemptWorld) (s : MemoryNonceStore) (a : Attempt) : bool * MemoryNonceStore :=
  let '(o, st') := authenticate m attempt_clock (a_req a) (a_body a)
                     (mkSt [] [] NewResponse (a_skew a, a_use a, s)) in
  (match o with Ret None => true | _ => false end, (world st').2).

Fixpoint attempts (m : HMAC AttemptWorld) (s : MemoryNonceStore) (l : list Attempt) : list bool * MemoryNonceStore :=
  match l with
  | [] => ([], s)
  | a :: l' =>
      let '(b, s1) := attempt m s a in
      let '(bs, s2) := attempts m s1 l' in (b :: bs, s2)
  end.

Section Replay.
Context (m : HMAC AttemptWorld) (d : Duration).
Context (Hnonces : nonces m = Some (attempt_nonces d)) (Httl : hm_nonceTTL m = d).

(** An attempt leaves the store alone or is one call of Use. *)
Lemma attempt_store s a :
  attempt m s a = (false, s) ∨
  attempt m s a = Use (HeaderGet (a_req a) "X-Hook-Nonce") d (a_use a) s.
Proof.
  unfold attempt, authenticate. destruct (ParseInt _); [|by left]. case_if; [by left|].
  step_go. unfold attempt_clock. cbn [fst snd].
  case_if; [by left|]. case_if; [by left|]. right.
  rewrite Hnonces, Httl. cbn. destruct (Use _ d (a_use a) s) as [[] s']; done.
Qed.

Lemma attempt_keeps s a n t :
  seenAt s !! n = Some t → a_use a - t <= d → int64_ok d → d < maxDuration →
  seenAt (attempt m s a).2 !! n = Some t ∧
  (HeaderGet (a_req a) "X-Hook-Nonce" = n → (attempt m s a).1 = false).
Proof.
  intros Hn Ht Hd Hmax. destruct (attempt_store s a) as [->| ->]; [done|].
  apply Use_keeps; [done|]. rewrite (Sub_gt _ _ _ Hd Hmax). lia.
Qed.

Lemma attempts_keep s l n t :
  seenAt s !! n = Some t → Forall (λ a, a_use a - t <= d) l → int64_ok d → d < maxDuration →
  seenAt (attempts m s l).2 !! n = Some t.
Proof.
  intros Hn Hl Hd Hmax. revert s Hn. induction Hl as [|a l Ha Hl IH]; intros s Hn; [done|]. cbn.
  destruct (attempt_keeps s a n t Hn Ha Hd Hmax) as [Hk _].
  destruct (attempt m s a) as [b s1]. cbn in Hk. specialize (IH s1 Hk).
  by destruct (attempts m s1 l).
Qed.
End Replay.

(** C7 Replay protection of the in-memory store.  Take any sequence of
    attempts, ordered by their calls of Use, in which every attempt reads the
    clock for its skew test at most [δ] before its call of Use.  If the nonce
    lifetime covers twice the skew plus [δ], then of two attempts that carry
    the same nonce and the same timestamp header at most one is accepted:
    after the first, the second is rejected whatever happened in between.
    (Timestamps are assumed less than 2^63 ns ahead of the clock.) *)
Theorem replay_rejected (m : HMAC AttemptWorld) (d δ ts : Z) (s : MemoryNonceStore)
    (x y : Attempt) (mid : list Attempt) :
  nonces m = Some (attempt_nonces d) → hm_nonceTTL m = d → d < maxDuration → 0 < skew m →
  2 * skew m + δ <= d →
  Forall (λ a, a_skew a <= a_use a <= a_skew a + δ) [x; y] →
  Forall (λ a, a_use a <= a_use y) mid →
  ParseInt (HeaderGet (a_req x) "X-Hook-Timestamp") = Some ts →
  HeaderGet (a_req y) "X-Hook-Timestamp" = HeaderGet (a_req x) "X-Hook-Timestamp" →
  HeaderGet (a_req y) "X-Hook-Nonce" = HeaderGet (a_req x) "X-Hook-Nonce" →
  Forall (λ a, minDuration < a_skew a - Unix ts) [x; y] →
  (attempt m s x).1 = true →
  (attempt m (attempts m (attempt m s x).2 mid).2 y).1 = false.
Proof.
  intros Hn Httl Hmax Hsk Hcover Hclock Hmid Hts Htsy Hny Hfar Hx.
  rewrite !Forall_cons in Hclock, Hfar. destruct Hclock as (Hcx&Hcy&_), Hfar as (Hfx&Hfy&_).
  cbv beta in Hcx, Hcy, Hfx, Hfy.
  assert (int64_ok d) as Hd by (unfold int64_ok, minDuration, maxDuration in *; lia).
  assert (∀ a s0, HeaderGet (a_req a) "X-Hook-Timestamp" = HeaderGet (a_req x) "X-Hook-Timestamp" →
    minDuration < a_skew a - Unix ts → (attempt m s0 a).1 = true → Z.abs (a_skew a - Unix ts) <= skew m) as Hskew.
  { intros a s0 Hh Hf Ha. unfold attempt in Ha.
    destruct (authenticate m attempt_clock (a_req a) (a_body a) _) as [[[?|]|?] st'] eqn:E; try done.
    apply (f_equal fst) in E. apply authenticate_in_skew in E as (ts'&Hp&Hs); [|lia].
    rewrite Hh, Hts in Hp. injection Hp as <-. cbn in Hs. destruct Hs as [?|?]; [done|]. lia. }
  destruct (attempt m (attempts m (attempt m s x).2 mid).2 y).1 eqn:Hy; [exfalso|done].
  pose proof (Hskew x s eq_refl Hfx Hx). pose proof (Hskew y _ Htsy Hfy Hy).
  destruct (attempt_store m d Hn Httl s x) as [Hs|Hs]; [by rewrite Hs in Hx|].
  rewrite Hs in Hx. apply Use_fresh in Hx. rewrite <- Hs in Hx.
  assert (seenAt (attempts m (attempt m s x).2 mid).2 !! HeaderGet (a_req x) "X-Hook-Nonce" = Some (a_use x)) as Hk.
  { eapply attempts_keep; try done. eapply Forall_impl; [done|]. intros a Ha. cbn in Ha. lia. }
  destruct (attempt_keeps m d Hn Httl _ y _ _ Hk) as [_ Hrej]; [lia|done..|].
  rewrite (Hrej Hny) in Hy. done.
Qed.

(** ** Witnesses *)

Module HmacWitnesses.
Definition toy_hmac : HMAC AttemptWorld :=
  mkHMAC (bytes_of_string "k") (Some (attempt_nonces (61 * Second))) (30 * Second) (61 * Second)
    DefaultBaseURL 1024.

Definition signed (ts nonce : string) (body : bytes) : HttpRequest bytes :=
  mkHttpRequest "POST" "/api/v1/hook/password" "10.0.0.1:9000"
    {[ "X-Hook-Timestamp"%string := [ts]; "X-Hook-Nonce"%string := [nonce];
       "X-Hook-Signature"%string :=
         [("sha256=" +:+ hex_encode (hmac_sha256 (bytes_of_string "k") (mac_input ts nonce body)))%string] ]}
    body (mkContext None None).

Definition body : bytes := bytes_of_string "{}".
Definition t0 : Time := Unix 1700000000.
Definition first : Attempt := mkAttempt (signed "1700000000" "n1" body) body t0 (t0 + 5).
Definition other : Attempt := mkAttempt (signed "1700000001" "n2" body) body (t0 + 6) (t0 + 7).
Definition again : Attempt := mkAttempt (signed "1700000000" "n1" body) body (t0 + 9) (t0 + 10).

Definition world0 (now : Time) : St AttemptWorld :=
  mkSt [] [] NewResponse (now, now, NewMemoryNonceStore (61 * Second)).

Lemma authenticate_iff_witness :
  (authenticate toy_hmac attempt_clock (signed "1700000000" "n1" body) body (world0 t0)).1 = Ret None.
Proof.
  apply (authenticate_iff toy_hmac attempt_clock (signed "1700000000" "n1" body) body (world0 t0)).
  - split; vm_compute; reflexivity.
  - exists 1700000000. split; [vm_compute; reflexivity|]. split; [vm_compute; discriminate|].
    split; [vm_compute; discriminate|]. split; [left; vm_compute; discriminate|].
    split; vm_compute; reflexivity.
Defined.

Lemma replay_rejected_witness :
  (attempt toy_hmac (attempts toy_hmac (attempt toy_hmac (NewMemoryNonceStore (61 * Second)) first).2
    [other]).2 again).1 = false.
Proof.
  apply (replay_rejected toy_hmac (61 * Second) Second 1700000000 (NewMemoryNonceStore (61 * Second))
    first again [other]); try reflexivity.
  - repeat constructor; vm_compute; discriminate.
  - repeat constructor; vm_compute; discriminate.
  - repeat constructor; vm_compute; reflexivity.
Defined.

Definition echo : Handler AttemptWorld bytes := λ _, WriteHeader 202.

Lemma hmac_gate_witness : ∃ b err rest raw st1 o st',
  Wrap toy_hmac attempt_clock BytesReader 2000 echo (signed "1700000000" "n1" body) (world0 t0) = (o, st') ∧
  ReadAll 2000 (LimitReader BytesReader) (wrap64 (maxBodyBytes toy_hmac + 1), body) (world0 t0)
    = (Ret (b, err, rest), st1) ∧
  raw = slice_bytes (mem st1) b ∧ (length raw <= Z.to_nat (maxBodyBytes toy_hmac) + 1)%nat ∧
  world st1 = world (world0 t0) ∧ all_zero (slice_bytes (mem st') b) ∧
  ((err = None ∧ Z.of_nat (length raw) <= maxBodyBytes toy_hmac ∧
    ∃ st2, authenticate toy_hmac attempt_clock (signed "1700000000" "n1" body) raw st1 = (Ret None, st2) ∧
           (o, st') = defer_ (ZeroBytes (Some b)) (echo (with_body (signed "1700000000" "n1" body) raw)) st2) ∨
   ((∀ next', Wrap toy_hmac attempt_clock BytesReader 2000 next' (signed "1700000000" "n1" body) (world0 t0)
       = (o, st')) ∧
    (o = Ret tt → r_status (resp st') = 401 ∨ r_status (resp st') = 413))).
Proof.
  apply (hmac_gate toy_hmac attempt_clock BytesReader echo (signed "1700000000" "n1" body) (world0 t0) 2000).
  - intros p s q n s' H Hp. exact (proj1 (reader_progress (μ := length) p s q n s' H Hp)).
  - split; vm_compute; [discriminate|reflexivity].
  - apply Nat.ltb_lt. vm_compute. reflexivity.
  - reflexivity.
Defined.

(** The signed request does get through. *)
Example signed_request_accepted :
  r_status (resp (Wrap toy_hmac attempt_clock BytesReader 2000 echo (signed "1700000000" "n1" body) (world0 t0)).2)
  = 202.
Proof. vm_compute. reflexivity. Qed.

(** A timestamp some 317 years ahead passes the 30 s skew test. *)
Example far_future_timestamp_accepted :
  (authenticate toy_hmac attempt_clock (signed "11700000000" "n1" body) body (world0 t0)).1 = Ret None.
Proof. vm_compute. reflexivity. Qed.

(** With a lifetime of exactly twice the skew, a request accepted at the
    early edge is accepted again at the late edge when Use runs a moment
    after the skew test. *)
Definition tight_hmac : HMAC AttemptWorld :=
  mkHMAC (bytes_of_string "k") (Some (attempt_nonces (60 * Second))) (30 * Second) (60 * Second)
    DefaultBaseURL 1024.
Definition early : Attempt :=
  mkAttempt (signed "1700000000" "n1" body) body (t0 - 30 * Second) (t0 - 30 * Second).
Definition late : Attempt :=
  mkAttempt (signed "1700000000" "n1" body) body (t0 + 30 * Second) (t0 + 30 * Second + 1).

Example tight_lifetime_replayed :
  (attempts tight_hmac (NewMemoryNonceStore (60 * Second)) [early; late]).1 = [true; true].
Proof. vm_compute. reflexivity. Qed.
End HmacWitnesses.
