(* ===== verification/RateLimit.v ===== *)
(** * Source filter and rate limiter (internal/middleware/ratelimit.go)

    [resolveSourceIP] decides which address a request comes from, across the
    trusted-proxy boundary; [sourceAllowed] filters it; [allow] is a
    fixed-window counter per address. *)
From stdpp Require Import base gmap strings list sorting.
From Stdlib Require Import ZArith Lia Ascii.
From S2P Require Import Prelude Utf8 GoStrings NetIP GoTime GoBase Observability GoState Http.

Local Open Scope Z_scope.

(** ** Data *)

Record RateLimitConfig := mkRateLimitConfig {
  AllowedCIDRs : list string;
  TrustedProxyCIDRs : list string;
  LimitPerIP : Z;
  Window : Duration;
  ProblemBase : string
}.

Record rateWindow := mkWindow { start : Time; count : Z }.

(** The immutable part of RateLimiter, and its counts. *)
Record RateLimiter := mkRateLimiter {
  allowedCIDRs : list IPNet;
  trustedProxyCIDRs : list IPNet;
  limitPerIP : Z;
  window : Duration;
  rl_problemBase : string
}.

Abbreviation Counts := (gmap string rateWindow) (only parsing).

Record sourceIPResolution := mkResolution {
  peerIP : IP;
  resolvedClientIP : IP;
  peerTrusted : bool;
  forwardedHeaderCount : Z;
  forwardedHopCount : Z;
  sourceResolution : string
}.

(** ** Operations *)

Definition parseCIDRs (values : list string) : list IPNet :=
  omap (λ v, ParseCIDR (bytes_of_string (TrimSpace v))) values.

Definition NewRateLimiter (cfg : RateLimitConfig) : RateLimiter :=
  mkRateLimiter (parseCIDRs (AllowedCIDRs cfg)) (parseCIDRs (TrustedProxyCIDRs cfg))
    (if LimitPerIP cfg <=? 0 then 500 else LimitPerIP cfg)
    (if Window cfg <=? 0 then Second else Window cfg)
    (ProblemBase cfg).

Definition containsIP (cidrs : list IPNet) (ip : IP) : bool :=
  existsb (λ c, net_Contains c ip) cidrs.

Definition parseIPWithOptionalPort (value : string) : option IP :=
  let value := bytes_of_string (TrimSpace value) in
  match ParseAddr value with
  | Some (addr, []) => Some (Unmap addr)
  | _ =>
    match SplitHostPort value with
    | None => None
    | Some (host, port) =>
      match host, port with
      | [], _ | _, [] => None
      | _, _ =>
        if negb (parse_uint16 port) then None
        else
          match ParseAddr host with
          | Some (addr, []) => Some (Unmap addr)
          | _ => None
          end
      end
    end
  end.

Definition sourceAllowed (l : RateLimiter) (sourceIP : IP) : bool :=
  (0 <? length (allowedCIDRs l))%nat && containsIP (allowedCIDRs l) sourceIP.

(** The hops of a forwarded header, [None] when one does not parse. *)
Fixpoint parse_hops (values : list string) : option (list IP) :=
  match values with
  | [] => Some []
  | v :: values' =>
    match parseIPWithOptionalPort v with
    | None => None
    | Some hop => match parse_hops values' with Some hops => Some (hop :: hops) | None => None end
    end
  end.

(** The loop from the last hop down: the first one outside the proxies. *)
Fixpoint last_untrusted (trusted : list IPNet) (rev_hops : list IP) : option IP :=
  match rev_hops with
  | [] => None
  | hop :: hops => if containsIP trusted hop then last_untrusted trusted hops else Some hop
  end.

Definition resolveSourceIP {R} (l : RateLimiter) (r : HttpRequest R) : sourceIPResolution :=
  match parseIPWithOptionalPort (RemoteAddr r) with
  | None => mkResolution [] [] false 0 0 "invalid_peer"
  | Some peer =>
    let values := Values r "X-Forwarded-For" in
    let headers := Z.of_nat (length values) in
    let single := match values with
                  | [v] => if bool_decide (TrimSpace v = ""%string) then None else Some v
                  | _ => None
                  end in
    let hops := match single with Some v => Z.of_nat (length (Split v ","%char)) | None => 0 end in
    if (length (trustedProxyCIDRs l) =? 0)%nat || negb (containsIP (trustedProxyCIDRs l) peer)
    then mkResolution peer peer false headers hops "direct_peer"
    else
      match single with
      | None => mkResolution peer [] true headers hops "invalid_forwarded_chain"
      | Some v =>
        match parse_hops (Split v ","%char) with
        | None => mkResolution peer [] true headers hops "invalid_forwarded_chain"
        | Some ips =>
          match last_untrusted (trustedProxyCIDRs l) (rev ips) with
          | Some ip => mkResolution peer ip true headers hops "trusted_forwarded"
          | None => mkResolution peer [] true headers hops "invalid_forwarded_chain"
          end
        end
      end
  end.

Definition sourceIPResolutionAttrs (res : sourceIPResolution) : list Attr :=
  [("peerTrusted", VBool (peerTrusted res)); ("forwardedHeaderCount", VInt (forwardedHeaderCount res));
   ("forwardedHopCount", VInt (forwardedHopCount res)); ("sourceResolution", VString (sourceResolution res))]%string
  ++ match peerIP res with [] => [] | ip => [("peerIp"%string, VString (IPString ip))] end
  ++ match resolvedClientIP res with [] => [] | ip => [("resolvedClientIp"%string, VString (IPString ip))] end.

Definition rateKey (sourceIP : IP) : string := IPString sourceIP.

(** allow; a missing entry is the zero window. *)
Definition allow (l : RateLimiter) (key : string) (now : Time) (counts : Counts) : bool * Counts :=
  let current := default (mkWindow 0 0) (counts !! key) in
  if IsZero (start current) || (window l <=? Sub now (start current)) then
    (true, <[key := mkWindow now 1]> counts)
  else if limitPerIP l <=? count current then (false, counts)
  else (true, <[key := mkWindow (start current) (count current + 1)]> counts).

Section Wrap.
Context {W R : Type} (l : RateLimiter) (clock : W → Time * W).
(** Where the world keeps the limiter's counts. *)
Context (get_counts : W → Counts) (set_counts : Counts → W → W).

Definition allow_request (key : string) : M (St W) bool :=
  call (λ w, let '(now, w1) := clock w in
             let '(ok, counts) := allow l key now (get_counts w1) in
             (Ret ok, set_counts counts w1)).

Definition rate_Wrap (next : Handler W R) : Handler W R := λ r,
  let resolution := resolveSourceIP l r in
  let sourceIP := resolvedClientIP resolution in
  if negb (sourceAllowed l sourceIP) then
    recordMiddlewareOutcome (requestid_From (req_ctx r)) "ratelimit" 401 "unauthorized"
      "source_ip_not_allowed" (sourceIPResolutionAttrs resolution) ;;
    Write (Unauthorized (rl_problemBase l) (Path r) (requestid_From (req_ctx r)) "source ip is not allowed")
  else
    ok ← allow_request (rateKey sourceIP);
    if (ok : bool) then next r
    else
      recordMiddlewareOutcome (requestid_From (req_ctx r)) "ratelimit" 429 "rate_limited"
        "request_rate_exceeded" [] ;;
      Write (TooManyRequests (rl_problemBase l) (Path r) (requestid_From (req_ctx r)) "request rate exceeded").
End Wrap.

(** ** The fixed window *)

(** A sequence of calls of allow, in the order in which they take the lock,
    as events: key, clock reading and answer. *)
Fixpoint events (l : RateLimiter) (counts : Counts) (calls : list (string * Time)) : list (string * Time * bool) :=
  match calls with
  | [] => []
  | (key, now) :: calls' =>
      let '(ok, counts') := allow l key now counts in (key, now, ok) :: events l counts' calls'
  end.

Definition after_calls (l : RateLimiter) (counts : Counts) (calls : list (string * Time)) : Counts :=
  foldl (λ cs c, (allow l c.1 c.2 cs).2) counts calls.

(** Accepted calls for a key, at or after a time. *)
Definition accepted_since (key : string) (t : Time) (evs : list (string * Time * bool)) : nat :=
  length (filter (λ e, e.1.1 = key ∧ t <= e.1.2 ∧ e.2 = true) evs).
Definition accepted (key : string) (evs : list (string * Time * bool)) : nat :=
  length (filter (λ e, e.1.1 = key ∧ e.2 = true) evs).

Lemma accepted_yes key t evs : accepted key ((key, t, true) :: evs) = S (accepted key evs).
Proof. unfold accepted. by rewrite filter_cons_True. Qed.
Lemma accepted_no key k t (ok : bool) evs :
  k ≠ key ∨ ok = false → accepted key ((k, t, ok) :: evs) = accepted key evs.
Proof.
  intros H. unfold accepted. rewrite filter_cons_False; [done|]. cbn. intros [-> ->]. by destruct H.
Qed.

Section Window.
Context (l : RateLimiter) (Hlimit : 0 < limitPerIP l) (Hwindow : 0 < window l < maxDuration).

Lemma Sub_window now s : (window l <=? Sub now s) = (window l <=? now - s).
Proof.
  assert (window l - 1 < Sub now s ↔ window l - 1 < now - s).
  { apply Sub_gt; unfold int64_ok, minDuration, maxDuration in *; lia. }
  destruct (Z.leb_spec (window l) (Sub now s)), (Z.leb_spec (window l) (now - s)); lia.
Qed.

(** What one call does to the entry of a key. *)
Lemma allow_other key k now counts : k ≠ key → (allow l k now counts).2 !! key = counts !! key.
Proof. intros Hne. unfold allow. repeat case_if; cbn; by rewrite ?lookup_insert_ne. Qed.

Definition in_window (counts : Counts) (key : string) (now : Time) (s c : Z) : Prop :=
  counts !! key = Some (mkWindow s c) ∧ s ≠ 0 ∧ now - s < window l.

(** The three answers of allow. *)
Lemma allow_cases key now counts :
  (allow l key now counts = (true, <[key := mkWindow now 1]> counts) ∧
   ∀ s c, ¬ in_window counts key now s c) ∨
  (∃ s c, in_window counts key now s c ∧
     ((allow l key now counts = (false, counts) ∧ limitPerIP l <= c) ∨
      (allow l key now counts = (true, <[key := mkWindow s (c + 1)]> counts) ∧ c < limitPerIP l))).
Proof.
  unfold allow, in_window, IsZero. rewrite Sub_window.
  destruct (counts !! key) as [[s c]|] eqn:E; cbn [default id start count].
  2: { left. by split; [|intros s c (?&_)]. }
  destruct (Z.eqb_spec s 0) as [->|Hs]; cbn [orb].
  { left. split; [done|]. by intros s' c' ([= <- <-]&?&_). }
  destruct (Z.leb_spec (window l) (now - s)).
  { left. split; [done|]. intros s' c' ([= <- <-]&_&?). lia. }
  right. exists s, c. split; [split_and!; (done || lia)|].
  destruct (Z.leb_spec (limitPerIP l) c); [left|right]; done.
Qed.

(** Within one window at most the rest of the budget is accepted. *)
Lemma accepted_window key s calls : ∀ c counts,
  counts !! key = Some (mkWindow s c) → s ≠ 0 → Forall (λ x, x.2 - s < window l) calls → c <= limitPerIP l →
  Z.of_nat (accepted key (events l counts calls)) <= limitPerIP l - c.
Proof.
  induction calls as [|[k t] calls IH]; intros c counts Hc Hs Hall Hle; [cbn; lia|].
  apply Forall_cons in Hall as [Ht Hall]. cbn [snd] in Ht. cbn [events].
  destruct (decide (k = key)) as [->|Hne].
  - destruct (allow_cases key t counts) as [[_ H]|(s'&c'&[Hc' _]&H)].
    { exfalso. by apply (H s c). }
    rewrite Hc in Hc'. injection Hc' as <- <-.
    destruct H as [[-> Hge]|[-> Hlt]].
    + rewrite accepted_no by auto. by apply IH.
    + rewrite accepted_yes.
      specialize (IH (c + 1) (<[key:=mkWindow s (c + 1)]> counts)).
      rewrite lookup_insert_eq in IH.
      specialize (IH eq_refl Hs Hall ltac:(lia)). lia.
  - pose proof (allow_other key k t counts Hne) as Ho.
    destruct (allow l k t counts) as [ok counts'] eqn:E. cbn [snd] in Ho.
    rewrite accepted_no by auto. apply IH; [by rewrite Ho|done..].
Qed.

Lemma accepted_span key a calls : ∀ counts,
  0 < a → (∀ s c, counts !! key = Some (mkWindow s c) → 0 <= c <= limitPerIP l) →
  Forall (λ x, a <= x.2 < a + window l) calls →
  Z.of_nat (accepted key (events l counts calls)) <=
    limitPerIP l + match counts !! key with Some w => limitPerIP l - count w | None => 0 end.
Proof.
  induction calls as [|[k t] calls IH]; intros counts Ha Hinv Hall.
  { cbn. destruct (counts !! key) as [[s c]|] eqn:E; [specialize (Hinv s c eq_refl); cbn|]; lia. }
  apply Forall_cons in Hall as [Ht Hall]. cbn [snd] in Ht. cbn [events].
  destruct (decide (k = key)) as [->|Hne].
  - destruct (allow_cases key t counts) as [[-> H]|(s&c&Hin&H)].
    + rewrite accepted_yes.
      assert (Z.of_nat (accepted key (events l (<[key:=mkWindow t 1]> counts) calls)) <= limitPerIP l - 1) as Hw.
      { apply (accepted_window key t); [by rewrite lookup_insert_eq|lia| |lia].
        eapply Forall_impl; [exact Hall|]. cbn. intros x Hx. lia. }
      assert (0 <= match counts !! key with Some w => limitPerIP l - count w | None => 0 end).
      { destruct (counts !! key) as [[s c]|] eqn:E; [specialize (Hinv s c eq_refl); cbn|]; lia. }
      lia.
    + destruct Hin as (Hc&_&_). pose proof (Hinv s c Hc) as Hcb. rewrite Hc.
      destruct H as [[-> Hge]|[-> Hlt]].
      * rewrite accepted_no by auto. specialize (IH counts Ha Hinv Hall).
        by rewrite Hc in IH.
      * rewrite accepted_yes.
        assert (∀ s' c', <[key:=mkWindow s (c + 1)]> counts !! key = Some (mkWindow s' c') →
          0 <= c' <= limitPerIP l) as Hinv'.
        { intros s' c'. rewrite lookup_insert_eq. intros [= <- <-]. lia. }
        specialize (IH (<[key:=mkWindow s (c + 1)]> counts) Ha Hinv' Hall). rewrite lookup_insert_eq in IH.
        cbn [count] in *. lia.
  - pose proof (allow_other key k t counts Hne) as Ho.
    destruct (allow l k t counts) as [ok counts'] eqn:E. cbn [snd] in Ho.
    rewrite accepted_no by auto. rewrite <- Ho in *. by apply IH.
Qed.
End Window.

Section Runs.
Context (l : RateLimiter) (Hlimit : 0 < limitPerIP l) (Hwindow : 0 < window l < maxDuration).

Lemma events_snoc calls key now : ∀ counts,
  events l counts (calls ++ [(key, now)]) =
  events l counts calls ++ [(key, now, (allow l key now (after_calls l counts calls)).1)].
Proof.
  induction calls as [|[k t] calls IH]; intros counts; cbn.
  - by destruct (allow l key now counts).
  - destruct (allow l k t counts) as [ok counts'] eqn:E. by rewrite IH.
Qed.

Lemma after_calls_snoc counts calls key now :
  after_calls l counts (calls ++ [(key, now)]) = (allow l key now (after_calls l counts calls)).2.
Proof. unfold after_calls. by rewrite foldl_app. Qed.

Lemma accepted_since_snoc key t evs k u (ok : bool) :
  accepted_since key t (evs ++ [(k, u, ok)]) =
  (accepted_since key t evs + if bool_decide (k = key ∧ (t <= u)%Z ∧ ok = true) then 1 else 0)%nat.
Proof.
  unfold accepted_since. rewrite filter_app, length_app. f_equal.
  case_bool_decide; [by rewrite filter_cons_True|by rewrite filter_cons_False].
Qed.

(** After any calls from the empty map, an entry starts at one of the calls'
    times and its count is backed by that many accepted calls since. *)
Lemma entry_backed calls key s c :
  StronglySorted (λ x y, x.2 <= y.2) calls →
  after_calls l ∅ calls !! key = Some (mkWindow s c) →
  1 <= c <= limitPerIP l ∧ Exists (λ x, x.2 = s) calls ∧
  (Z.to_nat c <= accepted_since key s (events l ∅ calls))%nat.
Proof.
  revert s c. induction calls as [|[k t] calls IH] using rev_ind; intros s c Hsort; [done|].
  rewrite after_calls_snoc, events_snoc, accepted_since_snoc, Exists_app.
  apply StronglySorted_app_1_l in Hsort as Hs1.
  assert (Forall (λ x, x.2 <= t) calls) as Hbefore.
  { apply Forall_forall. intros x Hx. eapply (StronglySorted_app_1_elem_of _ _ _ x (k, t) Hsort); [done|by constructor]. }
  destruct (decide (k = key)) as [->|Hne].
  - destruct (allow_cases l Hwindow key t (after_calls l ∅ calls)) as [[-> _]|(s'&c'&Hin&[[-> Hge]|[-> Hlt]])]; cbn.
    + rewrite lookup_insert_eq. intros [= <- <-]. rewrite bool_decide_true by (split_and!; lia || done).
      split; [lia|]. split; [right; by constructor|]. lia.
    + intros Hc. destruct (IH s c Hs1 Hc) as (?&?&?). rewrite bool_decide_false by (by intros (_&_&?)).
      split; [done|]. split; [by left|lia].
    + rewrite lookup_insert_eq. intros [= <- <-]. destruct Hin as (Hc&_&_).
      destruct (IH s' c' Hs1 Hc) as (Hcb&Hex&Hcnt).
      assert (s' <= t).
      { apply Exists_exists in Hex as (x&Hx&<-). rewrite Forall_forall in Hbefore. by apply Hbefore. }
      rewrite bool_decide_true by done. split; [lia|]. split; [by left|]. lia.
  - rewrite (allow_other l key k t _ Hne). intros Hc. destruct (IH s c Hs1 Hc) as (?&?&?).
    rewrite bool_decide_false by (by intros [? _]). split; [done|]. split; [by left|lia].
Qed.

Lemma counts_bounded calls key s c :
  after_calls l ∅ calls !! key = Some (mkWindow s c) → 0 <= c <= limitPerIP l.
Proof.
  revert s c. induction calls as [|[k t] calls IH] using rev_ind; intros s c; [done|].
  rewrite after_calls_snoc. destruct (decide (k = key)) as [->|Hne].
  - destruct (allow_cases l Hwindow key t (after_calls l ∅ calls)) as [[-> _]|(s'&c'&Hin&[[-> Hge]|[-> Hlt]])]; cbn.
    + rewrite lookup_insert_eq. intros [= <- <-]. lia.
    + apply IH.
    + rewrite lookup_insert_eq. intros [= <- <-]. destruct Hin as (Hc&_&_). apply IH in Hc. lia.
  - rewrite (allow_other l key k t _ Hne). apply IH.
Qed.
End Runs.

(** ** Properties *)

(** C24 The rate bound: after any history, among consecutive calls whose clock
    readings span less than one window, at most twice the limit is accepted
    for a key, whatever other keys do in between. *)
Theorem rate_bounded (l : RateLimiter) (history calls : list (string * Time)) (key : string) (a : Time) :
  0 < limitPerIP l → 0 < window l < maxDuration → 0 < a →
  Forall (λ x, a <= x.2 < a + window l) calls →
  Z.of_nat (accepted key (events l (after_calls l ∅ history) calls)) <= 2 * limitPerIP l.
Proof.
  intros Hl Hw Ha Hall.
  pose proof (accepted_span l Hl Hw key a calls (after_calls l ∅ history) Ha
    (λ s c H, counts_bounded l Hl Hw history key s c H) Hall) as H.
  destruct (after_calls l ∅ history !! key) as [[s c]|] eqn:E; cbn in H; [|lia].
  apply (counts_bounded l Hl Hw) in E. lia.
Qed.

(** C25 No request is refused without cause: in a history of calls in clock
    order, a call for a key is refused only if at least the limit of calls for
    the same key were accepted within the window before it. *)
Theorem refusal_justified (l : RateLimiter) (history : list (string * Time)) (key : string) (now : Time) :
  0 < limitPerIP l → 0 < window l < maxDuration →
  StronglySorted (λ x y, x.2 <= y.2) history →
  (allow l key now (after_calls l ∅ history)).1 = false →
  ∃ s, now - window l < s ∧
    limitPerIP l <= Z.of_nat (accepted_since key s (events l ∅ history)).
Proof.
  intros Hl Hw Hsort H.
  destruct (allow_cases l Hw key now (after_calls l ∅ history)) as [[E _]|(s&c&(Hc&_&Hin)&[[E Hge]|[E _]])];
    rewrite E in H; try done.
  apply (entry_backed l Hl Hw) in Hc as (_&_&Hcnt); [|done]. exists s. lia.
Qed.

(** ** The trust boundary *)


Lemma Split_app (s t : string) (c : ascii) : Split (s +:+ String c t) c = Split s c ++ Split t c.
Proof.
  assert (∀ u, Split u c ≠ []) as Hne.
  { induction u as [|d u IH]; cbn; [done|]. case_if; [done|]. by destruct (Split u c). }
  induction s as [|d s IH].
  - change ("" +:+ String c t)%string with (String c t). cbn [Split]. by rewrite Ascii.eqb_refl.
  - change (String d s +:+ String c t)%string with (String d (s +:+ String c t)). cbn [Split].
    case_if; [by rewrite IH|]. rewrite IH. by destruct (Split s c) as [|x l] eqn:E; [by apply Hne in E|].
Qed.

Lemma parse_hops_app vs1 vs2 hops :
  parse_hops (vs1 ++ vs2) = Some hops →
  ∃ h1 h2, hops = h1 ++ h2 ∧ parse_hops vs1 = Some h1 ∧ parse_hops vs2 = Some h2.
Proof.
  revert hops. induction vs1 as [|v vs1 IH]; intros hops H; cbn in *; [by exists [], hops|].
  destruct (parseIPWithOptionalPort v); [|done].
  destruct (parse_hops (vs1 ++ vs2)) as [hs|]; [|done]. injection H as <-.
  destruct (IH hs eq_refl) as (h1&h2&->&->&->). by eexists (_ :: h1), h2.
Qed.

Lemma last_untrusted_app trusted a b ip :
  last_untrusted trusted a = Some ip → last_untrusted trusted (a ++ b) = Some ip.
Proof. induction a as [|h a IH]; cbn; [done|]. by case_if. Qed.

Lemma last_untrusted_outside trusted hops ip :
  last_untrusted trusted hops = Some ip → containsIP trusted ip = false.
Proof. induction hops as [|h a IH]; cbn; [done|]. case_if; [done|]. by intros [= <-]. Qed.

(** The trust boundary, direct clients: a peer outside the trusted proxies
    (or any peer when none are configured) is its own source address, whatever
    forwarded headers it sends. *)
Lemma direct_peer_not_spoofable {R} (l : RateLimiter) (r : HttpRequest R) (peer : IP) :
  parseIPWithOptionalPort (RemoteAddr r) = Some peer →
  containsIP (trustedProxyCIDRs l) peer = false →
  resolvedClientIP (resolveSourceIP l r) = peer ∧ peerTrusted (resolveSourceIP l r) = false.
Proof.
  intros Hp Ht. unfold resolveSourceIP. rewrite Hp, Ht. cbn [negb]. by rewrite orb_true_r.
Qed.

(** C36 The trust boundary, proxied clients: behind a trusted proxy the source
    is the last hop that is not a trusted proxy.  Whatever a client puts in
    front of the part of the header the proxies append, the request is
    attributed to that same address or, if the header does not parse as a
    whole, to none. *)
Theorem forwarded_prefix_ignored {R} (l : RateLimiter) (r : HttpRequest R) (peer : IP)
    (spoofed appended : string) (hops : list IP) (ip : IP) :
  parseIPWithOptionalPort (RemoteAddr r) = Some peer →
  containsIP (trustedProxyCIDRs l) peer = true →
  Values r "X-Forwarded-For" = [(spoofed +:+ String ","%char appended)%string] →
  parse_hops (Split appended ","%char) = Some hops →
  last_untrusted (trustedProxyCIDRs l) (rev hops) = Some ip →
  containsIP (trustedProxyCIDRs l) ip = false ∧
  (resolvedClientIP (resolveSourceIP l r) = ip ∨ resolvedClientIP (resolveSourceIP l r) = []).
Proof.
  intros Hp Ht Hv Hh Hip. split; [by eapply last_untrusted_outside|].
  unfold resolveSourceIP. rewrite Hp, Ht, Hv. cbn [negb]. rewrite orb_false_r.
  destruct (trustedProxyCIDRs l) as [|c cs] eqn:E; [done|]. cbn [length Nat.eqb]. rewrite <- E in *.
  case_bool_decide; [by right|]. rewrite Split_app.
  destruct (parse_hops (Split spoofed "," ++ Split appended ",")) as [all|] eqn:Eh; [|by right].
  apply parse_hops_app in Eh as (h1&h2&->&_&Hh2). rewrite Hh in Hh2. injection Hh2 as <-.
  rewrite rev_app_distr. rewrite (last_untrusted_app _ _ _ _ Hip). by left.
Qed.

(** No configured network contains the nil address. *)
Lemma parseCIDRs_not_nil values : containsIP (parseCIDRs values) [] = false.
Proof.
  unfold containsIP, parseCIDRs. apply not_true_iff_false. rewrite existsb_exists. intros (c&Hin&Hc).
  apply list_elem_of_In, list_elem_of_omap in Hin as (v&_&Hv). by rewrite (ParseCIDR_not_nil _ _ Hv) in Hc.
Qed.

(** The gate of the rate limiter: the inner handler runs only for a
    request whose resolved address is a real address inside an allowed
    network and which the window admits; every other request gets a 401 or
    429 response and the handler is not run.  An address that could not be
    resolved is never allowed. *)
Lemma rate_gate {W R} (cfg : RateLimitConfig) (clock : W → Time * W) (get_counts : W → Counts)
    (set_counts : Counts → W → W) (next : Handler W R) (r : HttpRequest R) (st : St W) :
  r_status (resp st) = 0 →
  let l := NewRateLimiter cfg in
  let ip := resolvedClientIP (resolveSourceIP l r) in
  let out := rate_Wrap l clock get_counts set_counts next r st in
  if containsIP (allowedCIDRs l) ip then
    ip ≠ [] ∧
    let '(now, w1) := clock (world st) in
    let '(ok, counts) := allow l (rateKey ip) now (get_counts w1) in
    let st1 := set_world (set_counts counts w1) st in
    if ok then out = next r st1
    else ∃ st', out = (Ret tt, st') ∧ r_status (resp st') = 429 ∧ world st' = world st1
  else ∃ st', out = (Ret tt, st') ∧ r_status (resp st') = 401 ∧ world st' = world st.
Proof.
  intros H0 l ip out. subst out. unfold rate_Wrap. fold ip.
  assert (∀ (st0 : St W) status outc reason attrs p, r_status (resp st0) = 0 → p_Status p = status → status ≠ 0 →
    ∃ st', (recordMiddlewareOutcome (requestid_From (req_ctx r)) "ratelimit" status outc reason attrs ;;
            Write p) st0 = (Ret tt, st') ∧ r_status (resp st') = status ∧ world st' = world st0) as Hrej.
  { intros st0 status outc reason attrs p Hs Hp Hn. unfold recordMiddlewareOutcome. step_go.
    rewrite Write_run by (cbn; congruence). eexists. rewrite Hp. done. }
  destruct (containsIP (allowedCIDRs l) ip) eqn:Ec.
  - assert (sourceAllowed l ip = true) as ->.
    { unfold sourceAllowed. rewrite Ec. by destruct (allowedCIDRs l). }
    cbn [negb]. split.
    { intros Hnil. rewrite Hnil in Ec. subst l.
      cbn [allowedCIDRs NewRateLimiter] in Ec. by rewrite parseCIDRs_not_nil in Ec. }
    unfold allow_request. destruct (clock (world st)) as [now w1] eqn:Ek.
    destruct (allow l (rateKey ip) now (get_counts w1)) as [ok counts] eqn:Ea.
    rewrite (bind_ret _ _ st ok (set_world (set_counts counts w1) st)).
    2: { unfold call. by rewrite Ek, Ea. }
    destruct ok; [done|]. by apply Hrej.
  - assert (sourceAllowed l ip = false) as ->.
    { unfold sourceAllowed. rewrite Ec. apply andb_false_r. }
    cbn [negb]. by apply Hrej.
Qed.

(** ** Witnesses *)

Module RateWitnesses.
Definition toy_config : RateLimitConfig :=
  mkRateLimitConfig ["10.0.0.0/8"; "2001:db8::/32"; "bogus"]%string ["192.168.0.0/16"]%string 2 (10 * Second) "".
Definition toy_limiter : RateLimiter := NewRateLimiter toy_config.

Definition request (remote : string) (xff : list string) : HttpRequest unit :=
  mkHttpRequest "POST" "/api/v1/hook/password" remote {[ "X-Forwarded-For"%string := xff ]} tt (mkContext None None).

Definition calls : list (string * Time) :=
  [("a", 100 * Second); ("b", 101 * Second); ("a", 102 * Second); ("a", 103 * Second)]%string.

Lemma rate_bounded_witness :
  Z.of_nat (accepted "a" (events toy_limiter (after_calls toy_limiter ∅ []) calls)) <= 4.
Proof.
  apply (rate_bounded toy_limiter [] calls "a"%string (100 * Second)).
  - reflexivity.
  - split; reflexivity.
  - reflexivity.
  - repeat constructor; vm_compute; (reflexivity || discriminate).
Defined.

Lemma refusal_justified_witness : ∃ s, 104 * Second - window toy_limiter < s ∧
  limitPerIP toy_limiter <= Z.of_nat (accepted_since "a" s (events toy_limiter ∅ calls)).
Proof.
  apply (refusal_justified toy_limiter calls "a"%string (104 * Second)).
  - reflexivity.
  - split; reflexivity.
  - repeat constructor; vm_compute; discriminate.
  - vm_compute. reflexivity.
Defined.

(** Two of the three calls for [a] were accepted. *)
Example calls_answers : map snd (events toy_limiter ∅ calls) = [true; true; true; false].
Proof. vm_compute. reflexivity. Qed.

Lemma direct_peer_not_spoofable_witness :
  resolvedClientIP (resolveSourceIP toy_limiter (request "203.0.113.9:4444" ["10.1.1.1"]%string))
    = [203; 0; 113; 9] ∧
  peerTrusted (resolveSourceIP toy_limiter (request "203.0.113.9:4444" ["10.1.1.1"]%string)) = false.
Proof.
  apply (direct_peer_not_spoofable toy_limiter (request "203.0.113.9:4444" ["10.1.1.1"]%string) [203; 0; 113; 9]);
    vm_compute; reflexivity.
Defined.

Definition spoofing : HttpRequest unit :=
  request "192.168.0.7:80" ["10.9.9.9,10.1.1.1, 192.168.3.4"]%string.

Lemma forwarded_prefix_ignored_witness :
  containsIP (trustedProxyCIDRs toy_limiter) [10; 1; 1; 1] = false ∧
  (resolvedClientIP (resolveSourceIP toy_limiter spoofing) = [10; 1; 1; 1] ∨
   resolvedClientIP (resolveSourceIP toy_limiter spoofing) = []).
Proof.
  apply (forwarded_prefix_ignored toy_limiter spoofing [192; 168; 0; 7] "10.9.9.9" "10.1.1.1, 192.168.3.4"
    [[10; 1; 1; 1]; [192; 168; 3; 4]] [10; 1; 1; 1]); vm_compute; reflexivity.
Defined.

Definition toy_clock (w : Counts) : Time * Counts := (100 * Second, w).
Definition toy_state : St Counts := mkSt [] [] NewResponse ∅.
Definition ok_handler : Handler Counts unit := λ _, WriteHeader 202.

Lemma rate_gate_witness :
  let l := NewRateLimiter toy_config in
  let ip := resolvedClientIP (resolveSourceIP l spoofing) in
  let out := rate_Wrap l toy_clock id (λ c _, c) ok_handler spoofing toy_state in
  if containsIP (allowedCIDRs l) ip then
    ip ≠ [] ∧
    let '(now, w1) := toy_clock (world toy_state) in
    let '(ok, counts) := allow l (rateKey ip) now w1 in
    let st1 := set_world counts toy_state in
    if ok then out = ok_handler spoofing st1
    else ∃ st', out = (Ret tt, st') ∧ r_status (resp st') = 429 ∧ world st' = world st1
  else ∃ st', out = (Ret tt, st') ∧ r_status (resp st') = 401 ∧ world st' = world toy_state.
Proof. apply (rate_gate toy_config toy_clock id (λ c _, c) ok_handler spoofing toy_state). reflexivity. Defined.
End RateWitnesses.
