(* ===== verification/PasswordCrypto.v ===== *)
(** * Password payload encryption (internal/passwordcrypto)

    [Codec] wraps an AEAD (AES-256-GCM of the Go standard library, a
    parameter whose only law is that [Open] inverts [Seal]) with base64
    envelopes and key-id and algorithm checks.  base64 is written out. *)
From stdpp Require Import base gmap strings list pretty.
From Stdlib Require Import ZArith Lia.
From S2P Require Import Prelude Utf8 GoStrings GoTime GoBase Observability GoState.

Local Open Scope Z_scope.

(** ** base64.StdEncoding *)

Definition b64_char (v : Z) : Z :=
  if v <? 26 then 65 + v
  else if v <? 52 then 97 + (v - 26)
  else if v <? 62 then 48 + (v - 52)
  else if v =? 62 then 43 else 47.

Definition b64_value (c : Z) : option Z :=
  if within 65 90 c then Some (c - 65)
  else if within 97 122 c then Some (c - 97 + 26)
  else if within 48 57 c then Some (c - 48 + 52)
  else if c =? 43 then Some 62
  else if c =? 47 then Some 63
  else None.

Fixpoint b64_encode (b : bytes) : bytes :=
  match b with
  | [] => []
  | [x] => [b64_char (x / 4); b64_char (x mod 4 * 16); 61; 61]
  | [x; y] => [b64_char (x / 4); b64_char (x mod 4 * 16 + y / 16); b64_char (y mod 16 * 4); 61]
  | x :: y :: z :: b' =>
      b64_char (x / 4) :: b64_char (x mod 4 * 16 + y / 16) ::
      b64_char (y mod 16 * 4 + z / 64) :: b64_char (z mod 64) :: b64_encode b'
  end.

(** Decoding of the input with line breaks removed. *)
Fixpoint b64_decode_quanta (s : bytes) : option bytes :=
  match s with
  | [] => Some []
  | c0 :: c1 :: c2 :: c3 :: s' =>
      v0 ← b64_value c0; v1 ← b64_value c1;
      if c2 =? 61 then
        (if (c3 =? 61) && bool_decide (s' = []) then Some [v0 * 4 + v1 / 16] else None)
      else
        v2 ← b64_value c2;
        if c3 =? 61 then
          (if bool_decide (s' = []) then Some [v0 * 4 + v1 / 16; v1 mod 16 * 16 + v2 / 4] else None)
        else
          v3 ← b64_value c3;
          rest ← b64_decode_quanta s';
          Some (v0 * 4 + v1 / 16 :: v1 mod 16 * 16 + v2 / 4 :: v2 mod 4 * 64 + v3 :: rest)
  | _ => None
  end.

Definition b64_decode (s : bytes) : option bytes :=
  b64_decode_quanta (filter (λ c, c ≠ 10 ∧ c ≠ 13) s).

Definition EncodeToString (b : bytes) : string := string_of_bytes (b64_encode b).
Definition DecodeString (s : string) : option bytes := b64_decode (bytes_of_string s).

(** base64.CorruptInputError, without the offset it reports. *)
Definition CorruptInputError : error := ErrorText "illegal base64 data".

(** ** The AEAD parameter *)

Record AEAD := mkAEAD {
  NonceSize : nat;
  Seal : bytes → bytes → bytes → bytes;          (** nonce, plaintext, additional data *)
  Open : bytes → bytes → bytes → option bytes    (** nonce, ciphertext, additional data *)
}.

Class AEADLaws (A : AEAD) : Prop := {
  open_seal nonce plaintext aad : length nonce = NonceSize A → bytes_ok plaintext →
    Open A nonce (Seal A nonce plaintext aad) aad = Some plaintext;
  seal_bytes nonce plaintext aad : bytes_ok plaintext → bytes_ok (Seal A nonce plaintext aad);
  (** the nonce is not empty, and the ciphertext carries a tag *)
  nonce_size : (0 < NonceSize A)%nat;
  seal_tag nonce plaintext aad : (length plaintext < length (Seal A nonce plaintext aad))%nat
}.

(** ** Envelope and codec *)

Definition AlgorithmAES256GCM := "AES-256-GCM"%string.

Record Envelope := mkEnvelope {
  Ciphertext : string;
  Nonce : string;
  KeyID : string;
  Algorithm : string
}.

Record Codec := mkCodec { aead : AEAD; keyID : string }.

(** aes.NewCipher and cipher.NewGCM, with the block cipher between them. *)
Definition NewCodecFromBase64 {Block : Type} (aes_NewCipher : bytes → result Block) (cipher_NewGCM : Block → result AEAD)
    (keyB64 keyID : string) : result Codec :=
  match DecodeString keyB64 with
  | None => Err (Wrapped "decode password encryption key" CorruptInputError)
  | Some key =>
    if negb (length key =? 32)%nat then
      Err (ErrorText ("password encryption key must decode to 32 bytes, got " +:+ pretty (length key)))
    else if bool_decide (keyID = "") then Err (ErrorText "password encryption key id is required")
    else match aes_NewCipher key with
         | Err e => Err (Wrapped "create AES cipher" e)
         | Ok block =>
           match cipher_NewGCM block with
           | Err e => Err (Wrapped "create AES-GCM" e)
           | Ok a => Ok (mkCodec a keyID)
           end
         end
  end.

Section Codec.
Context {W : Type}.
(** io.ReadFull(rand.Reader, nonce) for a nonce of the given size. *)
Variable rand_ReadFull : nat → W → result bytes * W.

Definition Encrypt (c : Codec) (ctx : Context) (plaintext aad : bytes)
    (w : W) : outcome (result Envelope) * W :=
  match ctx_err ctx with
  | Some e => (Ret (Err e), w)
  | None =>
    match rand_ReadFull (NonceSize (aead c)) w with
    | (Err e, w') => (Ret (Err (Wrapped "generate password nonce" e)), w')
    | (Ok nonce, w') =>
      let ciphertext := Seal (aead c) nonce plaintext aad in
      (Ret (Ok (mkEnvelope (EncodeToString ciphertext) (EncodeToString nonce) (keyID c)
                  AlgorithmAES256GCM)), w')
    end
  end.

(** cipher.AEAD.Open panics on a nonce of the wrong length. *)
Definition aead_Open (a : AEAD) (nonce ciphertext aad : bytes) : outcome (option bytes) :=
  if (length nonce =? NonceSize a)%nat then Ret (Open a nonce ciphertext aad)
  else Panic "crypto/cipher: incorrect nonce length given to GCM".

Definition Decrypt (c : Codec) (ctx : Context) (env : Envelope) (aad : bytes)
    (w : W) : outcome (result bytes) * W :=
  match ctx_err ctx with
  | Some e => (Ret (Err e), w)
  | None =>
    if negb (bool_decide (Algorithm env = AlgorithmAES256GCM)) then
      (Ret (Err (ErrorQuoted "unsupported password encryption algorithm" (Algorithm env))), w)
    else if negb (bool_decide (KeyID env = keyID c)) then
      (Ret (Err (ErrorQuoted "unsupported password encryption key id" (KeyID env))), w)
    else match DecodeString (Nonce env) with
    | None => (Ret (Err (Wrapped "decode password nonce" CorruptInputError)), w)
    | Some nonce =>
      match DecodeString (Ciphertext env) with
      | None => (Ret (Err (Wrapped "decode password ciphertext" CorruptInputError)), w)
      | Some ciphertext =>
        match aead_Open (aead c) nonce ciphertext aad with
        | Panic v => (Panic v, w)
        | Ret None => (Ret (Err (ErrorText "decrypt password payload failed")), w)
        | Ret (Some plaintext) => (Ret (Ok plaintext), w)
        end
      end
    end
  end.
End Codec.

(** ** Lemmas *)

(** Induction three bytes at a time, the shape of the encoder. *)
Lemma bytes3_ind (P : bytes → Prop) :
  P [] → (∀ x, P [x]) → (∀ x y, P [x; y]) →
  (∀ x y z b, P b → P (x :: y :: z :: b)) → ∀ b, P b.
Proof.
  intros H0 H1 H2 H3 b. remember (length b) as n eqn:Hn. revert b Hn.
  induction n as [n IH] using lt_wf_ind. intros b ->.
  destruct b as [|x [|y [|z b]]]; [done..|]. apply H3. eapply IH; [|done]. simpl. lia.
Qed.

Lemma b64_value_char v : 0 <= v < 64 → b64_value (b64_char v) = Some v.
Proof.
  intros Hv. unfold b64_char. repeat case_if; bool_hyps; unfold b64_value; decide_ranges;
    try (f_equal; lia).
  all: assert (v = 62 ∨ v = 63) as [->| ->] by lia; done.
Qed.

(** Characters of the alphabet are none of the characters treated apart. *)
Lemma b64_char_plain v : 0 <= v < 64 →
  byte_ok (b64_char v) ∧ b64_char v ≠ 61 ∧ b64_char v ≠ 10 ∧ b64_char v ≠ 13.
Proof. intros Hv. unfold b64_char, byte_ok. repeat case_if; bool_hyps; lia. Qed.

Lemma b64_char_not_pad v : 0 <= v < 64 → (b64_char v =? 61) = false.
Proof. intros Hv. apply Z.eqb_neq. by apply b64_char_plain. Qed.

Lemma b64_encode_ok b : bytes_ok b →
  Forall (λ c, byte_ok c ∧ c ≠ 10 ∧ c ≠ 13) (b64_encode b).
Proof.
  unfold byte_ok. induction b as [|x|x y|x y z b IH] using bytes3_ind; intros Hok;
    repeat match goal with H : Forall _ (_ :: _) |- _ => apply Forall_cons in H as [? ?] end;
    cbn [b64_encode]; repeat constructor; unfold byte_ok; try lia; try (by apply IH);
    apply b64_char_plain; zdiv.
Qed.

Lemma b64_decode_encode_quanta b : bytes_ok b → b64_decode_quanta (b64_encode b) = Some b.
Proof.
  unfold byte_ok. induction b as [|x|x y|x y z b IH] using bytes3_ind; intros Hok; [done|..];
    repeat match goal with H : Forall _ (_ :: _) |- _ => apply Forall_cons in H as [? ?] end;
    cbn [b64_encode b64_decode_quanta];
    rewrite ?b64_value_char by zdiv; cbn [mbind option_bind]; rewrite ?b64_char_not_pad by zdiv;
    rewrite ?b64_value_char by zdiv; cbn [mbind option_bind].
  - simpl. do 2 f_equal. zdiv.
  - simpl. do 2 f_equal; [zdiv|f_equal; zdiv].
  - rewrite IH by done. simpl. do 2 f_equal; [zdiv|f_equal; [zdiv|f_equal; zdiv]].
Qed.

Lemma filter_all_id {A} (P : A → Prop) `{∀ x, Decision (P x)} l : Forall P l → filter P l = l.
Proof. induction 1 as [|x l Hx _ IH]; [done|]. rewrite filter_cons_True by done. by rewrite IH. Qed.

Lemma b64_encode_bytes_ok b : bytes_ok b → bytes_ok (b64_encode b).
Proof. intros Hb. eapply Forall_impl; [by apply b64_encode_ok|]. naive_solver. Qed.

(** base64 decoding inverts encoding. *)
Lemma DecodeString_EncodeToString b : bytes_ok b → DecodeString (EncodeToString b) = Some b.
Proof.
  intros Hb. unfold DecodeString, EncodeToString, b64_decode.
  rewrite bytes_of_string_of_bytes by (by apply b64_encode_bytes_ok).
  rewrite filter_all_id.
  - by apply b64_decode_encode_quanta.
  - eapply Forall_impl; [by apply b64_encode_ok|]. naive_solver.
Qed.

(** The encoded text is printable ASCII, and not empty for a non-empty input. *)
Lemma b64_char_range v : 0 <= v < 64 → 33 <= b64_char v <= 126.
Proof. intros Hv. unfold b64_char. repeat case_if; bool_hyps; lia. Qed.

Lemma b64_encode_printable b : bytes_ok b → Forall (λ c, 33 <= c <= 126) (b64_encode b).
Proof.
  unfold byte_ok. induction b as [|x|x y|x y z b IH] using bytes3_ind; intros Hok;
    repeat match goal with H : Forall _ (_ :: _) |- _ => apply Forall_cons in H as [? ?] end;
    cbn [b64_encode]; repeat constructor; try lia; try (by apply IH);
    apply b64_char_range; zdiv.
Qed.

Lemma b64_encode_nonempty b : b ≠ [] → b64_encode b ≠ [].
Proof. by destruct b as [|x [|y [|z b]]]. Qed.

Section CodecLemmas.
Context {W : Type} (rand_ReadFull : nat → W → result bytes * W).
Context (c : Codec) `{!AEADLaws (aead c)}.

(** A random source that fills the buffer it is given. *)
Definition rand_fills : Prop := ∀ n w b w',
  rand_ReadFull n w = (Ok b, w') → length b = n ∧ bytes_ok b.

(** What a successful [Encrypt] returns. *)
Lemma Encrypt_Ok ctx plaintext aad w env w' :
  Encrypt rand_ReadFull c ctx plaintext aad w = (Ret (Ok env), w') →
  ctx_err ctx = None ∧ ∃ nonce,
    rand_ReadFull (NonceSize (aead c)) w = (Ok nonce, w') ∧
    env = mkEnvelope (EncodeToString (Seal (aead c) nonce plaintext aad)) (EncodeToString nonce)
            (keyID c) AlgorithmAES256GCM.
Proof.
  unfold Encrypt. destruct (ctx_err ctx); [done|].
  destruct (rand_ReadFull _ w) as [[nonce|e] w1] eqn:E; intros H; simplify_eq. eauto.
Qed.

(** Decrypting an envelope of this codec opens its ciphertext. *)
Lemma Decrypt_envelope {W2} ctx nonce plaintext aad aad' (w : W2) :
  ctx_err ctx = None → length nonce = NonceSize (aead c) → bytes_ok nonce → bytes_ok plaintext →
  Decrypt c ctx (mkEnvelope (EncodeToString (Seal (aead c) nonce plaintext aad)) (EncodeToString nonce)
            (keyID c) AlgorithmAES256GCM) aad' w =
  match Open (aead c) nonce (Seal (aead c) nonce plaintext aad) aad' with
  | Some p => (Ret (Ok p), w)
  | None => (Ret (Err (ErrorText "decrypt password payload failed")), w)
  end.
Proof.
  intros Hctx Hlen Hok Hp. unfold Decrypt. rewrite Hctx. cbn [Algorithm KeyID Nonce Ciphertext].
  rewrite !bool_decide_true by done. cbn [negb].
  rewrite !DecodeString_EncodeToString by (done || by apply seal_bytes).
  unfold aead_Open. rewrite Hlen, Nat.eqb_refl. by destruct (Open _ _ _ _).
Qed.
End CodecLemmas.

(** ** Properties *)

(** A payload encrypted by the codec is decrypted to the same password by
    the same codec under the same additional data, whatever the context and
    the world it runs in: encryption followed by queue transport loses
    nothing. *)
Lemma codec_roundtrip {W W2} (rand_ReadFull : nat → W → result bytes * W) (c : Codec)
    (ctx ctx' : Context) (plaintext aad : bytes) (w w' : W) (w2 : W2) (env : Envelope) :
  AEADLaws (aead c) → rand_fills rand_ReadFull → bytes_ok plaintext →
  ctx_err ctx' = None →
  Encrypt rand_ReadFull c ctx plaintext aad w = (Ret (Ok env), w') →
  Decrypt c ctx' env aad w2 = (Ret (Ok plaintext), w2).
Proof.
  intros HA Hfill Hp Hctx' H. apply Encrypt_Ok in H as (_&nonce&Hr&->).
  apply Hfill in Hr as [Hlen Hok].
  rewrite Decrypt_envelope by done. by rewrite open_seal.
Qed.

(** A toy AEAD with the laws, for evaluation: the tag is the byte sum of the
    additional data. *)
Definition toy_tag (aad : bytes) : Z := foldr Z.add 0 aad mod 256.
Definition toy_AEAD : AEAD :=
  mkAEAD 12 (λ _ p aad, p ++ [toy_tag aad])
    (λ _ ct aad, match last ct with
                 | Some t => if t =? toy_tag aad then Some (removelast ct) else None
                 | None => None
                 end).

#[export] Instance toy_AEAD_laws : AEADLaws toy_AEAD.
Proof.
  split.
  - intros nonce p aad _ _. cbn. rewrite last_snoc, Z.eqb_refl. by rewrite removelast_last.
  - intros nonce p aad Hp. cbn. apply Forall_app. split; [done|]. constructor; [|done].
    unfold toy_tag, byte_ok. apply Z.mod_pos_bound. lia.
  - cbn. lia.
  - intros nonce p aad. cbn. rewrite length_app. cbn. lia.
Qed.

Definition toy_rand (n : nat) (w : unit) : result bytes * unit := (Ok (replicate n 7), w).

Lemma toy_rand_fills : rand_fills toy_rand.
Proof.
  intros n w b w' H. unfold toy_rand in H. simplify_eq. rewrite length_replicate. split; [done|].
  apply Forall_replicate. unfold byte_ok. lia.
Qed.

Definition toy_codec : Codec := mkCodec toy_AEAD "key-v1".
Definition background : Context := mkContext None None.

Lemma codec_roundtrip_witness :
  Decrypt toy_codec background
    (mkEnvelope "cHchBg==" "BwcHBwcHBwcHBwcH" "key-v1" AlgorithmAES256GCM) [1; 2; 3] tt
  = (Ret (Ok [112; 119; 33]), tt).
Proof.
  apply (codec_roundtrip toy_rand toy_codec background background [112; 119; 33] [1; 2; 3] tt tt tt).
  - exact toy_AEAD_laws.
  - exact toy_rand_fills.
  - repeat constructor; unfold byte_ok; lia.
  - reflexivity.
  - vm_compute. reflexivity.
Defined.

(** C40 Exactly when [Decrypt] panics instead of returning an error: the
    envelope carries this codec's algorithm and key id and decodes as base64,
    but its nonce is not as long as the cipher's nonce.  Every other
    malformed envelope is reported as an error value. *)
Theorem decrypt_panics_iff {W} (c : Codec) (ctx : Context) (env : Envelope) (aad : bytes) (w : W) :
  (∃ v, (Decrypt c ctx env aad w).1 = Panic v) ↔
  ctx_err ctx = None ∧ Algorithm env = AlgorithmAES256GCM ∧ KeyID env = keyID c ∧
  ∃ nonce ciphertext, DecodeString (Nonce env) = Some nonce ∧
    DecodeString (Ciphertext env) = Some ciphertext ∧ length nonce ≠ NonceSize (aead c).
Proof.
  unfold Decrypt, aead_Open. split.
  - intros [v H]. destruct (ctx_err ctx); [done|].
    do 2 (case_bool_decide; cbn [negb] in H; [|done]).
    destruct (DecodeString (Nonce env)) as [nonce|]; [|done].
    destruct (DecodeString (Ciphertext env)) as [ct|]; [|done].
    destruct (length nonce =? NonceSize (aead c))%nat eqn:E; [by destruct (Open _ _ _ _)|].
    apply Nat.eqb_neq in E. repeat split; eauto.
  - intros (->&->&->&nonce&ct&->&->&Hlen). rewrite !bool_decide_true by done. cbn [negb].
    rewrite (proj2 (Nat.eqb_neq _ _)) by done. by eexists.
Qed.

(** [NewCodecFromBase64] accepts exactly the keys that are 32 bytes of
    base64 with a non-empty key id (given that the cipher takes 32-byte
    keys), and the codec it builds carries that key id. *)
Lemma new_codec_iff {Block} (aes_NewCipher : bytes → result Block) (cipher_NewGCM : Block → result AEAD)
    (keyB64 kid : string) (c : Codec) :
  NewCodecFromBase64 aes_NewCipher cipher_NewGCM keyB64 kid = Ok c ↔
  ∃ key block a, DecodeString keyB64 = Some key ∧ length key = 32%nat ∧ kid ≠ ""%string ∧
    aes_NewCipher key = Ok block ∧ cipher_NewGCM block = Ok a ∧ c = mkCodec a kid.
Proof.
  unfold NewCodecFromBase64. split.
  - destruct (DecodeString keyB64) as [key|]; [|done].
    destruct (length key =? 32)%nat eqn:E; [|done]. cbn [negb]. apply Nat.eqb_eq in E.
    case_bool_decide; [done|]. destruct (aes_NewCipher key) as [block|] eqn:Eb; [|done].
    destruct (cipher_NewGCM block) as [a|] eqn:Eg; [|done]. intros [= <-]. by exists key, block, a.
  - intros (key&block&a&->&Hlen&Hk&->&->&->). rewrite Hlen. simpl. by rewrite bool_decide_false.
Qed.
