(* ===== verification/SyncStatus.v ===== *)
(** * Sync status tracking (internal/syncstatus/status.go)

    The abstract contract of a store is a per-account register holding the
    greatest write in the order (source time, status precedence);
    [MemoryStore] is the mutex-guarded map that implements it.  A call of the
    store is one atomic step, as the mutex makes it. *)
From stdpp Require Import base gmap strings list.
From Stdlib Require Import ZArith Lia.
From S2P Require Import Prelude Utf8 GoStrings GoTime GoBase Observability GoState.

Local Open Scope Z_scope.

(** ** Data *)

Definition StatusUnsynced : string := ""%string.
Definition StatusPending : string := "sync_pending"%string.
Definition StatusSynced : string := "synced"%string.
Definition StatusFailed : string := "sync_failed"%string.

Record SyncRecord := mkRecord {
  Status : string;
  UpdatedAt : Time;
  SourceEnqueuedAt : Time
}.

Definition zero_record : SyncRecord := mkRecord StatusUnsynced 0 0.

Definition statusPrecedence (status : string) : Z :=
  if bool_decide (status = StatusPending) then 1
  else if bool_decide (status = StatusFailed) then 2
  else if bool_decide (status = StatusSynced) then 3
  else 0.

(** The Store interface, over the world of its implementation. *)
Record SyncStore (W : Type) := mkSyncStore {
  Get : Context → string → W → outcome (result SyncRecord) * W;
  MarkPending : Context → string → Time → W → outcome (option error) * W;
  MarkSynced : Context → string → Time → W → outcome (option error) * W;
  MarkFailed : Context → string → Time → W → outcome (option error) * W
}.
Arguments mkSyncStore {W} _ _ _ _.
Arguments Get {W} _ _ _ _.
Arguments MarkPending {W} _ _ _ _ _.
Arguments MarkSynced {W} _ _ _ _ _.
Arguments MarkFailed {W} _ _ _ _ _.

(** ** MemoryStore *)

Section Memory.
Context {U : UnicodeTables}.

Definition normalizeUPN (upn : string) : string := ToLower (TrimSpace upn).

(** MemoryStore: the records and the clock reading [now] of the next write. *)
Record MemoryStore := mkMemoryStore {
  records : gmap string SyncRecord;
  store_now : Time
}.

Definition NewMemoryStore (now : Time) : MemoryStore := mkMemoryStore ∅ now.

Definition memory_Get (ctx : Context) (upn : string) (s : MemoryStore)
    : outcome (result SyncRecord) * MemoryStore :=
  match ctx_err ctx with
  | Some e => (Ret (Err e), s)
  | None => (Ret (Ok (default zero_record (records s !! normalizeUPN upn))), s)
  end.

(** The two guards of [set] against the stored record. *)
Definition stale_write (existing : SyncRecord) (status : string) (sourceEnqueuedAt : Time) : bool :=
  Before sourceEnqueuedAt (SourceEnqueuedAt existing)
  || (TimeEqual sourceEnqueuedAt (SourceEnqueuedAt existing)
      && (statusPrecedence status <=? statusPrecedence (Status existing))).

Definition memory_set (ctx : Context) (upn status : string) (sourceEnqueuedAt : Time)
    (s : MemoryStore) : outcome (option error) * MemoryStore :=
  match ctx_err ctx with
  | Some e => (Ret (Some e), s)
  | None =>
    let key := normalizeUPN upn in
    let updated := mkMemoryStore
      (<[key := mkRecord status (UTC (store_now s)) (UTC sourceEnqueuedAt)]> (records s))
      (store_now s) in
    match records s !! key with
    | Some existing =>
        if stale_write existing status sourceEnqueuedAt then (Ret None, s) else (Ret None, updated)
    | None => (Ret None, updated)
    end
  end.

Definition memory_MarkPending ctx upn src := memory_set ctx upn StatusPending src.
Definition memory_MarkSynced ctx upn src := memory_set ctx upn StatusSynced src.
Definition memory_MarkFailed ctx upn src := memory_set ctx upn StatusFailed src.

Definition memory_store : SyncStore MemoryStore :=
  mkSyncStore memory_Get memory_MarkPending memory_MarkSynced memory_MarkFailed.
End Memory.

(** ** The contract *)

(** A write: the status recorded and the source time of its message. *)
Abbreviation write := (string * Time)%type (only parsing).

(** [new] replaces [old]: later source, or same source and higher status. *)
Definition supersedes (new old : write) : bool :=
  (old.2 <? new.2) || ((new.2 =? old.2) && (statusPrecedence old.1 <? statusPrecedence new.1)).

Definition merge (old : option write) (new : write) : write :=
  match old with
  | None => new
  | Some o => if supersedes new o then new else o
  end.

Definition marks (status : string) : Prop :=
  status = StatusPending ∨ status = StatusSynced ∨ status = StatusFailed.

(** What every implementation of the Store interface promises: an abstract
    register per account, read by [Get] and merged into by the Mark methods;
    a cancelled call changes nothing. *)
Class StoreContract `{U : UnicodeTables} {W} (st : SyncStore W) := {
  register : W → string → option write;
  contract_get ctx upn w : ctx_err ctx = None →
    ∃ r, Get st ctx upn w = (Ret (Ok r), w) ∧
      (Status r, SourceEnqueuedAt r) = default (StatusUnsynced, 0) (register w (normalizeUPN upn));
  contract_mark (mark : Context → string → Time → W → outcome (option error) * W) status :
    (mark = MarkPending st ∧ status = StatusPending) ∨ (mark = MarkSynced st ∧ status = StatusSynced)
    ∨ (mark = MarkFailed st ∧ status = StatusFailed) →
    ∀ ctx upn src w, ctx_err ctx = None →
    ∃ w', mark ctx upn src w = (Ret None, w') ∧
      ∀ k, register w' k = if bool_decide (k = normalizeUPN upn)
                           then Some (merge (register w k) (status, src)) else register w k
}.

(** ** Lemmas: the order of writes *)

Lemma statusPrecedence_inj s t : marks s → marks t → statusPrecedence s = statusPrecedence t → s = t.
Proof. unfold marks. intros [->|[->| ->]] [->|[->| ->]]; done. Qed.

Lemma supersedes_irrefl w : supersedes w w = false.
Proof. unfold supersedes. rewrite !Z.ltb_irrefl. by rewrite andb_false_r. Qed.

Lemma supersedes_spec new old :
  supersedes new old = true ↔
  old.2 < new.2 ∨ (new.2 = old.2 ∧ statusPrecedence old.1 < statusPrecedence new.1).
Proof.
  unfold supersedes. rewrite orb_true_iff, andb_true_iff, Z.eqb_eq, !Z.ltb_lt. done.
Qed.

Lemma supersedes_false new old :
  supersedes new old = false ↔
  new.2 < old.2 ∨ (new.2 = old.2 ∧ statusPrecedence new.1 <= statusPrecedence old.1).
Proof. rewrite <- not_true_iff_false, supersedes_spec. lia. Qed.

(** Writes that do not supersede each other are equal. *)
Lemma supersedes_total w1 w2 : marks w1.1 → marks w2.1 →
  supersedes w1 w2 = false → supersedes w2 w1 = false → w1 = w2.
Proof.
  rewrite !supersedes_false. intros H1 H2 Ha Hb. destruct w1 as [s1 t1], w2 as [s2 t2]; simpl in *.
  assert (t1 = t2) as -> by lia. f_equal. apply statusPrecedence_inj; [done..|lia].
Qed.

Definition opt_marks (o : option write) : Prop := match o with Some w => marks w.1 | None => True end.

(** Merging in either order gives the same register. *)
Lemma merge_comm o w1 w2 : opt_marks o → marks w1.1 → marks w2.1 →
  merge (Some (merge o w1)) w2 = merge (Some (merge o w2)) w1.
Proof.
  intros Ho H1 H2. unfold merge.
  assert (∀ a b : write, marks a.1 → marks b.1 →
    (if supersedes b a then b else a) = (if supersedes a b then a else b)) as Hsym.
  { intros a b Ha Hb. destruct (supersedes b a) eqn:E1, (supersedes a b) eqn:E2; try done.
    - apply supersedes_spec in E1, E2. lia.
    - symmetry. by apply supersedes_total. }
  destruct o as [w0|]; [|by apply Hsym]. simpl in Ho.
  destruct (supersedes w1 w0) eqn:E1, (supersedes w2 w0) eqn:E2; rewrite ?E1, ?E2; try done.
  - by apply Hsym.
  - destruct (supersedes w2 w1) eqn:E3; [|done].
    apply supersedes_spec in E1, E3. apply supersedes_false in E2. lia.
  - destruct (supersedes w1 w2) eqn:E3; [|done].
    apply supersedes_spec in E2, E3. apply supersedes_false in E1. lia.
Qed.

Lemma merge_marks o w : opt_marks o → marks w.1 → marks (merge o w).1.
Proof. intros Ho Hw. unfold merge. destruct o as [w0|]; [|done]. by case_if. Qed.

(** ** MemoryStore implements the contract *)

Section MemoryContract.
Context {U : UnicodeTables}.

Definition memory_register (s : MemoryStore) (k : string) : option write :=
  (λ r, (Status r, SourceEnqueuedAt r)) <$> records s !! k.

Lemma stale_write_supersedes r status src :
  stale_write r status src = negb (supersedes (status, src) (Status r, SourceEnqueuedAt r)).
Proof.
  apply eq_bool_prop_intro. rewrite negb_True, !Is_true_true. rewrite supersedes_spec.
  unfold stale_write, Before, TimeEqual. cbn [fst snd].
  rewrite orb_true_iff, andb_true_iff, Z.eqb_eq, Z.ltb_lt, Z.leb_le. lia.
Qed.

Lemma memory_set_register ctx upn status src s : ctx_err ctx = None →
  ∃ s', memory_set ctx upn status src s = (Ret None, s') ∧
    ∀ k, memory_register s' k =
      if bool_decide (k = normalizeUPN upn)
      then Some (merge (memory_register s k) (status, src)) else memory_register s k.
Proof.
  intros Hctx. unfold memory_set. rewrite Hctx.
  destruct (records s !! normalizeUPN upn) as [r|] eqn:E.
  - rewrite stale_write_supersedes.
    destruct (supersedes (status, src) (Status r, SourceEnqueuedAt r)) eqn:Es; cbn [negb];
      eexists; (split; [reflexivity|]); intros k; case_bool_decide as Hk; try done; subst;
      unfold memory_register; cbn [records].
    + rewrite lookup_insert_eq, E. simpl. by rewrite Es.
    + by rewrite lookup_insert_ne.
    + rewrite E. simpl. by rewrite Es.
  - eexists; split; [reflexivity|]. intros k. unfold memory_register. cbn [records].
    case_bool_decide as Hk; [subst; by rewrite lookup_insert_eq, E|by rewrite lookup_insert_ne].
Qed.

#[export] Program Instance memory_contract : StoreContract memory_store :=
  {| register := memory_register |}.
Next Obligation.
  intros ctx upn s Hctx. cbn. unfold memory_Get. rewrite Hctx. eexists; split; [reflexivity|].
  unfold memory_register. by destruct (records s !! normalizeUPN upn).
Qed.
Next Obligation.
  intros mark status [[-> ->]|[[-> ->]|[-> ->]]] ctx upn src s Hctx; cbn;
    by apply memory_set_register.
Qed.
End MemoryContract.

(** ** Convergence, proved against the contract *)

Inductive mark_kind := KPending | KSynced | KFailed.

#[export] Instance mark_kind_eq_dec : EqDecision mark_kind.
Proof. solve_decision. Defined.

Definition kind_status (k : mark_kind) : string :=
  match k with KPending => StatusPending | KSynced => StatusSynced | KFailed => StatusFailed end.

Section Converge.
Context `{U : UnicodeTables} {W : Type} (st : SyncStore W) `{!StoreContract st}.

Definition mark_of (k : mark_kind) : Context → string → Time → W → outcome (option error) * W :=
  match k with KPending => MarkPending st | KSynced => MarkSynced st | KFailed => MarkFailed st end.

(** One call of a Mark method; [op_env] is what happens to the world before
    it (clock ticks, calls for other purposes) and leaves the registers. *)
Record mark_op := mkOp {
  op_kind : mark_kind;
  op_ctx : Context;
  op_upn : string;
  op_src : Time;
  op_env : W → W
}.

Definition op_ok (o : mark_op) : Prop :=
  ctx_err (op_ctx o) = None ∧ ∀ w k, register (op_env o w) k = register w k.

Definition op_write (o : mark_op) : write := (kind_status (op_kind o), op_src o).

Definition run_op (w : W) (o : mark_op) : W :=
  (mark_of (op_kind o) (op_ctx o) (op_upn o) (op_src o) (op_env o w)).2.

Definition run_ops (w : W) (os : list mark_op) : W := foldl run_op w os.

Lemma op_write_marks o : marks (op_write o).1.
Proof. unfold marks. destruct o as [[]]; simpl; auto. Qed.

Lemma run_op_register w o k : op_ok o →
  register (run_op w o) k =
    if bool_decide (k = normalizeUPN (op_upn o))
    then Some (merge (register w k) (op_write o)) else register w k.
Proof.
  intros [Hctx Henv]. unfold run_op, op_write.
  destruct (contract_mark (mark_of (op_kind o)) (kind_status (op_kind o))) with
    (ctx := op_ctx o) (upn := op_upn o) (src := op_src o) (w := op_env o w) as (w'&Hw&Hreg).
  - destruct (op_kind o); simpl; auto.
  - done.
  - rewrite Hw. simpl. by rewrite Hreg, Henv.
Qed.

(** Worlds with the same registers. *)
Definition reg_equiv (w1 w2 : W) : Prop := ∀ k, register w1 k = register w2 k.

#[export] Instance reg_equiv_equivalence : Equivalence reg_equiv.
Proof. split; [by intros w k|by intros ?? H k|by intros ??? H1 H2 k; rewrite H1, H2]. Qed.

Lemma run_op_equiv w1 w2 o : op_ok o → reg_equiv w1 w2 → reg_equiv (run_op w1 o) (run_op w2 o).
Proof. intros Ho Hw k. by rewrite !run_op_register, Hw. Qed.

Lemma run_ops_equiv os : Forall op_ok os → ∀ w1 w2,
  reg_equiv w1 w2 → reg_equiv (run_ops w1 os) (run_ops w2 os).
Proof.
  induction 1 as [|o os Ho _ IH]; intros w1 w2 Hw; [done|].
  cbn. apply IH. by apply run_op_equiv.
Qed.

Definition regs_marked (w : W) : Prop := ∀ k, opt_marks (register w k).

Lemma run_op_marked w o : op_ok o → regs_marked w → regs_marked (run_op w o).
Proof.
  intros Ho Hw k. rewrite run_op_register by done. case_bool_decide; [|apply Hw].
  apply merge_marks; [apply Hw|apply op_write_marks].
Qed.

Lemma run_op_swap w o1 o2 : op_ok o1 → op_ok o2 → regs_marked w →
  reg_equiv (run_op (run_op w o1) o2) (run_op (run_op w o2) o1).
Proof.
  intros H1 H2 Hw k. rewrite !run_op_register by done.
  do 2 case_bool_decide; try done. f_equal.
  apply merge_comm; [apply Hw|apply op_write_marks|apply op_write_marks].
Qed.

Lemma run_ops_permute os1 os2 : os1 ≡ₚ os2 → Forall op_ok os1 → ∀ w, regs_marked w →
  reg_equiv (run_ops w os1) (run_ops w os2).
Proof.
  induction 1 as [|o os1 os2 _ IH|o1 o2 os|os1 os2 os3 Hp1 IH1 _ IH2]; intros Hok w Hw.
  - done.
  - apply Forall_cons in Hok as [Ho Hok]. cbn. apply IH; [done|by apply run_op_marked].
  - apply Forall_cons in Hok as [Ho1 Hok]. apply Forall_cons in Hok as [Ho2 Hok].
    cbn. apply run_ops_equiv; [done|]. by apply run_op_swap.
  - transitivity (run_ops w os2); [by apply IH1|]. apply IH2; [|done]. by rewrite <- Hp1.
Qed.

(** The register after a run: one of the writes, superseded by none. *)
Lemma run_ops_latest os : Forall op_ok os → ∀ w k, regs_marked w →
  match register (run_ops w os) k with
  | None => register w k = None ∧ Forall (λ o, normalizeUPN (op_upn o) ≠ k) os
  | Some x =>
      (register w k = Some x ∨ ∃ o, o ∈ os ∧ normalizeUPN (op_upn o) = k ∧ op_write o = x) ∧
      (∀ y, register w k = Some y → supersedes y x = false) ∧
      Forall (λ o, normalizeUPN (op_upn o) = k → supersedes (op_write o) x = false) os
  end.
Proof.
  induction 1 as [|o os Ho _ IH]; intros w k Hw.
  - cbn. destruct (register w k) eqn:E; [|done]. split; [auto|]. split; [|done].
    intros y [= <-]. apply supersedes_irrefl.
  - specialize (IH (run_op w o) k (run_op_marked w o Ho Hw)).
    pose proof (run_op_register w o k Ho) as Hreg.
    change (run_ops w (o :: os)) with (run_ops (run_op w o) os).
    destruct (register (run_ops (run_op w o) os) k) as [x|].
    + destruct IH as (Hin&Hy&Hos). rewrite Hreg in Hin, Hy. clear Hreg.
      case_bool_decide as Hk.
      * specialize (Hy _ eq_refl).
        assert (supersedes (op_write o) x = false ∧ ∀ y, register w k = Some y → supersedes y x = false) as [Hno Hnw].
        { unfold merge in Hy. destruct (register w k) as [y|]; [|by split].
          destruct (supersedes (op_write o) y) eqn:E.
          - split; [done|]. intros ? [= <-]. apply supersedes_spec in E.
            rewrite supersedes_false in *. lia.
          - split; [|by intros ? [= <-]]. rewrite supersedes_false in *. lia. }
        split; [|split; [done|by constructor]].
        destruct Hin as [Hin|(o'&?&?&?)]; [|right; exists o'; split; [by right|done]].
        injection Hin as <-. unfold merge. destruct (register w k) as [y|]; [case_if|];
          try (right; exists o; split; [by left|done]). by left.
      * split; [|split; [done|by constructor]].
        destruct Hin as [Hin|(o'&?&?&?)]; [by left|right; exists o'; split; [by right|done]].
    + destruct IH as [Hn Hos]. rewrite Hreg in Hn. case_bool_decide as Hk; [done|].
      split; [done|]. by constructor.
Qed.
End Converge.
Arguments mkOp {W} _ _ _ _ _.
Arguments op_upn {W} _.
Arguments op_write {W} _.

(** ** Properties of MemoryStore *)

Section MemoryProperties.
Context {U : UnicodeTables}.

(** A Mark call on the store: kind, account, source time, clock reading. *)
Definition memory_call : Type := mark_kind * string * Time * Time.

Definition memory_step (ctx : Context) (s : MemoryStore) (c : memory_call) : MemoryStore :=
  let '(k, upn, src, now) := c in
  (mark_of memory_store k ctx upn src (mkMemoryStore (records s) now)).2.

Definition call_upn (c : memory_call) : string := let '(_, upn, _, _) := c in upn.
Definition call_write (c : memory_call) : write := let '(k, _, src, _) := c in (kind_status k, src).

Definition call_op (ctx : Context) (c : memory_call) : mark_op (W := MemoryStore) :=
  let '(k, upn, src, now) := c in mkOp k ctx upn src (λ s, mkMemoryStore (records s) now).

Lemma memory_steps_run ctx s cs :
  foldl (memory_step ctx) s cs = run_ops memory_store s (map (call_op ctx) cs).
Proof.
  revert s. induction cs as [|c cs IH]; intros s; [done|]. cbn. rewrite IH.
  by destruct c as [[[k upn] src] now].
Qed.

Lemma call_ops_ok ctx cs : ctx_err ctx = None →
  Forall (op_ok memory_store) (map (call_op ctx) cs).
Proof.
  intros Hctx. apply Forall_map, Forall_true. intros [[[k upn] src] now]. by split.
Qed.

Lemma new_store_marked now : regs_marked memory_store (NewMemoryStore now).
Proof.
  intros k. change (opt_marks ((λ r, (Status r, SourceEnqueuedAt r)) <$> (∅ : gmap string SyncRecord) !! k)).
  by rewrite lookup_empty.
Qed.

(** C21 Every Mark call on the memory store is the abstract register update:
    on a live context it succeeds, the account's register becomes the
    greater of the old write and the new one, every other account keeps its
    register; on a cancelled context it reports the context's error and
    changes nothing. *)
Theorem memory_set_refines_contract ctx upn status src (s : MemoryStore) :
  match ctx_err ctx with
  | Some e => memory_set ctx upn status src s = (Ret (Some e), s)
  | None => ∃ s', memory_set ctx upn status src s = (Ret None, s') ∧
      ∀ k, memory_register s' k =
        if bool_decide (k = normalizeUPN upn)
        then Some (merge (memory_register s k) (status, src)) else memory_register s k
  end.
Proof.
  destruct (ctx_err ctx) as [e|] eqn:E; [unfold memory_set; by rewrite E|].
  by apply memory_set_register.
Qed.

(** C4 The outcome recorded for an account does not depend on the order in
    which the hook and the workers report it: any two orders of the same
    Mark calls, at any clock readings, leave the same status and source
    time behind. *)
Theorem memory_store_converges ctx now (cs1 cs2 : list memory_call) upn :
  ctx_err ctx = None → cs1 ≡ₚ cs2 →
  ∃ r1 r2,
    (memory_Get ctx upn (foldl (memory_step ctx) (NewMemoryStore now) cs1)).1 = Ret (Ok r1) ∧
    (memory_Get ctx upn (foldl (memory_step ctx) (NewMemoryStore now) cs2)).1 = Ret (Ok r2) ∧
    Status r1 = Status r2 ∧ SourceEnqueuedAt r1 = SourceEnqueuedAt r2.
Proof.
  intros Hctx Hperm. rewrite !memory_steps_run.
  pose proof (run_ops_permute memory_store _ _ (Permutation_map (call_op ctx) Hperm)
    (call_ops_ok ctx cs1 Hctx) (NewMemoryStore now) (new_store_marked now) (normalizeUPN upn)) as Heq.
  cbn in Heq. unfold memory_register in Heq. unfold memory_Get. rewrite Hctx.
  do 2 eexists. split; [reflexivity|]. split; [reflexivity|].
  destruct (records _ !! _) as [r1|]; destruct (records _ !! _) as [r2|]; simplify_eq/=; done.
Qed.

(** After any sequence of Mark calls the store holds, for each account
    with at least one call, a write that was made for that account and that
    no call supersedes; an account without a call reads as never synced. *)
Lemma memory_store_keeps_latest ctx now (cs : list memory_call) upn :
  ctx_err ctx = None →
  match memory_Get ctx upn (foldl (memory_step ctx) (NewMemoryStore now) cs) with
  | (Ret (Ok r), _) =>
      (r = zero_record ∧ Forall (λ c, normalizeUPN (call_upn c) ≠ normalizeUPN upn) cs) ∨
      ((∃ c, c ∈ cs ∧ normalizeUPN (call_upn c) = normalizeUPN upn ∧
             call_write c = (Status r, SourceEnqueuedAt r)) ∧
       Forall (λ c, normalizeUPN (call_upn c) = normalizeUPN upn →
                supersedes (call_write c) (Status r, SourceEnqueuedAt r) = false) cs)
  | _ => False
  end.
Proof.
  intros Hctx. rewrite memory_steps_run.
  pose proof (run_ops_latest memory_store _ (call_ops_ok ctx cs Hctx) (NewMemoryStore now)
    (normalizeUPN upn) (new_store_marked now)) as H.
  unfold memory_Get. rewrite Hctx. cbn in H. unfold memory_register in H.
  unfold NewMemoryStore in H at 2. cbn [records] in H. rewrite lookup_empty in H.
  destruct (records _ !! _) as [r|]; cbn in *.
  - right. destruct H as ([Hno|(o&Ho&Hk&Hw)]&_&Hall); [done|]. apply list_elem_of_fmap in Ho as (c&->&Hc).
    split; [exists c; by destruct c as [[[]]]|].
    apply Forall_forall. intros c' Hc'.
    pose proof (proj1 (Forall_forall _ _) Hall _ (list_elem_of_fmap_2 (call_op ctx) _ _ Hc')) as Hx.
    by destruct c' as [[[]]].
  - left. destruct H as [_ H]. split; [done|]. apply Forall_forall. intros c' Hc'.
    pose proof (proj1 (Forall_forall _ _) H _ (list_elem_of_fmap_2 (call_op ctx) _ _ Hc')) as Hx.
    by destruct c' as [[[]]].
Qed.
End MemoryProperties.

Section MemoryWitnesses.
#[local] Existing Instance Latin1Tables.

Definition live : Context := mkContext None None.

(** A late failure of an older message arrives after a newer success. *)
Definition calls_in_order : list memory_call :=
  [(KPending, "A1@x", 10, 11); (KFailed, "a1@x ", 10, 20); (KPending, "A1@x", 15, 16);
   (KSynced, "A1@x", 15, 18)]%string.
Definition calls_reordered : list memory_call :=
  [(KPending, "A1@x", 15, 16); (KSynced, "A1@x", 15, 18); (KPending, "A1@x", 10, 11);
   (KFailed, "a1@x ", 10, 20)]%string.

Lemma calls_perm : calls_in_order ≡ₚ calls_reordered.
Proof.
  unfold calls_in_order, calls_reordered.
  change ([?a; ?b; ?c; ?d]) with ([a; b] ++ [c; d]). apply Permutation_app_comm.
Qed.

Lemma memory_store_converges_witness : ∃ r1 r2,
  (memory_Get live "a1@x" (foldl (memory_step live) (NewMemoryStore 0) calls_in_order)).1 = Ret (Ok r1) ∧
  (memory_Get live "a1@x" (foldl (memory_step live) (NewMemoryStore 0) calls_reordered)).1 = Ret (Ok r2) ∧
  Status r1 = Status r2 ∧ SourceEnqueuedAt r1 = SourceEnqueuedAt r2.
Proof.
  apply (memory_store_converges live 0 calls_in_order calls_reordered "a1@x"%string).
  - reflexivity.
  - exact calls_perm.
Defined.

Lemma memory_store_keeps_latest_witness :
  match memory_Get live "a1@x" (foldl (memory_step live) (NewMemoryStore 0) calls_reordered) with
  | (Ret (Ok r), _) =>
      (r = zero_record ∧ Forall (λ c, normalizeUPN (call_upn c) ≠ normalizeUPN "a1@x") calls_reordered) ∨
      ((∃ c, c ∈ calls_reordered ∧ normalizeUPN (call_upn c) = normalizeUPN "a1@x" ∧
             call_write c = (Status r, SourceEnqueuedAt r)) ∧
       Forall (λ c, normalizeUPN (call_upn c) = normalizeUPN "a1@x" →
                supersedes (call_write c) (Status r, SourceEnqueuedAt r) = false) calls_reordered)
  | _ => False
  end.
Proof. apply (memory_store_keeps_latest live 0 calls_reordered "a1@x"%string). reflexivity. Defined.

Example reordered_value :
  (memory_Get live "a1@x" (foldl (memory_step live) (NewMemoryStore 0) calls_reordered)).1
  = Ret (Ok (mkRecord StatusSynced 18 15)).
Proof. vm_compute. reflexivity. Qed.
End MemoryWitnesses.
