(* ===== verification/RedisStore.v ===== *)
(** * The shared sync-status store (internal/syncstatus/redis.go)

    [RedisStore] keeps one hash per account under a digest of the normalized
    UPN and updates it with a Lua script that the server runs atomically.
    The Redis server and its client library are a parameter, a record of the
    commands the store issues over the world [W]; [RedisLaws] states what the
    Redis documentation promises of them.  The script is translated below.
    The credentials provider that feeds the client's connections is a
    labelled transition system, one step per critical section. *)
From stdpp Require Import base gmap strings list relations.
From Stdlib Require Import ZArith Lia Ascii.
From S2P Require Import Prelude Utf8 GoStrings Sha256 GoTime Json GoBase Observability GoState TimeText Http SyncStatus.

Local Open Scope Z_scope.

(** ** The server *)

(** [redis_hash w k] is the hash a command sees at [k], empty when the key is
    missing or has expired, and [redis_ttl w k] its remaining time to live in
    milliseconds.  [RunScript] sends a script, [HGetAll] reads a hash. *)
Record Redis (W : Type) := mkRedis {
  redis_hash : W → string → gmap string string;
  redis_ttl : W → string → option Z;
  HSET : string → list (string * string) → W → W;
  PEXPIRE : string → Z → W → W;
  HGetAll : Context → string → W → outcome (result (gmap string string)) * W;
  RunScript : Context → (W → Z * W) → W → outcome (option error) * W;
  redis_Close : W → outcome (option error) * W
}.
Arguments mkRedis {W} _ _ _ _ _ _ _.
Arguments redis_hash {W} _ _ _.
Arguments redis_ttl {W} _ _ _.
Arguments HSET {W} _ _ _ _.
Arguments PEXPIRE {W} _ _ _ _.
Arguments HGetAll {W} _ _ _ _.
Arguments RunScript {W} _ _ _ _.
Arguments redis_Close {W} _ _.

Section Data.
Context {W : Type} (rd : Redis W).

(** Worlds whose databases agree. *)
Definition same_data (w w' : W) : Prop :=
  ∀ k, redis_hash rd w k = redis_hash rd w' k ∧ redis_ttl rd w k = redis_ttl rd w' k.

#[export] Instance same_data_equivalence : Equivalence same_data.
Proof.
  split; [by intros w k|by intros w w' H k; destruct (H k)|].
  intros w1 w2 w3 H1 H2 k. destruct (H1 k) as [-> ->]. apply H2.
Qed.

(** Time passes: after [d] milliseconds the keys whose time to live is over
    are gone, the others have that much less left, and keys without one
    stay. *)
Definition lapse (d : Z) (w w' : W) : Prop :=
  0 <= d ∧ ∀ k,
    match redis_ttl rd w k with
    | None => redis_hash rd w' k = redis_hash rd w k ∧ redis_ttl rd w' k = None
    | Some t =>
      if d <? t then redis_hash rd w' k = redis_hash rd w k ∧ redis_ttl rd w' k = Some (t - d)
      else redis_hash rd w' k = ∅ ∧ redis_ttl rd w' k = None
    end.
End Data.

(** The documented behaviour of the commands, each at the instant the server
    executes it (what passes of the keys' time to live before and after is
    [lapse]): HSET sets the given fields and keeps the
    others; a positive PEXPIRE sets the time to live of an existing key; a
    script is executed atomically, and a call that reports an error was
    either executed (the reply was lost) or not. *)
Class RedisLaws {W} (rd : Redis W) := {
  hset_hash k fs w k' : redis_hash rd (HSET rd k fs w) k' =
    if bool_decide (k' = k) then list_to_map fs ∪ redis_hash rd w k' else redis_hash rd w k';
  hset_ttl k fs w k' : k' ≠ k → redis_ttl rd (HSET rd k fs w) k' = redis_ttl rd w k';
  pexpire_hash k ms w k' : 0 < ms → redis_hash rd (PEXPIRE rd k ms w) k' = redis_hash rd w k';
  pexpire_ttl k ms w k' : 0 < ms → redis_hash rd w k ≠ ∅ →
    redis_ttl rd (PEXPIRE rd k ms w) k' = if bool_decide (k' = k) then Some ms else redis_ttl rd w k';
  hgetall_reads ctx k w : same_data rd w (HGetAll rd ctx k w).2 ∧
    match (HGetAll rd ctx k w).1 with Ret (Ok m) => m = redis_hash rd w k | Ret (Err _) => True | Panic _ => False end;
  script_atomic ctx f w :
    match RunScript rd ctx f w with
    | (Ret None, w') => same_data rd (f w).2 w'
    | (Ret (Some _), w') => same_data rd w w' ∨ same_data rd (f w).2 w'
    | (Panic _, _) => False
    end
}.

(** ** The transition script

    The order of Lua strings is the order of their bytes, and a missing field
    reads as false, which is not a key of the table. *)

Definition lua_precedence (status : option string) : Z :=
  match status with
  | Some s =>
    if bool_decide (s = "sync_pending"%string) then 1
    else if bool_decide (s = "sync_failed"%string) then 2
    else if bool_decide (s = "synced"%string) then 3
    else 0
  | None => 0
  end.

Record ScriptArgs := mkArgs {
  arg_status : string;       (* ARGV[1] *)
  arg_updated_at : string;   (* ARGV[2] *)
  arg_source : string;       (* ARGV[3] *)
  arg_ttl : Z                (* ARGV[4] *)
}.

Definition transition_script {W} (rd : Redis W) (key : string) (argv : ScriptArgs) (w : W) : Z * W :=
  let write := (1, PEXPIRE rd key (arg_ttl argv)
    (HSET rd key [("status", arg_status argv); ("updated_at", arg_updated_at argv);
                  ("source_enqueued_at", arg_source argv)]%string w)) in
  match redis_hash rd w key !! "source_enqueued_at"%string with
  | Some current_source =>
    if bytes_ltb (bytes_of_string (arg_source argv)) (bytes_of_string current_source) then (0, w)
    else if bool_decide (arg_source argv = current_source) then
      if lua_precedence (Some (arg_status argv)) <=? lua_precedence (redis_hash rd w key !! "status"%string)
      then (0, w) else write
    else write
  | None => write
  end.

(** ** The store *)

Record RedisStore (W : Type) := mkRedisStore {
  client : Redis W;
  keyPrefix : string;
  rs_pendingTTL : Duration;
  rs_terminalTTL : Duration;
  rs_now : W → Time;
  credentials : option (W → outcome (option error) * W)
}.
Arguments mkRedisStore {W} _ _ _ _ _ _.
Arguments client {W} _.
Arguments keyPrefix {W} _.
Arguments rs_pendingTTL {W} _.
Arguments rs_terminalTTL {W} _.
Arguments rs_now {W} _ _.
Arguments credentials {W} _.

Definition validateRedisStoreOptions (keyPrefix : string) (pendingTTL terminalTTL : Duration) : option error :=
  if bool_decide (TrimSpace keyPrefix = ""%string) then Some (ErrorText "redis key prefix is required")
  else if pendingTTL <? Millisecond then Some (ErrorText "pending TTL must be at least 1ms")
  else if terminalTTL <? Millisecond then Some (ErrorText "terminal TTL must be at least 1ms")
  else None.

Section Store.
Context {U : UnicodeTables} {W : Type}.
(** The text of the error time.Parse reports for a value. *)
Context (parse_error : string → error).
Implicit Types (s : RedisStore W) (w : W).

Definition NewRedisStore (c : option (Redis W)) (prefix : string) (pendingTTL terminalTTL : Duration) (now : W → Time)
    : result (RedisStore W) :=
  match c with
  | None => Err (ErrorText "redis client is required")
  | Some c =>
    match validateRedisStoreOptions prefix pendingTTL terminalTTL with
    | Some e => Err e
    | None => Ok (mkRedisStore c prefix pendingTTL terminalTTL now None)
    end
  end.

Definition redis_key s (upn : string) : string :=
  (keyPrefix s +:+ hex_encode (sha256 (bytes_of_string (normalizeUPN upn))))%string.

Definition field (m : gmap string string) (k : string) : string := default ""%string (m !! k).

(** Get, from the fields of the hash. *)
Definition decode_fields (fields : gmap string string) : result SyncRecord :=
  if bool_decide (fields = ∅) then Ok zero_record
  else
    let status := field fields "status" in
    if statusPrecedence status =? 0 then Err (ErrorQuoted "invalid Redis sync status" status)
    else
      match parse_fixed (bytes_of_string (field fields "updated_at")) with
      | None => Err (Wrapped "parse Redis updated_at" (parse_error (field fields "updated_at")))
      | Some updatedAt =>
        match parse_fixed (bytes_of_string (field fields "source_enqueued_at")) with
        | None => Err (Wrapped "parse Redis source_enqueued_at" (parse_error (field fields "source_enqueued_at")))
        | Some sourceEnqueuedAt => Ok (mkRecord status updatedAt sourceEnqueuedAt)
        end
      end.

Definition redis_Get s (ctx : Context) (upn : string) w : outcome (result SyncRecord) * W :=
  match HGetAll (client s) ctx (redis_key s upn) w with
  | (Ret (Ok fields), w') => (Ret (decode_fields fields), w')
  | (Ret (Err e), w') => (Ret (Err e), w')
  | (Panic v, w') => (Panic v, w')
  end.

Definition redis_set s (ctx : Context) (upn status : string) (sourceEnqueuedAt : Time) (ttl : Duration) w
    : outcome (option error) * W :=
  let argv := mkArgs status (format_fixed_nano (UTC (rs_now s w))) (format_fixed_nano (UTC sourceEnqueuedAt))
                (Milliseconds ttl) in
  RunScript (client s) ctx (transition_script (client s) (redis_key s upn) argv) w.

Definition redis_MarkPending s ctx upn src := redis_set s ctx upn StatusPending src (rs_pendingTTL s).
Definition redis_MarkSynced s ctx upn src := redis_set s ctx upn StatusSynced src (rs_terminalTTL s).
Definition redis_MarkFailed s ctx upn src := redis_set s ctx upn StatusFailed src (rs_terminalTTL s).

(** As the Store interface. *)
Definition redis_store s : SyncStore W :=
  mkSyncStore (redis_Get s) (redis_MarkPending s) (redis_MarkSynced s) (redis_MarkFailed s).

(** Both resources are closed, and both errors reported. *)
Definition redis_store_Close s (ctx : Context) w : outcome (option error) * W :=
  match redis_Close (client s) w with
  | (Panic v, w1) => (Panic v, w1)
  | (Ret clientErr, w1) =>
    match credentials s with
    | None => (Ret (errors_Join [clientErr; None]), w1)
    | Some close =>
      match close w1 with
      | (Panic v, w2) => (Panic v, w2)
      | (Ret credentialsErr, w2) => (Ret (errors_Join [clientErr; credentialsErr]), w2)
      end
    end
  end.
End Store.

(** ** The production constructor

    The Azure identity library, the token manager, the cluster client and its
    PING are parameters; [uuid_valid] is [uuid.Validate(s) == nil]. *)

Record RedisOptions := mkRedisOptions {
  Host : string;
  Port : Z;
  KeyPrefix : string;
  PendingTTL : Duration;
  TerminalTTL : Duration;
  ManagedIdentityClientID : string;
  PingTimeout : Duration
}.

(** strings.ContainsAny for a set of ASCII characters. *)
Fixpoint ContainsAny (s : string) (chars : list Ascii.ascii) : bool :=
  match s with
  | EmptyString => false
  | String c s' => bool_decide (c ∈ chars) || ContainsAny s' chars
  end.

Section Managed.
Context (uuid_valid : string → bool).

Definition validateRedisOptions (opts : RedisOptions) : option error :=
  match validateRedisStoreOptions (KeyPrefix opts) (PendingTTL opts) (TerminalTTL opts) with
  | Some e => Some e
  | None =>
    if bool_decide (TrimSpace (Host opts) = ""%string) then Some (ErrorText "Redis host is required")
    else if Contains (Host opts) "://" then Some (ErrorText "Redis host must not include a URL scheme")
    else if ContainsAny (Host opts) ["/"; "@"; ":"]%char
      then Some (ErrorText "Redis host must not include a path, user info, or port")
    else if (Port opts <=? 0) || (65535 <? Port opts) then Some (ErrorText "Redis port must be between 1 and 65535")
    else if bool_decide (TrimSpace (ManagedIdentityClientID opts) = ""%string)
      then Some (ErrorText "Redis managed identity client ID is required")
    else if negb (uuid_valid (TrimSpace (ManagedIdentityClientID opts)))
      then Some (ErrorText "Redis managed identity client ID must be a valid UUID")
    else if PingTimeout opts <=? 0 then Some (ErrorText "Redis ping timeout must be positive")
    else None
  end.

Context {W Cred : Type}.
Context (NewManagedIdentityCredential : string → result Cred).
(** newStreamingCredentialsProvider: the provider's Close, or an error. *)
Context (new_provider : Cred → W → result (W → outcome (option error) * W) * W).
Context (NewClusterClient : string → Z → W → Redis W * W).
Context (Ping : Redis W → Duration → W → outcome (option error) * W).
Context (now : W → Time).

Definition background : Context := mkContext None None.

Definition NewManagedIdentityRedisStore (opts : RedisOptions) (w : W) : outcome (result (RedisStore W)) * W :=
  match validateRedisOptions opts with
  | Some e => (Ret (Err e), w)
  | None =>
    match NewManagedIdentityCredential (TrimSpace (ManagedIdentityClientID opts)) with
    | Err e => (Ret (Err (Wrapped "create Redis managed identity credential" e)), w)
    | Ok credential =>
      match new_provider credential w with
      | (Err e, w1) => (Ret (Err (Wrapped "create Redis streaming credentials provider" e)), w1)
      | (Ok provider, w1) =>
        let '(c, w2) := NewClusterClient (TrimSpace (Host opts)) (Port opts) w1 in
        match NewRedisStore (Some c) (KeyPrefix opts) (PendingTTL opts) (TerminalTTL opts) now with
        | Err e =>
          match redis_Close c w2 with
          | (Panic v, w3) => (Panic v, w3)
          | (Ret e1, w3) =>
            match provider w3 with
            | (Panic v, w4) => (Panic v, w4)
            | (Ret e2, w4) => (Ret (Err (Joined (omap id [Some e; e1; e2]))), w4)
            end
          end
        | Ok s0 =>
          let s := mkRedisStore (client s0) (keyPrefix s0) (rs_pendingTTL s0) (rs_terminalTTL s0) (rs_now s0) (Some provider) in
          match Ping c (PingTimeout opts) w2 with
          | (Panic v, w3) => (Panic v, w3)
          | (Ret None, w3) => (Ret (Ok s), w3)
          | (Ret (Some e), w3) =>
            match redis_store_Close s background w3 with
            | (Panic v, w4) => (Panic v, w4)
            | (Ret e', w4) => (Ret (Err (Joined (omap id [Some (Wrapped "ping Redis" e); e']))), w4)
            end
          end
        end
      end
    end
  end.
End Managed.

(** ** What the store keeps *)

(** The fields a write leaves for a record. *)
Definition render (r : SyncRecord) : gmap string string :=
  list_to_map [("status", Status r); ("updated_at", format_fixed_nano (UpdatedAt r));
               ("source_enqueued_at", format_fixed_nano (SourceEnqueuedAt r))]%string.

(** Records the store writes: a status of the three and four-digit years. *)
Definition record_ok (r : SyncRecord) : Prop :=
  marks (Status r) ∧ four_digit_year (UpdatedAt r) ∧ four_digit_year (SourceEnqueuedAt r).

Section Lemmas.
Context {U : UnicodeTables} {W : Type} (parse_error : string → error) (s : RedisStore W) `{!RedisLaws (client s)}.
Implicit Types w : W.

(** The stored record of an account, none when it was never written or has
    expired. *)
Inductive holds (w : W) (k : string) : option SyncRecord → Prop :=
  | holds_none : redis_hash (client s) w k = ∅ → holds w k None
  | holds_some r : record_ok r → redis_hash (client s) w k = render r → holds w k (Some r).

Lemma render_lookup r :
  render r !! "status"%string = Some (Status r) ∧
  render r !! "updated_at"%string = Some (format_fixed_nano (UpdatedAt r)) ∧
  render r !! "source_enqueued_at"%string = Some (format_fixed_nano (SourceEnqueuedAt r)).
Proof. unfold render. cbn. by simplify_map_eq. Qed.

Lemma render_not_empty r : render r ≠ ∅.
Proof. intros H. destruct (render_lookup r) as [Hs _]. by rewrite H in Hs. Qed.

Lemma render_overwrites r' r : render r' ∪ render r = render r'.
Proof.
  apply map_eq. intros k. rewrite lookup_union. unfold render. cbn.
  destruct (decide (k = "status"%string)) as [->|]; [by simplify_map_eq|].
  destruct (decide (k = "updated_at"%string)) as [->|]; [by simplify_map_eq|].
  destruct (decide (k = "source_enqueued_at"%string)) as [->|]; by simplify_map_eq.
Qed.

Lemma marks_precedence status : marks status → 0 < statusPrecedence status.
Proof. by intros [->|[->| ->]]. Qed.

Lemma decode_render r : record_ok r → decode_fields parse_error (render r) = Ok r.
Proof.
  intros (Hm&Hu&Hs). unfold decode_fields. rewrite bool_decide_false by apply render_not_empty.
  unfold field. destruct (render_lookup r) as (->&->&->). cbn [default from_option id].
  pose proof (marks_precedence _ Hm). rewrite (proj2 (Z.eqb_neq _ _)) by lia.
  rewrite !parse_format_fixed by done. by destruct r.
Qed.

(** The texts of source times compare as the times do. *)
Lemma format_fixed_inj t u : four_digit_year t → four_digit_year u →
  format_fixed_nano t = format_fixed_nano u ↔ t = u.
Proof.
  intros Ht Hu. split; [|by intros ->]. intros H.
  pose proof (fixed_order t u Ht Hu) as H1. pose proof (fixed_order u t Hu Ht) as H2.
  rewrite H, bytes_ltb_irrefl in H1. rewrite H, bytes_ltb_irrefl in H2.
  symmetry in H1, H2. apply Z.ltb_ge in H1, H2. lia.
Qed.

Lemma lua_precedence_status status : lua_precedence (Some status) = statusPrecedence status.
Proof. done. Qed.

(** What the script does to the record of its account. *)
Definition next_record (o : option SyncRecord) (new : SyncRecord) : SyncRecord :=
  match o with
  | None => new
  | Some r => if supersedes (Status new, SourceEnqueuedAt new) (Status r, SourceEnqueuedAt r) then new else r
  end.

Lemma next_record_write o new :
  (Status (next_record o new), SourceEnqueuedAt (next_record o new)) =
  merge ((λ r, (Status r, SourceEnqueuedAt r)) <$> o) (Status new, SourceEnqueuedAt new).
Proof. destruct o as [r|]; [|done]. unfold next_record, merge. cbn [fmap option_fmap option_map]. by case_if. Qed.

Definition script_args (r : SyncRecord) (ttl : Duration) : ScriptArgs :=
  mkArgs (Status r) (format_fixed_nano (UpdatedAt r)) (format_fixed_nano (SourceEnqueuedAt r)) (Milliseconds ttl).

(** The writing branch. *)
Lemma script_write k o new ttl w : holds w k o → record_ok new → Millisecond <= ttl →
  let w' := PEXPIRE (client s) k (Milliseconds ttl)
    (HSET (client s) k [("status", Status new); ("updated_at", format_fixed_nano (UpdatedAt new));
                        ("source_enqueued_at", format_fixed_nano (SourceEnqueuedAt new))]%string w) in
  holds w' k (Some new) ∧ redis_ttl (client s) w' k = Some (Milliseconds ttl) ∧
  ∀ k', k' ≠ k → redis_hash (client s) w' k' = redis_hash (client s) w k' ∧ redis_ttl (client s) w' k' = redis_ttl (client s) w k'.
Proof.
  intros Ho Hnew Httl w'. assert (0 < Milliseconds ttl) as Hms.
  { unfold Milliseconds, Millisecond in *. apply Z.quot_str_pos. lia. }
  unfold w'. assert (redis_hash (client s) (HSET (client s) k [("status", Status new); ("updated_at", format_fixed_nano (UpdatedAt new));
                        ("source_enqueued_at", format_fixed_nano (SourceEnqueuedAt new))]%string w) k = render new) as Hh.
  { rewrite hset_hash, bool_decide_true by done. fold (render new).
    destruct Ho as [->|r _ ->]; [by rewrite (right_id_L ∅ (∪))|apply render_overwrites]. }
  split_and!.
  - apply holds_some; [done|]. by rewrite pexpire_hash.
  - rewrite pexpire_ttl, bool_decide_true; [done..|]. rewrite Hh. apply render_not_empty.
  - intros k' Hk. rewrite pexpire_hash by done. rewrite pexpire_ttl by (done || (rewrite Hh; apply render_not_empty)).
    rewrite hset_hash, !bool_decide_false by done. split; [done|]. by apply hset_ttl.
Qed.

Lemma script_spec k o new ttl w : holds w k o → record_ok new → Millisecond <= ttl →
  let w' := (transition_script (client s) k (script_args new ttl) w).2 in
  holds w' k (Some (next_record o new)) ∧
  (match o with Some r => supersedes (Status new, SourceEnqueuedAt new) (Status r, SourceEnqueuedAt r) = true | None => True end ∧
   redis_ttl (client s) w' k = Some (Milliseconds ttl) ∨ same_data (client s) w w') ∧
  ∀ k', k' ≠ k → redis_hash (client s) w' k' = redis_hash (client s) w k' ∧ redis_ttl (client s) w' k' = redis_ttl (client s) w k'.
Proof.
  intros Ho Hnew Httl. unfold transition_script. cbn [arg_source arg_status arg_updated_at arg_ttl script_args].
  destruct (script_write k o new ttl w Ho Hnew Httl) as (Hh&Ht&Hk).
  destruct Ho as [He|r Hr Hrd].
  - rewrite He, lookup_empty. cbn [snd next_record]. auto.
  - rewrite Hrd. destruct (render_lookup r) as (->&_&->). destruct Hr as (Hm&Hu&Hs), Hnew as (Hm'&Hu'&Hs').
    rewrite fixed_order by done. rewrite !lua_precedence_status.
    assert (holds w k (Some r)) as Hkeep by (apply holds_some; [by split_and!|done]).
    unfold next_record. destruct (supersedes _ _) eqn:Esup; pose proof Esup as E;
      [apply supersedes_spec in E|apply supersedes_false in E]; cbn [fst snd] in E.
    + assert (¬ SourceEnqueuedAt new < SourceEnqueuedAt r) as Hge by lia.
      rewrite (proj2 (Z.ltb_ge _ _)) by lia. case_bool_decide as Heq; [|cbn [snd]; auto].
      apply format_fixed_inj in Heq; [|done..]. rewrite (proj2 (Z.leb_gt _ _)) by lia. cbn [snd]. auto.
    + destruct (Z.ltb_spec (SourceEnqueuedAt new) (SourceEnqueuedAt r)); cbn [snd]; [(split_and!; [done|by right|done])|].
      assert (SourceEnqueuedAt new = SourceEnqueuedAt r) as Heq by lia. rewrite Heq, bool_decide_true by done.
      rewrite (proj2 (Z.leb_le _ _)) by lia. cbn [snd]. (split_and!; [done|by right|done]).
Qed.
End Lemmas.

(** ** Properties *)

Section RedisProperties.
Context {U : UnicodeTables} {W : Type} (parse_error : string → error) (s : RedisStore W) `{!RedisLaws (client s)}.
Implicit Types w : W.

(** The record of an account, from the fields of its hash, and its abstract
    register. *)
Definition redis_record w (upn : string) : option SyncRecord :=
  let fields := redis_hash (client s) w (redis_key s upn) in
  status ← fields !! "status"%string;
  updated ← fields !! "updated_at"%string;
  source ← fields !! "source_enqueued_at"%string;
  updatedAt ← parse_fixed (bytes_of_string updated);
  sourceEnqueuedAt ← parse_fixed (bytes_of_string source);
  Some (mkRecord status updatedAt sourceEnqueuedAt).

Definition redis_register w (upn : string) : option write :=
  (λ r, (Status r, SourceEnqueuedAt r)) <$> redis_record w upn.

(** Every account's hash is empty or one the store wrote. *)
Definition store_ok w : Prop := ∀ upn, ∃ o, holds s w (redis_key s upn) o.

(** The effect of a Mark call on the registers. *)
Definition marked (upn status : string) (src : Time) (ttl : Duration) w w' : Prop :=
  store_ok w' ∧
  (∀ u, redis_register w' u =
    if bool_decide (redis_key s u = redis_key s upn) then Some (merge (redis_register w u) (status, src)) else redis_register w u) ∧
  (redis_register w' upn ≠ redis_register w upn → redis_ttl (client s) w' (redis_key s upn) = Some (Milliseconds ttl)) ∧
  (redis_register w' upn = redis_register w upn → same_data (client s) w w').

Lemma holds_record w upn o : holds s w (redis_key s upn) o → redis_record w upn = o.
Proof.
  unfold redis_record. intros [->|r (_&Hu&Hs) ->]; [done|].
  destruct (render_lookup r) as (->&->&->). cbn [mbind option_bind]. rewrite !parse_format_fixed by done. by destruct r.
Qed.

Lemma holds_same w w' k o : same_data (client s) w w' → holds s w k o → holds s w' k o.
Proof. intros Hs Ho. destruct (Hs k) as [Hk _]. inversion Ho; subst; constructor; congruence. Qed.

Lemma same_data_register w w' u : same_data (client s) w w' → redis_register w u = redis_register w' u.
Proof. intros Hs. unfold redis_register, redis_record. by destruct (Hs (redis_key s u)) as [-> _]. Qed.

Lemma same_data_marked upn status src ttl w w1 w2 :
  same_data (client s) w1 w2 → marked upn status src ttl w w1 → marked upn status src ttl w w2.
Proof.
  intros Hs (Hok&Hreg&Httl&Hsame). split_and!.
  - intros u. destruct (Hok u) as [o Ho]. exists o. by eapply holds_same.
  - intros u. rewrite <- (same_data_register _ _ u Hs). apply Hreg.
  - rewrite <- (same_data_register _ _ upn Hs). destruct (Hs (redis_key s upn)) as [_ <-]. done.
  - rewrite <- (same_data_register _ _ upn Hs). intros H%Hsame. by etransitivity.
Qed.

Lemma script_marked upn status src ttl w : store_ok w → marks status → four_digit_year src →
  four_digit_year (rs_now s w) → Millisecond <= ttl →
  let new := mkRecord status (rs_now s w) src in
  marked upn status src ttl w (transition_script (client s) (redis_key s upn) (script_args new ttl) w).2.
Proof.
  intros Hok Hm Hsrc Hnow Httl new. destruct (Hok upn) as [o Ho].
  destruct (script_spec s (redis_key s upn) o new ttl w Ho) as (Hh&Ht&Hk); [by split_and!|done|].
  set (w' := (transition_script _ _ _ w).2) in *.
  assert (∀ u, redis_key s u = redis_key s upn → redis_register w' u = Some (merge (redis_register w u) (status, src))) as Hreg.
  { intros u Heq. unfold redis_register. rewrite <- Heq in Hh, Ho. rewrite (holds_record _ _ _ Hh), (holds_record _ _ _ Ho).
    cbn [fmap option_fmap option_map]. f_equal. apply next_record_write. }
  split_and!.
  - intros u. destruct (decide (redis_key s u = redis_key s upn)) as [->|Hne]; [by eexists|].
    destruct (Hok u) as [o' Ho']. exists o'. destruct (Hk _ Hne) as [Hu _]. inversion Ho'; subst; constructor; congruence.
  - intros u. case_bool_decide as Heq; [by apply Hreg|].
    unfold redis_register, redis_record. by destruct (Hk _ Heq) as [-> _].
  - intros Hne. destruct Ht as [[_ ?]|Hs]; [done|]. exfalso. apply Hne. symmetry. by apply same_data_register.
  - intros Heq. destruct Ht as [[Hsup _]|Hs]; [|done]. exfalso. rewrite (Hreg upn eq_refl) in Heq.
    unfold redis_register in Heq. rewrite (holds_record _ _ _ Ho) in Heq. destruct o as [r|]; [|done].
    cbn [fmap option_fmap option_map merge] in Heq. unfold new in Hsup. cbn [Status SourceEnqueuedAt] in Hsup.
    rewrite Hsup in Heq. injection Heq as Heq1 Heq2. apply supersedes_spec in Hsup. cbn [fst snd] in Hsup. rewrite Heq1, Heq2 in Hsup. lia.
Qed.

(** C5 A Mark call on the Redis store is the update of the abstract register
    that the in-memory store performs: when the call succeeds, the account's
    register is the greater of the old write and the new one in the order
    (source time, status precedence), although the script compares texts;
    accounts under other keys keep theirs; a key whose register changed
    expires after the TTL of the call, and a call that changes no register
    changes no field and no time to live.  When the call fails, the registers
    are those before it or those a success leaves. *)
Theorem redis_set_refines_contract ctx upn status src ttl w :
  store_ok w → marks status → four_digit_year src → four_digit_year (rs_now s w) → Millisecond <= ttl →
  match redis_set s ctx upn status src ttl w with
  | (Ret None, w') => marked upn status src ttl w w'
  | (Ret (Some _), w') => same_data (client s) w w' ∨ marked upn status src ttl w w'
  | (Panic _, _) => False
  end.
Proof.
  intros Hok Hm Hsrc Hnow Httl. pose proof (script_marked upn status src ttl w Hok Hm Hsrc Hnow Httl) as Hmk.
  unfold redis_set. pose proof (script_atomic ctx (transition_script (client s) (redis_key s upn)
    (script_args (mkRecord status (rs_now s w) src) ttl)) w) as Ha.
  unfold script_args in *. cbn [Status UpdatedAt SourceEnqueuedAt] in *. unfold UTC.
  destruct (RunScript _ _ _ w) as [[[e|]|v] w']; [|by eapply same_data_marked|done].
  destruct Ha as [Ha|Ha]; [by left|right; by eapply same_data_marked].
Qed.

(** The record a successful call leaves. *)
Lemma redis_set_holds upn w o : holds s w (redis_key s upn) o →
  ∀ ctx status src ttl w', marks status → four_digit_year src → four_digit_year (rs_now s w) → Millisecond <= ttl →
  redis_set s ctx upn status src ttl w = (Ret None, w') →
  holds s w' (redis_key s upn) (Some (next_record o (mkRecord status (rs_now s w) src))).
Proof.
  intros Ho ctx status src ttl w' Hm Hsrc Hnow Httl H. set (new := mkRecord status (rs_now s w) src).
  destruct (script_spec s (redis_key s upn) o new ttl w Ho) as (Hh&_&_); [by split_and!|done|].
  pose proof (script_atomic ctx (transition_script (client s) (redis_key s upn) (script_args new ttl)) w) as Ha.
  unfold redis_set in H. unfold script_args, UTC in *. cbn [Status UpdatedAt SourceEnqueuedAt new] in *. rewrite H in Ha.
  by eapply holds_same.
Qed.

(** C22 Get reads what was written.  When the account's hash holds a record
    (its status, and its two times as RFC 3339 texts with nine digits of
    seconds), Get answers exactly that record, to the nanosecond; when there
    is no hash, the never-synced record.  It changes no key, and the only
    error it reports for such hashes is the server's.  A Mark call that
    succeeds leaves such a hash: that of the record with its status, the time
    of the call and its source time, or, when the old record is as new, that
    of the old one. *)
Theorem redis_get_reads_record ctx upn w o : holds s w (redis_key s upn) o →
  same_data (client s) w (redis_Get parse_error s ctx upn w).2 ∧
  match (HGetAll (client s) ctx (redis_key s upn) w).1 with
  | Ret (Ok _) => (redis_Get parse_error s ctx upn w).1 = Ret (Ok (default zero_record o))
  | Ret (Err e) => (redis_Get parse_error s ctx upn w).1 = Ret (Err e)
  | Panic _ => False
  end ∧
  ∀ ctx' status src ttl w', marks status → four_digit_year src → four_digit_year (rs_now s w) → Millisecond <= ttl →
    redis_set s ctx' upn status src ttl w = (Ret None, w') →
    holds s w' (redis_key s upn) (Some (next_record o (mkRecord status (rs_now s w) src))).
Proof.
  intros Ho. destruct (hgetall_reads ctx (redis_key s upn) w) as [Hs Hr].
  unfold redis_Get. destruct (HGetAll _ _ _ w) as [[[m|e]|v] w']; cbn [fst snd] in *; [|split_and!; try done|done].
  - split_and!; [done| |].
    + subst m. do 2 f_equal. destruct Ho as [->|r Hrok ->]; [done|by rewrite decode_render].
    + apply redis_set_holds. done.
  - by apply redis_set_holds.
Qed.

(** ** Sequences of calls *)

(** One Mark call as the hook and the workers make it. *)
Record redis_call := mkCall { rc_kind : mark_kind; rc_ctx : Context; rc_upn : string; rc_src : Time }.

Definition rc_write (c : redis_call) : write := (kind_status (rc_kind c), rc_src c).

(** A run of calls, each of which succeeds, with waiting between them in which
    other keys may expire but the key [k] does not. *)
Inductive redis_run (k : string) : W → list redis_call → W → Prop :=
  | run_done w : redis_run k w [] w
  | run_wait w d w1 cs w2 : lapse (client s) d w w1 → redis_hash (client s) w1 k = redis_hash (client s) w k →
      redis_run k w1 cs w2 → redis_run k w cs w2
  | run_call w c w1 cs w2 :
      mark_of (redis_store parse_error s) (rc_kind c) (rc_ctx c) (rc_upn c) (rc_src c) w = (Ret None, w1) →
      redis_run k w1 cs w2 → redis_run k w (c :: cs) w2.

(** A key with more time to live than the waiting takes does not expire. *)
Lemma lapse_keeps d w w' k t : lapse (client s) d w w' → redis_ttl (client s) w k = Some t → d < t →
  redis_hash (client s) w' k = redis_hash (client s) w k ∧ redis_ttl (client s) w' k = Some (t - d).
Proof. intros [_ H] Ht Hd. specialize (H k). by rewrite Ht, (proj2 (Z.ltb_lt _ _) Hd) in H. Qed.

Lemma lapse_holds d w w' k : lapse (client s) d w w' → (∃ o, holds s w k o) → ∃ o, holds s w' k o.
Proof.
  intros [_ H] [o Ho]. specialize (H k).
  assert (redis_hash (client s) w' k = redis_hash (client s) w k ∨ redis_hash (client s) w' k = ∅) as [E|E].
  { destruct (redis_ttl (client s) w k) as [t|]; [destruct (d <? t)|]; destruct H; auto. }
  - exists o. inversion Ho; subst; constructor; congruence.
  - exists None. by constructor.
Qed.

Context (Hnow : ∀ w, four_digit_year (rs_now s w)) (Hpending : Millisecond <= rs_pendingTTL s)
  (Hterminal : Millisecond <= rs_terminalTTL s).

Definition mark_ttl (k : mark_kind) : Duration :=
  match k with KPending => rs_pendingTTL s | _ => rs_terminalTTL s end.

Lemma redis_call_marked c w w' : store_ok w → four_digit_year (rc_src c) →
  mark_of (redis_store parse_error s) (rc_kind c) (rc_ctx c) (rc_upn c) (rc_src c) w = (Ret None, w') →
  marked (rc_upn c) (kind_status (rc_kind c)) (rc_src c) (mark_ttl (rc_kind c)) w w'.
Proof.
  intros Hok Hsrc H.
  assert (mark_of (redis_store parse_error s) (rc_kind c) (rc_ctx c) (rc_upn c) (rc_src c) w
    = redis_set s (rc_ctx c) (rc_upn c) (kind_status (rc_kind c)) (rc_src c) (mark_ttl (rc_kind c)) w) as Heq
    by by destruct (rc_kind c).
  rewrite Heq in H. pose proof (script_marked (rc_upn c) (kind_status (rc_kind c)) (rc_src c) (mark_ttl (rc_kind c)) w Hok) as Hm.
  unfold redis_set in H. pose proof (script_atomic (rc_ctx c) (transition_script (client s) (redis_key s (rc_upn c))
    (script_args (mkRecord (kind_status (rc_kind c)) (rs_now s w) (rc_src c)) (mark_ttl (rc_kind c)))) w) as Ha.
  unfold script_args, UTC in *. cbn [Status UpdatedAt SourceEnqueuedAt] in *. rewrite H in Ha.
  eapply same_data_marked; [exact Ha|]. apply Hm; [|done..|].
  - unfold marks. destruct (rc_kind c); cbn; auto.
  - by destruct (rc_kind c).
Qed.

Definition merge_call (u : string) (o : option write) (c : redis_call) : option write :=
  if bool_decide (redis_key s u = redis_key s (rc_upn c)) then Some (merge o (rc_write c)) else o.

Lemma redis_run_register u w cs w' : redis_run (redis_key s u) w cs w' → Forall (λ c, four_digit_year (rc_src c)) cs →
  store_ok w → redis_register w' u = foldl (merge_call u) (redis_register w u) cs.
Proof.
  induction 1 as [w|w d w1 cs w2 Hl Hk _ IH|w c w1 cs w2 Hc _ IH]; intros Hcs Hok; [done|..].
  - rewrite IH; [|done|intros v; by eapply lapse_holds]. unfold redis_register, redis_record. by rewrite Hk.
  - apply Forall_cons in Hcs as [Hsrc Hcs]. destruct (redis_call_marked c w w1 Hok Hsrc Hc) as (Hok1&Hreg&_).
    rewrite IH by done. by rewrite Hreg.
Qed.

Lemma store_ok_marks w u : store_ok w → opt_marks (redis_register w u).
Proof.
  intros Hok. destruct (Hok u) as [o Ho]. unfold redis_register. rewrite (holds_record _ _ _ Ho).
  destruct Ho as [|r (Hm&_) _]; [done|]. done.
Qed.

(** C13 Replicas of the service report outcomes to the shared store in
    different orders, and time passes between the calls.  For an account whose
    key does not expire on the way, two runs of the same calls, each call
    succeeding, leave the same status and source time, whatever other keys
    expire.  (A key that expires forgets: [expiry_forgets] below.) *)
Theorem redis_store_converges w cs1 cs2 w1 w2 u :
  store_ok w → Forall (λ c, four_digit_year (rc_src c)) cs1 → cs1 ≡ₚ cs2 →
  redis_run (redis_key s u) w cs1 w1 → redis_run (redis_key s u) w cs2 w2 → redis_register w1 u = redis_register w2 u.
Proof.
  intros Hok Hcs Hp H1 H2.
  rewrite (redis_run_register u w cs1 w1 H1 Hcs Hok), (redis_run_register u w cs2 w2 H2 ltac:(by rewrite <- Hp) Hok).
  assert (∀ c, marks (rc_write c).1) as Hw by (intros [[] ? ? ?]; unfold marks; cbn; auto).
  apply (foldl_permute (merge_call u) opt_marks (λ _, True)); [| |done|by apply Forall_true|by apply store_ok_marks].
  - intros o c Ho _. unfold merge_call. case_bool_decide; [|done]. by apply merge_marks.
  - intros o c d Ho _ _. unfold merge_call. do 2 case_bool_decide; try done. f_equal. by apply merge_comm.
Qed.
End RedisProperties.

(** ** A server for the witnesses *)

(** The database and the clock; every call of a live context succeeds. *)
Record Mini := mkMini { db : gmap string (gmap string string * option Z); mini_clock : Time }.

Definition mini_hash (w : Mini) (k : string) : gmap string string := default ∅ (fst <$> db w !! k).
Definition mini_ttl (w : Mini) (k : string) : option Z := db w !! k ≫= snd.

Definition mini_redis : Redis Mini := mkRedis mini_hash mini_ttl
  (λ k fs w, mkMini (<[k := (list_to_map fs ∪ mini_hash w k, mini_ttl w k)]> (db w)) (mini_clock w))
  (λ k ms w, match db w !! k with
             | Some (m, _) => mkMini (if 0 <? ms then <[k := (m, Some ms)]> (db w) else delete k (db w)) (mini_clock w)
             | None => w
             end)
  (λ ctx k w, match ctx_err ctx with Some e => (Ret (Err e), w) | None => (Ret (Ok (mini_hash w k)), w) end)
  (λ ctx f w, match ctx_err ctx with Some e => (Ret (Some e), w) | None => (Ret None, (f w).2) end)
  (λ w, (Ret None, w)).

Ltac mini := unfold mini_redis, mini_hash, mini_ttl in *;
  cbn [redis_hash redis_ttl HSET PEXPIRE HGetAll RunScript db] in *.

#[export] Program Instance mini_laws : RedisLaws mini_redis := {}.
Next Obligation.
  intros k fs w k'. mini. case_bool_decide; [subst; by rewrite lookup_insert_eq|by rewrite lookup_insert_ne].
Qed.
Next Obligation. intros k fs w k' H. mini. by rewrite lookup_insert_ne. Qed.
Next Obligation.
  intros k ms w k' H. mini. destruct (db w !! k) as [[m t]|] eqn:E; [|done]. rewrite (proj2 (Z.ltb_lt _ _) H).
  cbn [db]. destruct (decide (k' = k)) as [->|]; [by rewrite lookup_insert_eq, E|by rewrite lookup_insert_ne].
Qed.
Next Obligation.
  intros k ms w k' H Hne. mini. destruct (db w !! k) as [[m t]|] eqn:E; [|done]. rewrite (proj2 (Z.ltb_lt _ _) H).
  cbn [db]. case_bool_decide; [subst; by rewrite lookup_insert_eq|by rewrite lookup_insert_ne].
Qed.
Next Obligation. intros ctx k w. cbn. by destruct (ctx_err ctx). Qed.
Next Obligation. intros ctx f w. cbn. destruct (ctx_err ctx); [by left|done]. Qed.

Section RedisWitnesses.
#[local] Existing Instance Latin1Tables.

Definition noon : Time := Unix 1752624000.
Definition bad_time (v : string) : error := ErrorQuoted "parsing time" v.
Definition mini_store : RedisStore Mini := mkRedisStore mini_redis "test:" (5 * Minute) Hour (λ _, noon) None.
Definition mini_empty : Mini := mkMini ∅ noon.

#[local] Instance mini_store_laws : RedisLaws (client mini_store) := mini_laws.

Lemma mini_empty_ok : store_ok mini_store mini_empty.
Proof. intros upn. exists None. by apply holds_none. Qed.

Lemma redis_set_refines_contract_witness :
  match redis_set mini_store live "A1@x " StatusSynced (noon - Second) Hour mini_empty with
  | (Ret None, w') => marked mini_store "A1@x " StatusSynced (noon - Second) Hour mini_empty w'
  | (Ret (Some _), w') => same_data (client mini_store) mini_empty w' ∨
      marked mini_store "A1@x " StatusSynced (noon - Second) Hour mini_empty w'
  | (Panic _, _) => False
  end.
Proof.
  apply (redis_set_refines_contract mini_store live "A1@x " StatusSynced (noon - Second) Hour mini_empty).
  - exact mini_empty_ok.
  - right. left. reflexivity.
  - vm_compute. split; discriminate.
  - vm_compute. split; discriminate.
  - vm_compute. discriminate.
Defined.

Definition mini_written : Mini := (redis_set mini_store live "A1@x " StatusSynced (noon - Second) Hour mini_empty).2.

Example redis_value : (redis_Get bad_time mini_store live "a1@x" mini_written).1 = Ret (Ok (mkRecord StatusSynced noon (noon - Second))).
Proof. vm_compute. reflexivity. Qed.

(** The record of [mini_written], and a later failure of an older message. *)
Lemma redis_get_reads_record_witness :
  same_data (client mini_store) mini_written (redis_Get bad_time mini_store live "a1@x" mini_written).2 ∧
  match (HGetAll (client mini_store) live (redis_key mini_store "a1@x") mini_written).1 with
  | Ret (Ok _) => (redis_Get bad_time mini_store live "a1@x" mini_written).1 = Ret (Ok (default zero_record (Some (mkRecord StatusSynced noon (noon - Second)))))
  | Ret (Err e) => (redis_Get bad_time mini_store live "a1@x" mini_written).1 = Ret (Err e)
  | Panic _ => False
  end ∧
  ∀ ctx' status src ttl w', marks status → four_digit_year src → four_digit_year (rs_now mini_store mini_written) → Millisecond <= ttl →
    redis_set mini_store ctx' "a1@x" status src ttl mini_written = (Ret None, w') →
    holds mini_store w' (redis_key mini_store "a1@x") (Some (next_record (Some (mkRecord StatusSynced noon (noon - Second))) (mkRecord status (rs_now mini_store mini_written) src))).
Proof.
  apply (redis_get_reads_record bad_time mini_store live "a1@x" mini_written).
  apply holds_some; [split_and!; [right; left; reflexivity|vm_compute; split; discriminate..]|].
  vm_compute. reflexivity.
Defined.

(** A late failure of an older message arrives after a newer success. *)
Definition redis_calls : list redis_call :=
  [mkCall KPending live "A1@x" (noon - 9); mkCall KFailed live "a1@x" (noon - 9);
   mkCall KPending live "A1@x" (noon - 2); mkCall KSynced live "A1@x" (noon - 2)]%string.

(** The server after some milliseconds. *)
Definition mini_wait (d : Z) (w : Mini) : Mini :=
  mkMini (omap (λ v, match v with
                     | (m, Some t) => if d <? t then Some (m, Some (t - d)) else None
                     | (m, None) => Some (m, None)
                     end) (db w)) (mini_clock w).

Lemma mini_lapse d w : 0 <= d → lapse mini_redis d w (mini_wait d w).
Proof.
  intros Hd. split; [done|]. intros k. mini. cbn [mini_wait db]. rewrite lookup_omap.
  destruct (db w !! k) as [[m [t|]]|]; cbn; [by destruct (d <? t)|done|done].
Qed.

Definition mini_mark (c : redis_call) (w : Mini) : Mini :=
  (mark_of (redis_store bad_time mini_store) (rc_kind c) (rc_ctx c) (rc_upn c) (rc_src c) w).2.

(** The calls with a second between them. *)
Definition mini_after (cs : list redis_call) : Mini := foldl (λ w c, mini_wait 1000 (mini_mark c w)) mini_empty cs.

Ltac mini_run := repeat (eapply run_call; [vm_compute; reflexivity|];
  eapply (run_wait _ _ _ _ 1000); [apply mini_lapse; lia|vm_compute; reflexivity|]); apply run_done.

Lemma redis_store_converges_witness : ∃ w1 w2,
  redis_run bad_time mini_store (redis_key mini_store "a1@x") mini_empty redis_calls w1 ∧
  redis_run bad_time mini_store (redis_key mini_store "a1@x") mini_empty (reverse redis_calls) w2 ∧
  redis_register mini_store w1 "a1@x" = redis_register mini_store w2 "a1@x".
Proof.
  assert (redis_run bad_time mini_store (redis_key mini_store "a1@x") mini_empty redis_calls (mini_after redis_calls)) as H1 by mini_run.
  assert (redis_run bad_time mini_store (redis_key mini_store "a1@x") mini_empty (reverse redis_calls) (mini_after (reverse redis_calls)))
    as H2 by mini_run.
  exists (mini_after redis_calls), (mini_after (reverse redis_calls)). split; [exact H1|]. split; [exact H2|].
  apply (redis_store_converges bad_time mini_store (λ _, ltac:(vm_compute; split; discriminate))
    ltac:(vm_compute; discriminate) ltac:(vm_compute; discriminate) mini_empty redis_calls (reverse redis_calls)).
  - exact mini_empty_ok.
  - repeat constructor; vm_compute; discriminate.
  - symmetry. apply reverse_Permutation.
  - exact H1.
  - exact H2.
Defined.

Example redis_converged : redis_register mini_store (mini_after redis_calls) "a1@x" = Some (StatusSynced, noon - 2).
Proof. vm_compute. reflexivity. Qed.

(** Once the newer success has expired (its TTL is an hour), the failure of
    the older message is taken. *)
Example expiry_forgets :
  let synced := mkCall KSynced live "a1@x"%string (noon - 2) in
  let failed := mkCall KFailed live "a1@x"%string (noon - 9) in
  redis_register mini_store (mini_mark failed (mini_wait 3600000 (mini_mark synced mini_empty))) "a1@x" = Some (StatusFailed, noon - 9) ∧
  redis_register mini_store (mini_mark synced (mini_wait 3600000 (mini_mark failed mini_empty))) "a1@x" = Some (StatusSynced, noon - 2).
Proof. vm_compute. done. Qed.
End RedisWitnesses.
