(* ===== verification/RedisCredentials.v ===== *)
(** * The credentials provider of the Redis store (internal/syncstatus/redis.go)

    [ownedCredentialsProvider] fans the tokens of a token manager out to the
    connections of the cluster client, until the store closes it.  Its
    methods run concurrently; each critical section of its mutex is one
    definition and one step of a transition system.  The token manager is a
    parameter, and so are the listeners, compared by identity. *)
From stdpp Require Import base strings list relations.
From Stdlib Require Import ZArith Lia.
From S2P Require Import Prelude GoBase.

Section Provider.
Context {L : Type} `{!EqDecision L} {Tok W : Type}.

(** The token manager: Start gives the stop function. *)
Context (Start : W → result (W → option error * W) * W).
Context (GetToken : W → result Tok * W).

(** What the manager pushes to its listener. *)
Inductive event := EvNext (t : Tok) | EvError (e : error).

Record Provider := mkProvider {
  listeners : list L;
  closed : bool;
  stop : option (W → option error * W);
  closeErr : option error
}.

Definition newOwnedCredentialsProvider (tokenManager : bool) (w : W) : result Provider * W :=
  if negb tokenManager then (Err (ErrorText "token manager is required"), w)
  else match Start w with
       | (Err e, w') => (Err (Wrapped "start token manager" e), w')
       | (Ok stop, w') => (Ok (mkProvider [] false (Some stop) None), w')
       end.

(** Subscribe, under the lock: the current token, or an error. *)
Definition Subscribe (listener : L) (p : Provider) (w : W) : result Tok * Provider * W :=
  if closed p then (Err (ErrorText "credentials provider is closed"), p, w)
  else
    match GetToken w with
    | (Err e, w') => (Err (Wrapped "get Redis credentials" e), p, w')
    | (Ok current, w') =>
      let alreadySubscribed := bool_decide (listener ∈ listeners p) in
      let ls := if alreadySubscribed then listeners p else listeners p ++ [listener] in
      (Ok current, mkProvider ls (closed p) (stop p) (closeErr p), w')
    end.

(** The function Subscribe returns: drop the first occurrence. *)
Fixpoint remove_first (listener : L) (ls : list L) : list L :=
  match ls with
  | [] => []
  | x :: ls' => if bool_decide (x = listener) then ls' else x :: remove_first listener ls'
  end.

Definition unsubscribe (listener : L) (p : Provider) : Provider :=
  mkProvider (remove_first listener (listeners p)) (closed p) (stop p) (closeErr p).

(** OnNext and OnError copy the listeners under the read lock and call them
    without it. *)
Definition snapshot (p : Provider) : list L := listeners p.

(** Close: the section under the lock, then the stop function. *)
Definition close_section (p : Provider) : option (W → option error * W) * Provider :=
  (stop p, mkProvider [] true (stop p) (closeErr p)).

Definition close_stop (stop : option (W → option error * W)) (p : Provider) (w : W) : Provider * W :=
  match stop with
  | None => (p, w)
  | Some f => let '(e, w') := f w in (mkProvider (listeners p) (closed p) (Some f) e, w')
  end.

(** ** Interleavings *)

(** Progress of sync.Once: not called, between the two halves of Close, done. *)
Inductive once := Fresh | Stopping (f : option (W → option error * W)) | Finished.

(** [in_flight] are the calls of OnNext and OnError under way with the
    listeners still to be called, [delivered] the calls made and [stops] how
    often the manager was stopped. *)
Record Sys := mkSys {
  prov : Provider;
  world : W;
  close_once : once;
  in_flight : list (event * list L);
  delivered : list (L * event);
  stops : nat
}.

Inductive step : Sys → Sys → Prop :=
  | step_subscribe l r p' w' s : Subscribe l (prov s) (world s) = (r, p', w') →
      step s (mkSys p' w' (close_once s) (in_flight s) (delivered s) (stops s))
  | step_unsubscribe l s :
      step s (mkSys (unsubscribe l (prov s)) (world s) (close_once s) (in_flight s) (delivered s) (stops s))
  | step_event e s :
      step s (mkSys (prov s) (world s) (close_once s) (in_flight s ++ [(e, snapshot (prov s))]) (delivered s) (stops s))
  | step_deliver e l ls before after s : in_flight s = before ++ (e, l :: ls) :: after →
      step s (mkSys (prov s) (world s) (close_once s) (before ++ (e, ls) :: after) (delivered s ++ [(l, e)]) (stops s))
  | step_close f p' s : close_once s = Fresh → close_section (prov s) = (f, p') →
      step s (mkSys p' (world s) (Stopping f) (in_flight s) (delivered s) (stops s))
  | step_stop f p' w' s : close_once s = Stopping f → close_stop f (prov s) (world s) = (p', w') →
      step s (mkSys p' w' Finished (in_flight s) (delivered s) (match f with Some _ => S (stops s) | None => stops s end)).

Definition initial (p : Provider) (w : W) : Sys := mkSys p w Fresh [] [] 0.

(** ** The invariant *)

Definition stop_count (o : once) : nat := match o with Finished => 1 | _ => 0 end.

Record provider_inv (f : W → option error * W) (s : Sys) : Prop := {
  inv_nodup : NoDup (listeners (prov s));
  inv_stop : stop (prov s) = Some f;
  inv_closed : closed (prov s) = true ↔ close_once s ≠ Fresh;
  inv_empty : closed (prov s) = true → listeners (prov s) = [];
  inv_stopping g : close_once s = Stopping g → g = Some f;
  inv_stops : stops s = stop_count (close_once s)
}.

Lemma remove_first_sublist l ls : remove_first l ls `sublist_of` ls.
Proof. induction ls as [|x ls IH]; [done|]. cbn. case_bool_decide; [by apply sublist_cons|by apply sublist_skip]. Qed.

Lemma remove_first_nodup l ls : NoDup ls → l ∉ remove_first l ls.
Proof.
  induction 1 as [|x ls Hx _ IH]; cbn; [apply not_elem_of_nil|]. case_bool_decide; [by subst|].
  apply not_elem_of_cons. by split; [intros ->|].
Qed.

Lemma step_inv f s s' : provider_inv f s → step s s' → provider_inv f s'.
Proof.
  intros [Hn Hs Hc He Hg Hk] Hst. destruct Hst as [l r p' w' s H|l s|e s|e l ls before after s H|g p' s H1 H2|g p' w' s H1 H2].
  - unfold Subscribe in H. destruct (closed (prov s)) eqn:Ec; [simplify_eq; constructor; cbn; rewrite ?Ec; auto|].
    destruct (GetToken (world s)) as [[t|e] w1]; simplify_eq; constructor; cbn; rewrite ?Ec; auto; try done.
    case_bool_decide as Hl; [done|]. apply NoDup_app. split_and!; [done| |apply NoDup_singleton].
    intros x Hx ->%list_elem_of_singleton. done.
  - constructor; cbn; auto; [by eapply sublist_NoDup; [|apply remove_first_sublist]|]. intros Ec. by rewrite He.
  - constructor; auto.
  - constructor; auto.
  - unfold close_section in H2. simplify_eq. rewrite H1 in *. constructor; cbn; try done; [constructor|by intros ? [= <-]].
  - rewrite (Hg _ H1) in *. cbn in H2. destruct (f (world s)) as [e w1]. simplify_eq. rewrite H1 in *.
    constructor; cbn; try done; [|by rewrite Hk]. split; [done|]. intros _. by apply Hc.
Qed.

Lemma reachable_inv f w s : rtc step (initial (mkProvider [] false (Some f) None) w) s → provider_inv f s.
Proof.
  intros H. assert (∀ s0, provider_inv f s0 → rtc step s0 s → provider_inv f s) as Hgen.
  { intros s0 H0 Hr. induction Hr; eauto using step_inv. }
  eapply Hgen; [|exact H]. constructor; cbn; [constructor|done| |done..]. split; [done|by intros []].
Qed.

(** C29 However the provider's methods interleave, the token manager is
    stopped at most once, and once from a finished Close; from a state in
    which Close has begun nobody is subscribed, a new subscription is refused
    and a token event reaches nobody; a listener that unsubscribes is not in
    the snapshot of a token event right after it; and a Close that has begun can always finish. *)
Theorem credentials_closed_once tokenManager w p w0 s :
  newOwnedCredentialsProvider tokenManager w = (Ok p, w0) → rtc step (initial p w0) s →
  stops s = stop_count (close_once s) ∧
  (close_once s ≠ Fresh → snapshot (prov s) = [] ∧
     ∀ l, Subscribe l (prov s) (world s) = (Err (ErrorText "credentials provider is closed"), prov s, world s)) ∧
  (∀ l, l ∉ snapshot (unsubscribe l (prov s))) ∧
  (close_once s ≠ Fresh → ∃ s', rtc step s s' ∧ close_once s' = Finished ∧ stops s' = 1%nat).
Proof.
  unfold newOwnedCredentialsProvider. destruct tokenManager; [|done]. cbn [negb].
  destruct (Start w) as [[f|e] w1]; [|done]. intros [= <- <-] Hr. apply reachable_inv in Hr as [Hn Hs Hc He Hg Hk].
  split_and!; [done| | |].
  - intros Ho. apply Hc in Ho. split; [by apply He|]. intros l. unfold Subscribe. by rewrite Ho.
  - intros l. by apply remove_first_nodup.
  - intros Ho. destruct (close_once s) as [|g|] eqn:E; [done| |by exists s; rewrite E].
    rewrite (Hg _ eq_refl) in E. destruct (close_stop (Some f) (prov s) (world s)) as [p' w'] eqn:Est.
    eexists. split; [by apply rtc_once; eapply step_stop|]. cbn. split; [done|]. by rewrite Hk.
Qed.
End Provider.

Section CredentialsWitness.
(** A manager that counts its stops and hands out the number of them. *)
Definition count_stop (n : nat) : option error * nat := (None, S n).
Definition count_Start (w : nat) : result (nat → option error * nat) * nat := (Ok count_stop, w).
Definition count_GetToken (w : nat) : result nat * nat := (Ok w, w).

(** A connection subscribed, a token was pushed and Close has begun. *)
Definition subscribed : Sys (L := nat) (Tok := nat) :=
  mkSys (mkProvider [7%nat] false (Some count_stop) None) 0%nat Fresh [] [] 0.
Definition pushed : Sys (L := nat) (Tok := nat) :=
  mkSys (mkProvider [7%nat] false (Some count_stop) None) 0%nat Fresh [(EvNext 5%nat, [7%nat])] [] 0.
Definition closing : Sys (L := nat) (Tok := nat) :=
  mkSys (mkProvider [] true (Some count_stop) None) 0%nat (Stopping (Some count_stop)) [(EvNext 5%nat, [7%nat])] [] 0.

Lemma credentials_closed_once_witness :
  stops closing = stop_count (close_once closing) ∧
  (close_once closing ≠ Fresh → snapshot (prov closing) = [] ∧
     ∀ l, Subscribe count_GetToken l (prov closing) (world closing)
          = (Err (ErrorText "credentials provider is closed"), prov closing, world closing)) ∧
  (∀ l, l ∉ snapshot (unsubscribe l (prov closing))) ∧
  (close_once closing ≠ Fresh →
     ∃ s', rtc (step count_GetToken) closing s' ∧ close_once s' = Finished ∧ stops s' = 1%nat).
Proof.
  apply (credentials_closed_once count_Start count_GetToken true 0%nat (mkProvider [] false (Some count_stop) None) 0%nat closing).
  - reflexivity.
  - apply (rtc_l _ _ subscribed).
    { apply (step_subscribe count_GetToken 7%nat (Ok 0%nat)). reflexivity. }
    apply (rtc_l _ _ pushed); [apply (step_event count_GetToken (EvNext 5%nat) subscribed)|].
    apply rtc_once. apply (step_close count_GetToken (Some count_stop) _ pushed); reflexivity.
Defined.
End CredentialsWitness.
