(* ===== verification/Identity.v ===== *)
(** * Identities and events (internal/migration: classifier.go, upn.go,
    event.go, message.go) *)
From stdpp Require Import base gmap strings list.
From Stdlib Require Import ZArith Lia Ascii.
From S2P Require Import Prelude Utf8 GoStrings GoTime GoBase Observability GoState.

Local Open Scope Z_scope.

(** ** Data *)

Abbreviation IdentityType := string (only parsing).
Definition IdentityUnknown : IdentityType := "unknown"%string.
Definition IdentityStudentID : IdentityType := "student_id"%string.
Definition IdentityEmployeeID : IdentityType := "employee_id"%string.
Definition IdentityExternalEmail : IdentityType := "external_email"%string.

Abbreviation EventType := string (only parsing).
Definition EventLoginBootstrap : EventType := "login_bootstrap"%string.
Definition EventPasswordChange : EventType := "password_change"%string.
Definition EventPasswordRecovery : EventType := "password_recovery"%string.

Definition ValidEventType (t : EventType) : bool :=
  bool_decide (t = EventLoginBootstrap) || bool_decide (t = EventPasswordChange)
  || bool_decide (t = EventPasswordRecovery).

Record PasswordSyncMessage := mkMessage {
  CN : string;
  UPN : string;
  msg_EventType : EventType;
  TraceID : string;
  msg_Password : string;
  PasswordCiphertext : string;
  PasswordNonce : string;
  PasswordKeyID : string;
  PasswordAlg : string;
  DisplayName : string;
  Mail : string;
  EnqueuedAt : Time
}.

Section Identity.
Context {U : UnicodeTables}.

(** ** Classification *)

Definition allDigits (value : string) : bool :=
  forallb IsDigit (runes (bytes_of_string value)).

Definition startsWithLetter (value : string) : bool :=
  match runes (bytes_of_string value) with
  | r :: _ => IsLetter r
  | [] => false
  end.

Definition allLettersDigitsOrHyphen (value : string) : bool :=
  forallb (λ r, (r =? 0x2D) || IsLetter r || IsDigit r) (runes (bytes_of_string value)).

Definition ClassifyCN (cn : string) : IdentityType :=
  let normalized := TrimSpace cn in
  if bool_decide (normalized = ""%string) then IdentityUnknown
  else if Contains normalized "@" then IdentityExternalEmail
  else if allDigits normalized then IdentityStudentID
  else if startsWithLetter normalized && allLettersDigitsOrHyphen normalized then IdentityEmployeeID
  else IdentityUnknown.

(** ** UPNs *)

Definition BuildUPN (cn primaryDomain : string) : result string :=
  let normalizedCN := TrimSpace cn in
  let domain := ToLower (TrimSpace primaryDomain) in
  if bool_decide (normalizedCN = ""%string) then Err ErrUnknownIdentity
  else if bool_decide (domain = ""%string) then Err (ErrorText "entra primary domain is required")
  else
    let t := ClassifyCN normalizedCN in
    if bool_decide (t = IdentityStudentID) || bool_decide (t = IdentityEmployeeID)
    then Ok (normalizedCN +:+ "@" +:+ domain)%string
    else if bool_decide (t = IdentityExternalEmail) then Err ErrExternalIdentity
    else Err ErrUnknownIdentity.
End Identity.

(** ** Lemmas *)

(** A one-character substring is an occurrence of its byte. *)
Lemma Contains_char s c :
  Contains s (String c "") = true ↔ Z.of_N (Ascii.N_of_ascii c) ∈ bytes_of_string s.
Proof.
  induction s as [|d s IH]; cbn [Contains bytes_of_string].
  - split; [done|]. intros H. by apply elem_of_nil in H.
  - rewrite orb_true_iff, IH, elem_of_cons. cbn [String.prefix].
    destruct (Ascii.ascii_dec c d) as [->|Hne].
    + split; [by left|]. intros _. left. by destruct s.
    + split; [intros [H|H]; [done|by right]|]. intros [H|H]; [|by right].
      exfalso. apply Hne. apply N2Z.inj in H.
      rewrite <- (Ascii.ascii_N_embedding c), <- (Ascii.ascii_N_embedding d). by f_equal.
Qed.

Section IdentityLemmas.
Context {U : UnicodeTables} `{!UnicodeLaws U}.

(** Runes of supported identities. *)
Definition id_rune (r : Z) : bool := (r =? 0x2D) || IsLetter r || IsDigit r.

Lemma IsDigit_id_rune r : IsDigit r = true → id_rune r = true.
Proof. intros H. unfold id_rune. by rewrite H, orb_true_r. Qed.

Lemma id_rune_not_at : id_rune 0x40 = false.
Proof. done. Qed.

Lemma id_rune_not_newline : id_rune 10 = false.
Proof. done. Qed.

Lemma id_rune_not_error : id_rune RuneError = false.
Proof.
  unfold id_rune, IsLetter, IsDigit. cbn [RuneError Z.leb].
  change (letter_table RuneError || digit_table RuneError = false).
  by rewrite replacement_not_letter, replacement_not_digit.
Qed.

Lemma id_rune_not_space r : id_rune r = true → IsSpace r = false.
Proof.
  unfold id_rune, IsLetter, IsDigit. intros H. destruct (r <=? 0xFF) eqn:E.
  - apply not_true_iff_false. unfold IsSpace. intros Hs. unfold within in *. bool_hyps. lia.
  - bool_hyps. rewrite !orb_true_iff in H. destruct H as [[H|H]|H].
    + bool_hyps. lia.
    + by apply letter_not_space.
    + by apply digit_not_space.
Qed.

(** The rune condition behind a supported identity. *)
Lemma ClassifyCN_supported cn :
  ClassifyCN cn = IdentityStudentID ∨ ClassifyCN cn = IdentityEmployeeID →
  TrimSpace cn ≠ ""%string ∧
  Forall (λ r, id_rune r = true) (runes (bytes_of_string (TrimSpace cn))).
Proof.
  unfold ClassifyCN. intros H. case_bool_decide as Hne; [naive_solver|].
  destruct (Contains (TrimSpace cn) "@"); [naive_solver|].
  split; [done|]. destruct (allDigits (TrimSpace cn)) eqn:Hd.
  - apply forallb_Forall in Hd. eapply Forall_impl; [exact Hd|]. apply IsDigit_id_rune.
  - destruct (startsWithLetter _ && allLettersDigitsOrHyphen _) eqn:He; [|naive_solver].
    apply andb_prop in He as [_ He]. by apply forallb_Forall in He.
Qed.

Lemma supported_no_rune cn c :
  ClassifyCN cn = IdentityStudentID ∨ ClassifyCN cn = IdentityEmployeeID →
  0 <= c < 0x80 → id_rune c = false → c ∉ bytes_of_string (TrimSpace cn).
Proof.
  intros H Hc Hid Hin. apply ClassifyCN_supported in H as [_ H].
  rewrite Forall_forall in H. apply runes_ascii_elem in Hin; [|apply bytes_of_string_ok|done].
  apply H in Hin. congruence.
Qed.

Lemma classify_cases cn :
  ClassifyCN cn = IdentityUnknown ∨ ClassifyCN cn = IdentityExternalEmail ∨
  ClassifyCN cn = IdentityStudentID ∨ ClassifyCN cn = IdentityEmployeeID.
Proof. unfold ClassifyCN. repeat case_if; auto. Qed.

Lemma ClassifyCN_trim cn : ClassifyCN (TrimSpace cn) = ClassifyCN cn.
Proof. unfold ClassifyCN. by rewrite TrimSpace_idem. Qed.

Lemma BuildUPN_Ok cn domain upn : BuildUPN cn domain = Ok upn ↔
  (ClassifyCN cn = IdentityStudentID ∨ ClassifyCN cn = IdentityEmployeeID) ∧
  ToLower (TrimSpace domain) ≠ ""%string ∧
  upn = (TrimSpace cn +:+ "@" +:+ ToLower (TrimSpace domain))%string.
Proof.
  unfold BuildUPN. rewrite ClassifyCN_trim. split.
  - case_bool_decide as H1; [done|]. case_bool_decide as H2; [done|].
    destruct (bool_decide (ClassifyCN cn = IdentityStudentID)
              || bool_decide (ClassifyCN cn = IdentityEmployeeID)) eqn:E.
    + intros [= <-]. apply orb_prop in E. split; [|done].
      destruct E; bool_hyps; auto.
    + by destruct (bool_decide (ClassifyCN cn = IdentityExternalEmail)).
  - intros (Hc&Hd&->). pose proof (proj1 (ClassifyCN_supported cn Hc)) as Hne.
    rewrite !bool_decide_false by done.
    destruct Hc as [->| ->]; done.
Qed.

(** Splitting at the first occurrence of a character. *)
Lemma Cut_app c s t : Z.of_N (Ascii.N_of_ascii c) ∉ bytes_of_string s →
  Cut (s +:+ String c t) c = (s, t, true).
Proof.
  induction s as [|d s IH]; intros Hno.
  - change ("" +:+ String c t)%string with (String c t). cbn [Cut]. by rewrite Ascii.eqb_refl.
  - change (String d s +:+ String c t)%string with (String d (s +:+ String c t)). cbn [Cut].
    cbn [bytes_of_string] in Hno. apply not_elem_of_cons in Hno as [Hd Hno].
    rewrite IH by done. destruct (Ascii.eqb_spec d c); [by subst|done].
Qed.
End IdentityLemmas.

(** ** Properties *)

(** [ClassifyCN] by the runes of the trimmed name: an e-mail address is
    whatever contains [@]; a student id is a non-empty string of digits; an
    employee id starts with a letter and consists of letters, digits and
    hyphens; everything else, the blank name included, is unknown. *)
Lemma classify_cn_spec `{U : UnicodeTables} (cn : string) :
  let name := TrimSpace cn in
  let rs := runes (bytes_of_string name) in
  (ClassifyCN cn = IdentityExternalEmail ↔ 0x40 ∈ rs) ∧
  (ClassifyCN cn = IdentityStudentID ↔ rs ≠ [] ∧ Forall (λ r, IsDigit r = true) rs) ∧
  (ClassifyCN cn = IdentityEmployeeID ↔
     ∃ r rs', rs = r :: rs' ∧ IsLetter r = true ∧
       Forall (λ r, r = 0x2D ∨ IsLetter r = true ∨ IsDigit r = true) rs ∧
       ¬ Forall (λ r, IsDigit r = true) rs) ∧
  (ClassifyCN cn = IdentityUnknown ∨ ClassifyCN cn = IdentityExternalEmail ∨
   ClassifyCN cn = IdentityStudentID ∨ ClassifyCN cn = IdentityEmployeeID).
Proof.
  intros name rs. unfold ClassifyCN. fold name.
  assert (name = ""%string ↔ rs = []) as Hempty.
  { unfold rs. split; [by intros ->|]. intros H. apply bytes_of_string_nil.
    destruct (bytes_of_string name) eqn:E; [done|]. exfalso. eapply runes_nonempty; [|exact H]. done. }
  assert (Contains name "@" = true ↔ 0x40 ∈ rs) as Hat.
  { rewrite (Contains_char name "@"%char). apply runes_ascii_elem; [apply bytes_of_string_ok|lia]. }
  assert (allDigits name = true ↔ Forall (λ r, IsDigit r = true) rs) as Hdig by apply forallb_Forall.
  assert (allLettersDigitsOrHyphen name = true ↔
    Forall (λ r, r = 0x2D ∨ IsLetter r = true ∨ IsDigit r = true) rs) as Hall.
  { unfold allLettersDigitsOrHyphen. rewrite forallb_Forall. fold rs.
    split; intros H; (eapply Forall_impl; [exact H|]); intros r; cbn beta;
      rewrite !orb_true_iff, Z.eqb_eq; tauto. }
  assert (startsWithLetter name = true ↔ ∃ r rs', rs = r :: rs' ∧ IsLetter r = true) as Hlet.
  { unfold startsWithLetter. fold rs. destruct rs as [|r rs']; naive_solver. }
  assert (Forall (λ r, IsDigit r = true) rs → 0x40 ∉ rs) as Hda.
  { rewrite Forall_forall. intros H Hin. by apply H in Hin. }
  assert (Forall (λ r, r = 0x2D ∨ IsLetter r = true ∨ IsDigit r = true) rs → 0x40 ∉ rs) as Hla.
  { rewrite Forall_forall. intros H Hin. by apply H in Hin as [?|[?|?]]. }
  assert ((∃ r rs', rs = r :: rs' ∧ IsLetter r = true ∧
       Forall (λ r, r = 0x2D ∨ IsLetter r = true ∨ IsDigit r = true) rs ∧
       ¬ Forall (λ r, IsDigit r = true) rs) ↔
     startsWithLetter name = true ∧ Forall (λ r, r = 0x2D ∨ IsLetter r = true ∨ IsDigit r = true) rs ∧
       ¬ Forall (λ r, IsDigit r = true) rs) as Hemp.
  { rewrite Hlet. split; [intros (r&rs'&?&?&?&?); eauto 10|].
    intros ((r&rs'&?&?)&?&?). eauto 10. }
  rewrite Hemp, <- Hdig, <- Hall, <- Hat in *. clear Hemp Hlet.
  assert (rs = [] → startsWithLetter name = false) as Hs by (unfold startsWithLetter; fold rs; by intros ->).
  assert (rs = [] → Contains name "@" = false) as Hc.
  { intros E. apply not_true_iff_false. rewrite Hat, E. apply not_elem_of_nil. }
  clear Hdig Hall Hat. clearbody rs.
  destruct (Contains name "@"), (allDigits name), (startsWithLetter name), (allLettersDigitsOrHyphen name);
    case_bool_decide as Hb; cbn [andb]; rewrite Hempty in Hb; clear Hempty;
    intuition (discriminate || congruence).
Qed.

(** A UPN the service builds is the trimmed name, [@] and the lower-cased
    domain, and splitting it at its first [@] gives the two parts back: no
    supported name can smuggle in another domain. *)
Lemma build_upn_parts `{U : UnicodeTables} (cn domain upn : string) :
  UnicodeLaws U → BuildUPN cn domain = Ok upn →
  Cut upn "@"%char = (TrimSpace cn, ToLower (TrimSpace domain), true) ∧
  TrimSpace cn ≠ ""%string ∧ Utf8 (bytes_of_string (TrimSpace cn)).
Proof.
  intros HL H. apply BuildUPN_Ok in H as (Hc&_&->). split; [|split].
  - apply Cut_app. by apply supported_no_rune.
  - by apply ClassifyCN_supported in Hc as [? _].
  - apply ClassifyCN_supported in Hc as [_ Hrs].
    apply runes_no_error_Utf8; [apply bytes_of_string_ok|]. intros Hin.
    rewrite Forall_forall in Hrs. apply Hrs in Hin. by rewrite id_rune_not_error in Hin.
Qed.

(** [BuildUPN] refuses exactly the names that are not supported, with
    the error that says why, unless the domain is blank. *)
Lemma build_upn_errors `{U : UnicodeTables} (cn domain : string) (e : error) :
  ToLower (TrimSpace domain) ≠ ""%string →
  BuildUPN cn domain = Err e ↔
  (ClassifyCN cn = IdentityExternalEmail ∧ e = ErrExternalIdentity) ∨
  (ClassifyCN cn = IdentityUnknown ∧ e = ErrUnknownIdentity).
Proof.
  intros Hd. unfold BuildUPN. rewrite ClassifyCN_trim.
  destruct (classify_cases cn) as [Hk|[Hk|[Hk|Hk]]].
  - rewrite Hk. rewrite (bool_decide_false (ToLower _ = _)) by done.
    case_bool_decide; cbn; naive_solver.
  - rewrite Hk. rewrite (bool_decide_false (ToLower _ = _)) by done.
    case_bool_decide as Hb; cbn; [|naive_solver].
    unfold ClassifyCN in Hk. by rewrite bool_decide_true in Hk.
  - pose proof (proj1 (ClassifyCN_supported cn (or_introl Hk))). rewrite Hk.
    rewrite !bool_decide_false by done. cbn. naive_solver.
  - pose proof (proj1 (ClassifyCN_supported cn (or_intror Hk))). rewrite Hk.
    rewrite !bool_decide_false by done. cbn. naive_solver.
Qed.

Section IdentityWitnesses.
#[local] Existing Instance Latin1Tables.

Lemma build_upn_parts_witness :
  Cut "B0123@nycu.edu.tw" "@"%char = ("B0123", "nycu.edu.tw", true)%string ∧
  TrimSpace " B0123" ≠ ""%string ∧ Utf8 (bytes_of_string (TrimSpace " B0123")).
Proof.
  apply (build_upn_parts " B0123"%string "NYCU.edu.tw "%string "B0123@nycu.edu.tw"%string).
  - exact Latin1Laws.
  - vm_compute. reflexivity.
Defined.

Lemma build_upn_errors_witness :
  BuildUPN "someone@gmail.com" "nycu.edu.tw" = Err ErrExternalIdentity.
Proof.
  apply (build_upn_errors "someone@gmail.com"%string "nycu.edu.tw"%string ErrExternalIdentity).
  - vm_compute. discriminate.
  - left. split; [vm_compute; reflexivity|reflexivity].
Defined.
End IdentityWitnesses.
