(* ===== verification/MigrationService.v ===== *)
(** * The migration service (internal/migration/service.go)

    [Submit] decides whether an event is skipped or enqueued, encrypts the
    password and hands the message to the queue.  Its collaborators (queue,
    encrypter, sync-status store, clock) are the interfaces of the source,
    methods over an arbitrary world [W]. *)
From stdpp Require Import base gmap strings list.
From Stdlib Require Import ZArith Lia Ascii.
From S2P Require Import Prelude Utf8 GoStrings GoTime GoBase Observability GoState Http.
From S2P Require Import PasswordCrypto SyncStatus Identity.

Local Open Scope Z_scope.

(** ** Interfaces *)

Record Queue (W : Type) := mkQueue {
  EnqueuePasswordSync : Context → PasswordSyncMessage → W → outcome (option error) * W
}.
Arguments mkQueue {W} _.
Arguments EnqueuePasswordSync {W} _ _ _ _.

Record PasswordEncrypter (W : Type) := mkEncrypter {
  encrypt : Context → bytes → bytes → W → outcome (result Envelope) * W
}.
Arguments mkEncrypter {W} _.
Arguments encrypt {W} _ _ _ _ _.

(** ** Data *)

Definition defaultPendingTTL : Duration := 300 * Second.

Record ServiceOptions (W : Type) := mkServiceOptions {
  opt_SyncStatusStore : option (SyncStore W);
  opt_PendingTTL : Duration
}.
Arguments mkServiceOptions {W} _ _.
Arguments opt_SyncStatusStore {W} _.
Arguments opt_PendingTTL {W} _.

(** The request; [req_Password] is borrowed memory. *)
Record Request := mkRequest {
  req_CN : string;
  req_EventType : EventType;
  req_Password : option Slice;
  req_DisplayName : string;
  req_Mail : string
}.

Record Decision := mkDecision {
  IdentityTypeOf : IdentityType;
  d_UPN : string;
  Enqueued : bool;
  Skipped : bool;
  Reason : string
}.

Definition zero_decision : Decision := mkDecision "" "" false false "".

Record Service (W : Type) := mkService {
  primaryDomain : string;
  queue : option (Queue W);
  encrypter : option (PasswordEncrypter W);
  svc_now : W → Time * W;
  syncStatusStore : option (SyncStore W);
  pendingTTL : Duration
}.
Arguments mkService {W} _ _ _ _ _ _.
Arguments primaryDomain {W} _.
Arguments queue {W} _.
Arguments encrypter {W} _.
Arguments svc_now {W} _ _.
Arguments syncStatusStore {W} _.
Arguments pendingTTL {W} _.

Section Service.
Context {U : UnicodeTables} {W : Type}.

(** NewService; [opts] is the variadic argument and [now] is time.Now. *)
Definition NewService (primaryDomain : string) (queue : option (Queue W))
    (encrypter : option (PasswordEncrypter W)) (now : W → Time * W)
    (opts : list (ServiceOptions W)) : outcome (Service W) :=
  match opts with
  | _ :: _ :: _ => Panic "migration.NewService: at most one ServiceOptions is supported"
  | _ =>
    let opt := match opts with o :: _ => o | [] => mkServiceOptions None 0 end in
    let pendingTTL := if opt_PendingTTL opt <=? 0 then defaultPendingTTL else opt_PendingTTL opt in
    Ret (mkService primaryDomain queue encrypter now (opt_SyncStatusStore opt) pendingTTL)
  end.

(** passwordAAD and its exported wrapper. *)
Definition passwordAAD (cn upn : string) (enqueuedAt : Time) : bytes :=
  bytes_of_string
    (Join ["password-sync"; TrimSpace cn; TrimSpace upn; format_rfc3339nano (UTC enqueuedAt)]
       (String (ascii_of_nat 10) ""))%string.

Definition PasswordAAD (cn upn : string) (enqueuedAt : Time) : bytes := passwordAAD cn upn enqueuedAt.

(** Read the clock. *)
Definition read_now (s : Service W) : M (St W) Time :=
  call (λ w, let '(t, w') := svc_now s w in (Ret t, w')).

Definition skipLoginBootstrap (s : Service W) (store : SyncStore W) (ctx : Context) (upn : string)
    : M (St W) (bool * string) :=
  r ← call (Get store ctx upn);
  match r with
  | Err _ => mret (false, ""%string)
  | Ok rec =>
    if bool_decide (Status rec = StatusSynced) then mret (true, "already_synced"%string)
    else if bool_decide (Status rec = StatusPending) then
      now ← read_now s;
      if After (UpdatedAt rec) now then mret (false, ""%string)
      else if Before now (Add (UpdatedAt rec) (pendingTTL s)) then mret (true, "sync_pending"%string)
      else mret (false, ""%string)
    else mret (false, ""%string)
  end.

(** The plaintext read through the borrowed slice. *)
Definition password_bytes (pw : option Slice) : M (St W) bytes :=
  match pw with Some sl => read_slice sl | None => mret [] end.

Section Handler.
Context (s : Service W) (ctx : Context) (req : Request).

(** The decision for this request with the given fields. *)
Definition decided (upn : string) (enq skip : bool) (reason : string) : Decision :=
  mkDecision (ClassifyCN (req_CN req)) upn enq skip reason.

(** The message built for a clock reading and an envelope. *)
Definition sync_message (upn : string) (now : Time) (env : Envelope) : PasswordSyncMessage :=
  mkMessage (TrimSpace (req_CN req)) upn (req_EventType req) (requestid_From ctx) ""
    (Ciphertext env) (Nonce env) (KeyID env) (Algorithm env)
    (TrimSpace (req_DisplayName req)) (TrimSpace (req_Mail req)) (UTC now).

(** Submit from the dedupe test on, once the UPN is known. *)
Definition submit_eligible (upn : string) : M (St W) (Decision * option error) :=
  skip ← match syncStatusStore s with
         | Some store =>
             if bool_decide (req_EventType req = EventLoginBootstrap)
             then skipLoginBootstrap s store ctx upn
             else mret (false, ""%string)
         | None => mret (false, ""%string)
         end;
  if (skip.1 : bool) then mret (decided upn false true skip.2, None)
  else
  match queue s, encrypter s with
  | None, _ => mret (decided upn false false "", Some (ErrorText "migration queue is not configured"))
  | Some _, None =>
      mret (decided upn false false "", Some (ErrorText "password encrypter is not configured"))
  | Some q, Some enc =>
    now ← read_now s;
    pw ← password_bytes (req_Password req);
    r ← call (encrypt enc ctx pw (passwordAAD (TrimSpace (req_CN req)) upn (UTC now)));
    match r with
    | Err e => mret (decided upn false false "", Some (Wrapped "encrypt password payload" e))
    | Ok env =>
      err ← call (EnqueuePasswordSync q ctx (sync_message upn now env));
      match err with
      | Some e => mret (decided upn false false "", Some e)
      | None =>
        match syncStatusStore s with
        | Some store => _ ← call (MarkPending store ctx upn (UTC now)); mret tt
        | None => mret tt
        end ;;
        mret (decided upn true false "", None)
      end
    end
  end.

Definition Submit : M (St W) (Decision * option error) :=
  defer_ (ZeroBytes (req_Password req)) (
  if negb (ValidEventType (req_EventType req)) then
    mret (zero_decision, Some ErrInvalidEventType)
  else if bool_decide (ClassifyCN (req_CN req) = IdentityExternalEmail) then
    mret (decided "" false true "cn_is_external_email", None)
  else if bool_decide (ClassifyCN (req_CN req) = IdentityUnknown) then
    mret (decided "" false false "", Some ErrUnknownIdentity)
  else
  match BuildUPN (req_CN req) (primaryDomain s) with
  | Err e => mret (decided "" false false "", Some e)
  | Ok upn => submit_eligible upn
  end).
End Handler.
End Service.

(** ** Outcomes of Submit, path by path *)

Section Paths.
Context {U : UnicodeTables} {W : Type} (s : Service W) (ctx : Context) (req : Request).
#[local] Abbreviation decided := (decided req).
#[local] Abbreviation sync_message := (sync_message ctx req).

(** A supported event for a supported identity, with its UPN. *)
Definition eligible (upn : string) : Prop :=
  ValidEventType (req_EventType req) = true ∧ BuildUPN (req_CN req) (primaryDomain s) = Ok upn.

(** [no_skip upn w w']: the dedupe step let the event pass, taking the world
    from [w] to [w']. *)
Inductive no_skip (upn : string) (st : St W) : St W → Prop :=
  | no_skip_store : syncStatusStore s = None → no_skip upn st st
  | no_skip_event : req_EventType req ≠ EventLoginBootstrap → no_skip upn st st
  | no_skip_status store st' reason :
      syncStatusStore s = Some store → req_EventType req = EventLoginBootstrap →
      skipLoginBootstrap s store ctx upn st = (Ret (false, reason), st') →
      no_skip upn st st'.

(** Every way [Submit]'s body can end, from state [st]; the state is the one
    before the deferred zeroing. *)
Inductive submit_path (st : St W) : outcome (Decision * option error) → St W → Prop :=
  | path_bad_event :
      ValidEventType (req_EventType req) = false →
      submit_path st (Ret (zero_decision, Some ErrInvalidEventType)) st
  | path_external :
      ValidEventType (req_EventType req) = true →
      ClassifyCN (req_CN req) = IdentityExternalEmail →
      submit_path st (Ret (decided "" false true "cn_is_external_email", None)) st
  | path_unknown :
      ValidEventType (req_EventType req) = true →
      ClassifyCN (req_CN req) = IdentityUnknown →
      submit_path st (Ret (decided "" false false "", Some ErrUnknownIdentity)) st
  | path_upn_error e :
      ValidEventType (req_EventType req) = true →
      ClassifyCN (req_CN req) ≠ IdentityExternalEmail → ClassifyCN (req_CN req) ≠ IdentityUnknown →
      BuildUPN (req_CN req) (primaryDomain s) = Err e →
      submit_path st (Ret (decided "" false false "", Some e)) st
  | path_skip_panic upn store v st' :
      eligible upn → syncStatusStore s = Some store → req_EventType req = EventLoginBootstrap →
      skipLoginBootstrap s store ctx upn st = (Panic v, st') →
      submit_path st (Panic v) st'
  | path_skip upn store reason st' :
      eligible upn → syncStatusStore s = Some store → req_EventType req = EventLoginBootstrap →
      skipLoginBootstrap s store ctx upn st = (Ret (true, reason), st') →
      submit_path st (Ret (decided upn false true reason, None)) st'
  | path_unconfigured upn st' e :
      eligible upn → no_skip upn st st' → queue s = None ∨ encrypter s = None →
      submit_path st (Ret (decided upn false false "", Some e)) st'
  | path_encrypt upn st1 q enc now w1 pw o w2 res :
      eligible upn → no_skip upn st st1 → queue s = Some q → encrypter s = Some enc →
      svc_now s (world st1) = (now, w1) →
      pw = match req_Password req with Some sl => slice_bytes (mem st1) sl | None => [] end →
      encrypt enc ctx pw (passwordAAD (TrimSpace (req_CN req)) upn now) w1 = (o, w2) →
      match o with
      | Panic v => res = Panic v
      | Ret (Err e) => res = Ret (decided upn false false "", Some (Wrapped "encrypt password payload" e))
      | Ret (Ok _) => False
      end →
      submit_path st res (set_world w2 st1)
  | path_enqueue upn st1 q enc now w1 pw env w2 o w3 res :
      eligible upn → no_skip upn st st1 → queue s = Some q → encrypter s = Some enc →
      svc_now s (world st1) = (now, w1) →
      pw = match req_Password req with Some sl => slice_bytes (mem st1) sl | None => [] end →
      encrypt enc ctx pw (passwordAAD (TrimSpace (req_CN req)) upn now) w1 = (Ret (Ok env), w2) →
      EnqueuePasswordSync q ctx (sync_message upn now env) w2 = (o, w3) →
      match o with
      | Panic v => res = Panic v
      | Ret (Some e) => res = Ret (decided upn false false "", Some e)
      | Ret None => False
      end →
      submit_path st res (set_world w3 st1)
  | path_done upn st1 q enc now w1 pw env w2 w3 om w4 res :
      eligible upn → no_skip upn st st1 → queue s = Some q → encrypter s = Some enc →
      svc_now s (world st1) = (now, w1) →
      pw = match req_Password req with Some sl => slice_bytes (mem st1) sl | None => [] end →
      encrypt enc ctx pw (passwordAAD (TrimSpace (req_CN req)) upn now) w1 = (Ret (Ok env), w2) →
      EnqueuePasswordSync q ctx (sync_message upn now env) w2 = (Ret None, w3) →
      match syncStatusStore s with
      | Some store => MarkPending store ctx upn now w3 = (om, w4)
      | None => om = Ret None ∧ w4 = w3
      end →
      match om with
      | Panic v => res = Panic v
      | Ret _ => res = Ret (decided upn true false "", None)
      end →
      submit_path st res (set_world w4 st1).

(** [skipLoginBootstrap] changes the world only. *)
Lemma skipLoginBootstrap_frame store upn st o st' :
  skipLoginBootstrap s store ctx upn st = (o, st') → st' = set_world (world st') st.
Proof.
  unfold skipLoginBootstrap, read_now. step_go.
  destruct (Get store ctx upn (world st)) as [[[r|e]|v] w]; intros H; [..|by simplify_eq/=];
    [|by simplify_eq/=]. cbn [world] in H.
  destruct (bool_decide (Status r = StatusSynced)); [by simplify_eq/=|].
  destruct (bool_decide (Status r = StatusPending)); [|by simplify_eq/=].
  red_go in H. destruct (svc_now s w) as [now w2]. red_go in H.
  repeat case_if; by simplify_eq/=.
Qed.

Lemma dedupe_inv upn st o st1 :
  (match syncStatusStore s with
   | Some store =>
       if bool_decide (req_EventType req = EventLoginBootstrap)
       then skipLoginBootstrap s store ctx upn else mret (false, ""%string)
   | None => mret (false, ""%string)
   end : M (St W) (bool * string)) st = (o, st1) →
  (∃ reason, o = Ret (false, reason) ∧ no_skip upn st st1) ∨
  (∃ store, syncStatusStore s = Some store ∧ req_EventType req = EventLoginBootstrap ∧
     skipLoginBootstrap s store ctx upn st = (o, st1) ∧
     ((∃ v, o = Panic v) ∨ ∃ reason, o = Ret (true, reason))).
Proof.
  destruct (syncStatusStore s) as [store|] eqn:Hs.
  - case_bool_decide as He; intros H.
    + destruct o as [[[] reason]|v]; [right; eauto 10| |right; eauto 10].
      left. exists reason. split; [done|]. by eapply no_skip_status.
    + apply mret_inv in H as [-> ->]. left. eexists; split; [done|]. by apply no_skip_event.
  - intros H. apply mret_inv in H as [-> ->]. left. eexists; split; [done|]. by apply no_skip_store.
Qed.

Lemma submit_eligible_path upn st o st1 :
  eligible upn → submit_eligible s ctx req upn st = (o, st1) → submit_path st o st1.
Proof.
  intros Hel H. unfold submit_eligible in H.
  apply bind_inv in H as [([sk reason]&st2&Hsk&H)|(v&Hsk&->)];
    apply dedupe_inv in Hsk as [(r'&Ho&Hns)|(store&Hs&He&Hsk&Ho)].
  2: { destruct Ho as [[v Ho]|[r' Ho]]; [done|]. injection Ho as -> ->.
       apply mret_inv in H as [-> ->]. by eapply path_skip. }
  2: done.
  2: by eapply path_skip_panic.
  injection Ho as -> ->. cbn [fst] in H.
  destruct (queue s) as [q|] eqn:Hq; [|apply mret_inv in H as [-> ->]; eapply path_unconfigured; eauto].
  destruct (encrypter s) as [enc|] eqn:Henc; [|apply mret_inv in H as [-> ->]; eapply path_unconfigured; eauto].
  unfold read_now in H.
  apply bind_inv in H as [(now&st3&Hnow&H)|(v&Hnow&->)]; apply call_inv in Hnow as (w1&Hnow&->);
    destruct (svc_now s (world st2)) as [t w1'] eqn:Hclk; simplify_eq.
  apply bind_inv in H as [(pw&st4&Hpw&H)|(v&Hpw&->)]; [|by destruct (req_Password req)].
  assert (st4 = set_world w1 st2 ∧ pw = match req_Password req with
    Some sl => slice_bytes (mem st2) sl | None => [] end) as [-> Hpweq].
  { unfold password_bytes, read_slice in Hpw. destruct (req_Password req); [by simplify_eq/=|].
    apply mret_inv in Hpw as [Ho ->]. by simplify_eq. }
  clear Hpw.
  apply bind_inv in H as [(r&st5&Henv&H)|(v&Henv&->)]; apply call_inv in Henv as (w2&Henv&->).
  2: { eapply (path_encrypt st upn st2 q enc now w1 pw); eauto; done. }
  destruct r as [env|e]; [|apply mret_inv in H as [-> ->]; eapply (path_encrypt st upn st2 q enc now w1 pw); eauto; done].
  apply bind_inv in H as [(err&st6&Hq'&H)|(v&Hq'&->)]; apply call_inv in Hq' as (w3&Hq'&->).
  2: { eapply (path_enqueue st upn st2 q enc now w1 pw); eauto; done. }
  destruct err as [e|]; [apply mret_inv in H as [-> ->]; eapply (path_enqueue st upn st2 q enc now w1 pw); eauto; done|].
  destruct (syncStatusStore s) as [store|] eqn:Hs.
  - apply bind_inv in H as [([]&st7&Hm&H)|(v&Hm&->)].
    + apply mret_inv in H as [-> ->].
      apply bind_inv in Hm as [(om&st8&Hm&H)|(v&_&?)]; [|done].
      apply mret_inv in H as [_ ->]. apply call_inv in Hm as (w4&Hm&->).
      eapply (path_done st upn st2 q enc now w1 pw); eauto; [by rewrite Hs|done].
    + apply bind_inv in Hm as [(om&st8&Hm&H)|(v'&Hm&Hv)]; [by apply mret_inv in H as [? _]|].
      injection Hv as ->. apply call_inv in Hm as (w4&Hm&->).
      eapply (path_done st upn st2 q enc now w1 pw); eauto; [by rewrite Hs|done].
  - apply bind_inv in H as [([]&st7&Hm&H)|(v&Hm&->)]; [|by apply mret_inv in Hm as [? _]].
    apply mret_inv in Hm as [_ ->]. apply mret_inv in H as [-> ->].
    eapply (path_done st upn st2 q enc now w1 pw); eauto; [rewrite Hs; by split|done].
Qed.

(** [Submit] is one of the paths followed by the deferred zeroing. *)
Lemma Submit_defer st o st' : Submit s ctx req st = (o, st') →
  ∃ st1, submit_path st o st1 ∧
    st' = match req_Password req with
          | Some sl => set_mem (mem_zero (mem st1) sl) st1
          | None => st1
          end.
Proof.
  unfold Submit, defer_. intros H.
  match type of H with (let '(_, _) := ?b st in _) = _ => set (body := b) in H end.
  enough (∀ o st1, body st = (o, st1) → submit_path st o st1) as Hpath.
  { destruct (body st) as [o1 st1] eqn:Hb. exists st1.
    destruct (req_Password req) as [sl|]; cbn in H; simplify_eq; eauto. }
  clear H o st'. intros o st1 Hb. subst body.
  destruct (ValidEventType (req_EventType req)) eqn:Hev; cbn [negb] in Hb;
    [|apply mret_inv in Hb as [-> ->]; by apply path_bad_event].
  case_bool_decide as Hext; [apply mret_inv in Hb as [-> ->]; by apply path_external|].
  case_bool_decide as Hunk; [apply mret_inv in Hb as [-> ->]; by apply path_unknown|].
  destruct (BuildUPN (req_CN req) (primaryDomain s)) as [upn|e] eqn:Hupn;
    [|apply mret_inv in Hb as [-> ->]; by apply path_upn_error].
  by eapply submit_eligible_path.
Qed.

Lemma no_skip_frame upn st st' : no_skip upn st st' → st' = set_world (world st') st.
Proof.
  destruct 1 as [_|_|store st' reason _ _ H]; [by destruct st..|].
  by apply skipLoginBootstrap_frame in H.
Qed.
End Paths.

(** ** Properties *)

Section Properties.
Context {U : UnicodeTables} {W : Type}.
Implicit Types (s : Service W) (st : St W).

Lemma submit_path_frame s ctx req st o st1 :
  submit_path s ctx req st o st1 → st1 = set_world (world st1) st.
Proof.
  destruct 1 as [| | | |upn store v st' _ _ _ Hsk|upn store reason st' _ _ _ Hsk|upn st' e _ Hns
    |upn st' q enc now w1 pw o w2 res _ Hns|upn st' q enc now w1 pw env w2 o w3 res _ Hns
    |upn st' q enc now w1 pw env w2 w3 om w4 res _ Hns]; try (by destruct st).
  1-2: by apply skipLoginBootstrap_frame in Hsk.
  all: apply no_skip_frame in Hns; by rewrite Hns.
Qed.

(** A skip always carries one of the two dedupe reasons. *)
Lemma skip_reason s store ctx upn st reason st' :
  skipLoginBootstrap s store ctx upn st = (Ret (true, reason), st') → reason ≠ ""%string.
Proof.
  unfold skipLoginBootstrap, read_now. intros H.
  apply bind_inv in H as [([r|e]&st1&_&H)|(v&_&?)]; [| |done].
  2: { by apply mret_inv in H as [? _]. }
  destruct (bool_decide (Status r = StatusSynced)); [apply mret_inv in H as [H _]; by simplify_eq|].
  destruct (bool_decide (Status r = StatusPending)); [|by apply mret_inv in H as [? _]].
  apply bind_inv in H as [(now&st2&_&H)|(v&_&?)]; [|done].
  repeat case_if; apply mret_inv in H as [H _]; by simplify_eq.
Qed.

Lemma BuildUPN_nonempty cn domain upn : BuildUPN cn domain = Ok upn → upn ≠ ""%string.
Proof.
  intros H. apply BuildUPN_Ok in H as (Hc&_&->). apply ClassifyCN_supported in Hc as [Hc _].
  by destruct (TrimSpace cn).
Qed.

(** What [Submit] leaves of the state, on every way out. *)
Lemma Submit_frame s ctx req st o st' : Submit s ctx req st = (o, st') →
  mem st' = match req_Password req with Some sl => mem_zero (mem st) sl | None => mem st end ∧
  obs st' = obs st ∧ resp st' = resp st.
Proof.
  intros H. apply Submit_defer in H as (st1&Hp&->). apply submit_path_frame in Hp.
  destruct (req_Password req) as [sl|]; rewrite Hp; done.
Qed.

(** [Submit] zeroes the borrowed password buffer on every way out,
    success, skip, error and panic of a collaborator alike, and writes to no
    other buffer, to no log and to no HTTP response. *)
Lemma submit_zeroes_password s ctx req st :
  let st' := (Submit s ctx req st).2 in
  (∀ sl, req_Password req = Some sl → all_zero (slice_bytes (mem st') sl)) ∧
  mem st' = match req_Password req with Some sl => mem_zero (mem st) sl | None => mem st end ∧
  obs st' = obs st ∧ resp st' = resp st.
Proof.
  intros st'. destruct (Submit s ctx req st) as [o st2] eqn:H. subst st'. cbn [snd].
  apply Submit_frame in H as (Hm&Ho&Hr). split; [|done].
  intros sl Hsl. rewrite Hm, Hsl. auto with go.
Qed.

(** Whenever [Submit] returns, exactly one of three things holds: it
    reports an error and neither enqueued nor skipped, it skipped with a
    reason, or it enqueued. *)
Lemma submit_decision_exclusive s ctx req st :
  match (Submit s ctx req st).1 with
  | Panic _ => True
  | Ret (d, Some _) => Enqueued d = false ∧ Skipped d = false
  | Ret (d, None) =>
      (Skipped d = true ∧ Enqueued d = false ∧ Reason d ≠ ""%string) ∨
      (Skipped d = false ∧ Enqueued d = true ∧ Reason d = ""%string ∧ d_UPN d ≠ ""%string)
  end.
Proof.
  destruct (Submit s ctx req st) as [o st2] eqn:H. cbn [fst].
  apply Submit_defer in H as (st1&Hp&_).
  destruct Hp as [| | | |upn store v st' Hel _ _ Hsk|upn store reason st' Hel _ _ Hsk|upn st' e Hel Hns
    |upn st' q enc now w1 pw o w2 res Hel Hns ????? Ho|upn st' q enc now w1 pw env w2 o w3 res Hel Hns ?????? Ho
    |upn st' q enc now w1 pw env w2 w3 om w4 res [_ Hel] Hns ?????? Hm Ho]; cbn; auto.
  - left. split; [done|]. split; [done|].
    by apply skip_reason in Hsk.
  - destruct o as [[env|e]|v]; [done|by subst..].
  - destruct o as [[e|]|v]; [by subst|done|by subst].
  - destruct om as [m|v]; subst; [|done]. right. repeat split; try done. cbn.
    apply BuildUPN_nonempty in Hel. done.
Qed.

(** The deduplication only asks the store for the record of the account and,
    for a pending one, reads the clock. *)
Definition asked_store (s : Service W) (ctx : Context) (upn : string) (w w' : W) : Prop :=
  ∃ store r w1, syncStatusStore s = Some store ∧ Get store ctx upn w = (Ret r, w1) ∧
    (w' = w1 ∨ w' = (svc_now s w1).2).

Lemma skip_asks_store s store ctx upn st reason st' :
  syncStatusStore s = Some store → skipLoginBootstrap s store ctx upn st = (Ret (false, reason), st') →
  asked_store s ctx upn (world st) (world st').
Proof.
  intros Hs H. unfold skipLoginBootstrap, read_now, mbind, M_bind, call, mret, M_ret in H.
  destruct (Get store ctx upn (world st)) as [[r|v] w1] eqn:Eg; [|done].
  exists store, r, w1. split_and!; [done|done|]. destruct r as [r|e]; red_go in H; [|simplify_eq; by left].
  repeat case_if; red_go in H; simplify_eq; try by left.
  all: change (world (set_world w1 st)) with w1 in H; destruct (svc_now s w1) as [now w2] eqn:En; red_go in H.
  all: repeat case_if; simplify_eq; by right.
Qed.

(** An event type outside the three known ones, an e-mail identity and
    an unsupported name are answered without touching any collaborator: no
    queue, store, encrypter or clock call is made. *)
Lemma submit_rejects_without_effect s ctx req st :
  let r := Submit s ctx req st in
  (ValidEventType (req_EventType req) = false ∨ ClassifyCN (req_CN req) = IdentityExternalEmail ∨
   ClassifyCN (req_CN req) = IdentityUnknown) →
  world r.2 = world st ∧
  r.1 = Ret (if negb (ValidEventType (req_EventType req)) then (zero_decision, Some ErrInvalidEventType)
             else if bool_decide (ClassifyCN (req_CN req) = IdentityExternalEmail)
             then (mkDecision IdentityExternalEmail "" false true "cn_is_external_email", None)
             else (mkDecision IdentityUnknown "" false false "", Some ErrUnknownIdentity)).
Proof.
  intros r Hc. subst r. unfold Submit, defer_, decided.
  destruct (ValidEventType (req_EventType req)) eqn:Hev; cbn [negb].
  2: { destruct (req_Password req); by cbn. }
  destruct Hc as [Hc|[Hc|Hc]]; [done|..]; rewrite Hc.
  - rewrite bool_decide_true by done. destruct (req_Password req); by cbn.
  - rewrite bool_decide_false, bool_decide_true by done. destruct (req_Password req); by cbn.
Qed.
(** What an accepted submission did. *)
Lemma Submit_enqueued s ctx req st d st' :
  Submit s ctx req st = (Ret (d, None), st') → Enqueued d = true →
  ∃ upn q enc now w0 w1 env w2 w3,
    BuildUPN (req_CN req) (primaryDomain s) = Ok upn ∧ d = decided req upn true false "" ∧
    queue s = Some q ∧ encrypter s = Some enc ∧
    svc_now s w0 = (now, w1) ∧
    encrypt enc ctx (match req_Password req with Some sl => slice_bytes (mem st) sl | None => [] end)
      (PasswordAAD (TrimSpace (req_CN req)) upn now) w1 = (Ret (Ok env), w2) ∧
    EnqueuePasswordSync q ctx (sync_message ctx req upn now env) w2 = (Ret None, w3) ∧
    msg_Password (sync_message ctx req upn now env) = ""%string ∧
    (req_EventType req ≠ EventLoginBootstrap → w0 = world st) ∧
    (w0 = world st ∨ asked_store s ctx upn (world st) w0) ∧
    match syncStatusStore s with
    | Some store => ∃ om, MarkPending store ctx upn now w3 = (Ret om, world st')
    | None => world st' = w3
    end.
Proof.
  intros H Henq. apply Submit_defer in H as (st1&Hp&->).
  assert (∀ sl, world (set_mem (mem_zero (mem st1) sl) st1) = world st1) as Hw by done.
  inversion Hp as [| | | | |? ? ? ? ? ? ? Hsk| |upn ? q enc now w1 pw o ? ? ? Hns ????? Ho
    |upn ? q enc now w1 pw env ? o ? ? ? Hns ?????? Ho
    |upn st2 q enc now w1 pw env w2 w3 om w4 res [Hev Hel] Hns Hq Henc Hnow Hpw Hencr Henqu Hm Ho];
    simplify_eq; try done.
  { by destruct o as [[]|]. } { by destruct o as [[]|]. }
  destruct om as [om|v]; [|done]. injection Ho as ->.
  pose proof (no_skip_frame _ _ _ _ _ _ Hns) as Hfr.
  assert (mem st2 = mem st) as Hmem by (by rewrite Hfr).
  exists upn, q, enc, now, (world st2), w1, env, w2, w3. rewrite Hmem in Hencr.
  repeat (split; [done|]). split_and!.
  - intros Hne. inversion Hns; simplify_eq; done.
  - inversion Hns; subst; [by left|by left|right]. eauto using skip_asks_store.
  - assert (world match req_Password req with
      | Some sl => set_mem (mem_zero (mem (set_world w4 st2)) sl) (set_world w4 st2)
      | None => set_world w4 st2 end = w4) as -> by (by destruct (req_Password req)).
    destruct (syncStatusStore s); [by exists om|by destruct Hm].
Qed.

(** C11 What an accepted submission did, call by call: for a login_bootstrap
    event it may have asked the store for the account's record (and read the
    clock if a sync was pending), for other events nothing; then it read the
    clock, sealed the caller's password under the additional data that binds
    name, UPN and that clock reading, put one message on the queue (which
    carries no plaintext), and only then told the status store that a sync is
    pending, ignoring that call's error.  These are all its calls: each starts
    in the world the one before it left. *)
Theorem submit_enqueued_effects s ctx req st d st' :
  Submit s ctx req st = (Ret (d, None), st') → Enqueued d = true →
  ∃ upn q enc now w0 w1 env w2 w3,
    BuildUPN (req_CN req) (primaryDomain s) = Ok upn ∧ d = decided req upn true false "" ∧
    queue s = Some q ∧ encrypter s = Some enc ∧
    svc_now s w0 = (now, w1) ∧
    encrypt enc ctx (match req_Password req with Some sl => slice_bytes (mem st) sl | None => [] end)
      (PasswordAAD (TrimSpace (req_CN req)) upn now) w1 = (Ret (Ok env), w2) ∧
    EnqueuePasswordSync q ctx (sync_message ctx req upn now env) w2 = (Ret None, w3) ∧
    msg_Password (sync_message ctx req upn now env) = ""%string ∧
    (req_EventType req ≠ EventLoginBootstrap → w0 = world st) ∧
    (w0 = world st ∨ asked_store s ctx upn (world st) w0) ∧
    match syncStatusStore s with
    | Some store => ∃ om, MarkPending store ctx upn now w3 = (Ret om, world st')
    | None => world st' = w3
    end.
Proof. intros H Henq. exact (Submit_enqueued s ctx req st d st' H Henq). Qed.

(** When a login_bootstrap event is skipped: the store answered, and
    the account is synced, or a sync is pending whose record is not in the
    future and is younger than the pending TTL.  A store error never skips. *)
Lemma bootstrap_skip_iff s store ctx upn st reason :
  (skipLoginBootstrap s store ctx upn st).1 = Ret (true, reason) ↔
  ∃ r w1, Get store ctx upn (world st) = (Ret (Ok r), w1) ∧
    ((Status r = StatusSynced ∧ reason = "already_synced"%string) ∨
     (Status r = StatusPending ∧ reason = "sync_pending"%string ∧
      UpdatedAt r <= (svc_now s w1).1 < UpdatedAt r + pendingTTL s)).
Proof.
  unfold skipLoginBootstrap, read_now, mbind, M_bind, call, mret, M_ret, After, Before, Add.
  destruct (Get store ctx upn (world st)) as [[[r|e]|v] w1].
  2-3: split; [done|]; by intros (?&?&?&_).
  cbn [world set_world]. destruct (bool_decide (Status r = StatusSynced)) eqn:E1; bool_hyps.
  { cbn. split; [intros [= <-]; eauto 10|].
    intros (r'&w'&[= <- <-]&[[_ ->]|[Hp _]]); [done|]. rewrite E1 in Hp. done. }
  destruct (bool_decide (Status r = StatusPending)) eqn:E2; bool_hyps.
  - change (world (set_world w1 st)) with w1.
    destruct (svc_now s w1) as [now w2] eqn:En. red_go. split.
    + intros H; repeat case_if; red_go in H; simplify_eq; bool_hyps. exists r, w1. rewrite En. cbn [fst]. split; [done|].
      right. repeat split; (done || lia).
    + intros (r'&w'&[= <- <-]&[[Hs _]|(_&->&Ht)]); [done|]. rewrite En in Ht. cbn [fst] in Ht.
      destruct (now <? UpdatedAt r) eqn:E3; bool_hyps; [lia|].
      destruct (now <? UpdatedAt r + pendingTTL s) eqn:E4; bool_hyps; [done|lia].
  - cbn. split; [done|]. by intros (r'&w'&[= <- <-]&[[Hs _]|(Hs&_)]).
Qed.

(** A password change or recovery is never skipped by deduplication:
    the only skip for such an event is the one for e-mail identities. *)
Lemma change_never_deduplicated s ctx req st d err :
  req_EventType req ≠ EventLoginBootstrap →
  (Submit s ctx req st).1 = Ret (d, err) → Skipped d = true →
  ClassifyCN (req_CN req) = IdentityExternalEmail ∧ Reason d = "cn_is_external_email"%string.
Proof.
  intros Hev H Hsk. destruct (Submit s ctx req st) as [o st'] eqn:E. cbn in H. subst o.
  apply Submit_defer in E as (st1&Hp&_).
  inversion Hp as [| | | | | | |? ? ? ? ? ? ? o ? ? ? ? ? ? ? ? ? Ho
    |? ? ? ? ? ? ? ? ? o ? ? ? ? ? ? ? ? ? ? Ho|? ? ? ? ? ? ? ? ? ? om ? ? ? ? ? ? ? ? ? ? ? Ho];
    simplify_eq; try done.
  - by destruct o as [[]|]; simplify_eq.
  - by destruct o as [[]|]; simplify_eq.
  - by destruct om; simplify_eq.
Qed.

(** C32 Against any store that keeps its contract: once an account is
    recorded as synced, further login_bootstrap events for it are skipped as
    already synced, and no message is sent. *)
Theorem synced_account_skipped s store `{!StoreContract store} ctx req st upn src :
  syncStatusStore s = Some store → ctx_err ctx = None →
  req_EventType req = EventLoginBootstrap →
  BuildUPN (req_CN req) (primaryDomain s) = Ok upn →
  register (world st) (normalizeUPN upn) = Some (StatusSynced, src) →
  (Submit s ctx req st).1 = Ret (decided req upn false true "already_synced", None) ∧
  world (Submit s ctx req st).2 = world st.
Proof.
  intros Hs Hctx Hev Hupn Hreg.
  destruct (contract_get ctx upn (world st) Hctx) as (r&Hget&Hr). rewrite Hreg in Hr. cbn in Hr.
  injection Hr as Hst _.
  assert (skipLoginBootstrap s store ctx upn st = (Ret (true, "already_synced"%string), st)) as Hskip.
  { unfold skipLoginBootstrap. rewrite (bind_ret _ _ st (Ok r) st).
    - cbn. rewrite Hst. done.
    - rewrite (call_run _ _ _ _ Hget). by destruct st. }
  assert (submit_eligible s ctx req upn st = (Ret (decided req upn false true "already_synced", None), st)) as Hsub.
  { unfold submit_eligible. rewrite Hs, bool_decide_true by done. by rewrite (bind_ret _ _ _ _ _ Hskip). }
  unfold Submit, defer_. rewrite Hupn.
  assert (ValidEventType (req_EventType req) = true) as -> by (by rewrite Hev). cbn [negb].
  pose proof (proj1 (BuildUPN_Ok _ _ _) Hupn) as ([Hc|Hc]&_&_); rewrite Hc, !bool_decide_false by done;
    rewrite Hsub; by destruct (req_Password req).
Qed.
End Properties.

(** The additional data as bytes. *)
Lemma passwordAAD_bytes cn upn t :
  passwordAAD cn upn t =
  bytes_of_string "password-sync" ++ 10 :: bytes_of_string (TrimSpace cn) ++
  10 :: bytes_of_string (TrimSpace upn) ++ 10 :: bytes_of_string (format_rfc3339nano t).
Proof. unfold passwordAAD, UTC. cbn [Join]. by rewrite !bytes_of_string_app. Qed.

(** The additional authenticated data binds the fields one by one: for
    names and UPNs without a line break, two messages share their additional
    data only if name, UPN and formatted enqueue time agree. *)
Lemma aad_binds_fields (cn1 cn2 upn1 upn2 : string) (t1 t2 : Time) :
  Forall (λ s, 10 ∉ bytes_of_string (TrimSpace s)) [cn1; cn2; upn1; upn2] →
  PasswordAAD cn1 upn1 t1 = PasswordAAD cn2 upn2 t2 →
  TrimSpace cn1 = TrimSpace cn2 ∧ TrimSpace upn1 = TrimSpace upn2 ∧
  format_rfc3339nano t1 = format_rfc3339nano t2.
Proof.
  rewrite !Forall_cons. intros (H1&H2&H3&H4&_). unfold PasswordAAD. rewrite !passwordAAD_bytes.
  intros H. apply app_inv_head in H. injection H as H.
  apply app_sep_inj in H as [Hcn H]; [|done..].
  apply app_sep_inj in H as [Hupn H]; [|done..].
  by repeat split; apply bytes_of_string_inj.
Qed.

Lemma aad_binds_fields_witness :
  TrimSpace " a1" = TrimSpace "a1 " ∧ TrimSpace "a1@x" = TrimSpace "a1@x" ∧
  format_rfc3339nano 5 = format_rfc3339nano 5.
Proof.
  apply (aad_binds_fields " a1" "a1 " "a1@x" "a1@x" 5 5).
  - apply (bool_decide_unpack _). vm_compute. exact I.
  - vm_compute. reflexivity.
Defined.

(** ** Witnesses: a service over the in-memory store, a recording queue and a
    fixed clock *)

Module Witnesses.
#[local] Existing Instance Latin1Tables.


Definition toy_store : SyncStore MemoryStore := memory_store.

Definition toy_queue : Queue MemoryStore := mkQueue (λ _ _ w, (Ret None, w)).
Definition toy_encrypter : PasswordEncrypter MemoryStore :=
  mkEncrypter (λ _ pw aad w, (Ret (Ok (mkEnvelope "Y3Q=" "bm9uY2U=" "k1" AlgorithmAES256GCM)), w)).

Definition toy_service : Service MemoryStore :=
  mkService "nycu.edu.tw" (Some toy_queue) (Some toy_encrypter) (λ w, (1000, w)) (Some toy_store) 300.

Definition synced : MemoryStore := (memory_MarkSynced live "a1@nycu.edu.tw" 7 (NewMemoryStore 0)).2.

Definition start (w : MemoryStore) : St MemoryStore := mkSt [[112; 119; 33]] [] NewResponse w.

Definition request (cn : string) (ev : EventType) : Request :=
  mkRequest cn ev (Some (mkSlice 0 3)) "A One" "a1@example.org".

Definition bootstrap := request "a1" EventLoginBootstrap.
Definition change := request "a1" EventPasswordChange.
Definition external := request "a1@gmail.com" EventPasswordChange.

Lemma submit_rejects_without_effect_witness :
  world (Submit toy_service background external (start synced)).2 = synced ∧
  (Submit toy_service background external (start synced)).1
  = Ret (mkDecision IdentityExternalEmail "" false true "cn_is_external_email", None).
Proof.
  apply (submit_rejects_without_effect toy_service background external (start synced)).
  right; left. reflexivity.
Defined.

Definition submitted := Submit toy_service background change (start synced).

Lemma submit_enqueued_effects_witness : ∃ upn q enc now w0 w1 env w2 w3,
    BuildUPN (req_CN change) (primaryDomain toy_service) = Ok upn ∧
    mkDecision IdentityEmployeeID "a1@nycu.edu.tw" true false "" = decided change upn true false "" ∧
    queue toy_service = Some q ∧ encrypter toy_service = Some enc ∧
    svc_now toy_service w0 = (now, w1) ∧
    encrypt enc background (slice_bytes (mem (start synced)) (mkSlice 0 3))
      (PasswordAAD (TrimSpace (req_CN change)) upn now) w1 = (Ret (Ok env), w2) ∧
    EnqueuePasswordSync q background (sync_message background change upn now env) w2 = (Ret None, w3) ∧
    msg_Password (sync_message background change upn now env) = ""%string ∧
    (req_EventType change ≠ EventLoginBootstrap → w0 = world (start synced)) ∧
    (w0 = world (start synced) ∨ asked_store toy_service background upn (world (start synced)) w0) ∧
    ∃ om, MarkPending memory_store background upn now w3 = (Ret om, world submitted.2).
Proof.
  apply (submit_enqueued_effects toy_service background change (start synced)
    (mkDecision IdentityEmployeeID "a1@nycu.edu.tw" true false "") submitted.2).
  - vm_compute. reflexivity.
  - reflexivity.
Defined.

Lemma change_never_deduplicated_witness :
  ClassifyCN (req_CN external) = IdentityExternalEmail ∧
  Reason (mkDecision IdentityExternalEmail "" false true "cn_is_external_email") = "cn_is_external_email"%string.
Proof.
  apply (change_never_deduplicated toy_service background external (start synced)
    (mkDecision IdentityExternalEmail "" false true "cn_is_external_email") None).
  - discriminate.
  - reflexivity.
  - reflexivity.
Defined.

Lemma synced_account_skipped_witness :
  (Submit toy_service background bootstrap (start synced)).1
    = Ret (decided bootstrap "a1@nycu.edu.tw" false true "already_synced", None) ∧
  world (Submit toy_service background bootstrap (start synced)).2 = synced.
Proof.
  apply (synced_account_skipped toy_service memory_store background bootstrap (start synced)
    "a1@nycu.edu.tw" 7); reflexivity.
Defined.
End Witnesses.
