(* ===== verification/Hook.v ===== *)
(** * The hook handler (internal/handler/hook.go)

    [ServeHTTP] reads the body, decodes it, validates it, submits it to the
    migration service and answers.  The request struct is decoded with the
    rules of encoding/json (Json.v); its password field is decoded by
    [UnmarshalJSON] (HookJson.v) into memory that the deferred calls wipe. *)
From stdpp Require Import base gmap strings list pretty.
From Stdlib Require Import ZArith Lia Ascii.
From S2P Require Import Prelude Utf8 GoStrings GoTime Json GoBase Observability GoState HookJson SensitiveIO Http.
From S2P Require Import PasswordCrypto SyncStatus Identity MigrationService.

Local Open Scope Z_scope.

(** ** Data *)

Record passwordHookRequest := mkHookRequest {
  b_CN : string;
  b_EventType : EventType;
  b_Password : option Slice;
  b_DisplayName : string;
  b_Mail : string
}.

Definition zero_hook_request : passwordHookRequest := mkHookRequest "" "" None "" "".

Record Hook (W : Type) := mkHook {
  service : Service W;
  problemBaseURL : string
}.
Arguments mkHook {W} _ _.
Arguments service {W} _.
Arguments problemBaseURL {W} _.

(** NewHookWithOptions; the logger and recorder are never nil afterwards. *)
Definition NewHookWithOptions {W} (svc : Service W) (base : string) : Hook W :=
  mkHook svc (TrimRight base "/"%char).

Definition NewHook {W} (svc : Service W) (base : string) : Hook W := NewHookWithOptions svc base.

(** validate: the detail of the first problem, or the empty string. *)
Definition validate (r : passwordHookRequest) : string :=
  if bool_decide (TrimSpace (b_CN r) = "") then "Field 'cn' is required"
  else if match b_Password r with Some sl => (s_len sl =? 0)%nat | None => true end then "Field 'password' is required"
  else if bool_decide (TrimSpace (b_DisplayName r) = "") then "Field 'displayName' is required"
  else if bool_decide (TrimSpace (b_Mail r) = "") then "Field 'mail' is required"
  else if bool_decide (TrimSpace (b_EventType r) = "") then "Field 'eventType' is required"
  else if negb (ValidEventType (b_EventType r))
  then "Field 'eventType' must be one of login_bootstrap, password_change, password_recovery"
  else "".

(** ** Decoding the request *)

Definition hook_fields : list string := ["cn"; "eventType"; "password"; "displayName"; "mail"]%string.

(** A string field; a value of another kind is a type error, which
    json.Unmarshal remembers while it goes on. *)
Definition set_hook_string (name : string) (v : json) (b : passwordHookRequest) (err : option error)
    : passwordHookRequest * option error :=
  let '(mkHookRequest cn ev pw dn mail) := b in
  let old := if bool_decide (name = "cn"%string) then cn
             else if bool_decide (name = "eventType"%string) then ev
             else if bool_decide (name = "displayName"%string) then dn else mail in
  match string_unmarshal old v with
  | None => (b, match err with Some e => Some e | None => Some (ErrorText "json: cannot unmarshal into string") end)
  | Some s =>
    (if bool_decide (name = "cn"%string) then mkHookRequest s ev pw dn mail
     else if bool_decide (name = "eventType"%string) then mkHookRequest cn s pw dn mail
     else if bool_decide (name = "displayName"%string) then mkHookRequest cn ev pw s mail
     else mkHookRequest cn ev pw dn s, err)
  end.

Section Decode.
Context {W : Type}.

(** The members of the request object in order; an error of the password's
    UnmarshalJSON ends the decoding. *)
Fixpoint decode_request (ms : list (bytes * json)) (b : passwordHookRequest) (err : option error)
    : M (St W) (passwordHookRequest * option error) :=
  match ms with
  | [] => mret (b, err)
  | (key, v) :: ms' =>
    match unquote key with
    | None => mret (b, Some (ErrorText "json: invalid key"))
    | Some k =>
      match field_match hook_fields k with
      | None => decode_request ms' b err
      | Some name =>
        if bool_decide (name = "password"%string) then
          out ← UnmarshalJSON (b_Password b) v;
          let b' := mkHookRequest (b_CN b) (b_EventType b) out.1 (b_DisplayName b) (b_Mail b) in
          match out.2 with
          | Some e => mret (b', Some e)
          | None => decode_request ms' b' err
          end
        else
          let '(b', err') := set_hook_string name v b err in decode_request ms' b' err'
      end
    end
  end.

(** json.Unmarshal(rawBody, &body). *)
Definition unmarshal_request (data : bytes) : M (St W) (passwordHookRequest * option error) :=
  match parse_document data with
  | None => mret (zero_hook_request, Some (ErrorText "json: syntax error"))
  | Some JNull => mret (zero_hook_request, None)
  | Some (JObj ms) => decode_request ms zero_hook_request None
  | Some _ => mret (zero_hook_request, Some (ErrorText "json: cannot unmarshal into struct"))
  end.
End Decode.

(** ** The handler *)

Section Serve.
Context {U : UnicodeTables} {W R : Type} (h : Hook W) (read : Reader R).
Implicit Types r : HttpRequest R.

Definition recordRejected r (status : Z) (outc : string) (eventType : EventType) : M (St W) unit :=
  let labels : Labels := {[ "status"%string := pretty status; "outcome"%string := outc ]} in
  let labels := if bool_decide (eventType = ""%string) then labels else <["eventType" := eventType]> labels in
  emit (Inc MetricHookRequestsTotal labels) ;;
  emit (LogAttrs ActionHookRejected
    ([("action", VString ActionHookRejected); ("status", VInt status); ("outcome", VString outc)]%string
     ++ SafeIdentityAttrs (mkSafeIdentity (requestid_From (req_ctx r)) "" "" eventType ""))).

Definition recordDecision r (status : Z) (eventType : EventType) (d : Decision) : M (St W) unit :=
  let outc := if Skipped d then "skipped"%string else if Enqueued d then "enqueued"%string else "accepted"%string in
  let labels : Labels :=
    {[ "status"%string := pretty status; "outcome"%string := outc;
       "eventType"%string := eventType; "identityType"%string := IdentityTypeOf d ]} in
  let labels := if bool_decide (Reason d = ""%string) then labels else <["reason" := Reason d]> labels in
  emit (Inc MetricHookRequestsTotal labels) ;;
  (if Skipped d then emit (Inc MetricMigrationSkippedTotal labels) else mret tt) ;;
  let action := if Skipped d then ActionHookSkipped else ActionHookAccepted in
  emit (LogAttrs action
    ([("action", VString action); ("outcome", VString outc); ("status", VInt status)]%string
     ++ SafeIdentityAttrs (mkSafeIdentity (requestid_From (req_ctx r)) "" (d_UPN d) eventType (IdentityTypeOf d))
     ++ opt_attr "reason" (Reason d))).

Definition writeProblem (p : Problem) : M (St W) unit := Write p.

(** The problem constructors with this request's path and trace id. *)
Definition validation_problem r (detail : string) : Problem :=
  Validation (problemBaseURL h) (Path r) (requestid_From (req_ctx r)) detail.
Definition internal_problem r (detail : string) : Problem :=
  Internal (problemBaseURL h) (Path r) (requestid_From (req_ctx r)) detail.

(** ServeHTTP once the body is decoded, under the deferred wipe of the
    password. *)
Definition serve_decoded r (body : passwordHookRequest) (err : option error) : M (St W) unit :=
  match err with
  | Some _ =>
      recordRejected r 400 "validation_error" "" ;;
      writeProblem (validation_problem r "request body must be valid json")
  | None =>
    let detail := validate body in
    if negb (bool_decide (detail = ""%string)) then
      recordRejected r 400 "validation_error" (b_EventType body) ;;
      writeProblem (validation_problem r detail)
    else
      out ← Submit (service h) (req_ctx r)
              (mkRequest (b_CN body) (b_EventType body) (b_Password body) (b_DisplayName body) (b_Mail body));
      match out.2 with
      | Some e =>
        if errors_Is e is_unknown_identity || errors_Is e is_external_identity then
          recordRejected r 400 "validation_error" (b_EventType body) ;;
          writeProblem (validation_problem r (ErrorString e))
        else
          recordRejected r 500 "accept_error" (b_EventType body) ;;
          writeProblem (internal_problem r "failed to accept password sync request")
      | None =>
          recordDecision r 202 (b_EventType body) out.1 ;;
          WriteHeader 202
      end
  end.

(** ServeHTTP after ReadAll, under the deferred wipe of the raw body. *)
Definition serve_body r (raw : Slice) (err : option error) : M (St W) unit :=
  match err with
  | Some _ =>
      recordRejected r 400 "validation_error" "" ;;
      writeProblem (validation_problem r "request body must be readable")
  | None =>
      data ← read_slice raw;
      out ← unmarshal_request data;
      defer_ (ZeroBytes (b_Password out.1)) (serve_decoded r out.1 out.2)
  end.

Definition ServeHTTP (fuel : nat) : Handler W R := λ r,
  if negb (bool_decide (Method r = "POST"%string)) then
    recordRejected r 405 "method_not_allowed" "" ;;
    WriteHeader 405
  else
    out ← ReadAll fuel read (Body r);
    let '(raw, err, _) := out in
    defer_ (ZeroBytes (Some raw)) (serve_body r raw err).
End Serve.

(** ** Memory *)

Lemma only_secret_zeroed k p m sl : only_secret k p m → (match p with Some q => q = sl | None => True end) →
  only_secret k None (mem_zero m sl).
Proof.
  intros Hm Hp. destruct p as [q|]; [subst q; by apply (only_secret_zero k (Some sl))|].
  destruct Hm as [_ Hb]. split; [done|]. intros i b Hi H. unfold mem_zero in H.
  destruct (decide (i = s_loc sl)) as [->|Hne].
  - rewrite list_lookup_alter_eq in H. apply fmap_Some in H as (b0&Hb0&->). specialize (Hb _ _ Hi Hb0).
    unfold zero_prefix. apply Forall_app. split; [apply Forall_map, Forall_true; done|by apply Forall_drop].
  - rewrite list_lookup_alter_ne in H by done. by eapply Hb.
Qed.

Section HookMemory.
Context {W : Type}.
Implicit Types st : St W.

(** Decoding leaves one secret at most: the password it returns.  The
    password of an earlier duplicate member is wiped. *)
Lemma UnmarshalJSON_memory k p v st : (k <= length (mem st))%nat → only_secret k p (mem st) →
  ∃ out m', UnmarshalJSON p v st = (Ret out, set_mem m' st) ∧ take k m' = take k (mem st) ∧
    (length (mem st) <= length m')%nat ∧ only_secret k out.1 m'.
Proof.
  intros Hk Hm. set (m1 := match p with Some sl => mem_zero (mem st) sl | None => mem st end).
  assert (ZeroBytes p st = (Ret tt, set_mem m1 st)) as Hz by (destruct p; [done|by destruct st]).
  assert (take k m1 = take k (mem st) ∧ length m1 = length (mem st)) as [Ht1 Hl1].
  { subst m1. destruct p as [sl|]; [|done]. destruct Hm as [Hloc _]. specialize (Hloc sl eq_refl).
    split; [|apply mem_zero_length]. apply take_alter. lia. }
  apply only_secret_zero in Hm. fold m1 in Hm. unfold UnmarshalJSON. rewrite (bind_ret _ _ _ _ _ Hz).
  destruct v as [| | |raw| |]; try (eexists (None, _), m1; split; [reflexivity|]; split_and!; [done|lia|done]).
  destruct (decodeJSONStringBytes_memory k (34 :: raw ++ [34]) (set_mem m1 st)) as (r&m'&Hd&Ht&Hl&Hs);
    [cbn; lia|done|].
  rewrite (bind_ret _ _ _ _ _ Hd).
  destruct r as [sl|e]; eexists (_, _), m'; (split; [reflexivity|]); cbn in *; split_and!; try done; try congruence; lia.
Qed.

Lemma decode_request_memory k ms : ∀ b err st, (k <= length (mem st))%nat → only_secret k (b_Password b) (mem st) →
  ∃ b' err' m', decode_request ms b err st = (Ret (b', err'), set_mem m' st) ∧ take k m' = take k (mem st) ∧
    (length (mem st) <= length m')%nat ∧ only_secret k (b_Password b') m'.
Proof.
  induction ms as [|[key v] ms IH]; intros b err st Hk Hm; cbn [decode_request].
  { exists b, err, (mem st). split; [by destruct st|]. done. }
  destruct (unquote key) as [kk|]; [|eexists b, _, (mem st); split; [by destruct st|done]].
  destruct (field_match hook_fields kk) as [name|]; [|by apply IH].
  case_bool_decide.
  - destruct (UnmarshalJSON_memory k (b_Password b) v st Hk Hm) as ([p e]&m1&Hu&Ht&Hl&Hs).
    rewrite (bind_ret _ _ _ _ _ Hu). cbn [fst snd] in *. destruct e as [e|].
    + eexists _, _, m1. split; [reflexivity|]. done.
    + destruct (IH (mkHookRequest (b_CN b) (b_EventType b) p (b_DisplayName b) (b_Mail b)) err (set_mem m1 st))
        as (b'&err'&m'&Hd&Ht'&Hl'&Hs'); [cbn; lia|done|].
      exists b', err', m'. rewrite Hd. cbn in *. split_and!; [done|congruence|lia|done].
  - destruct (set_hook_string name v b err) as [b1 err1] eqn:E.
    assert (b_Password b1 = b_Password b) as Hp.
    { unfold set_hook_string in E. destruct b as [cn ev pw dn mail].
      destruct (string_unmarshal _ v); [|by injection E as <- _].
      injection E as <- _. by repeat case_bool_decide. }
    apply IH; [done|by rewrite Hp].
Qed.

Lemma unmarshal_request_memory k data st : (k <= length (mem st))%nat → only_secret k None (mem st) →
  ∃ b err m', unmarshal_request data st = (Ret (b, err), set_mem m' st) ∧ take k m' = take k (mem st) ∧
    (length (mem st) <= length m')%nat ∧ only_secret k (b_Password b) m'.
Proof.
  intros Hk Hm. unfold unmarshal_request.
  destruct (parse_document data) as [[| | | | |ms]|]; try by apply decode_request_memory.
  all: eexists _, _, (mem st); split; [by destruct st|]; split_and!; try done; cbn; lia.
Qed.
End HookMemory.

Section ServeLemmas.
Context {U : UnicodeTables} {W R : Type} (h : Hook W).
Implicit Types (st : St W) (r : HttpRequest R).

Definition submit_request (body : passwordHookRequest) : Request :=
  mkRequest (b_CN body) (b_EventType body) (b_Password body) (b_DisplayName body) (b_Mail body).

(** Recording and answering touch neither memory nor world. *)
Lemma rejected_run r status outc ev p st : r_status (resp st) = 0 → p_Status p ≠ 0 →
  ∃ st', (recordRejected r status outc ev ;; writeProblem p) st = (Ret tt, st') ∧
    mem st' = mem st ∧ world st' = world st ∧ r_status (resp st') = p_Status p.
Proof.
  intros H0 Hp. unfold recordRejected, writeProblem. step_go. rewrite Write_run by done. by eexists.
Qed.

Lemma rejected_mem r status outc ev p st o st' :
  (recordRejected r status outc ev ;; writeProblem p) st = (o, st') → mem st' = mem st.
Proof.
  unfold recordRejected, writeProblem, Write, SetHeader, WriteHeader, WriteBody. step_go.
  destruct (r_status (resp st) =? 0); cbn; intros [= _ <-]; done.
Qed.

Lemma decision_run r status ev d st : ∃ st', (recordDecision r status ev d ;; WriteHeader 202) st = (Ret tt, st') ∧
    mem st' = mem st ∧ world st' = world st ∧ (r_status (resp st) = 0 → r_status (resp st') = 202).
Proof.
  unfold recordDecision, WriteHeader. step_go. destruct (Skipped d); eexists; (split; [reflexivity|]); cbn;
    (split_and!; [done|done|by intros ->]).
Qed.

(** However it ends, the only memory the decoded request's handling writes
    is the password, and that with zeros. *)
Lemma serve_decoded_mem r body err st o st' :
  serve_decoded h r body err st = (o, st') →
  mem st' = mem st ∨ (∃ sl, b_Password body = Some sl ∧ mem st' = mem_zero (mem st) sl).
Proof.
  unfold serve_decoded. destruct err as [e|]; [intros H; left; by eapply rejected_mem|].
  case_if; [intros H; left; by eapply rejected_mem|]. intros H.
  assert (∀ o1 st1, Submit (service h) (req_ctx r) (submit_request body) st = (o1, st1) →
    mem st1 = mem st ∨ (∃ sl, b_Password body = Some sl ∧ mem st1 = mem_zero (mem st) sl)) as Hs.
  { intros o1 st1 H1. apply Submit_frame in H1 as (Hm&_). cbn in Hm.
    destruct (b_Password body) as [sl|]; [right; eauto|by left]. }
  apply bind_inv in H as [([d se]&st1&H1&H)|(v&H1&->)]; apply Hs in H1; [|done].
  assert (mem st' = mem st1) as ->; [|done]. cbn [fst snd] in H. destruct se as [e|].
  - case_if; by eapply rejected_mem.
  - destruct (decision_run r 202 (b_EventType body) d st1) as (st2&Hd&Hm&_). rewrite Hd in H. by injection H as _ <-.
Qed.

(** The deferred wipe of the password leaves no secret. *)
Lemma serve_password_wiped k r body err st o st' :
  only_secret k (b_Password body) (mem st) →
  defer_ (ZeroBytes (b_Password body)) (serve_decoded h r body err) st = (o, st') →
  only_secret k None (mem st') ∧ take k (mem st') = take k (mem st) ∧ length (mem st') = length (mem st).
Proof.
  intros Hm H. unfold defer_ in H. destruct (serve_decoded h r body err st) as [o1 st1] eqn:E.
  apply serve_decoded_mem in E.
  assert (∀ sl, b_Password body = Some sl → take k (mem_zero (mem st) sl) = take k (mem st) ∧
    take k (mem_zero (mem_zero (mem st) sl) sl) = take k (mem st)) as Htk.
  { intros sl Hsl. destruct Hm as [Hloc _]. specialize (Hloc sl Hsl). unfold mem_zero.
    by rewrite !take_alter by lia. }
  destruct (b_Password body) as [sl|] eqn:Ep.
  - cbn in H. injection H as <- <-. cbn. destruct (Htk sl eq_refl) as [Ht1 Ht2].
    rewrite mem_zero_length. destruct E as [->|(sl'&[= <-]&->)].
    + split_and!; [by eapply only_secret_zeroed|done|done].
    + split_and!; [|done|apply mem_zero_length]. eapply (only_secret_zeroed k None); [|done].
      by eapply only_secret_zeroed.
  - cbn in H. injection H as <- <-. destruct E as [->|(sl'&?&_)]; done.
Qed.

Lemma serve_body_mem r raw err st o st' :
  serve_body h r raw err st = (o, st') →
  take (length (mem st)) (mem st') = mem st ∧ only_secret (length (mem st)) None (mem st').
Proof.
  assert (only_secret (length (mem st)) None (mem st)) as H0.
  { split; [done|]. intros i b Hi Hb. apply lookup_lt_Some in Hb. lia. }
  unfold serve_body. destruct err as [e|].
  { intros H. apply rejected_mem in H. rewrite H. split; [by rewrite take_ge by lia|done]. }
  rewrite (bind_ret _ _ st (slice_bytes (mem st) raw) st) by done.
  destruct (unmarshal_request_memory (length (mem st)) (slice_bytes (mem st) raw) st) as (b&er&m'&Hu&Ht&Hl&Hs);
    [lia|done|].
  rewrite (bind_ret _ _ _ _ _ Hu). cbn [fst snd]. intros H.
  eapply serve_password_wiped in H as (Hm&Htk&_); [|exact Hs]. split; [|done].
  rewrite Htk. cbn. rewrite Ht. by rewrite take_ge by lia.
Qed.
End ServeLemmas.

(** ** Properties *)

(** C6 The handler leaves no secret behind.  Take a body reader that keeps
    io.Reader's contract and makes progress, and let [ServeHTTP] end, by
    returning or by a panic inside the service, on a body that was read to its
    end or failed half-way.  The raw body is exactly what the reader delivered
    and is zero in the end; every other buffer allocated while it ran is zero
    over its whole capacity: those abandoned while reading, the decoded
    password, and the passwords of duplicate members or of a body rejected
    half-way.  If the reader leaves the part of its buffer that it did not
    fill alone (as the byte reader does that the signature check puts in place
    of the body), the raw body's buffer is zero over its whole capacity too.
    Memory that existed before is untouched. *)
Theorem hook_leaves_no_secret {U : UnicodeTables} {W R} (h : Hook W) (read : Reader R) (μ : R → nat)
    `{!ReaderLaws read} `{!ReaderProgress read μ} (fuel : nat) (r : HttpRequest R) (st st' : St W) (o : outcome unit) :
  (μ (Body r) < fuel)%nat → Method r = "POST"%string → ServeHTTP h read fuel r st = (o, st') →
  ∃ raw e rest st1,
    ReadAll fuel read (Body r) st = (Ret (raw, match e with ErrEOF => None | _ => Some e end, rest), st1) ∧
    reads read (Body r) (slice_bytes (mem st1) raw) e rest ∧
    all_zero (slice_bytes (mem st') raw) ∧
    (∀ i b, (length (mem st) <= i)%nat → i ≠ s_loc raw → mem st' !! i = Some b → all_zero b) ∧
    (tidy read → ∀ i b, (length (mem st) <= i)%nat → mem st' !! i = Some b → all_zero b) ∧
    take (length (mem st)) (mem st') = mem st.
Proof.
  intros Hfuel Hpost H. unfold ServeHTTP in H. rewrite bool_decide_true in H by done. cbn [negb] in H.
  destruct (ReadAll_run read μ fuel (Body r) st Hfuel)
    as (raw&s'&bs&e&st1&Hrun&Hreads&Hbs&((Hk&Hloc)&_&Hclean)&(Htk&_)).
  rewrite (bind_ret _ _ _ _ _ Hrun) in H. unfold defer_ in H.
  destruct (serve_body h r raw _ st1) as [o1 st2] eqn:E. cbn in H. injection H as <- <-.
  apply serve_body_mem in E as [Hm2 [_ Hs2]]. cbn [mem set_mem].
  rewrite (take_ge (mem st)) in Htk by lia. subst bs.
  assert (∀ i b, (length (mem st) <= i)%nat → i ≠ s_loc raw → mem_zero (mem st2) raw !! i = Some b → all_zero b) as Hother.
  { intros i b Hi Hne Hb. unfold mem_zero in Hb. rewrite list_lookup_alter_ne in Hb by done.
    destruct (decide (i < length (mem st1))%nat) as [Hlt|Hge].
    - eapply (Hclean i); [done|done|]. by rewrite <- Hm2, lookup_take_lt by done.
    - eapply (Hs2 i); [lia|done]. }
  exists raw, e, s', st1. split_and!; [exact Hrun|done|auto with go|done| |].
  - intros Htidy i b Hi Hb. destruct (decide (i = s_loc raw)) as [->|Hne]; [|by eapply Hother].
    apply (ReadAll_tail read Htidy) in Hrun as Hz. unfold tail_zero in Hz. unfold mem_zero in Hb.
    rewrite list_lookup_alter_eq in Hb. rewrite <- Hm2, lookup_take_lt in Hz by done.
    destruct (mem st2 !! s_loc raw) as [b0|]; [|done]. injection Hb as <-. cbn in Hz.
    by apply all_zero_prefix.
  - unfold mem_zero. rewrite take_alter by done.
    transitivity (take (length (mem st)) (mem st1)); [|exact Htk].
    rewrite <- Hm2, take_take, Nat.min_l by lia. done.
Qed.

(** Which requests are valid: every field is present (not blank; the
    password not empty) and the event type is one of the three known ones. *)
Lemma validate_iff (b : passwordHookRequest) :
  validate b = ""%string ↔
  TrimSpace (b_CN b) ≠ ""%string ∧ (∃ sl, b_Password b = Some sl ∧ s_len sl ≠ 0%nat) ∧
  TrimSpace (b_DisplayName b) ≠ ""%string ∧ TrimSpace (b_Mail b) ≠ ""%string ∧
  b_EventType b ∈ [EventLoginBootstrap; EventPasswordChange; EventPasswordRecovery].
Proof.
  assert (ValidEventType (b_EventType b) = true ↔
    b_EventType b ∈ [EventLoginBootstrap; EventPasswordChange; EventPasswordRecovery]) as Hv.
  { unfold ValidEventType. rewrite !elem_of_cons, elem_of_nil, !orb_true_iff, !bool_decide_eq_true. tauto. }
  rewrite <- Hv. unfold validate. case_bool_decide as E1; [split; [done|by intros (?&_)]|].
  destruct (match b_Password b with Some sl => _ | None => _ end) eqn:E2.
  { split; [done|]. intros (_&(sl&Hp&Hl)&_). rewrite Hp in E2. by apply Nat.eqb_eq in E2. }
  case_bool_decide as E3; [split; [done|by intros (_&_&?&_)]|].
  case_bool_decide as E4; [split; [done|by intros (_&_&_&?&_)]|].
  case_bool_decide as E5.
  { split; [done|]. intros (_&_&_&_&Hev). unfold ValidEventType in Hev.
    rewrite !orb_true_iff, !bool_decide_eq_true in Hev. by destruct Hev as [[Hev|Hev]|Hev]; rewrite Hev in E5. }
  destruct (ValidEventType (b_EventType b)); cbn [negb]; [|split; [done|by intros (_&_&_&_&?)]].
  split; [|done]. intros _. split_and!; try done.
  destruct (b_Password b) as [sl|]; [|done]. exists sl. split; [done|]. by apply Nat.eqb_neq.
Qed.

(** C27 The answer to a decoded request.  A body that does not decode, or that
    [validate] rejects, is answered 400 and no collaborator is called.
    Otherwise the answer follows [Submit]: 202 exactly when it returned no
    error, 400 for an identity that is not supported, 500 for every other
    error; a panic goes on to the recovery middleware. *)
Theorem hook_answers {U : UnicodeTables} {W R} (h : Hook W) (r : HttpRequest R) (body : passwordHookRequest)
    (err : option error) (st : St W) :
  r_status (resp st) = 0 →
  let out := serve_decoded h r body err st in
  let answered status w := ∃ st', out = (Ret tt, st') ∧ r_status (resp st') = status ∧ world st' = w in
  if bool_decide (err = None ∧ validate body = ""%string) then
    match Submit (service h) (req_ctx r) (submit_request body) st with
    | (Panic v, st1) => out = (Panic v, st1)
    | (Ret (_, None), st1) => answered 202 (world st1)
    | (Ret (_, Some e), st1) =>
        answered (if errors_Is e is_unknown_identity || errors_Is e is_external_identity then 400 else 500) (world st1)
    end
  else answered 400 (world st).
Proof.
  intros H0 out answered. subst out answered. cbv beta. unfold serve_decoded.
  destruct err as [e|].
  { rewrite bool_decide_false by (by intros [? _]).
    edestruct (rejected_run (W:=W) r 400 "validation_error" "") as (st'&->&_&Hw&Hs); [exact H0| |by eexists]. done. }
  destruct (decide (validate body = ""%string)) as [Hv|Hv].
  2: { rewrite (bool_decide_false (validate body = _)) by done. cbn [negb].
       rewrite bool_decide_false by (by intros [_ ?]).
       edestruct (rejected_run (W:=W) r 400 "validation_error" (b_EventType body)) as (st'&->&_&Hw&Hs);
         [exact H0| |by eexists]. done. }
  rewrite !bool_decide_true by done. cbn [negb]. fold (submit_request body).
  destruct (Submit (service h) (req_ctx r) (submit_request body) st) as [[[d [e|]]|v] st1] eqn:E.
  - apply Submit_frame in E as Hf. destruct Hf as (_&_&Hresp).
    rewrite (bind_ret _ _ _ _ _ E). cbn [fst snd].
    destruct (errors_Is e is_unknown_identity || errors_Is e is_external_identity);
      (edestruct (rejected_run (W:=W) r) as (st'&->&_&Hw&Hs); [by rewrite Hresp| |by eexists]; done).
  - apply Submit_frame in E as Hf. destruct Hf as (_&_&Hresp).
    rewrite (bind_ret _ _ _ _ _ E). cbn [fst snd].
    destruct (decision_run r 202 (b_EventType body) d st1) as (st'&->&_&Hw&Hs).
    eexists. split; [done|]. split; [apply Hs; by rewrite Hresp|done].
  - by rewrite (bind_panic _ _ _ _ _ E).
Qed.

(** ** Witnesses *)

Module HookWitnesses.
Import MigrationService.Witnesses.
#[local] Existing Instance Latin1Tables.

Definition toy_hook : Hook MemoryStore := NewHook toy_service "https://x/problems/".

Definition toy_body : bytes := single_quoted
  "{'cn':'a1','password':'old','Password':'p\u0077','displayName':'A','mail':'a@x','eventType':'password_change'}".

Definition toy_request : HttpRequest bytes :=
  mkHttpRequest "POST" "/api/v1/hook/password" "10.0.0.1:1" ∅ toy_body background.

Definition served := ServeHTTP toy_hook BytesReader 1000 toy_request (mkSt [] [] NewResponse synced).

(** The request is accepted; three buffers were used, one for the body and
    two for passwords (the second member wins), and none is left with data. *)
Example toy_served : r_status (resp served.2) = 202 ∧ length (mem served.2) = 3%nat ∧
  forallb (forallb (Z.eqb 0)) (mem served.2) = true.
Proof. vm_compute. done. Qed.

Lemma hook_leaves_no_secret_witness :
  ∃ raw e rest st1,
    ReadAll 1000 BytesReader toy_body (mkSt [] [] NewResponse synced) = (Ret (raw, match e with ErrEOF => None | _ => Some e end, rest), st1) ∧
    reads BytesReader toy_body (slice_bytes (mem st1) raw) e rest ∧
    all_zero (slice_bytes (mem served.2) raw) ∧
    (∀ i b, (0 <= i)%nat → i ≠ s_loc raw → mem served.2 !! i = Some b → all_zero b) ∧
    (tidy BytesReader → ∀ i b, (0 <= i)%nat → mem served.2 !! i = Some b → all_zero b) ∧
    take 0 (mem served.2) = [].
Proof.
  apply (hook_leaves_no_secret toy_hook BytesReader length 1000 toy_request (mkSt [] [] NewResponse synced)
    served.2 served.1).
  - apply Nat.ltb_lt. vm_compute. reflexivity.
  - reflexivity.
  - vm_compute. reflexivity.
Defined.

(** A reader that keeps the contract and uses all of its buffer as scratch
    space: what it leaves past the bytes it delivered is not wiped. *)
Definition scratch_reader : Reader bytes := λ p s,
  let '((q, n, e), s') := BytesReader p s in ((take n q ++ map (λ _, 85) (drop n q), n, e), s').

#[local] Instance scratch_reader_laws : ReaderLaws scratch_reader.
Proof.
  split. intros p s q n e s' H. unfold scratch_reader in H. destruct (BytesReader p s) as [[[q1 n1] e1] s1] eqn:E.
  injection H as <- <- <- <-. apply reader_bounds in E as [Hq Hn]. rewrite length_app, length_take, length_map, length_drop. lia.
Qed.

Example scratch_survives :
  r_status (resp (ServeHTTP toy_hook scratch_reader 1000 toy_request (mkSt [] [] NewResponse synced)).2) = 202 ∧
  existsb (existsb (Z.eqb 85)) (mem (ServeHTTP toy_hook scratch_reader 1000 toy_request (mkSt [] [] NewResponse synced)).2) = true.
Proof. vm_compute. done. Qed.

Definition toy_decoded : passwordHookRequest :=
  mkHookRequest "a1" EventPasswordChange (Some (mkSlice 0 3)) "A" "a@x".

Lemma hook_answers_witness : ∃ st',
  serve_decoded toy_hook toy_request toy_decoded None (start synced) = (Ret tt, st') ∧
  r_status (resp st') = 202 ∧
  world st' = world (Submit toy_service background (submit_request toy_decoded) (start synced)).2.
Proof.
  pose proof (hook_answers toy_hook toy_request toy_decoded None (start synced) eq_refl) as H.
  vm_compute in H. vm_compute. exact H.
Defined.
End HookWitnesses.
