(* ===== verification/Worker.v ===== *)
(** * The worker (internal/worker/worker.go)

    [Run] receives messages and hands each to [processMessage], which decodes
    it, decrypts and processes it with retries, and settles it.  The
    collaborators are the interfaces of the source over a world [W]; receiver
    and processor can also touch the byte buffers (they are handed some), so
    they are statements over the whole state.  A context of the source is
    represented, at each call, by its state at that moment. *)
From stdpp Require Import base gmap strings list pretty.
From Stdlib Require Import ZArith Lia Ascii.
From S2P Require Import Prelude Utf8 GoStrings GoTime Json GoBase Observability GoState SensitiveIO Http.
From S2P Require Import PasswordCrypto SyncStatus Identity MigrationService.

Local Open Scope Z_scope.

(** ** Constants *)

Definition passwordSyncKind := "password-sync"%string.
Definition DeadLetterReasonInvalidMessageSchema := "invalid_message_schema"%string.
Definition DeadLetterReasonPermanentProcessor := "permanent_processor_error"%string.
Definition DeadLetterReasonTransientRetriesExhausted := "transient_processor_retries_exhausted"%string.
Definition dlqDescriptionInvalidMessage := "invalid password sync message"%string.
Definition dlqDescriptionPermanentError := "permanent processor error"%string.
Definition dlqDescriptionRetriesExhausted := "transient processor retries exhausted"%string.
Definition defaultSettlementTimeout : Duration := 10 * Second.
Definition defaultEmptyReceiveDelay : Duration := 250 * Millisecond.
Definition defaultRetryBackoffs : list Duration := [Second; 2 * Second; 4 * Second].
Definition PermanentReasonProcessorError := DeadLetterReasonPermanentProcessor.

(** ** Data *)

(** A *Message; [m_ptr] is the pointer's identity. *)
Record Message := mkMsg {
  m_ptr : nat;
  m_Body : Slice;
  Kind : string
}.

Record PasswordSyncCommand := mkCommand {
  cmd_CN : string;
  cmd_UPN : string;
  cmd_TraceID : string;
  cmd_Password : Slice;
  cmd_DisplayName : string;
  cmd_Mail : string;
  cmd_EnqueuedAt : Time
}.

Record DeadLetterEntry := mkEntry {
  e_Kind : string;
  e_CN : string;
  e_UPN : string;
  e_Reason : string;
  e_Description : string;
  e_Attempts : Z;
  e_EnqueuedAt : Time;
  e_FailedAt : Time;
  e_Password : string
}.

Record Receiver (W : Type) := mkReceiver {
  ReceiveMessages : Context → Z → M (St W) (result (list (option Message)));
  CompleteMessage : Context → option Message → M (St W) (option error);
  AbandonMessage : Context → option Message → M (St W) (option error)
}.
Arguments mkReceiver {W} _ _ _.
Arguments ReceiveMessages {W} _ _ _.
Arguments CompleteMessage {W} _ _ _.
Arguments AbandonMessage {W} _ _ _.

Definition Processor (W : Type) : Type := Context → PasswordSyncCommand → M (St W) (option error).
Definition PasswordDecrypter (W : Type) : Type :=
  Context → Envelope → bytes → W → outcome (result bytes) * W.
Definition DeadLetterSink (W : Type) : Type := Context → DeadLetterEntry → W → outcome (option error) * W.

Record SyncStatusRecorder (W : Type) := mkRecorder {
  rec_MarkSynced : Context → string → Time → W → outcome (option error) * W;
  rec_MarkFailed : Context → string → Time → W → outcome (option error) * W
}.
Arguments mkRecorder {W} _ _.
Arguments rec_MarkSynced {W} _ _ _ _.
Arguments rec_MarkFailed {W} _ _ _ _.

Record Options (W : Type) := mkOptions {
  opt_MaxMessages : Z;
  opt_SettlementTimeout : Duration;
  opt_EmptyReceiveDelay : Duration;
  opt_RetryBackoffs : list Duration;
  opt_DeadLetterSink : option (DeadLetterSink W);
  opt_PasswordDecrypter : option (PasswordDecrypter W);
  opt_SyncStatusRecorder : option (SyncStatusRecorder W);
  opt_Now : option (W → Time * W);
  opt_Sleep : option (Context → Duration → W → outcome (option error) * W)
}.
Arguments mkOptions {W} _ _ _ _ _ _ _ _ _.
Arguments opt_MaxMessages {W} _.
Arguments opt_SettlementTimeout {W} _.
Arguments opt_EmptyReceiveDelay {W} _.
Arguments opt_RetryBackoffs {W} _.
Arguments opt_DeadLetterSink {W} _.
Arguments opt_PasswordDecrypter {W} _.
Arguments opt_SyncStatusRecorder {W} _.
Arguments opt_Now {W} _.
Arguments opt_Sleep {W} _.

Record Worker (W : Type) := mkWorker {
  receiver : Receiver W;
  processor : Processor W;
  passwordDecrypter : PasswordDecrypter W;
  syncStatusRecorder : SyncStatusRecorder W;
  maxMessages : Z;
  settlementTimeout : Duration;
  emptyReceiveDelay : Duration;
  retryBackoffs : list Duration;
  deadLetterSink : DeadLetterSink W;
  wk_now : W → Time * W;
  wk_sleep : Context → Duration → W → outcome (option error) * W
}.
Arguments mkWorker {W} _ _ _ _ _ _ _ _ _ _ _.
Arguments receiver {W} _.
Arguments processor {W} _ _ _.
Arguments passwordDecrypter {W} _ _ _ _ _.
Arguments syncStatusRecorder {W} _.
Arguments maxMessages {W} _.
Arguments settlementTimeout {W} _.
Arguments emptyReceiveDelay {W} _.
Arguments retryBackoffs {W} _.
Arguments deadLetterSink {W} _ _ _ _.
Arguments wk_now {W} _ _.
Arguments wk_sleep {W} _ _ _ _.

(** sleep: the select receives from ctx.Done ([Some] of its error) or from
    the timer, whichever [select] says came first. *)
Definition sleep {W} (select : Context → Duration → W → option error * W) (ctx : Context) (delay : Duration) (w : W)
    : outcome (option error) * W :=
  match select ctx delay w with
  | (Some err, w') => (Ret (Some err), w')
  | (None, w') => (Ret None, w')
  end.

Definition at_least_default (d default : Z) : Z := if d <=? 0 then default else d.

(** New; [now] and [slp] are time.Now and the package's sleep. *)
Definition New {W} (recv : option (Receiver W)) (proc : option (Processor W)) (o : Options W)
    (now : W → Time * W) (slp : Context → Duration → W → outcome (option error) * W) : result (Worker W) :=
  match recv with None => Err (ErrorText "worker receiver is required") | Some recv =>
  match proc with None => Err (ErrorText "worker processor is required") | Some proc =>
  match opt_DeadLetterSink o with None => Err (ErrorText "worker dead-letter sink is required") | Some dlq =>
  match opt_PasswordDecrypter o with None => Err (ErrorText "worker password decrypter is required") | Some dec =>
  match opt_SyncStatusRecorder o with None => Err (ErrorText "worker sync status recorder is required") | Some rec =>
    Ok (mkWorker recv proc dec rec
      (at_least_default (opt_MaxMessages o) 1)
      (at_least_default (opt_SettlementTimeout o) defaultSettlementTimeout)
      (at_least_default (opt_EmptyReceiveDelay o) defaultEmptyReceiveDelay)
      (match opt_RetryBackoffs o with [] => defaultRetryBackoffs | bs => bs end)
      dlq (default now (opt_Now o)) (default slp (opt_Sleep o)))
  end end end end end.

(** ** Decoding *)

Definition zero_message : PasswordSyncMessage := mkMessage "" "" "" "" "" "" "" "" "" "" "" 0.

Definition message_fields : list string :=
  ["cn"; "upn"; "eventType"; "traceId"; "passwordCiphertext"; "passwordNonce"; "passwordKeyId"; "passwordAlg";
   "displayName"; "mail"; "enqueuedAt"]%string.

(** json.Unmarshal of one member into a PasswordSyncMessage. *)
Definition set_message_field (name : string) (v : json) (m : PasswordSyncMessage) : option PasswordSyncMessage :=
  let '(mkMessage cn upn ev tr pw ct no kid alg dn mail at_) := m in
  let str old (k : string → PasswordSyncMessage) :=
    match string_unmarshal old v with Some s => Some (k s) | None => None end in
  if bool_decide (name = "cn"%string) then str cn (λ x, mkMessage x upn ev tr pw ct no kid alg dn mail at_)
  else if bool_decide (name = "upn"%string) then str upn (λ x, mkMessage cn x ev tr pw ct no kid alg dn mail at_)
  else if bool_decide (name = "eventType"%string) then str ev (λ x, mkMessage cn upn x tr pw ct no kid alg dn mail at_)
  else if bool_decide (name = "traceId"%string) then str tr (λ x, mkMessage cn upn ev x pw ct no kid alg dn mail at_)
  else if bool_decide (name = "passwordCiphertext"%string)
  then str ct (λ x, mkMessage cn upn ev tr pw x no kid alg dn mail at_)
  else if bool_decide (name = "passwordNonce"%string)
  then str no (λ x, mkMessage cn upn ev tr pw ct x kid alg dn mail at_)
  else if bool_decide (name = "passwordKeyId"%string)
  then str kid (λ x, mkMessage cn upn ev tr pw ct no x alg dn mail at_)
  else if bool_decide (name = "passwordAlg"%string)
  then str alg (λ x, mkMessage cn upn ev tr pw ct no kid x dn mail at_)
  else if bool_decide (name = "displayName"%string)
  then str dn (λ x, mkMessage cn upn ev tr pw ct no kid alg x mail at_)
  else if bool_decide (name = "mail"%string) then str mail (λ x, mkMessage cn upn ev tr pw ct no kid alg dn x at_)
  else match time_unmarshal at_ v with
       | Some t => Some (mkMessage cn upn ev tr pw ct no kid alg dn mail t)
       | None => None
       end.

Definition unmarshal_message (body : bytes) : option PasswordSyncMessage :=
  unmarshal_struct message_fields set_message_field body zero_message.

Definition blank (s : string) : bool := bool_decide (TrimSpace s = ""%string).

(** decodePasswordSyncMessage; [body] is the text of [msg.Body]. *)
Definition decodePasswordSyncMessage (msg : option Message) (body : bytes) : result PasswordSyncMessage :=
  match msg with
  | None => Err (ErrorText "message is nil")
  | Some msg =>
    if negb (bool_decide (TrimSpace (Kind msg) = passwordSyncKind))
    then Err (ErrorQuoted "unexpected message kind" (Kind msg))
    else
      match unmarshal_message body with
      | None => Err (Wrapped "decode password sync message" (ErrorText "invalid json"))
      | Some out =>
        if blank (CN out) then Err (ErrorText "password sync message CN is required")
        else if blank (UPN out) then Err (ErrorText "password sync message UPN is required")
        else if blank (PasswordCiphertext out)
        then Err (ErrorText "password sync message passwordCiphertext is required")
        else if blank (PasswordNonce out) then Err (ErrorText "password sync message passwordNonce is required")
        else if blank (PasswordKeyID out) then Err (ErrorText "password sync message passwordKeyId is required")
        else if blank (PasswordAlg out) then Err (ErrorText "password sync message passwordAlg is required")
        else if IsZero (EnqueuedAt out) then Err (ErrorText "password sync message EnqueuedAt is required")
        else Ok out
      end
  end.

(** The anonymous struct of invalidMessageDeadLetterEntry. *)
Definition set_partial_field (name : string) (v : json) (p : string * string * Time) : option (string * string * Time) :=
  let '(cn, upn, at_) := p in
  if bool_decide (name = "cn"%string)
  then match string_unmarshal cn v with Some s => Some (s, upn, at_) | None => None end
  else if bool_decide (name = "upn"%string)
  then match string_unmarshal upn v with Some s => Some (cn, s, at_) | None => None end
  else match time_unmarshal at_ v with Some t => Some (cn, upn, t) | None => None end.

Definition invalidMessageDeadLetterEntry (msg : option Message) (body : bytes) (failedAt : Time) : DeadLetterEntry :=
  let entry kind cn upn enq :=
    mkEntry kind cn upn DeadLetterReasonInvalidMessageSchema dlqDescriptionInvalidMessage 0 enq failedAt "" in
  match msg with
  | None => entry passwordSyncKind ""%string ""%string 0
  | Some msg =>
    let kind := if blank (Kind msg) then passwordSyncKind else TrimSpace (Kind msg) in
    match unmarshal_struct ["cn"; "upn"; "enqueuedAt"]%string set_partial_field body (""%string, ""%string, 0) with
    | None => entry kind ""%string ""%string 0
    | Some (cn, upn, enq) => entry kind cn upn enq
    end
  end.

Definition invalidMessageForObservability (entry : DeadLetterEntry) : PasswordSyncMessage :=
  mkMessage (e_CN entry) (e_UPN entry) "" "" "" "" "" "" "" "" "" (e_EnqueuedAt entry).

(** permanentDeadLetterReason. *)
Definition permanentDeadLetterReason (reason : option string) : string :=
  match reason with
  | None => DeadLetterReasonPermanentProcessor
  | Some r => if bool_decide (r = PermanentReasonProcessorError) then r else DeadLetterReasonPermanentProcessor
  end.

(** ** Operations *)

Record processorResult := mkResult {
  res_err : option error;
  attempts : Z;
  permanent : bool;
  retryCanceled : bool
}.

Section Ops.
Context {W : Type} (w : Worker W).
(** The state of Run's context at a moment. *)
Context (run_ctx : W → Context).

Definition ctx_now : M (St W) Context := st ← get; mret (run_ctx (world st)).

Definition read_clock : M (St W) Time := call (λ x, let '(t, x') := wk_now w x in (Ret t, x')).

(** settlementContext: detached from Run's context. *)
Definition settlementContext : Context := mkContext None None.

Definition zeroMessageBody (msg : option Message) : M (St W) unit :=
  match msg with None => mret tt | Some msg => ZeroBytes (Some (m_Body msg)) end.

Definition message_body (msg : option Message) : M (St W) bytes :=
  match msg with None => mret [] | Some msg => read_slice (m_Body msg) end.

Definition recordOutcome (action : string) (msg : PasswordSyncMessage) (outc reason : string) (n : Z)
    : M (St W) unit :=
  let labels : Labels := {[ "outcome"%string := outc ]} in
  let labels := if bool_decide (msg_EventType msg = ""%string) then labels
                else <["eventType" := msg_EventType msg]> labels in
  let labels := if bool_decide (reason = ""%string) then labels else <["reason" := reason]> labels in
  let labels := if 0 <? n then <["attempts" := pretty n]> labels else labels in
  emit (Inc MetricWorkerMessagesTotal labels) ;;
  emit (LogAttrs action
    ([("action", VString action); ("outcome", VString outc)]%string
     ++ SafeIdentityAttrs (mkSafeIdentity (TraceID msg) (CN msg) (UPN msg) (msg_EventType msg) "")
     ++ opt_attr "reason" reason
     ++ (if 0 <? n then [("attempts"%string, VInt n)] else []))).

Definition recordPasswordSyncFailure (ctx : Context) (entry : DeadLetterEntry) : M (St W) (option error) :=
  call (deadLetterSink w ctx
    (mkEntry (e_Kind entry) (e_CN entry) (e_UPN entry) (e_Reason entry) (e_Description entry)
       (e_Attempts entry) (e_EnqueuedAt entry) (e_FailedAt entry) "")).

Definition abandonAfterDeadLetterFailure (ctx : Context) (msg : option Message) (operation : string)
    (err : error) (observed : PasswordSyncMessage) (n : Z) : M (St W) (option error) :=
  let recordErr := Wrapped operation err in
  abandonErr ← AbandonMessage (receiver w) ctx msg;
  match abandonErr with
  | Some ae =>
      mret (errors_Join [Some recordErr;
                         Some (Wrapped "abandon worker message after dead-letter failure" ae)])
  | None =>
      recordOutcome ActionWorkerAbandoned observed "abandoned" "safe_dlq_write_failed" n ;;
      mret (Some recordErr)
  end.

Definition processPasswordSyncAttempt (msg : PasswordSyncMessage) (plaintext : Slice)
    : M (St W) (option error) :=
  defer_ (ZeroBytes (Some plaintext)) (
    ctx ← ctx_now;
    processor w ctx (mkCommand (CN msg) (UPN msg) (TraceID msg) plaintext (DisplayName msg) (Mail msg)
                       (EnqueuedAt msg))).

Definition envelope_of (msg : PasswordSyncMessage) : Envelope :=
  mkEnvelope (PasswordCiphertext msg) (PasswordNonce msg) (PasswordKeyID msg) (PasswordAlg msg).

(** The body of the retry loop: [inl] is a result, [inr] the error of an
    attempt that may be retried. *)
Definition sync_attempt (msg : PasswordSyncMessage) (n : Z) : M (St W) (processorResult + error) :=
  ctx ← ctx_now;
  r ← call (passwordDecrypter w ctx (envelope_of msg) (PasswordAAD (CN msg) (UPN msg) (EnqueuedAt msg)));
  match r with
  | Err e =>
      mret (inl (mkResult (Some (WorkerPermanentError PermanentReasonProcessorError (Some e))) n true false))
  | Ok b =>
      plaintext ← alloc b (length b);
      err ← processPasswordSyncAttempt msg plaintext;
      match err with
      | None => mret (inl (mkResult None n false false))
      | Some e =>
        match errors_As e is_worker_permanent with
        | Some pe => mret (inl (mkResult (Some pe) n true false))
        | None => mret (inr e)
        end
      end
  end.

(** The loop: [backoffs] is what is left of retryBackoffs at attempt [n]. *)
Fixpoint sync_loop (msg : PasswordSyncMessage) (n : Z) (backoffs : list Duration)
    : M (St W) processorResult :=
  out ← sync_attempt msg n;
  match out with
  | inl res => mret res
  | inr e =>
    match backoffs with
    | [] => mret (mkResult (Some e) n false false)
    | b :: backoffs' =>
      ctx ← ctx_now;
      sleepErr ← call (wk_sleep w ctx b);
      match sleepErr with
      | Some se => mret (mkResult (Some se) n false true)
      | None => sync_loop msg (n + 1) backoffs'
      end
    end
  end.

Definition processPasswordSync (msg : PasswordSyncMessage) : M (St W) processorResult :=
  sync_loop msg 1 (retryBackoffs w).

(** processMessage after a failed decode. *)
Definition process_invalid (msg : option Message) (body : bytes) : M (St W) (option error) :=
  failedAt ← read_clock;
  let entry := invalidMessageDeadLetterEntry msg body failedAt in
  zeroMessageBody msg ;;
  let observed := invalidMessageForObservability entry in
  settleErr ← recordPasswordSyncFailure settlementContext entry;
  match settleErr with
  | Some e =>
      abandonAfterDeadLetterFailure settlementContext msg "record invalid worker message dead-letter" e observed 0
  | None =>
      settleErr ← CompleteMessage (receiver w) settlementContext msg;
      match settleErr with
      | Some e => mret (Some (Wrapped "complete invalid worker message" e))
      | None =>
          recordOutcome ActionWorkerInvalid observed "invalid_message" DeadLetterReasonInvalidMessageSchema 0 ;;
          mret None
      end
  end.

Definition settle_success (msg : option Message) (m : PasswordSyncMessage) (n : Z) : M (St W) (option error) :=
  zeroMessageBody msg ;;
  _ ← call (rec_MarkSynced (syncStatusRecorder w) settlementContext (UPN m) (EnqueuedAt m));
  settleErr ← CompleteMessage (receiver w) settlementContext msg;
  match settleErr with
  | Some e => mret (Some (Wrapped "complete worker message" e))
  | None => recordOutcome ActionWorkerCompleted m "synced" "" n ;; mret None
  end.

Definition settle_canceled (msg : option Message) (m : PasswordSyncMessage) (n : Z) : M (St W) (option error) :=
  zeroMessageBody msg ;;
  settleErr ← AbandonMessage (receiver w) settlementContext msg;
  match settleErr with
  | Some e => mret (Some (Wrapped "abandon worker message" e))
  | None => recordOutcome ActionWorkerAbandoned m "abandoned" "" n ;; mret None
  end.

Definition settle_failed (msg : option Message) (m : PasswordSyncMessage) (n : Z) (perm : bool)
    : M (St W) (option error) :=
  let reason := if perm then DeadLetterReasonPermanentProcessor else DeadLetterReasonTransientRetriesExhausted in
  let description := if perm then dlqDescriptionPermanentError else dlqDescriptionRetriesExhausted in
  zeroMessageBody msg ;;
  failedAt ← read_clock;
  settleErr ← recordPasswordSyncFailure settlementContext
    (mkEntry passwordSyncKind (CN m) (UPN m) reason description n (EnqueuedAt m) failedAt "");
  match settleErr with
  | Some e => abandonAfterDeadLetterFailure settlementContext msg "record worker message dead-letter" e m n
  | None =>
      _ ← call (rec_MarkFailed (syncStatusRecorder w) settlementContext (UPN m) (EnqueuedAt m));
      settleErr ← CompleteMessage (receiver w) settlementContext msg;
      match settleErr with
      | Some e => mret (Some (Wrapped "complete failed worker message" e))
      | None => recordOutcome ActionWorkerFailed m "sync_failed" reason n ;; mret None
      end
  end.

Definition processMessage (msg : option Message) : M (St W) (option error) :=
  body ← message_body msg;
  match decodePasswordSyncMessage msg body with
  | Err _ => process_invalid msg body
  | Ok m =>
      result ← processPasswordSync m;
      match res_err result with
      | None => settle_success msg m (attempts result)
      | Some _ =>
          if retryCanceled result then settle_canceled msg m (attempts result)
          else settle_failed msg m (attempts result) (permanent result)
      end
  end.

(** The inner loop of Run: [Some e] stops Run with that result, [None] goes
    on to the next receive. *)
Fixpoint process_batch (messages : list (option Message)) : M (St W) (option (option error)) :=
  match messages with
  | [] => mret None
  | msg :: messages' =>
      ctx ← ctx_now;
      match ctx_err ctx with
      | Some _ => mret (Some None)
      | None =>
          err ← processMessage msg;
          match err with
          | Some e => mret (Some (Some e))
          | None => process_batch messages'
          end
      end
  end.

(** One round of Run's loop. *)
Definition run_round : M (St W) (option (option error)) :=
  ctx ← ctx_now;
  match ctx_err ctx with
  | Some _ => mret (Some None)
  | None =>
      r ← ReceiveMessages (receiver w) ctx (maxMessages w);
      match r with
      | Err e =>
          ctx ← ctx_now;
          match ctx_err ctx with
          | Some _ => mret (Some None)
          | None => mret (Some (Some (Wrapped "receive worker messages" e)))
          end
      | Ok [] =>
          ctx ← ctx_now;
          err ← call (wk_sleep w ctx (emptyReceiveDelay w));
          match err with
          | Some _ => mret (Some None)
          | None => mret None
          end
      | Ok messages => process_batch messages
      end
  end.

(** Run for at most [fuel] rounds; [None] means it is still running. *)
Fixpoint Run (fuel : nat) : M (St W) (option (option error)) :=
  match fuel with
  | O => mret None
  | S fuel =>
      r ← run_round;
      match r with
      | Some res => mret (Some res)
      | None => Run fuel
      end
  end.
End Ops.

(** ** A record of the calls

    [Op] is a call of a collaborator with the part of its answer the order of
    calls depends on.  [WorkerLog] says that [log] is a record of them: every
    call adds exactly its own entry.  It is how the theorems speak about
    order; any worker can be run over a world that keeps such a record. *)
Inductive Op : Type :=
  | ODecrypt
  | OProcess (succeeded : bool)
  | OSleep (d : Duration)
  | ODeadLetter (entry : DeadLetterEntry) (recorded : bool)
  | OMarkSynced (upn : string) (sourceEnqueuedAt : Time)
  | OMarkFailed (upn : string) (sourceEnqueuedAt : Time)
  | OComplete (msg : option Message)
  | OAbandon (msg : option Message).

(** A call that returned no error. *)
Definition no_error (o : outcome (option error)) : bool := match o with Ret None => true | _ => false end.

Class WorkerLog {W} (w : Worker W) (log : W → list Op) := {
  log_now x : log (wk_now w x).2 = log x;
  log_decrypt ctx env aad x : log (passwordDecrypter w ctx env aad x).2 = log x ++ [ODecrypt];
  log_process ctx cmd st : log (world (processor w ctx cmd st).2)
    = log (world st) ++ [OProcess (no_error (processor w ctx cmd st).1)];
  log_sleep ctx d x : log (wk_sleep w ctx d x).2 = log x ++ [OSleep d];
  log_dead_letter ctx e x : log (deadLetterSink w ctx e x).2
    = log x ++ [ODeadLetter e (no_error (deadLetterSink w ctx e x).1)];
  log_synced ctx upn t x : log (rec_MarkSynced (syncStatusRecorder w) ctx upn t x).2 = log x ++ [OMarkSynced upn t];
  log_failed ctx upn t x : log (rec_MarkFailed (syncStatusRecorder w) ctx upn t x).2 = log x ++ [OMarkFailed upn t];
  log_complete ctx msg st : log (world (CompleteMessage (receiver w) ctx msg st).2) = log (world st) ++ [OComplete msg];
  log_abandon ctx msg st : log (world (AbandonMessage (receiver w) ctx msg st).2) = log (world st) ++ [OAbandon msg]
}.

(** What collaborators may do to memory they are not given: nothing that
    brings a zeroed buffer back. *)
Definition keeps_zero {W A} (m : M (St W) A) : Prop := ∀ st sl,
  (length (mem st) <= length (mem (m st).2))%nat ∧
  ((s_loc sl < length (mem st))%nat → all_zero (slice_bytes (mem st) sl) → all_zero (slice_bytes (mem (m st).2) sl)).

Class WorkerMemory {W} (w : Worker W) := {
  mem_process ctx cmd : keeps_zero (processor w ctx cmd);
  mem_complete ctx msg : keeps_zero (CompleteMessage (receiver w) ctx msg);
  mem_abandon ctx msg : keeps_zero (AbandonMessage (receiver w) ctx msg)
}.

(** Collaborators of the retry loop that return, with a value or an error,
    rather than panic. *)
Class WorkerReturns {W} (w : Worker W) := {
  returns_decrypt ctx env aad x : ∃ r, (passwordDecrypter w ctx env aad x).1 = Ret r;
  returns_process ctx cmd st : ∃ r, (processor w ctx cmd st).1 = Ret r;
  returns_sleep ctx d x : ∃ r, (wk_sleep w ctx d x).1 = Ret r
}.

Definition sleeps (ops : list Op) : list Duration := omap (λ o, match o with OSleep d => Some d | _ => None end) ops.
Definition decrypts (ops : list Op) : nat :=
  length (omap (λ o, match o with ODecrypt => Some tt | _ => None end) ops).

(** The calls of the retry loop. *)
Definition is_try (o : Op) : Prop :=
  match o with ODecrypt | OProcess _ | OSleep _ => True | _ => False end.

Section Trace.
Context {W : Type} (w : Worker W) (run_ctx : W → Context) (log : W → list Op) `{!WorkerLog w log}.
Implicit Types (st : St W).

#[local] Abbreviation logged st st' ops := (log (world st') = log (world st) ++ ops).

Lemma call_logged {A} (f : W → outcome A * W) st o st' op :
  (∀ x, log (f x).2 = log x ++ op) → call f st = (o, st') → logged st st' op.
Proof.
  intros Hf H. apply call_inv in H as (x&Hx&->). specialize (Hf (world st)). rewrite Hx in Hf. exact Hf.
Qed.

Lemma stmt_logged {A} (m : M (St W) A) st o st' op :
  log (world (m st).2) = log (world st) ++ op → m st = (o, st') → logged st st' op.
Proof. intros Hm H. by rewrite H in Hm. Qed.

Lemma recordOutcome_inv action msg outc reason n st o st' :
  recordOutcome action msg outc reason n st = (o, st') → o = Ret tt ∧ world st' = world st ∧ mem st' = mem st.
Proof. intros H. by injection H as <- <-. Qed.

Lemma zeroMessageBody_inv msg st o st' :
  zeroMessageBody msg st = (o, st') → o = Ret tt ∧ world st' = world st ∧
    mem st' = match msg with Some m => mem_zero (mem st) (m_Body m) | None => mem st end.
Proof. destruct msg; intros H; by injection H as <- <-. Qed.

Lemma read_clock_inv st o st' :
  read_clock w st = (o, st') → ∃ t, o = Ret t ∧ logged st st' [] ∧ mem st' = mem st.
Proof.
  unfold read_clock. intros H. apply call_inv in H as (x&Hx&->). pose proof (log_now (world st)) as Hl.
  destruct (wk_now w (world st)) as [t x']. injection Hx as <- <-. exists t. by rewrite app_nil_r.
Qed.

Lemma ctx_now_inv st o st' : ctx_now run_ctx st = (o, st') → o = Ret (run_ctx (world st)) ∧ st' = st.
Proof. intros H. by injection H as <- <-. Qed.

(** One attempt: a decryption and at most one call of the processor. *)
Lemma sync_attempt_trace msg n st out st' :
  sync_attempt w run_ctx msg n st = (Ret out, st') →
  (∃ e, out = inl (mkResult (Some e) n true false) ∧ logged st st' [ODecrypt]) ∨
  (∃ e, out = inl (mkResult (Some e) n true false) ∧ logged st st' [ODecrypt; OProcess false]) ∨
  (∃ e, out = inr e ∧ logged st st' [ODecrypt; OProcess false]) ∨
  (out = inl (mkResult None n false false) ∧ logged st st' [ODecrypt; OProcess true]).
Proof.
  unfold sync_attempt. intros H.
  apply bind_inv in H as [(ctx&st0&Hc&H)|(v&_&?)]; [|done]. apply ctx_now_inv in Hc as [_ ->].
  apply bind_inv in H as [(r&st1&Hd&H)|(v&_&?)]; [|done].
  eapply call_logged in Hd; [|apply log_decrypt].
  destruct r as [b|e]; [|apply mret_inv in H as [[= ->] ->]; left; eauto].
  apply bind_inv in H as [(pt&st2&Ha&H)|(v&_&?)]; [|done].
  assert (world st2 = world st1) as Hw2 by (by injection Ha as _ <-).
  apply bind_inv in H as [(err&st3&Hp&H)|(v&_&?)]; [|done].
  assert (logged st2 st3 [OProcess (no_error (Ret err))]) as Hl3.
  { unfold processPasswordSyncAttempt, defer_ in Hp. unfold mbind, M_bind in Hp.
    destruct (ctx_now run_ctx st2) as [oc sc] eqn:Ec. apply ctx_now_inv in Ec as [-> ->].
    match type of Hp with context [processor w ?c ?cmd st2] =>
      pose proof (log_process c cmd st2) as Hl; destruct (processor w c cmd st2) as [o3 st4] end.
    cbn in Hp. injection Hp as -> <-. exact Hl. }
  assert (logged st st3 [ODecrypt; OProcess (no_error (Ret err))]) as Hl.
  { by rewrite Hl3, Hw2, Hd, <- app_assoc. }
  destruct err as [e|]; [|apply mret_inv in H as [[= ->] ->]; auto].
  destruct (errors_As e is_worker_permanent) as [pe|]; apply mret_inv in H as [[= ->] ->]; eauto 10.
Qed.

(** What a run of the retry loop looks like. *)
Definition tried (bs : list Duration) (n : Z) (res : processorResult) (tries : list Op) : Prop :=
  Forall is_try tries ∧ n <= attempts res <= n + Z.of_nat (length bs) ∧
  Z.of_nat (decrypts tries) = attempts res - n + 1 ∧ sleeps tries `prefix_of` bs ∧
  match res_err res with
  | None => retryCanceled res = false ∧ ∃ t0, tries = t0 ++ [OProcess true] ∧ OProcess true ∉ t0
  | Some _ => OProcess true ∉ tries
  end.

Lemma tried_more b bs n res tries :
  tried bs (n + 1) res tries → tried (b :: bs) n res (ODecrypt :: OProcess false :: OSleep b :: tries).
Proof.
  intros (Ht&Hn&Hd&Hs&Hres). unfold tried. split_and!.
  - by repeat constructor.
  - lia.
  - cbn [length]. lia.
  - unfold decrypts in *. cbn [omap list_omap length] in *. lia.
  - cbn. by apply prefix_cons.
  - destruct (res_err res).
    + rewrite !not_elem_of_cons. done.
    + destruct Hres as (Hc&t0&->&H0). split; [done|].
      exists (ODecrypt :: OProcess false :: OSleep b :: t0). by rewrite !not_elem_of_cons.
Qed.

Lemma tried_ok bs n : tried bs n (mkResult None n false false) [ODecrypt; OProcess true].
Proof.
  unfold tried. cbn. split; [by repeat constructor|]. split; [lia|]. split; [lia|].
  split; [apply prefix_nil|]. split; [done|]. exists [ODecrypt]. split; [done|].
  rewrite list_elem_of_singleton. done.
Qed.

Lemma tried_failed bs n e (b0 b1 : bool) l :
  l = [ODecrypt] ∨ l = [ODecrypt; OProcess false] ∨ (∃ b bs', bs = b :: bs' ∧ l = [ODecrypt; OProcess false; OSleep b]) →
  tried bs n (mkResult (Some e) n b0 b1) l.
Proof.
  unfold tried. cbn [attempts res_err].
  intros [->|[->|(b&bs'&->&->)]]; (split; [by repeat constructor|]); (split; [lia|]);
    (split; [cbn; lia|]); rewrite !not_elem_of_cons; (split; [|by repeat split; try done; apply not_elem_of_nil]).
  1,2: apply prefix_nil. apply prefix_cons, prefix_nil.
Qed.

Lemma sync_loop_trace msg bs : ∀ n st res st',
  sync_loop w run_ctx msg n bs st = (Ret res, st') →
  ∃ tries, logged st st' tries ∧ tried bs n res tries.
Proof.
  induction bs as [|b bs IH]; intros n st res st' H; cbn [sync_loop] in H;
    (apply bind_inv in H as [(out&st1&Ha&H)|(v&_&?)]; [|done]);
    apply sync_attempt_trace in Ha as [(e&->&Hl)|[(e&->&Hl)|[(e&->&Hl)|[-> Hl]]]].
  1,2,3,5,6: apply mret_inv in H as [[= ->] ->]; eexists; (split; [exact Hl|]); apply tried_failed; auto.
  1,3: apply mret_inv in H as [[= ->] ->]; eexists; (split; [exact Hl|]); apply tried_ok.
  apply bind_inv in H as [(ctx&st2&Hc&H)|(v&_&?)]; [|done]. apply ctx_now_inv in Hc as [_ ->].
  apply bind_inv in H as [(se&st3&Hs&H)|(v&_&?)]; [|done].
  eapply call_logged in Hs; [|apply log_sleep].
  destruct se as [se|].
  - apply mret_inv in H as [[= ->] ->]. eexists; split; [by rewrite Hs, Hl, <- app_assoc|].
    apply tried_failed. eauto 10.
  - apply IH in H as (tries&Hlt&Htr). exists (ODecrypt :: OProcess false :: OSleep b :: tries).
    split; [by rewrite Hlt, Hs, Hl, <- !app_assoc|]. by apply tried_more.
Qed.

(** The calls that settle a message, as the last two arguments: everything
    before the settlement, and the settlement. *)
Inductive settlement (msg : option Message) : list Op → Op → Prop :=
  | settle_synced_ops tries upn t :
      Forall is_try tries → OProcess true ∉ tries →
      settlement msg (tries ++ [OProcess true; OMarkSynced upn t]) (OComplete msg)
  | settle_invalid_ops entry :
      e_Reason entry = DeadLetterReasonInvalidMessageSchema → e_Password entry = ""%string →
      settlement msg [ODeadLetter entry true] (OComplete msg)
  | settle_failed_ops tries entry upn t :
      Forall is_try tries → OProcess true ∉ tries → e_Password entry = ""%string →
      e_UPN entry = upn → e_EnqueuedAt entry = t →
      settlement msg (tries ++ [ODeadLetter entry true; OMarkFailed upn t]) (OComplete msg)
  | settle_returned_ops tries :
      Forall is_try tries → OProcess true ∉ tries →
      settlement msg tries (OAbandon msg)
  | settle_unrecorded_ops tries entry :
      Forall is_try tries → OProcess true ∉ tries → e_Password entry = ""%string →
      settlement msg (tries ++ [ODeadLetter entry false]) (OAbandon msg).

Lemma complete_trace ctx msg st r st' :
  CompleteMessage (receiver w) ctx msg st = (r, st') → logged st st' [OComplete msg].
Proof. intros H. eapply stmt_logged; [apply log_complete|done]. Qed.

Lemma abandon_trace ctx msg st r st' :
  AbandonMessage (receiver w) ctx msg st = (r, st') → logged st st' [OAbandon msg].
Proof. intros H. eapply stmt_logged; [apply log_abandon|done]. Qed.

(** A settling call followed by its error or its outcome record. *)
Lemma settle_end_trace (m : M (St W) (option error)) op st (k : M (St W) unit) (f : error → error) r st' :
  (∀ o st1, m st = (o, st1) → logged st st1 [op]) →
  (∀ st1 o st2, k st1 = (o, st2) → world st2 = world st1) →
  (e ← m; match e with Some e => mret (Some (f e)) | None => k ;; mret None end) st = (r, st') →
  logged st st' [op].
Proof.
  intros Hm Hk H. apply bind_inv in H as [(e&st1&He&H)|(v&He&->)]; [|by eapply Hm].
  apply Hm in He as Hl. destruct e as [e|]; [by apply mret_inv in H as [_ ->]|].
  apply bind_inv in H as [([]&st2&Hk1&H)|(v&Hk1&->)]; [apply mret_inv in H as [_ ->]|];
    apply Hk in Hk1; by rewrite Hk1.
Qed.

Lemma recordOutcome_world action msg outc reason n st o st' :
  recordOutcome action msg outc reason n st = (o, st') → world st' = world st.
Proof. intros H. by apply recordOutcome_inv in H as (_&H&_). Qed.

Lemma abandonAfter_trace ctx msg operation err obs_msg n st r st' :
  abandonAfterDeadLetterFailure w ctx msg operation err obs_msg n st = (r, st') → logged st st' [OAbandon msg].
Proof.
  unfold abandonAfterDeadLetterFailure. intros H.
  apply bind_inv in H as [(e&st1&He&H)|(v&He&->)]; [|by eapply abandon_trace].
  apply abandon_trace in He as Hl. destruct e as [e|]; [by apply mret_inv in H as [_ ->]|].
  apply bind_inv in H as [([]&st2&Hk1&H)|(v&Hk1&->)]; [apply mret_inv in H as [_ ->]|];
    apply recordOutcome_world in Hk1; by rewrite Hk1.
Qed.

Lemma dead_letter_trace ctx entry st r st' :
  recordPasswordSyncFailure w ctx entry st = (r, st') →
  ∃ entry', logged st st' [ODeadLetter entry' (no_error r)] ∧ e_Password entry' = ""%string ∧
    e_Reason entry' = e_Reason entry ∧ e_UPN entry' = e_UPN entry ∧ e_EnqueuedAt entry' = e_EnqueuedAt entry.
Proof.
  unfold recordPasswordSyncFailure. intros H. apply call_inv in H as (x&Hx&->).
  match type of Hx with deadLetterSink w ctx ?e' _ = _ => exists e'; pose proof (log_dead_letter ctx e' (world st)) as Hl end.
  rewrite Hx in Hl. done.
Qed.

Lemma process_invalid_trace msg body st r st' :
  process_invalid w msg body st = (Ret r, st') →
  ∃ pre settle, logged st st' (pre ++ [settle]) ∧ settlement msg pre settle.
Proof.
  unfold process_invalid. intros H.
  apply bind_inv in H as [(t&st1&Ht&H)|(v&_&?)]; [|done]. apply read_clock_inv in Ht as (t'&_&Hl1&_).
  apply bind_inv in H as [([]&st2&Hz&H)|(v&_&?)]; [|done]. apply zeroMessageBody_inv in Hz as (_&Hw2&_).
  apply bind_inv in H as [(de&st3&Hd&H)|(v&_&?)]; [|done].
  apply dead_letter_trace in Hd as (entry&Hl3&Hp&Hr&_). rewrite Hw2, Hl1, app_nil_r in Hl3.
  destruct de as [de|].
  - apply abandonAfter_trace in H. exists [ODeadLetter entry false], (OAbandon msg).
    split; [by rewrite H, Hl3, <- app_assoc|]. apply (settle_unrecorded_ops msg []); [constructor|apply not_elem_of_nil|done].
  - eapply settle_end_trace in H; [|intros ??; apply complete_trace|intros ???; apply recordOutcome_world].
    exists [ODeadLetter entry true], (OComplete msg). split; [by rewrite H, Hl3, <- app_assoc|].
    apply settle_invalid_ops; [|done]. rewrite Hr. unfold invalidMessageDeadLetterEntry.
    destruct msg; [|done]. by destruct (unmarshal_struct _ _ _ _) as [[[??]?]|].
Qed.

Lemma settle_success_trace msg m n st r st' :
  settle_success w msg m n st = (Ret r, st') →
  logged st st' [OMarkSynced (UPN m) (EnqueuedAt m); OComplete msg].
Proof.
  unfold settle_success. intros H.
  apply bind_inv in H as [([]&st1&Hz&H)|(v&_&?)]; [|done]. apply zeroMessageBody_inv in Hz as (_&Hw1&_).
  apply bind_inv in H as [(x&st2&Hs&H)|(v&_&?)]; [|done].
  eapply call_logged in Hs; [|apply log_synced].
  eapply settle_end_trace in H; [|intros ??; apply complete_trace|intros ???; apply recordOutcome_world].
  by rewrite H, Hs, Hw1, <- app_assoc.
Qed.

Lemma settle_canceled_trace msg m n st r st' :
  settle_canceled w msg m n st = (Ret r, st') → logged st st' [OAbandon msg].
Proof.
  unfold settle_canceled. intros H.
  apply bind_inv in H as [([]&st1&Hz&H)|(v&_&?)]; [|done]. apply zeroMessageBody_inv in Hz as (_&Hw1&_).
  eapply settle_end_trace in H; [|intros ??; apply abandon_trace|intros ???; apply recordOutcome_world].
  by rewrite H, Hw1.
Qed.

Lemma settle_failed_trace msg m n perm st r st' :
  settle_failed w msg m n perm st = (Ret r, st') →
  ∃ entry, e_Password entry = ""%string ∧ e_UPN entry = UPN m ∧ e_EnqueuedAt entry = EnqueuedAt m ∧
    (logged st st' [ODeadLetter entry false; OAbandon msg] ∨
     logged st st' [ODeadLetter entry true; OMarkFailed (UPN m) (EnqueuedAt m); OComplete msg]).
Proof.
  unfold settle_failed. intros H.
  apply bind_inv in H as [([]&st1&Hz&H)|(v&_&?)]; [|done]. apply zeroMessageBody_inv in Hz as (_&Hw1&_).
  apply bind_inv in H as [(t&st2&Ht&H)|(v&_&?)]; [|done]. apply read_clock_inv in Ht as (t'&_&Hl2&_).
  apply bind_inv in H as [(de&st3&Hd&H)|(v&_&?)]; [|done].
  apply dead_letter_trace in Hd as (entry&Hl3&Hp&_&Hu&Hq). rewrite Hl2, app_nil_r, Hw1 in Hl3.
  exists entry. split_and!; [done|done|done|]. destruct de as [de|].
  - left. apply abandonAfter_trace in H. by rewrite H, Hl3, <- app_assoc.
  - right. apply bind_inv in H as [(x&st4&Hs&H)|(v&_&?)]; [|done].
    eapply call_logged in Hs; [|apply log_failed].
    eapply settle_end_trace in H; [|intros ??; apply complete_trace|intros ???; apply recordOutcome_world].
    by rewrite H, Hs, Hl3, <- !app_assoc.
Qed.

Lemma processMessage_trace msg st r st' :
  processMessage w run_ctx msg st = (Ret r, st') →
  ∃ pre settle, logged st st' (pre ++ [settle]) ∧ settlement msg pre settle.
Proof.
  unfold processMessage. intros H.
  apply bind_inv in H as [(body&st0&Hb&H)|(v&_&?)]; [|done].
  assert (st0 = st) as -> by (destruct msg; by injection Hb as _ <-).
  destruct (decodePasswordSyncMessage msg body) as [m|e]; [|by eapply process_invalid_trace].
  apply bind_inv in H as [(res&st1&Hs&H)|(v&_&?)]; [|done].
  apply sync_loop_trace in Hs as (tries&Hl&Htry&_&_&_&Hres).
  destruct (res_err res) as [e|].
  - destruct (retryCanceled res).
    + apply settle_canceled_trace in H. exists tries, (OAbandon msg).
      split; [by rewrite H, Hl, <- app_assoc|]. by apply settle_returned_ops.
    + apply settle_failed_trace in H as (entry&Hp&Hu&Hq&[H|H]).
      * exists (tries ++ [ODeadLetter entry false]), (OAbandon msg).
        split; [by rewrite H, Hl, <- !app_assoc|]. by apply settle_unrecorded_ops.
      * exists (tries ++ [ODeadLetter entry true; OMarkFailed (UPN m) (EnqueuedAt m)]), (OComplete msg).
        split; [by rewrite H, Hl, <- !app_assoc|]. by apply settle_failed_ops.
  - destruct Hres as (_&t0&->&H0). apply settle_success_trace in H.
    exists (t0 ++ [OProcess true; OMarkSynced (UPN m) (EnqueuedAt m)]), (OComplete msg).
    split; [by rewrite H, Hl, <- !app_assoc|].
    apply Forall_app in Htry as [Htry _]. by apply settle_synced_ops.
Qed.

(** A batch settles its messages one by one, in order. *)
Lemma process_batch_trace msgs : ∀ st r st',
  process_batch w run_ctx msgs st = (Ret r, st') →
  ∃ done l, done `prefix_of` msgs ∧ (r = None → done = msgs) ∧
    Forall2 (λ msg p, settlement msg p.1 p.2) done l ∧
    logged st st' (concat (map (λ p : list Op * Op, p.1 ++ [p.2]) l)).
Proof.
  induction msgs as [|msg msgs IH]; intros st r st' H; cbn [process_batch] in H.
  { apply mret_inv in H as [[= ->] ->]. exists [], []. split_and!; try done. by rewrite app_nil_r. }
  apply bind_inv in H as [(ctx&st0&Hc&H)|(v&_&?)]; [|done]. apply ctx_now_inv in Hc as [_ ->].
  destruct (ctx_err ctx).
  { apply mret_inv in H as [[= ->] ->]. exists [], []. split_and!; try done; [apply prefix_nil|by rewrite app_nil_r]. }
  apply bind_inv in H as [(err&st1&Hm&H)|(v&_&?)]; [|done].
  apply processMessage_trace in Hm as (pre&settle&Hl&Hset). destruct err as [e|].
  - apply mret_inv in H as [[= ->] ->]. exists [msg], [(pre, settle)].
    split_and!; [apply prefix_cons, prefix_nil|done|by repeat constructor|]. cbn. by rewrite app_nil_r.
  - apply IH in H as (done&l&Hp&Hd&Hall&Hl2). exists (msg :: done), ((pre, settle) :: l).
    split_and!; [by apply prefix_cons|by intros ->; rewrite Hd|by constructor|].
    cbn. by rewrite Hl2, Hl, <- app_assoc.
Qed.
End Trace.

(** ** The retry loop returns *)

Section Returns.
Context {W : Type} (w : Worker W) (run_ctx : W → Context) `{!WorkerReturns w}.

Lemma sync_attempt_returns m n (st : St W) : ∃ out st', sync_attempt w run_ctx m n st = (Ret out, st').
Proof.
  unfold sync_attempt. rewrite (bind_ret _ _ st (run_ctx (world st)) st) by done.
  set (aad := PasswordAAD (CN m) (UPN m) (EnqueuedAt m)).
  destruct (returns_decrypt (run_ctx (world st)) (envelope_of m) aad (world st)) as [r Hr].
  destruct (passwordDecrypter w (run_ctx (world st)) (envelope_of m) aad (world st)) as [o x] eqn:Ed.
  cbn in Hr. subst o. rewrite (bind_ret _ _ _ _ _ (call_run _ _ _ _ Ed)).
  destruct r as [b|e]; [|by eexists _, _].
  destruct (alloc b (length b) (set_world x st)) as [oa st1] eqn:Ea.
  injection Ea as <- <-. erewrite bind_ret by reflexivity.
  match goal with |- context [(processPasswordSyncAttempt w run_ctx m ?pt ≫= _) ?s] =>
    assert (∃ err s', processPasswordSyncAttempt w run_ctx m pt s = (Ret err, s')) as (err&s'&Ha) end.
  { unfold processPasswordSyncAttempt, defer_, mbind, M_bind, ctx_now, get, mret, M_ret, mbind, M_bind.
    red_go. match goal with |- context [processor w ?c ?cmd ?s] => destruct (returns_process c cmd s) as [pr Hp];
      destruct (processor w c cmd s) as [po ps] end.
    cbn in Hp. subst po. by eexists _, _. }
  rewrite (bind_ret _ _ _ _ _ Ha). destruct err as [e|]; [|by eexists _, _].
  destruct (errors_As e is_worker_permanent); by eexists _, _.
Qed.

Lemma sync_loop_returns m bs : ∀ n (st : St W), ∃ res st', sync_loop w run_ctx m n bs st = (Ret res, st').
Proof.
  induction bs as [|b bs IH]; intros n st; cbn [sync_loop];
    destruct (sync_attempt_returns m n st) as (out&st1&Ha); rewrite (bind_ret _ _ _ _ _ Ha);
    (destruct out as [res|e]; [by eexists _, _|]); [by eexists _, _|].
  rewrite (bind_ret _ _ st1 (run_ctx (world st1)) st1) by done.
  destruct (returns_sleep (run_ctx (world st1)) b (world st1)) as [se Hs].
  destruct (wk_sleep w (run_ctx (world st1)) b (world st1)) as [o x] eqn:Es. cbn in Hs. subst o.
  rewrite (bind_ret _ _ _ _ _ (call_run _ _ _ _ Es)). destruct se; [by eexists _, _|apply IH].
Qed.
End Returns.

(** ** Buffers *)

Section Buffers.
Context {W : Type} (w : Worker W) (run_ctx : W → Context) `{!WorkerMemory w}.
Implicit Types (st : St W) (sl : Slice).

(** [sl] is an existing buffer's slice and holds only zeros. *)
Definition wiped (sl : Slice) (st : St W) : Prop :=
  (s_loc sl < length (mem st))%nat ∧ all_zero (slice_bytes (mem st) sl).

Lemma keeps_wiped {A} (m : M (St W) A) sl st o st' :
  keeps_zero m → m st = (o, st') → wiped sl st → wiped sl st'.
Proof.
  intros Hk Hm [Hl Hz]. destruct (Hk st sl) as [Hle Hkz]. rewrite Hm in Hle, Hkz. cbn in *.
  split; [lia|by apply Hkz].
Qed.

Lemma same_mem_wiped sl st st' : mem st' = mem st → wiped sl st → wiped sl st'.
Proof. unfold wiped. by intros ->. Qed.

Lemma keeps_length {A} (m : M (St W) A) st o st' :
  keeps_zero m → m st = (o, st') → (length (mem st) <= length (mem st'))%nat.
Proof. intros Hk Hm. destruct (Hk st (mkSlice 0 0)) as [Hle _]. by rewrite Hm in Hle. Qed.

Lemma call_mem {A} (f : W → outcome A * W) st o st' : call f st = (o, st') → mem st' = mem st.
Proof. intros H. by apply call_inv in H as (x&_&->). Qed.

Lemma zeroMessageBody_wiped msg st o st' :
  (s_loc (m_Body msg) < length (mem st))%nat → zeroMessageBody (Some msg) st = (o, st') → wiped (m_Body msg) st'.
Proof.
  intros Hl H. apply zeroMessageBody_inv in H as (_&_&Hm). cbn in Hm. unfold wiped. rewrite Hm, mem_zero_length.
  split; [done|auto with go].
Qed.

Lemma settle_end_wiped (m : M (St W) (option error)) sl st (k : M (St W) unit) (f : error → error) r st' :
  keeps_zero m → (∀ st1 o st2, k st1 = (o, st2) → mem st2 = mem st1) → wiped sl st →
  (e ← m; match e with Some e => mret (Some (f e)) | None => k ;; mret None end) st = (Ret r, st') →
  wiped sl st'.
Proof.
  intros Hm Hk Hw H. apply bind_inv in H as [(e&st1&He&H)|(v&_&?)]; [|done].
  eapply keeps_wiped in He; [|done..]. destruct e as [e|]; [by apply mret_inv in H as [_ ->]|].
  apply bind_inv in H as [([]&st2&Hk1&H)|(v&_&?)]; [|done]. apply mret_inv in H as [_ ->].
  apply Hk in Hk1. by eapply same_mem_wiped.
Qed.

Lemma recordOutcome_mem action msg outc reason n st o st' :
  recordOutcome action msg outc reason n st = (o, st') → mem st' = mem st.
Proof. intros H. by apply recordOutcome_inv in H as (_&_&H). Qed.

Lemma abandonAfter_wiped ctx msg sl operation err obs_msg n st r st' :
  wiped sl st → abandonAfterDeadLetterFailure w ctx msg operation err obs_msg n st = (Ret r, st') → wiped sl st'.
Proof.
  unfold abandonAfterDeadLetterFailure. intros Hw H.
  apply bind_inv in H as [(e&st1&He&H)|(v&_&?)]; [|done].
  eapply keeps_wiped in He; [|apply mem_abandon|done]. destruct e as [e|]; [by apply mret_inv in H as [_ ->]|].
  apply bind_inv in H as [([]&st2&Hk1&H)|(v&_&?)]; [|done]. apply mret_inv in H as [_ ->].
  apply recordOutcome_mem in Hk1. by eapply same_mem_wiped.
Qed.

Lemma read_clock_mem st o st' : read_clock w st = (o, st') → mem st' = mem st.
Proof. apply call_mem. Qed.

Lemma process_invalid_wiped msg body st r st' :
  (s_loc (m_Body msg) < length (mem st))%nat →
  process_invalid w (Some msg) body st = (Ret r, st') → wiped (m_Body msg) st'.
Proof.
  unfold process_invalid. intros Hl H.
  apply bind_inv in H as [(t&st1&Ht&H)|(v&_&?)]; [|done]. apply read_clock_mem in Ht.
  apply bind_inv in H as [([]&st2&Hz&H)|(v&_&?)]; [|done]. apply zeroMessageBody_wiped in Hz; [|by rewrite Ht].
  apply bind_inv in H as [(de&st3&Hd&H)|(v&_&?)]; [|done]. apply call_mem in Hd.
  eapply same_mem_wiped in Hz; [|exact Hd]. destruct de as [de|].
  - by eapply abandonAfter_wiped.
  - eapply settle_end_wiped in H; [done|apply mem_complete|intros ???; apply recordOutcome_mem|done].
Qed.

Lemma settle_success_wiped msg m n st r st' :
  (s_loc (m_Body msg) < length (mem st))%nat →
  settle_success w (Some msg) m n st = (Ret r, st') → wiped (m_Body msg) st'.
Proof.
  unfold settle_success. intros Hl H.
  apply bind_inv in H as [([]&st1&Hz&H)|(v&_&?)]; [|done]. apply zeroMessageBody_wiped in Hz; [|done].
  apply bind_inv in H as [(x&st2&Hs&H)|(v&_&?)]; [|done]. apply call_mem in Hs.
  eapply same_mem_wiped in Hz; [|exact Hs].
  eapply settle_end_wiped in H; [done|apply mem_complete|intros ???; apply recordOutcome_mem|done].
Qed.

Lemma settle_canceled_wiped msg m n st r st' :
  (s_loc (m_Body msg) < length (mem st))%nat →
  settle_canceled w (Some msg) m n st = (Ret r, st') → wiped (m_Body msg) st'.
Proof.
  unfold settle_canceled. intros Hl H.
  apply bind_inv in H as [([]&st1&Hz&H)|(v&_&?)]; [|done]. apply zeroMessageBody_wiped in Hz; [|done].
  eapply settle_end_wiped in H; [done|apply mem_abandon|intros ???; apply recordOutcome_mem|done].
Qed.

Lemma settle_failed_wiped msg m n perm st r st' :
  (s_loc (m_Body msg) < length (mem st))%nat →
  settle_failed w (Some msg) m n perm st = (Ret r, st') → wiped (m_Body msg) st'.
Proof.
  unfold settle_failed. intros Hl H.
  apply bind_inv in H as [([]&st1&Hz&H)|(v&_&?)]; [|done]. apply zeroMessageBody_wiped in Hz; [|done].
  apply bind_inv in H as [(t&st2&Ht&H)|(v&_&?)]; [|done]. apply read_clock_mem in Ht.
  apply bind_inv in H as [(de&st3&Hd&H)|(v&_&?)]; [|done]. apply call_mem in Hd.
  eapply same_mem_wiped in Hz; [|by rewrite Hd]. destruct de as [de|].
  - by eapply abandonAfter_wiped.
  - apply bind_inv in H as [(x&st4&Hs&H)|(v&_&?)]; [|done]. apply call_mem in Hs.
    eapply same_mem_wiped in Hz; [|exact Hs].
    eapply settle_end_wiped in H; [done|apply mem_complete|intros ???; apply recordOutcome_mem|done].
Qed.

(** The plaintext is wiped when the attempt is over, however it ended. *)
Lemma attempt_wipes m pt st :
  all_zero (slice_bytes (mem (processPasswordSyncAttempt w run_ctx m pt st).2) pt).
Proof.
  unfold processPasswordSyncAttempt, defer_.
  match goal with |- context [let '(_, _) := ?b st in _] => destruct (b st) as [o st1] end.
  cbn. auto with go.
Qed.

Lemma sync_attempt_length m n st o st' :
  sync_attempt w run_ctx m n st = (o, st') → (length (mem st) <= length (mem st'))%nat.
Proof.
  unfold sync_attempt. intros H.
  apply bind_inv in H as [(ctx&st0&Hc&H)|(v&Hc&_)]; apply ctx_now_inv in Hc as [_ ->]; [|done].
  apply bind_inv in H as [(r&st1&Hd&H)|(v&Hd&_)]; apply call_mem in Hd; [|by rewrite Hd].
  destruct r as [b|e]; [|apply mret_inv in H as [_ ->]; by rewrite Hd].
  apply bind_inv in H as [(pt&st2&Ha&H)|(v&Ha&?)]; [|done].
  assert (length (mem st1) <= length (mem st2))%nat as H2.
  { injection Ha as _ <-. cbn. rewrite length_app. lia. }
  assert (∀ o3 st3, processPasswordSyncAttempt w run_ctx m pt st2 = (o3, st3) →
    (length (mem st2) <= length (mem st3))%nat) as Hatt.
  { intros o3 st3 Hp. unfold processPasswordSyncAttempt, defer_, mbind, M_bind in Hp.
    destruct (ctx_now run_ctx st2) as [oc sc] eqn:Ec. apply ctx_now_inv in Ec as [-> ->].
    match type of Hp with context [processor w ?c ?cmd st2] =>
      destruct (processor w c cmd st2) as [o4 st4] eqn:Ep end.
    eapply keeps_length in Ep; [|apply mem_process]. cbn in Hp. injection Hp as _ <-. cbn.
    by rewrite mem_zero_length. }
  apply bind_inv in H as [(err&st3&Hp&H)|(v&Hp&_)]; apply Hatt in Hp; [|rewrite <- Hd; lia].
  assert (st' = st3) as ->; [|rewrite <- Hd; lia].
  destruct err as [e|]; [destruct (errors_As e is_worker_permanent)|]; by apply mret_inv in H as [_ ->].
Qed.

Lemma sync_loop_length m bs : ∀ n st o st',
  sync_loop w run_ctx m n bs st = (o, st') → (length (mem st) <= length (mem st'))%nat.
Proof.
  induction bs as [|b bs IH]; intros n st o st' H; cbn [sync_loop] in H;
    (apply bind_inv in H as [(out&st1&Ha&H)|(v&Ha&_)]; apply sync_attempt_length in Ha; [|done]);
    (destruct out as [res|e]; [by apply mret_inv in H as [_ ->]|]).
  - by apply mret_inv in H as [_ ->].
  - apply bind_inv in H as [(ctx&st2&Hc&H)|(v&Hc&_)]; apply ctx_now_inv in Hc as [_ ->]; [|done].
    apply bind_inv in H as [(se&st3&Hs&H)|(v&Hs&_)]; apply call_mem in Hs; [|by rewrite Hs].
    rewrite <- Hs in Ha. destruct se; [by apply mret_inv in H as [_ ->]|]. apply IH in H. lia.
Qed.
End Buffers.

(** ** Properties *)

(** C2 Every message is settled exactly once, last, and the right way.  When
    [processMessage] returns, the calls it made end with one Complete or one
    Abandon of that very message and contain no other settlement.  It is
    completed only after the processor succeeded and the account was marked
    synced, or after the failure was recorded in the safe dead-letter queue
    (without a password); a message whose processing succeeded is never
    abandoned or dead-lettered, and one whose dead-letter record could not be
    written goes back to the queue. *)
Theorem message_settled_once {W} (w : Worker W) (run_ctx : W → Context) (log : W → list Op) `{!WorkerLog w log}
    (msg : option Message) (st st' : St W) (r : option error) :
  processMessage w run_ctx msg st = (Ret r, st') →
  ∃ pre settle, log (world st') = log (world st) ++ pre ++ [settle] ∧ settlement msg pre settle.
Proof. apply processMessage_trace. done. Qed.

(** C20 The retry loop terminates within its budget: with collaborators that
    return, it returns, after at least one attempt and at most one more than
    there are backoffs; it decrypts once per attempt, sleeps exactly a prefix
    of the configured backoffs, never calls the processor again after a
    success, and reports success only if the last call of the processor
    succeeded. *)
Theorem retries_bounded {W} (w : Worker W) (run_ctx : W → Context) (log : W → list Op)
    `{!WorkerLog w log} `{!WorkerReturns w} (m : PasswordSyncMessage) (st : St W) :
  ∃ res st' tries, processPasswordSync w run_ctx m st = (Ret res, st') ∧
    log (world st') = log (world st) ++ tries ∧
    1 <= attempts res <= Z.of_nat (length (retryBackoffs w)) + 1 ∧
    Z.of_nat (decrypts tries) = attempts res ∧ sleeps tries `prefix_of` retryBackoffs w ∧
    match res_err res with
    | None => ∃ t0, tries = t0 ++ [OProcess true] ∧ OProcess true ∉ t0
    | Some _ => OProcess true ∉ tries
    end.
Proof.
  destruct (sync_loop_returns w run_ctx m (retryBackoffs w) 1 st) as (res&st'&H).
  pose proof H as Hrun. eapply sync_loop_trace in H as (tries&Hl&_&Hn&Hd&Hs&Hres); [|done].
  exists res, st', tries. split_and!; [done|done|lia|lia|lia|done|].
  destruct (res_err res); [done|]. by destruct Hres as [_ Hres].
Qed.

(** A batch is worked through in order: what [Run]'s inner loop settles is
    a prefix of the received messages, each exactly once and as
    [message_settled_once] says; all of them when it goes on to the next
    receive. *)
Lemma batch_settled_in_order {W} (w : Worker W) (run_ctx : W → Context) (log : W → list Op) `{!WorkerLog w log}
    (msgs : list (option Message)) (st st' : St W) (r : option (option error)) :
  process_batch w run_ctx msgs st = (Ret r, st') →
  ∃ settled l, settled `prefix_of` msgs ∧ (r = None → settled = msgs) ∧
    Forall2 (λ msg p, settlement msg p.1 p.2) settled l ∧
    log (world st') = log (world st) ++ concat (map (λ p : list Op * Op, p.1 ++ [p.2]) l).
Proof. apply process_batch_trace. done. Qed.

(** C26 Secrets do not outlive their use.  The decrypted password is zero when
    an attempt is over, whether the processor returned or panicked; and when
    [processMessage] returns, the message body is zero, whatever path was
    taken (given collaborators that do not bring zeroed buffers back). *)
Theorem worker_wipes_secrets {W} (w : Worker W) (run_ctx : W → Context) `{!WorkerMemory w} (st : St W) :
  (∀ m pt, all_zero (slice_bytes (mem (processPasswordSyncAttempt w run_ctx m pt st).2) pt)) ∧
  (∀ msg r st', (s_loc (m_Body msg) < length (mem st))%nat →
     processMessage w run_ctx (Some msg) st = (Ret r, st') →
     all_zero (slice_bytes (mem st') (m_Body msg))).
Proof.
  split; [intros; apply attempt_wipes|]. intros msg r st' Hl H.
  unfold processMessage in H. apply bind_inv in H as [(body&st0&Hb&H)|(v&_&?)]; [|done].
  injection Hb as _ <-.
  destruct (decodePasswordSyncMessage (Some msg) body) as [m|e]; [|by eapply process_invalid_wiped in H as [_ H]].
  apply bind_inv in H as [(res&st1&Hs&H)|(v&_&?)]; [|done]. apply sync_loop_length in Hs; [|done].
  assert (s_loc (m_Body msg) < length (mem st1))%nat as Hl1 by lia.
  destruct (res_err res); [destruct (retryCanceled res)|].
  - by eapply settle_canceled_wiped in H as [_ H].
  - by eapply settle_failed_wiped in H as [_ H].
  - by eapply settle_success_wiped in H as [_ H].
Qed.

(** ** Witnesses: a worker whose world is the record of its calls, with a
    processor that fails once and then succeeds *)

Module WorkerWitnesses.
Definition World : Type := list Op.

Definition body : bytes := single_quoted
  "{'cn':'a1','upn':'a1@x','eventType':'password_change','passwordCiphertext':'Y3Q=','passwordNonce':'bg==','passwordKeyId':'k1','passwordAlg':'AES-256-GCM','displayName':'A','mail':'a@x','extra':[1,{}],'enqueuedAt':'2025-07-15T23:59:59.12Z'}".



Definition failed_before (x : World) : bool :=
  existsb (λ o, match o with OProcess false => true | _ => false end) x.

Definition toy_process : Processor World := λ _ _ st,
  let ok := failed_before (world st) in
  (Ret (if ok then None else Some (ErrorText "try again")), set_world (world st ++ [OProcess ok]) st).

Definition settle (op : option Message → Op) : Context → option Message → M (St World) (option error) :=
  λ _ msg st, (Ret None, set_world (world st ++ [op msg]) st).

Definition mark (op : string → Time → Op) : Context → string → Time → World → outcome (option error) * World :=
  λ _ upn t x, (Ret None, x ++ [op upn t]).

Definition toy_worker : Worker World :=
  mkWorker (mkReceiver (λ _ _ st, (Ret (Ok []), st)) (settle OComplete) (settle OAbandon))
    toy_process
    (λ _ _ _ x, (Ret (Ok [112; 119]), x ++ [ODecrypt]))
    (mkRecorder (mark OMarkSynced) (mark OMarkFailed))
    1 (10 * Second) Second [Second; 2 * Second]
    (λ _ e x, (Ret None, x ++ [ODeadLetter e true]))
    (λ x, (0, x)) (λ _ d x, (Ret None, x ++ [OSleep d])).

Definition toy_ctx (x : World) : Context := background.

#[local] Instance toy_log : WorkerLog toy_worker id.
Proof.
  split; try done. intros ctx cmd st. cbn. by destruct (failed_before (world st)).
Qed.

#[local] Instance toy_memory : WorkerMemory toy_worker.
Proof. split; intros; intros st sl; (split; [apply Nat.le_refl|done]). Qed.

#[local] Instance toy_returns : WorkerReturns toy_worker.
Proof. split; intros; cbn; by eexists. Qed.

Definition msg : Message := mkMsg 0 (mkSlice 0 (length body)) " password-sync ".
Definition start : St World := mkSt [body] [] NewResponse [].
Definition finish : St World := (processMessage toy_worker toy_ctx (Some msg) start).2.

Example toy_calls : world finish =
  [ODecrypt; OProcess false; OSleep Second; ODecrypt; OProcess true;
   OMarkSynced "a1@x" (Unix 1752623999 + 120000000); OComplete (Some msg)].
Proof. vm_compute. reflexivity. Qed.

Lemma message_settled_once_witness : ∃ pre settle,
  world finish = world start ++ pre ++ [settle] ∧ settlement (Some msg) pre settle.
Proof.
  apply (message_settled_once toy_worker toy_ctx id (Some msg) start finish None).
  vm_compute. reflexivity.
Defined.

Lemma batch_settled_in_order_witness : ∃ settled l, settled `prefix_of` [Some msg; None] ∧
  (@None (option error) = None → settled = [Some msg; None]) ∧
  Forall2 (λ msg p, settlement msg p.1 p.2) settled l ∧
  world (process_batch toy_worker toy_ctx [Some msg; None] start).2
    = world start ++ concat (map (λ p : list Op * Op, p.1 ++ [p.2]) l).
Proof.
  apply (batch_settled_in_order toy_worker toy_ctx id [Some msg; None] start
    (process_batch toy_worker toy_ctx [Some msg; None] start).2 None).
  vm_compute. reflexivity.
Defined.

Lemma retries_bounded_witness : ∃ res st' tries,
  processPasswordSync toy_worker toy_ctx zero_message start = (Ret res, st') ∧
  world st' = world start ++ tries ∧
  1 <= attempts res <= Z.of_nat (length (retryBackoffs toy_worker)) + 1 ∧
  Z.of_nat (decrypts tries) = attempts res ∧ sleeps tries `prefix_of` retryBackoffs toy_worker ∧
  match res_err res with
  | None => ∃ t0, tries = t0 ++ [OProcess true] ∧ OProcess true ∉ t0
  | Some _ => OProcess true ∉ tries
  end.
Proof. apply (retries_bounded toy_worker toy_ctx id zero_message start). Defined.

Lemma worker_wipes_secrets_witness : all_zero (slice_bytes (mem finish) (m_Body msg)).
Proof.
  apply (worker_wipes_secrets toy_worker toy_ctx start) with (r := None).
  - apply Nat.ltb_lt. vm_compute. reflexivity.
  - vm_compute. reflexivity.
Defined.
End WorkerWitnesses.
