(* ===== verification/ServiceBusQueue.v ===== *)
(** * The queue (internal/servicebusqueue)

    The sender of password-sync messages, the receiver behind the worker's
    Receiver interface, the safe dead-letter queue and the depth probe.  The
    Service Bus client library is a parameter: a sender and a receiver over
    the world.  The receiver's table of native messages is a field of the
    world, reached through [get_native] and [set_native]; a *worker.Message
    is identified by its number, and [next_ptr] is the next unused one. *)
From stdpp Require Import base gmap strings list pretty.
From Stdlib Require Import ZArith Lia Ascii.
From S2P Require Import Prelude Utf8 GoStrings GoTime Json GoBase Observability GoState HookJson JsonPrint TimeText.
From S2P Require Import SensitiveIO Http JsonMarshal PasswordCrypto SyncStatus Identity MigrationService Worker.

Local Open Scope Z_scope.

(** ** Messages *)

Definition defaultTTL : Duration := 300 * Second.

(** azservicebus.Message as far as the service fills it. *)
Record BusMessage := mkBusMessage {
  ApplicationProperties : gmap string string;
  bus_Body : bytes;
  ContentType : string;
  MessageID : option string;
  bus_Subject : string;
  TimeToLive : option Duration
}.

(** azservicebus.ReceivedMessage; [native_kind] is the property kind when it
    is a string. *)
Record ReceivedMessage := mkReceived {
  native_id : nat;
  native_Body : Slice;
  native_kind : option string;
  native_Subject : option string
}.

(** ** json.Marshal of the two structs *)

(** Time.MarshalJSON of a time in UTC. *)
Definition marshal_utc (t : Time) : result json :=
  if within 0 9999 (year_of_day (t / day_ns)) then Ok (JStr (bytes_of_string (format_rfc3339nano t)))
  else Err (ErrorText "Time.MarshalJSON: year outside of range [0,9999]").

Definition member (k : string) (v : json) : bytes * json := (bytes_of_string k, v).
Definition string_member (k s : string) : bytes * json := member k (str_value s).
Definition omitempty_member (k s : string) : list (bytes * json) :=
  if bool_decide (s = ""%string) then [] else [string_member k s].

Definition message_members (m : PasswordSyncMessage) (enqueuedAt : json) : list (bytes * json) :=
  [string_member "cn" (CN m); string_member "upn" (UPN m); string_member "eventType" (msg_EventType m)]
  ++ omitempty_member "traceId" (TraceID m)
  ++ [string_member "passwordCiphertext" (PasswordCiphertext m); string_member "passwordNonce" (PasswordNonce m);
      string_member "passwordKeyId" (PasswordKeyID m); string_member "passwordAlg" (PasswordAlg m);
      string_member "displayName" (DisplayName m); string_member "mail" (Mail m); member "enqueuedAt" enqueuedAt].

(** json.Marshal(msg) of a message whose time is in UTC. *)
Definition marshal_message (m : PasswordSyncMessage) : result bytes :=
  match marshal_utc (EnqueuedAt m) with
  | Ok t => Ok (print (JObj (message_members m t)))
  | Err e => Err e
  end.

(** ** The sender *)

Record sender (W : Type) := mkSender {
  SendMessage : Context → BusMessage → W → outcome (option error) * W;
  sender_Close : Context → W → outcome (option error) * W
}.
Arguments mkSender {W} _ _.
Arguments SendMessage {W} _ _ _ _.
Arguments sender_Close {W} _ _ _.

Definition closer (W : Type) : Type := Context → W → outcome (option error) * W.

Record BusQueue (W : Type) := mkBusQueue {
  bq_sender : sender W;
  bq_client : option (closer W);
  bq_ttl : Duration
}.
Arguments mkBusQueue {W} _ _ _.
Arguments bq_sender {W} _.
Arguments bq_client {W} _.
Arguments bq_ttl {W} _.

Definition NewWithClient {W} (s : option (sender W)) (client : option (closer W)) (ttl : Duration) : result (BusQueue W) :=
  match s with
  | None => Err (ErrorText "service bus sender is required")
  | Some s => Ok (mkBusQueue s client (if ttl <=? 0 then defaultTTL else ttl))
  end.

(** The message EnqueuePasswordSync sends for a body. *)
Definition bus_message {W} (q : BusQueue W) (msg : PasswordSyncMessage) (body : bytes) : BusMessage :=
  mkBusMessage
    {[ "kind"%string := "password-sync"%string; "cn"%string := CN msg; "upn"%string := UPN msg ]}
    body "application/json"
    (Some (UPN msg +:+ ":" +:+ format_rfc3339nano (UTC (EnqueuedAt msg))))
    "password-sync" (Some (bq_ttl q)).

Definition bus_EnqueuePasswordSync {W} (q : BusQueue W) (ctx : Context) (msg : PasswordSyncMessage) (w : W)
    : outcome (option error) * W :=
  match marshal_message msg with
  | Err e => (Ret (Some (Wrapped "marshal password sync message" e)), w)
  | Ok body =>
    match SendMessage (bq_sender q) ctx (bus_message q msg body) w with
    | (Ret (Some e), w') => (Ret (Some (Wrapped "send password sync message" e)), w')
    | (Ret None, w') => (Ret None, w')
    | (Panic v, w') => (Panic v, w')
    end
  end.

(** As the migration.Queue of the service. *)
Definition bus_queue {W} (q : BusQueue W) : Queue W := mkQueue (bus_EnqueuePasswordSync q).

(** The Close methods: sender or receiver first, then the client; both errors
    are reported. *)
Definition close_both {W} (what : string) (first : closer W) (client : option (closer W)) (ctx : Context) (w : W)
    : outcome (option error) * W :=
  match first ctx w with
  | (Panic v, w1) => (Panic v, w1)
  | (Ret e1, w1) =>
    let err1 := match e1 with Some e => Some (Wrapped ("close service bus " +:+ what) e) | None => None end in
    match client with
    | None => (Ret (errors_Join [err1]), w1)
    | Some cl =>
      match cl ctx w1 with
      | (Panic v, w2) => (Panic v, w2)
      | (Ret e2, w2) =>
        (Ret (errors_Join [err1; match e2 with Some e => Some (Wrapped "close service bus client" e) | None => None end]), w2)
      end
    end
  end.

Definition queue_Close {W} (q : BusQueue W) : closer W := close_both "sender" (sender_Close (bq_sender q)) (bq_client q).

(** ** The safe dead-letter queue *)

Definition passwordSyncDLQKind := "password-sync-dlq"%string.

(** The entry's members; [marshal_time] is Time.MarshalJSON for a time with
    its location.  The tag omitempty has no effect on a struct, so the
    enqueue time is always there. *)
Definition entry_members (e : DeadLetterEntry) (enqueuedAt failedAt : json) : list (bytes * json) :=
  [string_member "kind" (e_Kind e)] ++ omitempty_member "cn" (e_CN e) ++ omitempty_member "upn" (e_UPN e)
  ++ [string_member "reason" (e_Reason e); string_member "description" (e_Description e);
      member "attempts" (JNum (bytes_of_string (pretty (e_Attempts e))));
      member "enqueuedAt" enqueuedAt; member "failedAt" failedAt].

Definition marshal_entry (marshal_time : Time → result json) (e : DeadLetterEntry) : result bytes :=
  match marshal_time (e_EnqueuedAt e) with
  | Err err => Err err
  | Ok enq =>
    match marshal_time (e_FailedAt e) with
    | Err err => Err err
    | Ok failed => Ok (print (JObj (entry_members e enq failed)))
    end
  end.

Definition entry_message (e : DeadLetterEntry) (body : bytes) : BusMessage :=
  mkBusMessage
    {[ "kind"%string := passwordSyncDLQKind; "cn"%string := e_CN e; "upn"%string := e_UPN e;
       "reason"%string := e_Reason e ]}
    body "application/json" None passwordSyncDLQKind None.

Definition RecordPasswordSyncFailure {W} (marshal_time : Time → result json) (s : sender W) (ctx : Context)
    (entry : DeadLetterEntry) (w : W) : outcome (option error) * W :=
  let entry := mkEntry (e_Kind entry) (e_CN entry) (e_UPN entry) (e_Reason entry) (e_Description entry)
                 (e_Attempts entry) (e_EnqueuedAt entry) (e_FailedAt entry) "" in
  match marshal_entry marshal_time entry with
  | Err e => (Ret (Some (Wrapped "marshal password sync dead-letter message" e)), w)
  | Ok body =>
    match SendMessage s ctx (entry_message entry body) w with
    | (Ret (Some e), w') => (Ret (Some (Wrapped "send password sync dead-letter message" e)), w')
    | (Ret None, w') => (Ret None, w')
    | (Panic v, w') => (Panic v, w')
    end
  end.

(** DeadLetterQueue: its sender and its client. *)
Definition NewDeadLetterQueueWithClient {W} (s : option (sender W)) (client : option (closer W))
    : result (sender W * option (closer W)) :=
  match s with
  | None => Err (ErrorText "service bus dead-letter sender is required")
  | Some s => Ok (s, client)
  end.

Definition dlq_Close {W} (q : sender W * option (closer W)) : closer W :=
  close_both "dead-letter sender" (sender_Close q.1) q.2.

(** ** The receiver *)

Record NativeTable := mkNativeTable {
  native : gmap nat ReceivedMessage;
  next_ptr : nat
}.

Record serviceBusReceiver (W : Type) := mkBusReceiver {
  bus_Receive : Context → Z → M (St W) (result (list (option ReceivedMessage)));
  bus_Complete : Context → ReceivedMessage → M (St W) (option error);
  bus_Abandon : Context → ReceivedMessage → M (St W) (option error);
  bus_Close : closer W
}.
Arguments mkBusReceiver {W} _ _ _ _.
Arguments bus_Receive {W} _ _ _.
Arguments bus_Complete {W} _ _ _.
Arguments bus_Abandon {W} _ _ _.
Arguments bus_Close {W} _ _ _.

Definition messageKind (msg : ReceivedMessage) : string :=
  match native_kind msg with
  | Some k => k
  | None => default ""%string (native_Subject msg)
  end.

Section Receiver.
Context {W : Type} (bus : option (serviceBusReceiver W)).
Context (get_native : W → NativeTable) (set_native : NativeTable → W → W).

Definition table : M (St W) NativeTable := st ← get; mret (get_native (world st)).
Definition put_table (t : NativeTable) : M (St W) unit := modify (λ st, set_world (set_native t (world st)) st).

(** ensureNativeReceiver in front of a statement that returns an error. *)
Definition errNoReceiver : error := ErrorText "service bus receiver is required".

(** A new *worker.Message for a native one, entered in the table. *)
Definition wrap_native (n : ReceivedMessage) : M (St W) Message :=
  b ← read_slice (native_Body n);
  body ← alloc b (length b);
  t ← table;
  let msg := mkMsg (next_ptr t) body (messageKind n) in
  put_table (mkNativeTable (<[next_ptr t := n]> (native t)) (S (next_ptr t))) ;;
  mret msg.

Fixpoint wrap_all (messages : list (option ReceivedMessage)) : M (St W) (list (option Message)) :=
  match messages with
  | [] => mret []
  | None :: _ => panic "runtime error: invalid memory address or nil pointer dereference"
  | Some n :: messages' =>
      msg ← wrap_native n;
      out ← wrap_all messages';
      mret (Some msg :: out)
  end.

Definition bus_ReceiveMessages (ctx : Context) (maxMessages : Z) : M (St W) (result (list (option Message))) :=
  match bus with
  | None => mret (Err errNoReceiver)
  | Some bus =>
      r ← bus_Receive bus ctx maxMessages;
      match r with
      | Err e => mret (Err e)
      | Ok messages => out ← wrap_all messages; mret (Ok out)
      end
  end.

Definition nativeMessage (msg : option Message) (t : NativeTable) : result ReceivedMessage :=
  match msg with
  | Some m => match native t !! m_ptr m with
              | Some n => Ok n
              | None => Err (ErrorText "worker message was not received by this service bus receiver")
              end
  | None => Err (ErrorText "worker message was not received by this service bus receiver")
  end.

Definition zeroReceivedBodies (msg : option Message) (n : ReceivedMessage) : M (St W) unit :=
  match msg with Some m => ZeroBytes (Some (m_Body m)) | None => mret tt end ;;
  ZeroBytes (Some (native_Body n)).

(** CompleteMessage and AbandonMessage differ in the call they make. *)
Definition settle_native (settle : serviceBusReceiver W → Context → ReceivedMessage → M (St W) (option error))
    (ctx : Context) (msg : option Message) : M (St W) (option error) :=
  match bus with
  | None => mret (Some errNoReceiver)
  | Some bus =>
      t ← table;
      match nativeMessage msg t with
      | Err e => mret (Some e)
      | Ok n =>
          zeroReceivedBodies msg n ;;
          err ← settle bus ctx n;
          match err with
          | Some e => mret (Some e)
          | None =>
              t ← table;
              put_table (mkNativeTable
                (match msg with Some m => delete (m_ptr m) (native t) | None => native t end) (next_ptr t)) ;;
              mret None
          end
      end
  end.

Definition bus_CompleteMessage := settle_native bus_Complete.
Definition bus_AbandonMessage := settle_native bus_Abandon.

(** As the worker.Receiver of the worker. *)
Definition bus_receiver : Receiver W := mkReceiver bus_ReceiveMessages bus_CompleteMessage bus_AbandonMessage.

Definition receiver_Close (client : option (closer W)) : closer W :=
  close_both "receiver" (match bus with Some b => bus_Close b | None => λ _ w, (Ret None, w) end) client.

(** ** The depth probe *)

Definition Probe (reader : option (Context → string → W → outcome (result Z) * W)) (queueName kind : string)
    (ctx : Context) : M (St W) (result Z) :=
  match reader with
  | None => mret (Err (ErrorText "queue depth reader is required"))
  | Some reader =>
      let queue := TrimSpace queueName in
      let kind := TrimSpace kind in
      if bool_decide (queue = ""%string) then mret (Err (ErrorText "queue depth queue name is required"))
      else
        r ← call (reader ctx queue);
        match r with
        | Err e => mret (Err (Wrapped "read queue depth" e))
        | Ok depth =>
            let kind := if bool_decide (kind = ""%string) then "active"%string else kind in
            emit (SetGauge MetricQueueDepth depth {[ "queue"%string := queue; "kind"%string := kind ]}) ;;
            mret (Ok depth)
        end
  end.
End Receiver.

(** ** What the worker reads *)

Lemma plain_text_ok l : Forall (λ b, 32 <= b ∧ b ≠ 34 ∧ b ≠ 92) l → json_text l.
Proof. induction 1 as [|b l (?&?&?) _ IH]; [constructor|by apply text_plain]. Qed.

Lemma digits_plain l : Forall (λ d, is_dec d = true) l → Forall (λ b, 32 <= b ∧ b ≠ 34 ∧ b ≠ 92) l.
Proof. intros H. eapply Forall_impl; [exact H|]. intros b Hb. apply within_iff in Hb. lia. Qed.

Lemma format_text t : four_digit_year t → json_text (bytes_of_string (format_rfc3339nano t)).
Proof.
  intros Hy. apply plain_text_ok. unfold format_rfc3339nano, date_time_string.
  destruct (civil_spec (t / day_ns)) as (y&m&d&Hc&Hyd&_). rewrite Hc.
  unfold four_digit_year in Hy. rewrite <- Hyd in Hy. unfold year_string. rewrite within_true by lia.
  rewrite !bytes_of_string_app.
  assert (Forall (λ b, 32 <= b ∧ b ≠ 34 ∧ b ≠ 92) (bytes_of_string (frac_string (t mod Second)))) as Hf.
  { unfold frac_string. destruct (t mod Second =? 0); [constructor|].
    destruct (TrimRight_spec ("." +:+ pad_dec 9 (t mod Second)) "0"%char) as (k&Hk).
    assert (Forall (λ b, 32 <= b ∧ b ≠ 34 ∧ b ≠ 92) (bytes_of_string ("." +:+ pad_dec 9 (t mod Second)))) as H.
    { rewrite bytes_of_string_app. apply Forall_app. split; [repeat constructor; cbn; lia|].
      apply digits_plain, pad_dec_digits. }
    rewrite Hk in H. by apply Forall_app in H as [H _]. }
  repeat (apply Forall_app; split); try apply Hf; try apply digits_plain, pad_dec_digits; repeat constructor; cbn; lia.
Qed.

(** Decode one string member of a message. *)
Ltac decode_string_member :=
  erewrite decode_member; [|by vm_compute|by vm_compute|
    unfold set_message_field; repeat rewrite bool_decide_false by done; rewrite ?bool_decide_true by done;
    rewrite ?string_unmarshal_value; reflexivity].

(** The message as it arrives: without the plaintext field, which is never
    encoded, and with what is not UTF-8 replaced. *)
Definition arrived (m : PasswordSyncMessage) : PasswordSyncMessage :=
  mkMessage (valid_utf8 (CN m)) (valid_utf8 (UPN m)) (valid_utf8 (msg_EventType m)) (valid_utf8 (TraceID m)) ""
    (valid_utf8 (PasswordCiphertext m)) (valid_utf8 (PasswordNonce m)) (valid_utf8 (PasswordKeyID m))
    (valid_utf8 (PasswordAlg m)) (valid_utf8 (DisplayName m)) (valid_utf8 (Mail m)) (EnqueuedAt m).

Lemma members_read m : four_digit_year (EnqueuedAt m) →
  decode_members message_fields set_message_field
    (message_members m (JStr (bytes_of_string (format_rfc3339nano (EnqueuedAt m))))) zero_message = Some (arrived m).
Proof.
  intros Hy. unfold message_members, omitempty_member, zero_message. cbn [app]. unfold string_member, member.
  do 3 decode_string_member.
  case_bool_decide as E; cbn [app].
  - do 6 decode_string_member.
    erewrite decode_member; [|by vm_compute|by vm_compute|].
    2: { unfold set_message_field. repeat rewrite bool_decide_false by done. cbn [time_unmarshal].
         rewrite parse_format by done. reflexivity. }
    unfold arrived. by rewrite E.
  - do 7 decode_string_member.
    erewrite decode_member; [|by vm_compute|by vm_compute|].
    2: { unfold set_message_field. repeat rewrite bool_decide_false by done. cbn [time_unmarshal].
         rewrite parse_format by done. reflexivity. }
    done.
Qed.

Lemma member_texts m t : json_text t →
  Forall (λ kv, json_text kv.1 ∧ printable 0 kv.2) (message_members m (JStr t)).
Proof.
  intros Ht. unfold message_members.
  assert (∀ k s, json_text (bytes_of_string k) → json_text (string_member k s).1 ∧ printable 0 (string_member k s).2) as Hs.
  { intros k s Hk. split; [done|apply str_value_text]. }
  assert (∀ k, forallb (λ b, (32 <=? b) && negb (b =? 34) && negb (b =? 92)) (bytes_of_string k) = true →
    json_text (bytes_of_string k)) as Hk.
  { intros k H. apply plain_text_ok. rewrite forallb_Forall in H. eapply Forall_impl; [exact H|].
    intros b Hb. cbn in Hb. bool_hyps. done. }
  repeat (apply Forall_app; split).
  - repeat (apply Forall_cons; split; [apply Hs, Hk; done|]). constructor.
  - unfold omitempty_member. case_if; [constructor|]. apply Forall_cons. split; [apply Hs, Hk; done|constructor].
  - repeat (apply Forall_cons; split; [first [apply Hs, Hk; done|split; [apply Hk; done|done]]|]). constructor.
Qed.

Lemma marshal_message_reads m : four_digit_year (EnqueuedAt m) →
  ∃ body, marshal_message m = Ok body ∧ unmarshal_message body = Some (arrived m).
Proof.
  intros Hy. unfold marshal_message, marshal_utc. rewrite within_true by exact Hy.
  eexists. split; [reflexivity|]. unfold unmarshal_message, unmarshal_struct.
  rewrite (parse_document_print 1); [by apply members_read| |done].
  apply member_texts. by apply format_text.
Qed.

(** The texts of a message. *)
Definition message_texts (m : PasswordSyncMessage) : list string :=
  [CN m; UPN m; msg_EventType m; TraceID m; PasswordCiphertext m; PasswordNonce m; PasswordKeyID m; PasswordAlg m;
   DisplayName m; Mail m].

Lemma arrived_id m : Forall (λ s, Utf8 (bytes_of_string s)) (message_texts m) → msg_Password m = ""%string → arrived m = m.
Proof.
  destruct m. unfold message_texts, arrived. cbn -[valid_utf8 bytes_of_string]. rewrite !Forall_cons. intros (?&?&?&?&?&?&?&?&?&?&_) ->.
  by rewrite !valid_utf8_id.
Qed.

(** The message with another plaintext. *)
Definition with_password (p : string) (m : PasswordSyncMessage) : PasswordSyncMessage :=
  mkMessage (CN m) (UPN m) (msg_EventType m) (TraceID m) p (PasswordCiphertext m) (PasswordNonce m)
    (PasswordKeyID m) (PasswordAlg m) (DisplayName m) (Mail m) (EnqueuedAt m).

Lemma set_message_field_password name v m m' : set_message_field name v m = Some m' → msg_Password m' = msg_Password m.
Proof.
  destruct m. unfold set_message_field. repeat case_bool_decide;
    repeat match goal with |- context [match ?x with Some _ => _ | None => _ end] => destruct x end; by intros [= <-].
Qed.

Lemma unmarshal_message_password body m : unmarshal_message body = Some m → msg_Password m = ""%string.
Proof.
  unfold unmarshal_message, unmarshal_struct. destruct (parse_document body) as [[]|]; try done.
  { by intros [= <-]. }
  match goal with |- decode_members _ _ ?ms _ = _ → _ => rename ms into members end.
  change ""%string with (msg_Password zero_message). generalize zero_message as a.
  induction members as [|[k v] ms IH]; intros a; cbn [decode_members]; [by intros [= <-]|].
  destruct (unquote k); [|done]. destruct (field_match message_fields _); [|apply IH].
  destruct (set_message_field _ v a) as [a'|] eqn:Ea; [|done]. intros H.
  apply set_message_field_password in Ea. rewrite <- Ea. by apply IH.
Qed.

(** C18 What the hook puts on the queue is what the worker takes from it.  A
    message dated in the years 0 to 9999 always encodes; the worker's decoder
    accepts the text and reads every field but the plaintext back, the enqueue
    time to the nanosecond.  Text fields come back as they were when they are
    valid UTF-8 (otherwise with the invalid parts replaced).  The plaintext
    field has no influence on what is sent: with any other plaintext the queue
    sends the same message, body, properties, id and subject; and no body, not
    even one with a password member, makes the worker's decoder fill it. *)
Theorem queued_message_reads_back m :
  four_digit_year (EnqueuedAt m) →
  ∃ body, marshal_message m = Ok body ∧ unmarshal_message body = Some (arrived m) ∧
    EnqueuedAt (arrived m) = EnqueuedAt m ∧
    (Forall (λ s, Utf8 (bytes_of_string s)) (message_texts m) → arrived m = with_password "" m) ∧
    (∀ p, marshal_message (with_password p m) = Ok body) ∧
    (∀ (W : Type) (q : BusQueue W) ctx p w,
       bus_EnqueuePasswordSync q ctx (with_password p m) w = bus_EnqueuePasswordSync q ctx m w) ∧
    (∀ text m', unmarshal_message text = Some m' → msg_Password m' = ""%string).
Proof.
  intros Hy. destruct (marshal_message_reads m Hy) as (body&Hm&Hu). exists body. split_and!; try done.
  - intros Hf. by rewrite <- (arrived_id (with_password "" m)).
  - apply unmarshal_message_password.
Qed.

(** ** Settlement *)

(** What the table relies on: the world keeps it, and the client library does
    not touch it. *)
Class TableLaws {W} (bus : serviceBusReceiver W) (get_native : W → NativeTable) (set_native : NativeTable → W → W) := {
  get_set t x : get_native (set_native t x) = t;
  receive_table ctx n st : get_native (world (bus_Receive bus ctx n st).2) = get_native (world st);
  complete_table ctx n st : get_native (world (bus_Complete bus ctx n st).2) = get_native (world st);
  abandon_table ctx n st : get_native (world (bus_Abandon bus ctx n st).2) = get_native (world st)
}.

(** The calls a client can make on the receiver. *)
Inductive receiver_op :=
  | Receive (ctx : Context) (maxMessages : Z)
  | Complete (ctx : Context) (msg : Message)
  | Abandon (ctx : Context) (msg : Message).

Section Settle.
Context {W : Type} (bus : serviceBusReceiver W).
Context (get_native : W → NativeTable) (set_native : NativeTable → W → W) `{!TableLaws bus get_native set_native}.
Implicit Types st : St W.

#[local] Abbreviation tbl st := (get_native (world st)).

(** One call: the message it settled, if it did, and the next state. *)
Definition receiver_step (op : receiver_op) st : option nat * St W :=
  match op with
  | Receive ctx n => (None, (bus_ReceiveMessages (Some bus) get_native set_native ctx n st).2)
  | Complete ctx msg =>
      let '(o, st') := bus_CompleteMessage (Some bus) get_native set_native ctx (Some msg) st in
      (if no_error o then Some (m_ptr msg) else None, st')
  | Abandon ctx msg =>
      let '(o, st') := bus_AbandonMessage (Some bus) get_native set_native ctx (Some msg) st in
      (if no_error o then Some (m_ptr msg) else None, st')
  end.

(** The messages a sequence of calls settled, in order. *)
Fixpoint settled_by (ops : list receiver_op) st : list nat :=
  match ops with
  | [] => []
  | op :: ops' => let '(p, st') := receiver_step op st in option_list p ++ settled_by ops' st'
  end.

(** Numbers are handed out in order. *)
Definition table_ok (t : NativeTable) : Prop := ∀ p n, native t !! p = Some n → (p < next_ptr t)%nat.

Lemma wrap_native_run n st : ∃ body st', wrap_native get_native set_native n st
    = (Ret (mkMsg (next_ptr (tbl st)) body (messageKind n)), st') ∧
  tbl st' = mkNativeTable (<[next_ptr (tbl st) := n]> (native (tbl st))) (S (next_ptr (tbl st))) ∧
  mem st' = mem st ++ [slice_bytes (mem st) (native_Body n)] ∧ body = mkSlice (length (mem st)) (length (slice_bytes (mem st) (native_Body n))).
Proof.
  unfold wrap_native, table, put_table, alloc, mem_alloc. step_go.
  eexists _, _. split; [reflexivity|]. red_go. by rewrite get_set, Nat.sub_diag, app_nil_r.
Qed.

(** The entries of the table while messages are wrapped: old ones stay, new
    ones get unused numbers. *)
Definition table_grows (t t' : NativeTable) : Prop :=
  (next_ptr t <= next_ptr t')%nat ∧ (table_ok t → table_ok t') ∧
  ∀ p, (p < next_ptr t)%nat → native t' !! p = native t !! p.

Lemma wrap_native_grows n t : table_grows t (mkNativeTable (<[next_ptr t := n]> (native t)) (S (next_ptr t))).
Proof.
  split_and!; cbn; [lia| |].
  - intros Hok p n' Hp. cbn in *. destruct (decide (p = next_ptr t)) as [->|Hne]; [lia|].
    rewrite lookup_insert_ne in Hp by done. apply Hok in Hp. lia.
  - intros p Hp. apply lookup_insert_ne. lia.
Qed.

Lemma table_grows_refl t : table_grows t t.
Proof. split_and!; [lia|auto|done]. Qed.

Lemma table_grows_trans t1 t2 t3 : table_grows t1 t2 → table_grows t2 t3 → table_grows t1 t3.
Proof.
  intros (H1&H2&H3) (H4&H5&H6). split_and!; [lia|auto|]. intros p Hp. rewrite H6 by lia. auto.
Qed.

Lemma wrap_all_grows ns : ∀ st o st', wrap_all get_native set_native ns st = (o, st') → table_grows (tbl st) (tbl st').
Proof.
  induction ns as [|[n|] ns IH]; intros st o st' H; cbn [wrap_all] in H.
  - apply mret_inv in H as [_ ->]. by split_and!.
  - destruct (wrap_native_run n st) as (body&st1&Hw&Ht&_). rewrite (bind_ret _ _ _ _ _ Hw) in H.
    pose proof (wrap_native_grows n (tbl st)) as Hg. rewrite <- Ht in Hg.
    eapply table_grows_trans; [exact Hg|].
    apply bind_inv in H as [(out&st2&H&H2)|(v&H&_)]; [|by eapply IH].
    apply mret_inv in H2 as [_ ->]. by eapply IH.
  - injection H as _ <-. by split_and!.
Qed.

(** The table without the entry of [msg]. *)
Definition forget (msg : Message) (t : NativeTable) : NativeTable :=
  mkNativeTable (delete (m_ptr msg) (native t)) (next_ptr t).

(** A settlement that reports success made the one call on the native message
    of this very message, with both bodies wiped, and forgot it. *)
Lemma settle_native_inv settle ctx msg st o st' :
  (∀ ctx n st, tbl (settle bus ctx n st).2 = tbl st) →
  settle_native (Some bus) get_native set_native settle ctx (Some msg) st = (o, st') →
  if no_error o then
    ∃ n m1 st2, native (tbl st) !! m_ptr msg = Some n ∧
      m1 = mem_zero (mem_zero (mem st) (m_Body msg)) (native_Body n) ∧
      settle bus ctx n (set_mem m1 st) = (Ret None, st2) ∧
      st' = set_world (set_native (forget msg (tbl st)) (world st2)) st2 ∧ tbl st' = forget msg (tbl st)
  else tbl st' = tbl st.
Proof.
  intros Hlaw H. unfold settle_native in H. rewrite (bind_ret _ _ _ (tbl st) st) in H by done.
  cbn [nativeMessage] in H. destruct (native (tbl st) !! m_ptr msg) as [n|] eqn:En.
  2: { apply mret_inv in H as [-> ->]. done. }
  set (m1 := mem_zero (mem_zero (mem st) (m_Body msg)) (native_Body n)) in *.
  rewrite (bind_ret _ _ _ tt (set_mem m1 st)) in H by done.
  pose proof (Hlaw ctx n (set_mem m1 st)) as Ht. cbn [world set_mem] in Ht.
  apply bind_inv in H as [(err&st2&Hs&H)|(v&Hs&->)]; rewrite Hs in Ht; cbn [snd] in Ht; [|done].
  destruct err as [e|].
  - apply mret_inv in H as [-> ->]. done.
  - rewrite (bind_ret _ _ _ (tbl st2) st2) in H by done. unfold put_table, modify in H. step_go.
    injection H as <- <-. cbn [no_error]. exists n, m1, st2. split_and!; try done.
    + by rewrite Ht.
    + red_go. by rewrite get_set, Ht.
Qed.

Lemma receiver_step_inv op st p st' : receiver_step op st = (p, st') →
  match p with
  | Some p => is_Some (native (tbl st) !! p) ∧ tbl st' = mkNativeTable (delete p (native (tbl st))) (next_ptr (tbl st))
  | None => table_grows (tbl st) (tbl st')
  end.
Proof.
  destruct op as [ctx n|ctx msg|ctx msg]; cbn [receiver_step].
  - destruct (bus_ReceiveMessages (Some bus) get_native set_native ctx n st) as [o st1] eqn:E. intros [= <- <-].
    pose proof (receive_table (set_native:=set_native) ctx n st) as Ht. unfold bus_ReceiveMessages in E.
    apply bind_inv in E as [(r&st0&Hr&H)|(v&Hr&_)]; rewrite Hr in Ht; cbn [snd] in Ht; rewrite <- Ht.
    2: apply table_grows_refl.
    destruct r as [ns|e]; [|apply mret_inv in H as [_ ->]; apply table_grows_refl].
    apply bind_inv in H as [(out&st2&Hw&H)|(v&Hw&_)]; [|by eapply wrap_all_grows].
    apply mret_inv in H as [_ ->]. by eapply wrap_all_grows.
  - destruct (bus_CompleteMessage (Some bus) get_native set_native ctx (Some msg) st) as [o st1] eqn:E. intros [= <- <-].
    apply settle_native_inv in E; [|apply (complete_table (set_native:=set_native))].
    destruct (no_error o); [destruct E as (n&m1&st2&Hn&_&_&_&Ht); by rewrite Hn|rewrite E; apply table_grows_refl].
  - destruct (bus_AbandonMessage (Some bus) get_native set_native ctx (Some msg) st) as [o st1] eqn:E. intros [= <- <-].
    apply settle_native_inv in E; [|apply (abandon_table (set_native:=set_native))].
    destruct (no_error o); [destruct E as (n&m1&st2&Hn&_&_&_&Ht); by rewrite Hn|rewrite E; apply table_grows_refl].
Qed.

Lemma settled_by_fresh ops : ∀ st, table_ok (tbl st) →
  NoDup (settled_by ops st) ∧
  ∀ p, p ∈ settled_by ops st → is_Some (native (tbl st) !! p) ∨ (next_ptr (tbl st) <= p)%nat.
Proof.
  induction ops as [|op ops IH]; intros st Hok; cbn [settled_by]; [split; [constructor|by intros p []%elem_of_nil]|].
  destruct (receiver_step op st) as [[p|] st'] eqn:E; apply receiver_step_inv in E; cbn [option_list app].
  - destruct E as [[n Hp] Ht]. destruct (IH st') as [IHn IHp].
    { rewrite Ht. intros q n' Hq. cbn in *. apply lookup_delete_Some in Hq as [_ Hq]. by eapply Hok. }
    rewrite Ht in IHp. cbn in IHp. pose proof (Hok _ _ Hp) as Hlt. split.
    + constructor; [|done]. intros Hin. apply IHp in Hin as [[n' Hin]|Hin]; [|lia].
      by rewrite lookup_delete_eq in Hin.
    + intros q [->|Hq]%elem_of_cons; [by left; eexists|]. apply IHp in Hq as [[n' Hq]|Hq]; [|by right].
      apply lookup_delete_Some in Hq as [_ Hq]. left. by eexists.
  - destruct E as (Hnext&Hok'&Hold). destruct (IH st' (Hok' Hok)) as [IHn IHp]. split; [done|].
    intros q Hq. destruct (decide (q < next_ptr (tbl st))%nat); [|right; lia].
    apply IHp in Hq as [Hq|Hq]; [rewrite Hold in Hq by done; by left|lia].
Qed.

(** C19 No message is settled twice.  Over any sequence of Receive, Complete
    and Abandon calls on the receiver, in any order and with errors and panics
    of the client library in between, the successful settlements are for
    pairwise different messages; and each is one call on the native message
    that message was received as, made after both bodies were overwritten
    with zeros and followed only by the removal of the message's entry. *)
Theorem receiver_settles_once ops st :
  table_ok (tbl st) →
  NoDup (settled_by ops st) ∧
  ∀ settle ctx msg st1 st2, settle = bus_Complete ∨ settle = bus_Abandon →
    settle_native (Some bus) get_native set_native settle ctx (Some msg) st1 = (Ret None, st2) →
    ∃ n m1 st3, native (tbl st1) !! m_ptr msg = Some n ∧
      all_zero (slice_bytes m1 (m_Body msg)) ∧ all_zero (slice_bytes m1 (native_Body n)) ∧
      settle bus ctx n (set_mem m1 st1) = (Ret None, st3) ∧
      st2 = set_world (set_native (forget msg (tbl st1)) (world st3)) st3 ∧ native (tbl st2) !! m_ptr msg = None.
Proof.
  intros Hok. split; [by apply settled_by_fresh|]. intros settle ctx msg st1 st2 Hs H.
  apply settle_native_inv in H; [|destruct Hs as [ -> | -> ]; [apply (complete_table (set_native:=set_native))|apply (abandon_table (set_native:=set_native))]].
  destruct H as (n&m1&st3&Hn&Hm1&Hc&Hst&Ht). exists n, m1, st3. subst m1. split_and!; [done| | |done|done|].
  - apply mem_zero_preserves, mem_zero_self.
  - apply mem_zero_self.
  - rewrite Ht. apply lookup_delete_eq.
Qed.
End Settle.

(** The promise to the worker: settling never brings a zeroed buffer back,
    if the client library's calls do not. *)
Lemma settle_keeps_zero {W} (bus : serviceBusReceiver W) get_native set_native settle ctx msg :
  (∀ ctx n, keeps_zero (settle bus ctx n)) →
  keeps_zero (settle_native (Some bus) get_native set_native settle ctx msg).
Proof.
  intros Hlaw st sl. destruct (settle_native _ _ _ settle ctx msg st) as [o st'] eqn:H.
  unfold settle_native in H. rewrite (bind_ret _ _ _ (get_native (world st)) st) in H by done.
  destruct (nativeMessage msg (get_native (world st))) as [n|e].
  2: { apply mret_inv in H as [_ ->]. done. }
  assert (∃ m1, zeroReceivedBodies msg n st = (Ret tt, set_mem m1 st) ∧ length m1 = length (mem st) ∧
    (all_zero (slice_bytes (mem st) sl) → all_zero (slice_bytes m1 sl))) as (m1&Hz&Hl&Hm).
  { unfold zeroReceivedBodies. destruct msg as [m|]; eexists; (split; [reflexivity|]); red_go;
      rewrite !mem_zero_length; eauto using mem_zero_preserves. }
  rewrite (bind_ret _ _ _ _ _ Hz) in H.
  destruct (Hlaw ctx n (set_mem m1 st) sl) as [Hlen Hkeep]. cbn [mem set_mem] in Hlen, Hkeep. rewrite Hl in Hlen, Hkeep.
  assert (∀ st2 : St W, mem st2 = mem (settle bus ctx n (set_mem m1 st)).2 →
    (length (mem st) <= length (mem st2))%nat ∧
    ((s_loc sl < length (mem st))%nat → all_zero (slice_bytes (mem st) sl) → all_zero (slice_bytes (mem st2) sl))) as Hfin.
  { intros st2 Hm2. rewrite Hm2. auto. }
  apply Hfin. apply bind_inv in H as [(err&st2&Hs&H)|(v&Hs&_)]; rewrite Hs; cbn [snd]; [|done].
  destruct err; [by apply mret_inv in H as [_ ->]|].
  rewrite (bind_ret _ _ _ (get_native (world st2)) st2) in H by done. unfold put_table, modify in H. step_go.
  by injection H as _ <-.
Qed.

(** ** Concrete runs *)

Module QueueWitnesses.
Definition sample : PasswordSyncMessage :=
  mkMessage "a1" "a1@x" "password_change" "t<1>" "plain" "Y3Q=" "bg==" "k1" "AES-256-GCM" "A" "a@x" (Unix 1752623999 + 120000000).

Lemma queued_message_reads_back_witness :
  ∃ body, marshal_message sample = Ok body ∧ unmarshal_message body = Some (arrived sample) ∧
    EnqueuedAt (arrived sample) = EnqueuedAt sample ∧
    (Forall (λ s, Utf8 (bytes_of_string s)) (message_texts sample) → arrived sample = with_password "" sample) ∧
    (∀ p, marshal_message (with_password p sample) = Ok body) ∧
    (∀ (W : Type) (q : BusQueue W) ctx p w,
       bus_EnqueuePasswordSync q ctx (with_password p sample) w = bus_EnqueuePasswordSync q ctx sample w) ∧
    (∀ text m', unmarshal_message text = Some m' → msg_Password m' = ""%string).
Proof. apply (queued_message_reads_back sample). vm_compute. split; discriminate. Defined.

(** A client library that delivers the same two messages on each receive and
    counts the settlements it is asked for. *)
Definition World : Type := NativeTable * list nat.

Definition toy_bus : serviceBusReceiver World :=
  let settle := λ (_ : Context) (n : ReceivedMessage) (st : St World),
    (Ret None : outcome (option error), set_world ((world st).1, (world st).2 ++ [native_id n]) st) in
  mkBusReceiver
    (λ _ _ st, (Ret (Ok [Some (mkReceived 7 (mkSlice 0 2) (Some "password-sync"%string) None);
                         Some (mkReceived 8 (mkSlice 1 1) None (Some "other"%string))]), st))
    settle settle (λ _ w, (Ret None, w)).

Definition put (t : NativeTable) (w : World) : World := (t, w.2).

#[local] Instance toy_laws : TableLaws toy_bus fst put.
Proof. by split. Qed.

Definition start : St World := mkSt [[1; 2]; [3]] [] NewResponse (mkNativeTable ∅ 0, []).

Definition calls : list receiver_op :=
  let m := λ p, mkMsg p (mkSlice (2 + p) 1) "" in
  [Receive background 5; Complete background (m 0%nat); Complete background (m 0%nat);
   Abandon background (m 0%nat); Abandon background (m 1%nat); Complete background (m 9%nat)].

Lemma receiver_settles_once_witness :
  NoDup (settled_by toy_bus fst put calls start) ∧ settled_by toy_bus fst put calls start = [0%nat; 1%nat].
Proof.
  split; [|vm_compute; reflexivity].
  apply (receiver_settles_once toy_bus fst put calls start). intros p n Hp. vm_compute in Hp. discriminate.
Defined.
End QueueWitnesses.
