(* ===== verification/GraphProcessor.v ===== *)
(** * The worker's processor (internal/graphprocessor/processor.go)

    The adapter between the worker and the directory client: it turns a
    command into an upsert, times and reports it, and translates the client's
    permanent errors into the worker's.  The client is an argument, as the
    interface graphclient.Client is; the theorems instantiate it with the
    client of GraphClient.v. *)
From stdpp Require Import base gmap strings list pretty.
From Stdlib Require Import ZArith Lia Ascii.
From S2P Require Import Prelude Utf8 GoStrings GoTime Json GoBase Observability GoState SensitiveIO Http GraphClient.
From S2P Require Import PasswordCrypto SyncStatus Identity MigrationService Worker.

Local Open Scope Z_scope.

(** graphclient.Client. *)
Definition Client (W : Type) : Type := Context → User → Slice → M (St W) (option error).

Record GraphProcessor (W : Type) := mkGraphProcessor {
  gp_client : Client W;
  gp_now : W → Time * W
}.
Arguments mkGraphProcessor {W} _ _.
Arguments gp_client {W} _ _ _ _.
Arguments gp_now {W} _ _.

(** NewWithOptions; [time_Now] is the default clock.  The default logger and
    recorder change where events go, not which are made. *)
Definition NewWithOptions {W} (time_Now : W → Time * W) (client : option (Client W)) (now : option (W → Time * W))
    : result (GraphProcessor W) :=
  match client with
  | None => Err (ErrorText "graph client is required")
  | Some c => Ok (mkGraphProcessor c (default time_Now now))
  end.

(** The outcome label of the metric and of the log line. *)
Definition outcome_label (err : option error) : string :=
  match err with
  | None => "success"
  | Some e => match errors_As e is_graph_permanent with Some _ => "permanent_error" | None => "transient_error" end
  end.

Definition graph_events (outcome : string) (duration : Duration) (msg : PasswordSyncCommand) : list ObsEvent :=
  [ObserveDuration MetricGraphUpsertDuration duration {["outcome"%string := outcome]};
   LogAttrs ActionGraphUpsert
     ([("action"%string, VString ActionGraphUpsert); ("outcome"%string, VString outcome);
       ("durationMs"%string, VInt (Milliseconds duration))]
      ++ SafeIdentityAttrs (mkSafeIdentity (cmd_TraceID msg) "" (cmd_UPN msg) "" ""))].

Definition translate (err : option error) : option error :=
  match err with
  | None => None
  | Some e =>
    match errors_As e is_graph_permanent with
    | Some permanent => Some (WorkerPermanentError PermanentReasonProcessorError (Some permanent))
    | None => Some e
    end
  end.

Section Ops.
Context {W : Type} (p : GraphProcessor W).

Definition gp_clock : M (St W) Time := call (λ x, let '(t, x') := gp_now p x in (Ret t, x')).

Fixpoint emit_all (es : list ObsEvent) : M (St W) unit :=
  match es with
  | [] => mret tt
  | e :: es' => emit e ;; emit_all es'
  end.

Definition ProcessPasswordSync (ctx : Context) (msg : PasswordSyncCommand) : M (St W) (option error) :=
  start ← gp_clock;
  err ← gp_client p ctx (mkUser (cmd_UPN msg) (cmd_DisplayName msg) (cmd_Mail msg)) (cmd_Password msg);
  stop ← gp_clock;
  emit_all (graph_events (outcome_label err) (Sub stop start) msg) ;;
  mret (translate err).
End Ops.

(** ** Lemmas *)

Lemma emit_all_run {W} es (st : St W) :
  emit_all es st = (Ret tt, mkSt (mem st) (obs st ++ es) (resp st) (world st)).
Proof.
  revert st. induction es as [|e es IH]; intros st; cbn [emit_all].
  - rewrite app_nil_r. by destruct st.
  - rewrite (bind_ret _ _ _ tt (mkSt (mem st) (obs st ++ [e]) (resp st) (world st))) by done.
    rewrite IH. cbn. by rewrite <- app_assoc.
Qed.

Lemma gp_clock_run {W} (p : GraphProcessor W) (st : St W) :
  gp_clock p st = (Ret (gp_now p (world st)).1, set_world (gp_now p (world st)).2 st).
Proof. unfold gp_clock, call. by destruct (gp_now p (world st)). Qed.

Lemma ProcessPasswordSync_inv {W} (p : GraphProcessor W) ctx msg (st : St W) o st' :
  ProcessPasswordSync p ctx msg st = (o, st') →
  ∃ st1 o1, gp_client p ctx (mkUser (cmd_UPN msg) (cmd_DisplayName msg) (cmd_Mail msg)) (cmd_Password msg)
      (set_world (gp_now p (world st)).2 st) = (o1, st1) ∧
    match o1 with
    | Panic v => o = Panic v ∧ st' = st1
    | Ret err => o = Ret (translate err) ∧ ∃ d,
        st' = mkSt (mem st1) (obs st1 ++ graph_events (outcome_label err) d msg) (resp st1) (gp_now p (world st1)).2
    end.
Proof.
  unfold ProcessPasswordSync. rewrite (bind_ret _ _ _ _ _ (gp_clock_run p st)).
  intros [(err&st1&Hc&H)|(v&Hc&->)]%bind_inv; eexists st1, _ || eexists st', _; (split; [exact Hc|]); [|done].
  rewrite (bind_ret _ _ _ _ _ (gp_clock_run p st1)), (bind_ret _ _ _ _ _ (emit_all_run _ _)) in H.
  apply mret_inv in H as [-> ->]. split; [done|]. by eexists.
Qed.

(** ** With the directory client *)

(** An error that carries neither of the service's permanent errors, as those
    of the token source and of the HTTP transport. *)
Definition plain (e : error) : Prop :=
  errors_As e is_graph_permanent = None ∧ errors_As e is_worker_permanent = None.

Class PlainTransport {W} (c : HTTPClient W) : Prop := {
  token_plain ctx s w e w' : GetToken c ctx s w = (Ret (Err e), w') → plain e;
  request_plain url e : request_error c url = Some e → plain e;
  response_plain call w e w' : Do c call w = (Ret (Err e), w') → plain e
}.

Lemma unanswered_plain {W} (c : HTTPClient W) `{!PlainTransport c} ctx method path body w cause w' :
  unanswered c ctx method path body w cause w' → plain cause.
Proof.
  intros [(e&H&->)|(t&w1&_&[(e&H&_&->)|[_ H]])].
  - by apply token_plain in H.
  - by apply request_plain in H.
  - by apply response_plain in H.
Qed.

Lemma cut_off_plain {W} (c : HTTPClient W) `{!PlainTransport c} ctx user password w cause w' :
  cut_off c ctx user password w cause w' → plain cause.
Proof.
  intros [H|(found&w1&_&H)]; [by eapply unanswered_plain|].
  destruct (update _ _ _) as [[[op method] path] text]. by eapply unanswered_plain.
Qed.

Section Directory.
Context {W : Type} (c : HTTPClient W) `{!PlainTransport c} (Hafter : afterRequestBodyBuilt c = None).
Context (now : W → Time * W).

Definition directory_processor : GraphProcessor W := mkGraphProcessor (UpsertUserPassword c) now.

Definition command_user (msg : PasswordSyncCommand) : User :=
  mkUser (cmd_UPN msg) (cmd_DisplayName msg) (cmd_Mail msg).

(** What the directory made of a user and a password, from world [w] on: it
    took the update; it (or the client, which asks for both values) will
    never take it; or neither is known. *)
Definition accepted (ctx : Context) (user : User) (password : bytes) (w : W) : Prop :=
  TrimSpace (u_UPN user) ≠ ""%string ∧ password ≠ [] ∧
  ∃ (found : bool) w1 w2 status,
    exchange c ctx "GET" (userPath (TrimSpace (u_UPN user))) None w (if found then 200 else 404) w1 ∧
    200 <= status <= 299 ∧
    let '(_, method, path, text) := update found user password in
    exchange c ctx method path (Some text) w1 status w2.

Definition refused (ctx : Context) (user : User) (password : bytes) (w : W) : Prop :=
  TrimSpace (u_UPN user) = ""%string ∨ password = [] ∨
  ∃ code w', (code = 400 ∨ code = 403) ∧ rejected c ctx user password w code w'.

Definition unsettled (ctx : Context) (user : User) (password : bytes) (w : W) : Prop :=
  TrimSpace (u_UPN user) ≠ ""%string ∧ password ≠ [] ∧
  ((∃ code w', code ≠ 400 ∧ code ≠ 403 ∧ rejected c ctx user password w code w') ∨
   (∃ cause w', cut_off c ctx user password w cause w')).

(** The three exclude each other. *)
Lemma rejected_once ctx user password w s1 w1 s2 w2 :
  rejected c ctx user password w s1 w1 → rejected c ctx user password w s2 w2 → s1 = s2.
Proof.
  intros [(?&?&H)|(?&f&x&Hl&H)] [(?&?&H')|(?&f'&x'&Hl'&H')].
  - destruct (exchange_fun _ _ _ _ _ _ _ _ _ _ H H') as [? _]; congruence.
  - destruct (exchange_fun _ _ _ _ _ _ _ _ _ _ H Hl') as [E _]. by destruct f'.
  - destruct (exchange_fun _ _ _ _ _ _ _ _ _ _ Hl H') as [E _]. by destruct f.
  - destruct (exchange_fun _ _ _ _ _ _ _ _ _ _ Hl Hl') as [E ->]. assert (f = f') as -> by by destruct f, f'.
    destruct (update _ _ _) as [[[op method] path] text]. destruct (exchange_fun _ _ _ _ _ _ _ _ _ _ H H') as [? _]; congruence.
Qed.

Lemma rejected_not_cut ctx user password w s w1 cause w2 :
  rejected c ctx user password w s w1 → cut_off c ctx user password w cause w2 → False.
Proof.
  intros [(?&?&H)|(?&f&x&Hl&H)] [H'|(f'&x'&Hl'&H')].
  - by eapply exchange_answered.
  - destruct (exchange_fun _ _ _ _ _ _ _ _ _ _ H Hl') as [E _]. by destruct f'.
  - by eapply exchange_answered.
  - destruct (exchange_fun _ _ _ _ _ _ _ _ _ _ Hl Hl') as [E ->]. assert (f = f') as -> by by destruct f, f'.
    destruct (update _ _ _) as [[[op method] path] text]. exact (exchange_answered _ _ _ _ _ _ _ _ _ _ H H').
Qed.

Lemma accepted_not_rejected ctx user password w s w1 :
  accepted ctx user password w → rejected c ctx user password w s w1 → False.
Proof.
  intros (_&_&f&x&w2&st&Hl&Hst&H) [(?&?&H')|(?&f'&x'&Hl'&H')].
  - destruct (exchange_fun _ _ _ _ _ _ _ _ _ _ Hl H') as [E _]. by destruct f.
  - destruct (exchange_fun _ _ _ _ _ _ _ _ _ _ Hl Hl') as [E ->]. assert (f = f') as -> by by destruct f, f'.
    destruct (update _ _ _) as [[[op method] path] text]. destruct (exchange_fun _ _ _ _ _ _ _ _ _ _ H H') as [-> _]. lia.
Qed.

Lemma accepted_not_cut ctx user password w cause w1 :
  accepted ctx user password w → cut_off c ctx user password w cause w1 → False.
Proof.
  intros (_&_&f&x&w2&st&Hl&_&H) [H'|(f'&x'&Hl'&H')]; [by eapply exchange_answered|].
  destruct (exchange_fun _ _ _ _ _ _ _ _ _ _ Hl Hl') as [E ->]. assert (f = f') as -> by by destruct f, f'.
  destruct (update _ _ _) as [[[op method] path] text]. exact (exchange_answered _ _ _ _ _ _ _ _ _ _ H H').
Qed.

Lemma accepted_not_refused ctx user password w : accepted ctx user password w → refused ctx user password w → False.
Proof.
  intros Ha [H|[H|(code&w'&_&H)]]; [by destruct Ha|by destruct Ha as (_&?&_)|by eapply accepted_not_rejected].
Qed.

Lemma accepted_not_unsettled ctx user password w : accepted ctx user password w → unsettled ctx user password w → False.
Proof.
  intros Ha (_&_&[(code&w'&_&_&H)|(cause&w'&H)]); [by eapply accepted_not_rejected|by eapply accepted_not_cut].
Qed.

Lemma refused_not_unsettled ctx user password w : refused ctx user password w → unsettled ctx user password w → False.
Proof.
  intros [H|[H|(code&w'&Hc&H)]] (Hu&Hp&Hs); [done..|]. destruct Hs as [(code'&w2&?&?&H')|(cause&w2&H')].
  - pose proof (rejected_once _ _ _ _ _ _ _ _ H H'). by destruct Hc; subst.
  - by eapply rejected_not_cut.
Qed.

Lemma updated_accepted ctx (found : bool) user password w w1 w2 :
  TrimSpace (u_UPN user) ≠ ""%string → password ≠ [] →
  exchange c ctx "GET" (userPath (TrimSpace (u_UPN user))) None w (if found then 200 else 404) w1 →
  updated c ctx found user password w1 (Ret None) w2 → accepted ctx user password w.
Proof.
  intros Hu Hp Hx Hs. unfold updated in Hs. destruct (update _ _ _) as [[[op method] path] text] eqn:E.
  destruct Hs as (status&Hst&Hs). split_and!; try done. exists found, w1, w2, status. by rewrite E.
Qed.

(** The three ways the processor answers the worker. *)
Lemma directory_process_kinds ctx msg (st : St W) err st' :
  let w := (now (world st)).2 in
  let password := slice_bytes (mem st) (cmd_Password msg) in
  length password = s_len (cmd_Password msg) →
  ProcessPasswordSync directory_processor ctx msg st = (Ret err, st') →
  match err with
  | None => accepted ctx (command_user msg) password w
  | Some e =>
      match errors_As e is_worker_permanent with
      | Some pe => pe = e ∧ refused ctx (command_user msg) password w
      | None => unsettled ctx (command_user msg) password w
      end
  end.
Proof.
  intros w password Hlen H. apply ProcessPasswordSync_inv in H as (st1&[err1|v]&Hc&H); [|by destruct H].
  destruct H as [[= ->] _]. cbn [directory_processor gp_client gp_now] in Hc.
  destruct err1 as [e1|]; cbn [translate].
  - apply (UpsertUserPassword_errors c Hafter) in Hc; [|done]. cbn [world set_world mem] in Hc. fold password in Hc.
    destruct e1 as [| | | | | | | | | | |code op inner|code op inner]; try done; cbn [failure] in Hc.
    + cbn [errors_As find_err is_graph_permanent]. cbn [errors_As find_err is_worker_permanent]. split; [done|].
      destruct Hc as [(_&_&[Hu|Hp])|[Hcode Ha]]; [by left|by right; left|]. right; right; eauto.
    + destruct Hc as (Hu&Hp&H400&H403&[[-> Ha]|(->&cause&->&Hf)]).
      * split_and!; try done. left. eauto.
      * pose proof (cut_off_plain c _ _ _ _ _ _ Hf) as [Hg Hw].
        unfold errors_As in *. cbn [find_err is_graph_permanent]. rewrite Hg.
        cbn [find_err is_worker_permanent]. rewrite Hw. split_and!; try done. right. eauto.
  - apply (UpsertUserPassword_inv c Hafter) in Hc as [(_&[[_ ?]|[_ ?]])|(Hu&Hp&[(w1&_&[])|Hx])]; [done|done|].
    destruct Hx as (found&w1&w2&m'&Hx&Hs&_). eapply updated_accepted; [done| |done..].
    intros E. unfold password in Hlen. cbn [mem set_world] in Hs, E. apply Hp. rewrite <- Hlen. fold password. by rewrite E.
Qed.

(** An attempt, by the answers of the directory. *)
Lemma sync_attempt_directory (wk : Worker W) (run_ctx : W → Context) msg n st out st' b w1 :
  processor wk = ProcessPasswordSync directory_processor →
  passwordDecrypter wk (run_ctx (world st)) (envelope_of msg) (PasswordAAD (CN msg) (UPN msg) (EnqueuedAt msg))
    (world st) = (Ret (Ok b), w1) →
  sync_attempt wk run_ctx msg n st = (Ret out, st') →
  let ctx := run_ctx w1 in
  let user := mkUser (UPN msg) (DisplayName msg) (Mail msg) in
  let w2 := (now w1).2 in
  match out with
  | inl res =>
      attempts res = n ∧ retryCanceled res = false ∧
      match res_err res with
      | None => permanent res = false ∧ accepted ctx user b w2
      | Some _ => permanent res = true ∧ refused ctx user b w2
      end
  | inr _ => unsettled ctx user b w2
  end.
Proof.
  intros Hproc Hdec H. unfold sync_attempt in H. unfold ctx_now at 1 in H.
  rewrite (bind_ret _ _ _ (run_ctx (world st)) st) in H by done.
  rewrite (bind_ret _ _ _ _ _ (call_run _ _ _ _ Hdec)) in H.
  destruct (alloc_run b (length b) (set_world w1 st)) as (sl&st2&Ha&Hb&[_ Hl]&_&_&_&Hw).
  rewrite (bind_ret _ _ _ _ _ Ha) in H. cbn [world set_world] in Hw.
  apply bind_inv in H as [(err&st3&Hp&H)|(v&_&?)]; [|done].
  unfold processPasswordSyncAttempt, defer_ in Hp. unfold ctx_now in Hp.
  rewrite (bind_ret _ _ _ (run_ctx (world st2)) st2) in Hp by done. rewrite Hproc in Hp.
  match type of Hp with context [ProcessPasswordSync ?p ?x ?cmd ?s] =>
    destruct (ProcessPasswordSync p x cmd s) as [[err'|v] st4] eqn:E end; [|by injection Hp].
  injection Hp as -> _. apply directory_process_kinds in E.
  2: { cbn [cmd_Password]. unfold slice_bytes. rewrite length_take. unfold slice_cap in Hl. lia. }
  cbn [cmd_Password] in E. rewrite Hb, Hw in E. unfold command_user in E. cbn [cmd_UPN cmd_DisplayName cmd_Mail] in E.
  destruct err as [e|]; [|apply mret_inv in H as [[= ->] _]; done].
  destruct (errors_As e is_worker_permanent) as [pe|]; apply mret_inv in H as [[= ->] _]; [|done].
  cbn. destruct E as [_ E]. done.
Qed.

(** C8 The directory's answer decides what the worker does with an attempt.
    When the password of a message decrypts, a finished attempt presented
    exactly that password and the user of the message to the directory, and:
    it reports success exactly when the lookup was answered 200 or 404 and the
    update that answer calls for was answered 2xx; it gives up, as a permanent
    failure, exactly when the user name or the password is empty, the lookup
    was answered 400 or 403, or the update was; and it asks for a retry exactly
    when one of the two requests got no answer or another one. *)
Theorem directory_decides_retry (wk : Worker W) (run_ctx : W → Context) msg n st out st' b w1 :
  processor wk = ProcessPasswordSync directory_processor →
  passwordDecrypter wk (run_ctx (world st)) (envelope_of msg) (PasswordAAD (CN msg) (UPN msg) (EnqueuedAt msg))
    (world st) = (Ret (Ok b), w1) →
  sync_attempt wk run_ctx msg n st = (Ret out, st') →
  let ctx := run_ctx w1 in
  let user := mkUser (UPN msg) (DisplayName msg) (Mail msg) in
  let w2 := (now w1).2 in
  match out with
  | inl res => attempts res = n ∧ retryCanceled res = false ∧ permanent res = bool_decide (res_err res ≠ None)
  | inr _ => True
  end ∧
  (accepted ctx user b w2 ↔ ∃ res, out = inl res ∧ res_err res = None) ∧
  (refused ctx user b w2 ↔ ∃ res e, out = inl res ∧ res_err res = Some e) ∧
  (unsettled ctx user b w2 ↔ ∃ e, out = inr e).
Proof.
  intros Hproc Hdec H ctx user w2. pose proof (sync_attempt_directory _ _ _ _ _ _ _ _ _ Hproc Hdec H) as Hout.
  cbn zeta in Hout. fold ctx user w2 in Hout.
  pose proof (accepted_not_refused ctx user b w2) as H1. pose proof (accepted_not_unsettled ctx user b w2) as H2.
  pose proof (refused_not_unsettled ctx user b w2) as H3.
  assert (∀ P Q : Prop, (P → Q) → (Q → P) → P ↔ Q) as iff_intro by tauto.
  destruct out as [res|e].
  2: { split_and!; [done|..]; apply iff_intro; [by intros ?%H2|by intros (?&?&?)|by intros ?%H3|by intros (?&?&?&?)|by eauto|done]. }
  destruct Hout as (Ha&Hr&Hout). destruct (res_err res) as [e|] eqn:Ee; destruct Hout as [Hp Hout].
  - split; [rewrite Hp, bool_decide_true by done; done|].
    split_and!; apply iff_intro; [by intros ?%H1|by intros (?&[= <-]&?); congruence|by eauto|done|by intros ?%H3|by intros (?&?)].
  - split; [rewrite Hp, bool_decide_false by tauto; done|].
    split_and!; apply iff_intro; [by eauto|done|by intros ?%H1|by intros (?&?&[= <-]&?); congruence|by intros ?%H2|by intros (?&?)].
Qed.

(** The promise the worker relies on ([WorkerMemory]): the processor never
    brings a zeroed buffer back, because it changes only buffers of its own. *)
Lemma directory_processor_keeps_zero ctx msg : keeps_zero (ProcessPasswordSync directory_processor ctx msg).
Proof.
  intros st sl. destruct (ProcessPasswordSync directory_processor ctx msg st) as [o st'] eqn:E.
  assert (take (length (mem st)) (mem st') = mem st) as Hm.
  { apply ProcessPasswordSync_inv in E as (st1&o1&Hc&H).
    assert (mem st' = mem st1) as -> by (destruct o1; [destruct H as (_&d&->)|destruct H as [_ ->]]; done).
    apply (UpsertUserPassword_inv c Hafter) in Hc as [(->&_)|(_&_&[(w1&->&_)|Hx])]; [apply firstn_all..|].
    destruct Hx as (found&w1&w2&m'&_&_&(body&m1&Hl&_&Hm&->)&->). cbn in *. unfold mem_zero. by rewrite take_alter. }
  cbn [snd]. assert (length (mem st) <= length (mem st'))%nat as Hlen.
  { apply (f_equal length) in Hm. rewrite length_take in Hm. lia. }
  split; [done|]. intros Hl Hz. unfold slice_bytes in *. rewrite <- Hm, lookup_take_lt in Hz by done. done.
Qed.
End Directory.

(** ** A concrete run: a lookup that finds the user, and a refused update *)

Module ProcessorWitnesses.
Import GraphWitnesses.

#[local] Instance toy_plain : PlainTransport toy_client.
Proof.
  split; cbn; [done..|]. intros call w e w' H. destruct w; [|done]. injection H as <- <-. by vm_compute.
Qed.

Definition toy_now (x : list Z) : Time * list Z := (0, x).
Definition returns_none {A} : A → list Z → outcome (option error) * list Z := λ _ x, (Ret None, x).

Definition toy_worker : Worker (list Z) :=
  mkWorker (mkReceiver (λ _ _, mret (Ok [])) (λ _ _, mret None) (λ _ _, mret None))
    (ProcessPasswordSync (directory_processor toy_client toy_now))
    (λ _ _ _ x, (Ret (Ok [112; 119]), x)) (mkRecorder (λ _ _, returns_none) (λ _ _, returns_none))
    1 (10 * Second) Second [Second] (λ _, returns_none) toy_now (λ _, returns_none).

Definition toy_message : PasswordSyncMessage :=
  mkMessage "a1" "a1@x" "password_change" "t1" "" "" "" "" "" "A" "a@x" 0.

Lemma directory_decides_retry_witness : ∃ out st',
  sync_attempt toy_worker (λ _, toy_ctx) toy_message 2 (toy_state [200; 403]) = (Ret out, st') ∧
  match out with
  | inl res => attempts res = 2 ∧ retryCanceled res = false ∧ permanent res = bool_decide (res_err res ≠ None)
  | inr _ => True
  end ∧
  (accepted toy_client toy_ctx (mkUser "a1@x" "A" "a@x") [112; 119] [200; 403] ↔ ∃ res, out = inl res ∧ res_err res = None) ∧
  (refused toy_client toy_ctx (mkUser "a1@x" "A" "a@x") [112; 119] [200; 403] ↔ ∃ res e, out = inl res ∧ res_err res = Some e) ∧
  (unsettled toy_client toy_ctx (mkUser "a1@x" "A" "a@x") [112; 119] [200; 403] ↔ ∃ e, out = inr e).
Proof.
  destruct (sync_attempt toy_worker (λ _, toy_ctx) toy_message 2 (toy_state [200; 403])) as [[out|v] st'] eqn:E.
  2: { exfalso. revert E. vm_compute. discriminate. }
  exists out, st'. split; [reflexivity|].
  exact (directory_decides_retry toy_client eq_refl toy_now toy_worker (λ _, toy_ctx) toy_message 2
    (toy_state [200; 403]) out st' [112; 119] [200; 403] eq_refl eq_refl E).
Defined.
End ProcessorWitnesses.
