(* ===== verification/EndToEnd.v ===== *)
(** * From the hook to the directory

    The service, the codec, the queue, the worker and the directory client
    put together: what the hook accepted is what the directory is given. *)
From stdpp Require Import base gmap strings list pretty.
From Stdlib Require Import ZArith Lia Ascii.
From S2P Require Import Prelude Utf8 GoStrings GoTime Json GoBase Observability GoState HookJson JsonPrint TimeText.
From S2P Require Import SensitiveIO Http JsonMarshal GraphClient PasswordCrypto SyncStatus Identity MigrationService.
From S2P Require Import Worker ServiceBusQueue GraphProcessor.

Local Open Scope Z_scope.

(** ** Texts of a message *)

Section Texts.
Context {U : UnicodeTables} `{!UnicodeLaws U}.

Lemma supported_Utf8 cn : ClassifyCN cn = IdentityStudentID ∨ ClassifyCN cn = IdentityEmployeeID →
  Utf8 (bytes_of_string (TrimSpace cn)).
Proof.
  intros H. apply ClassifyCN_supported in H as [_ H]. apply runes_no_error_Utf8; [apply bytes_of_string_ok|].
  intros Hin. rewrite Forall_forall in H. apply H in Hin. by rewrite id_rune_not_error in Hin.
Qed.

Lemma BuildUPN_Utf8 cn domain upn : BuildUPN cn domain = Ok upn → Utf8 (bytes_of_string (ToLower (TrimSpace domain))) →
  Utf8 (bytes_of_string (TrimSpace cn)) ∧ Utf8 (bytes_of_string upn) ∧
  TrimSpace (TrimSpace cn) ≠ ""%string ∧ TrimSpace upn ≠ ""%string.
Proof.
  intros (Hid&_&->)%BuildUPN_Ok Hd. pose proof (supported_Utf8 cn Hid) as Hcn. rewrite TrimSpace_idem.
  split_and!; [done| |by apply ClassifyCN_supported in Hid as [? _]|].
  - rewrite !bytes_of_string_app. apply Utf8_app; [done|]. apply Utf8_app; [|done]. by apply Utf8_ascii_text.
  - apply (TrimSpace_visible _ 64); [|lia|done]. rewrite !bytes_of_string_app. rewrite !elem_of_app. right. left. left.
Qed.
End Texts.

Lemma EncodeToString_text b : bytes_ok b → b ≠ [] →
  Utf8 (bytes_of_string (EncodeToString b)) ∧ TrimSpace (EncodeToString b) ≠ ""%string.
Proof.
  intros Hok Hne. pose proof (b64_encode_printable b Hok) as Hp. pose proof (b64_encode_nonempty b Hne) as He.
  unfold EncodeToString. rewrite bytes_of_string_of_bytes by by apply b64_encode_bytes_ok. split.
  - apply Utf8_ascii_text, forallb_Forall. eapply Forall_impl; [exact Hp|]. intros c Hc. apply within_true. cbn in Hc. lia.
  - destruct (b64_encode b) as [|c l] eqn:E; [done|]. apply Forall_cons in Hp as [Hc _].
    apply (TrimSpace_visible _ c); [|lia|].
    + rewrite <- E, bytes_of_string_of_bytes by by apply b64_encode_bytes_ok. rewrite E. left.
    + apply not_true_iff_false. unfold IsSpace, within. intros Hs. bool_hyps. lia.
Qed.

(** ** Through the queue *)

Section Delivery.
Context {U : UnicodeTables} `{!UnicodeLaws U} {W : Type}.
Context (codec : Codec) `{!AEADLaws (aead codec)} (rand : nat → W → result bytes * W) (Hrand : rand_fills rand).
Context (Hkey : Utf8 (bytes_of_string (keyID codec))) (Hkey_visible : TrimSpace (keyID codec) ≠ ""%string).

(** A message sealed by the codec is accepted by the worker's decoder, which
    gets the envelope and the additional data back. *)
Lemma sealed_message_decodes ctx req upn domain now password w env w' msg :
  BuildUPN (req_CN req) domain = Ok upn → Utf8 (bytes_of_string (ToLower (TrimSpace domain))) →
  four_digit_year now → now ≠ 0 → bytes_ok password →
  Encrypt rand codec ctx password (PasswordAAD (TrimSpace (req_CN req)) upn now) w = (Ret (Ok env), w') →
  TrimSpace (Kind msg) = passwordSyncKind →
  let m := arrived (sync_message ctx req upn now env) in
  ∃ body, marshal_message (sync_message ctx req upn now env) = Ok body ∧
    decodePasswordSyncMessage (Some msg) body = Ok m ∧
    UPN m = upn ∧ DisplayName m = valid_utf8 (TrimSpace (req_DisplayName req)) ∧
    Mail m = valid_utf8 (TrimSpace (req_Mail req)) ∧
    ∀ W2 ctx' (w2 : W2), ctx_err ctx' = None →
      Decrypt codec ctx' (envelope_of m) (PasswordAAD (CN m) (UPN m) (EnqueuedAt m)) w2 = (Ret (Ok password), w2).
Proof.
  intros Hupn Hdom Hyear Hnow Hpw Henc Hkind m.
  destruct (BuildUPN_Utf8 _ _ _ Hupn Hdom) as (Hcn8&Hupn8&Hcnv&Hupnv).
  apply Encrypt_Ok in Henc as (_&nonce&Hr&->). apply Hrand in Hr as [Hlen Hnok].
  set (ct := Seal (aead codec) nonce password (PasswordAAD (TrimSpace (req_CN req)) upn now)) in *.
  assert (bytes_ok ct) as Hctok by (by apply seal_bytes).
  assert (ct ≠ []) as Hctne.
  { pose proof (seal_tag nonce password (PasswordAAD (TrimSpace (req_CN req)) upn now)) as Ht. fold ct in Ht.
    intros E. rewrite E in Ht. cbn in Ht. lia. }
  assert (nonce ≠ []) as Hnne by (intros ->; pose proof (nonce_size (A := aead codec)); cbn in Hlen; lia).
  destruct (EncodeToString_text ct Hctok Hctne) as [Hct8 Hctv], (EncodeToString_text nonce Hnok Hnne) as [Hn8 Hnv].
  assert (Utf8 (bytes_of_string AlgorithmAES256GCM)) as Halg by (by apply Utf8_ascii_text).
  assert (m = mkMessage (TrimSpace (req_CN req)) upn (valid_utf8 (req_EventType req)) (valid_utf8 (requestid_From ctx)) ""
    (EncodeToString ct) (EncodeToString nonce) (keyID codec) AlgorithmAES256GCM
    (valid_utf8 (TrimSpace (req_DisplayName req))) (valid_utf8 (TrimSpace (req_Mail req))) now) as Hm.
  { unfold m, arrived, sync_message.
    cbn [CN UPN msg_EventType TraceID PasswordCiphertext PasswordNonce PasswordKeyID PasswordAlg DisplayName Mail
         EnqueuedAt Ciphertext Nonce KeyID Algorithm]. unfold UTC.
    by rewrite (valid_utf8_id (TrimSpace (req_CN req))), (valid_utf8_id upn), (valid_utf8_id (EncodeToString ct)),
      (valid_utf8_id (EncodeToString nonce)), (valid_utf8_id (keyID codec)), (valid_utf8_id AlgorithmAES256GCM) by done. }
  match goal with |- context [marshal_message ?x] =>
    destruct (marshal_message_reads x Hyear) as (body&Hmb&Hread) end.
  exists body. split; [exact Hmb|]. unfold decodePasswordSyncMessage. rewrite Hkind, bool_decide_true by done. cbn [negb].
  rewrite Hread. fold m. rewrite Hm.
  cbn [CN UPN PasswordCiphertext PasswordNonce PasswordKeyID PasswordAlg DisplayName Mail EnqueuedAt].
  unfold blank. rewrite !bool_decide_false by done. unfold IsZero. rewrite (proj2 (Z.eqb_neq now 0)) by done.
  split_and!; try done. intros W2 ctx' w2 Hctx. unfold envelope_of.
  cbn [PasswordCiphertext PasswordNonce PasswordKeyID PasswordAlg].
  unfold ct. rewrite Decrypt_envelope by done. by rewrite open_seal.
Qed.
End Delivery.

(** ** To the directory *)

(** What an attempt of the worker means for a user and a password, from a
    world of the worker on. *)
Definition attempt_means {W2} (c : HTTPClient W2) (ctx : Context) (user : User) (password : bytes) (w : W2)
    (out : processorResult + error) : Prop :=
  match out with
  | inl res =>
      match res_err res with
      | None => accepted c ctx user password w
      | Some _ => permanent res = true ∧ refused c ctx user password w
      end
  | inr _ => unsettled c ctx user password w
  end.

Section EndToEnd.
Context {U : UnicodeTables} `{!UnicodeLaws U} {W : Type}.
Context (codec : Codec) `{!AEADLaws (aead codec)} (rand : nat → W → result bytes * W) (Hrand : rand_fills rand).
Context (Hkey : Utf8 (bytes_of_string (keyID codec))) (Hkey_visible : TrimSpace (keyID codec) ≠ ""%string).
(** The hook's side: the service over the bus queue and the codec. *)
Context (s : Service W) (q : BusQueue W).
Context (Hqueue : queue s = Some (bus_queue q)) (Henc : encrypter s = Some (mkEncrypter (Encrypt rand codec))).
Context (Hdomain : Utf8 (bytes_of_string (ToLower (TrimSpace (primaryDomain s))))).
Context (Hclock : ∀ w, four_digit_year (svc_now s w).1 ∧ (svc_now s w).1 ≠ 0).
(** The worker's side: the worker over the codec and the directory client. *)
Context {W2 : Type} (c : HTTPClient W2) `{!PlainTransport c} (Hafter : afterRequestBodyBuilt c = None).
Context (now : W2 → Time * W2) (wk : Worker W2).
Context (Hdec : passwordDecrypter wk = Decrypt codec)
        (Hproc : processor wk = ProcessPasswordSync (directory_processor c now)).

(** The message an accepted submission put on the queue. *)
Lemma submitted_message ctx req sl st d st' :
  Submit s ctx req st = (Ret (d, None), st') → Enqueued d = true →
  req_Password req = Some sl → bytes_ok (slice_bytes (mem st) sl) →
  ∃ bm w2 w3, SendMessage (bq_sender q) ctx bm w2 = (Ret None, w3) ∧
    ApplicationProperties bm !! "kind"%string = Some passwordSyncKind ∧
    ∀ msg, TrimSpace (Kind msg) = passwordSyncKind →
      ∃ m, decodePasswordSyncMessage (Some msg) (bus_Body bm) = Ok m ∧ UPN m = d_UPN d ∧
        DisplayName m = valid_utf8 (TrimSpace (req_DisplayName req)) ∧
        Mail m = valid_utf8 (TrimSpace (req_Mail req)) ∧
        ∀ ctx' (x : W2), ctx_err ctx' = None →
          Decrypt codec ctx' (envelope_of m) (PasswordAAD (CN m) (UPN m) (EnqueuedAt m)) x
          = (Ret (Ok (slice_bytes (mem st) sl)), x).
Proof.
  intros H Henq Hpw Hok.
  apply Submit_enqueued in H as (upn&q'&enc'&t&w0&w1&env&w2&w3&Hupn&->&Hq'&Henc'&Hnow&Hencr&Hsend&_); [|done].
  rewrite Hqueue in Hq'. injection Hq' as <-. rewrite Henc in Henc'. injection Henc' as <-.
  rewrite Hpw in Hencr. cbn [encrypt] in Hencr.
  destruct (Hclock w0) as [Hyear Hne]. rewrite Hnow in Hyear, Hne. cbn [fst] in Hyear, Hne.
  cbn [bus_queue EnqueuePasswordSync] in Hsend. unfold bus_EnqueuePasswordSync in Hsend.
  destruct (marshal_message (sync_message ctx req upn t env)) as [body|e] eqn:Hmb; [|done].
  destruct (SendMessage _ ctx _ w2) as [[[e|]|v] w4] eqn:Hs; [done| |done].
  exists (bus_message q (sync_message ctx req upn t env) body), w2, w4. split_and!; [done|done|].
  intros msg Hkind. destruct (sealed_message_decodes codec rand Hrand Hkey Hkey_visible ctx req upn
    (primaryDomain s) t (slice_bytes (mem st) sl) w1 env w2 msg) as (body'&Hmb'&Hd&Hu&Hdn&Hml&Hdecr); [done..|].
  rewrite Hmb in Hmb'. injection Hmb' as <-. eexists. split_and!; [exact Hd|done|done|done|]. intros; by apply Hdecr.
Qed.

End EndToEnd.

(** ** A concrete run *)

Module EndToEndWitnesses.
#[local] Existing Instance Latin1Tables.
#[local] Existing Instance ProcessorWitnesses.toy_plain.

(** A bus that records what is sent. *)
Definition World : Type := list BusMessage.
Definition toy_rand (n : nat) (w : World) : result bytes * World := (Ok (replicate n 7), w).
Definition toy_bus : BusQueue World :=
  mkBusQueue (mkSender (λ _ m w, (Ret None, w ++ [m])) (λ _ w, (Ret None, w))) None defaultTTL.
Definition toy_service : Service World :=
  mkService "NYCU.edu.tw" (Some (bus_queue toy_bus)) (Some (mkEncrypter (Encrypt toy_rand toy_codec)))
    (λ w, (Unix 1752623999, w)) None 300.

Definition password : bytes := [112; 34; 92; 195; 169].
Definition toy_request : Request := mkRequest " a1 " EventPasswordChange (Some (mkSlice 0 5)) "A One " "a1@x".
Definition start : St World := mkSt [password] [] NewResponse [].
Definition decision : Decision := mkDecision IdentityEmployeeID "a1@nycu.edu.tw" true false "".
Definition finish : St World := (Submit toy_service background toy_request start).2.

Lemma toy_rand_ok : rand_fills toy_rand.
Proof.
  intros n w b w' H. injection H as <- <-. rewrite length_replicate. split; [done|].
  apply Forall_replicate. unfold byte_ok. lia.
Qed.

Definition toy_worker : Worker (list Z) :=
  mkWorker (mkReceiver (λ _ _, mret (Ok [])) (λ _ _, mret None) (λ _ _, mret None))
    (ProcessPasswordSync (directory_processor GraphWitnesses.toy_client ProcessorWitnesses.toy_now))
    (Decrypt toy_codec) (mkRecorder (λ _ _, ProcessorWitnesses.returns_none) (λ _ _, ProcessorWitnesses.returns_none))
    1 (10 * Second) Second [Second] (λ _, ProcessorWitnesses.returns_none) ProcessorWitnesses.toy_now
    (λ _, ProcessorWitnesses.returns_none).

End EndToEndWitnesses.
