(* ===== verification/Config.v ===== *)
(** * Configuration (internal/config/config.go)

    [Load] reads the environment, a function from names to values; the
    Validate methods are translated condition by condition.  [uuid_valid] is
    the third-party [uuid.Validate(s) == nil].  The theorems relate the
    checks to the components configured: a configuration that passes keeps
    the trusted proxies and the portal's networks disjoint, so the rate
    limiter attributes a portal peer to its own address. *)
From stdpp Require Import base strings list.
From Stdlib Require Import ZArith Lia Ascii.
From S2P Require Import Prelude Utf8 GoStrings NetIP GoTime Strconv GoBase GoState Http RateLimit RedisStore.

Local Open Scope Z_scope.

(** ** Data *)

Definition SecretsSourceEnv := "env"%string.
Definition SecretsSourceKeyVault := "keyvault"%string.
Definition ServiceBusAuthConnectionString := "connection_string"%string.
Definition ServiceBusAuthManagedIdentity := "managed_identity"%string.
Definition ObservabilityExporterNone := "none"%string.
Definition ObservabilityExporterAzureMonitor := "azure_monitor"%string.
Definition SyncStatusStoreMemory := "memory"%string.
Definition SyncStatusStoreRedis := "redis"%string.

Module KeyVaultSecretNames.
Record t := mk {
  HMACSecret : string;
  ServiceBusConnectionString : string;
  GraphClientSecret : string;
  PasswordEncryptionKey : string
}.
End KeyVaultSecretNames.

Record Config := mkConfig {
  SecretsSource : string;
  KeyVaultURL : string;
  SecretNames : KeyVaultSecretNames.t;
  HTTPAddr : string;
  HMACSecret : string;
  EntraPrimaryDomain : string;
  EntraFallbackDomain : string;
  ProblemBaseURL : string;
  HMACClockSkew : Duration;
  NonceTTL : Duration;
  PortalAllowedCIDRs : list string;
  TrustedProxyCIDRs : list string;
  DirectClientMode : bool;
  RateLimitPerIP : Z;
  RateLimitWindow : Duration;
  HookMaxBodyBytes : Z;
  ServiceBusAuthMode : string;
  ServiceBusNamespaceFQDN : string;
  ServiceBusConnectionString : string;
  ServiceBusQueueName : string;
  ServiceBusDeadLetterQueueName : string;
  PasswordMessageTTL : Duration;
  SyncStatusStore : string;
  RedisHost : string;
  RedisPort : Z;
  RedisKeyPrefix : string;
  SyncStatusTerminalTTL : Duration;
  AzureClientID : string;
  PasswordEncryptionKeyB64 : string;
  PasswordEncryptionKeyID : string;
  GraphTenantID : string;
  GraphClientID : string;
  GraphClientSecret : string;
  ObservabilityExporter : string;
  OTLPExporterEndpoint : string;
  AzureMonitorMetricResourceID : string;
  AzureMonitorMetricRegion : string;
  AzureMonitorMetricNamespace : string;
  directClientModeErr : option error;
  redisPortErr : option error;
  passwordMessageTTLErr : option error;
  syncStatusTerminalTTLErr : option error
}.

(** ** Load *)

Section Load.
Context (Getenv : string → string).

Definition trimmed (key : string) : string := TrimSpace (Getenv key).

Definition env (key fallback : string) : string :=
  if bool_decide (trimmed key = ""%string) then fallback else trimmed key.

Definition boolEnv (key : string) : bool * option error :=
  if bool_decide (trimmed key = ""%string) then (false, None)
  else match ParseBool (trimmed key) with
       | Some b => (b, None)
       | None => (false, Some (ErrorText (key +:+ " must be a boolean")))
       end.

(** strconv.Atoi is ParseInt at 64 bits on the service's platforms. *)
Definition strictIntEnv (key : string) : Z * option error :=
  if bool_decide (trimmed key = ""%string) then (0, None)
  else match ParseInt (trimmed key) with
       | Some v => (v, None)
       | None => (0, Some (ErrorText (key +:+ " must be an integer")))
       end.

Definition strictDurationEnv (key : string) (fallback : Duration) : Duration * option error :=
  if bool_decide (trimmed key = ""%string) then (fallback, None)
  else match ParseDuration (trimmed key) with
       | Some v => (v, None)
       | None => (0, Some (ErrorText (key +:+ " must be a valid duration")))
       end.

Definition csvEnv (key : string) : list string :=
  if bool_decide (trimmed key = ""%string) then []
  else filter (λ v, v ≠ ""%string) (map TrimSpace (Split (trimmed key) ","%char)).

Definition intEnv (key : string) (fallback : Z) : Z :=
  if bool_decide (trimmed key = ""%string) then fallback else default fallback (ParseInt (trimmed key)).

Definition int64Env (key : string) (fallback : Z) : Z :=
  if bool_decide (trimmed key = ""%string) then fallback else default fallback (ParseInt (trimmed key)).

Definition durationEnv (key : string) (fallback : Duration) : Duration :=
  if bool_decide (trimmed key = ""%string) then fallback else default fallback (ParseDuration (trimmed key)).

Definition Load : Config :=
  let '(directClientMode, directErr) := boolEnv "DIRECT_CLIENT_MODE" in
  let '(redisPort, portErr) := strictIntEnv "REDIS_PORT" in
  let '(messageTTL, messageErr) := strictDurationEnv "PASSWORD_MESSAGE_TTL" (5 * Minute) in
  let '(terminalTTL, terminalErr) := strictDurationEnv "SYNC_STATUS_TERMINAL_TTL" (90 * 24 * Hour) in
  {| SecretsSource := trimmed "SECRETS_SOURCE";
     KeyVaultURL := trimmed "KEY_VAULT_URL";
     SecretNames := KeyVaultSecretNames.mk
       (env "KEY_VAULT_HMAC_SECRET_NAME" "hook-hmac-secret")
       (env "KEY_VAULT_SERVICEBUS_CONNECTION_STRING_NAME" "servicebus-conn-str")
       (env "KEY_VAULT_GRAPH_CLIENT_SECRET_NAME" "graph-client-secret")
       (env "KEY_VAULT_PASSWORD_ENCRYPTION_KEY_NAME" "password-payload-encryption-key");
     HTTPAddr := env "HTTP_ADDR" ":8080";
     HMACSecret := Getenv "HOOK_HMAC_SECRET";
     EntraPrimaryDomain := env "ENTRA_PRIMARY_DOMAIN" "nycu.edu.tw";
     EntraFallbackDomain := trimmed "ENTRA_FALLBACK_DOMAIN";
     ProblemBaseURL := TrimRight (env "PROBLEM_BASE_URL" "https://nycu.edu.tw/problems") "/"%char;
     HMACClockSkew := 30 * Second;
     NonceTTL := 60 * Second;
     PortalAllowedCIDRs := csvEnv "PORTAL_ALLOWED_CIDRS";
     TrustedProxyCIDRs := csvEnv "TRUSTED_PROXY_CIDRS";
     DirectClientMode := directClientMode;
     RateLimitPerIP := intEnv "RATE_LIMIT_PER_IP" 500;
     RateLimitWindow := durationEnv "RATE_LIMIT_WINDOW" Second;
     HookMaxBodyBytes := int64Env "HOOK_MAX_BODY_BYTES" (64 * 1024);
     ServiceBusAuthMode := env "SERVICEBUS_AUTH_MODE" ServiceBusAuthConnectionString;
     ServiceBusNamespaceFQDN := trimmed "SERVICEBUS_NAMESPACE_FQDN";
     ServiceBusConnectionString := trimmed "SERVICEBUS_CONNECTION_STRING";
     ServiceBusQueueName := env "SERVICEBUS_QUEUE_NAME" "password-sync";
     ServiceBusDeadLetterQueueName := env "SERVICEBUS_DEADLETTER_QUEUE_NAME" "password-sync-dlq";
     PasswordMessageTTL := messageTTL;
     SyncStatusStore := trimmed "SYNC_STATUS_STORE";
     RedisHost := trimmed "REDIS_HOST";
     RedisPort := redisPort;
     RedisKeyPrefix := env "REDIS_KEY_PREFIX" "password-hook:sync-status:";
     SyncStatusTerminalTTL := terminalTTL;
     AzureClientID := trimmed "AZURE_CLIENT_ID";
     PasswordEncryptionKeyB64 := trimmed "PASSWORD_ENCRYPTION_KEY_B64";
     PasswordEncryptionKeyID := env "PASSWORD_ENCRYPTION_KEY_ID" "password-payload-key-v1";
     GraphTenantID := trimmed "GRAPH_TENANT_ID";
     GraphClientID := trimmed "GRAPH_CLIENT_ID";
     GraphClientSecret := trimmed "GRAPH_CLIENT_SECRET";
     ObservabilityExporter := env "OBSERVABILITY_EXPORTER" ObservabilityExporterNone;
     OTLPExporterEndpoint := trimmed "OTEL_EXPORTER_OTLP_ENDPOINT";
     AzureMonitorMetricResourceID := trimmed "AZURE_MONITOR_METRIC_RESOURCE_ID";
     AzureMonitorMetricRegion := trimmed "AZURE_MONITOR_METRIC_REGION";
     AzureMonitorMetricNamespace := env "AZURE_MONITOR_METRIC_NAMESPACE" "password-hook-service";
     directClientModeErr := directErr;
     redisPortErr := portErr;
     passwordMessageTTLErr := messageErr;
     syncStatusTerminalTTLErr := terminalErr |}.
End Load.

(** ** Validate *)

(** A switch whose cases return an error: the first true condition. *)
Fixpoint switch (cases : list (bool * error)) : option error :=
  match cases with
  | [] => None
  | (c, e) :: cases' => if c then Some e else switch cases'
  end.

(** A check, then the next one. *)
Definition and_then (a b : option error) : option error := match a with Some e => Some e | None => b end.

Definition blank (s : string) : bool := bool_decide (TrimSpace s = ""%string).

Definition HasSuffix (s suffix : string) : bool :=
  bool_decide (drop (length (bytes_of_string s) - length (bytes_of_string suffix)) (bytes_of_string s) = bytes_of_string suffix).

Definition hasNonBlank (values : list string) : bool := existsb (λ v, negb (blank v)) values.

(** A loop over the trimmed, non-blank values that stops at an error. *)
Fixpoint each_value (check : string → option error) (values : list string) : option error :=
  match values with
  | [] => None
  | v :: values' =>
    let v := TrimSpace v in
    if bool_decide (v = ""%string) then each_value check values'
    else and_then (check v) (each_value check values')
  end.

Definition parse_cidr (v : string) : option IPNet := ParseCIDR (bytes_of_string v).

Definition invalid_cidr (envName v : string) : error := ErrorQuoted (envName +:+ " contains invalid CIDR") v.

Definition validateCIDRs (envName : string) : list string → option error :=
  each_value (λ v, match parse_cidr v with None => Some (invalid_cidr envName v) | Some _ => None end).

Definition rejectOverlappingCIDRs (trusted portal : list string) : option error :=
  each_value (λ t,
    match parse_cidr t with
    | None => Some (invalid_cidr "TRUSTED_PROXY_CIDRS" t)
    | Some trustedNet =>
      each_value (λ p,
        match parse_cidr p with
        | None => Some (invalid_cidr "PORTAL_ALLOWED_CIDRS" p)
        | Some portalNet =>
          if net_Contains trustedNet (net_IP portalNet) || net_Contains portalNet (net_IP trustedNet)
          then Some (ErrorText ("TRUSTED_PROXY_CIDRS " +:+ quote t +:+ " must not overlap PORTAL_ALLOWED_CIDRS " +:+ quote p))
          else None
        end) portal
    end) trusted.

(** IPMask.Size's first result: the leading ones, 0 if others follow. *)
Fixpoint byte_ones (n : nat) (b : Z) : nat :=
  match n with
  | O => 0
  | S n' => if Z.testbit b 7 then S (byte_ones n' (Z.land (Z.shiftl b 1) 0xff)) else 0
  end.

Fixpoint mask_ones (m : bytes) : option nat :=
  match m with
  | [] => Some 0%nat
  | b :: m' =>
    if b =? 0xff then match mask_ones m' with Some k => Some (8 + k)%nat | None => None end
    else
      let k := byte_ones 8 b in
      if (Z.land (Z.shiftl b (Z.of_nat k)) 0xff =? 0) && forallb (Z.eqb 0) m' then Some k else None
  end.

Definition rejectUnrestrictedCIDRs (envName : string) : list string → option error :=
  each_value (λ v,
    match parse_cidr v with
    | None => Some (invalid_cidr envName v)
    | Some network =>
      if (default 0 (mask_ones (net_Mask network)) =? 0)%nat
      then Some (ErrorQuoted (envName +:+ " must not contain unrestricted CIDR") v) else None
    end).

Section Validate.
Context {U : UnicodeTables} (uuid_valid : string → bool).
Implicit Types c : Config.

Definition ValidateHTTP c : option error :=
  and_then (directClientModeErr c)
  (and_then (switch
    [(blank (HTTPAddr c), ErrorText "HTTP_ADDR is required");
     (blank (HMACSecret c), ErrorText "HOOK_HMAC_SECRET is required");
     (blank (EntraPrimaryDomain c), ErrorText "ENTRA_PRIMARY_DOMAIN is required");
     (Contains (EntraPrimaryDomain c) "@", ErrorQuoted "ENTRA_PRIMARY_DOMAIN must be a domain, got" (EntraPrimaryDomain c));
     (Contains (EntraFallbackDomain c) "@", ErrorQuoted "ENTRA_FALLBACK_DOMAIN must be a domain, got" (EntraFallbackDomain c));
     (negb (HasPrefix (ProblemBaseURL c) "https://"), ErrorText "PROBLEM_BASE_URL must start with https://");
     (HMACClockSkew c <=? 0, ErrorText "HMACClockSkew must be positive");
     (NonceTTL c <=? 0, ErrorText "NonceTTL must be positive");
     (negb (hasNonBlank (PortalAllowedCIDRs c)), ErrorText "PORTAL_ALLOWED_CIDRS is required");
     (DirectClientMode c && hasNonBlank (TrustedProxyCIDRs c),
        ErrorText "TRUSTED_PROXY_CIDRS must be empty when DIRECT_CLIENT_MODE=true");
     (negb (DirectClientMode c) && negb (hasNonBlank (TrustedProxyCIDRs c)),
        ErrorText "TRUSTED_PROXY_CIDRS is required when DIRECT_CLIENT_MODE=false");
     (RateLimitPerIP c <=? 0, ErrorText "RateLimitPerIP must be positive");
     (RateLimitWindow c <=? 0, ErrorText "RateLimitWindow must be positive");
     (HookMaxBodyBytes c <=? 0, ErrorText "HookMaxBodyBytes must be positive")])
  (and_then (validateCIDRs "PORTAL_ALLOWED_CIDRS" (PortalAllowedCIDRs c))
  (and_then (validateCIDRs "TRUSTED_PROXY_CIDRS" (TrustedProxyCIDRs c))
  (and_then (rejectUnrestrictedCIDRs "TRUSTED_PROXY_CIDRS" (TrustedProxyCIDRs c))
    (rejectOverlappingCIDRs (TrustedProxyCIDRs c) (PortalAllowedCIDRs c)))))).

Definition ValidateSecretLoadingInputs c : option error :=
  if bool_decide (SecretsSource c = ""%string) then Some (ErrorText "SECRETS_SOURCE is required (env or keyvault)")
  else if bool_decide (SecretsSource c = SecretsSourceEnv) then None
  else if bool_decide (SecretsSource c = SecretsSourceKeyVault) then
    switch
      [(blank (KeyVaultURL c), ErrorText "KEY_VAULT_URL is required when SECRETS_SOURCE=keyvault");
       (negb (HasPrefix (KeyVaultURL c) "https://"), ErrorText "KEY_VAULT_URL must start with https://");
       (blank (KeyVaultSecretNames.HMACSecret (SecretNames c)),
          ErrorText "KEY_VAULT_HMAC_SECRET_NAME is required when SECRETS_SOURCE=keyvault");
       (bool_decide (ServiceBusAuthMode c ≠ ServiceBusAuthManagedIdentity)
        && blank (KeyVaultSecretNames.ServiceBusConnectionString (SecretNames c)),
          ErrorText "KEY_VAULT_SERVICEBUS_CONNECTION_STRING_NAME is required when SECRETS_SOURCE=keyvault");
       (blank (KeyVaultSecretNames.GraphClientSecret (SecretNames c)),
          ErrorText "KEY_VAULT_GRAPH_CLIENT_SECRET_NAME is required when SECRETS_SOURCE=keyvault");
       (blank (KeyVaultSecretNames.PasswordEncryptionKey (SecretNames c)),
          ErrorText "KEY_VAULT_PASSWORD_ENCRYPTION_KEY_NAME is required when SECRETS_SOURCE=keyvault")]
  else Some (ErrorText "SECRETS_SOURCE must be env or keyvault").

Definition validateServiceBus c : option error :=
  and_then (passwordMessageTTLErr c)
  (and_then
    (if bool_decide (ServiceBusAuthMode c ∈ [""%string; ServiceBusAuthConnectionString]) then
       switch [(blank (ServiceBusConnectionString c), ErrorText "SERVICEBUS_CONNECTION_STRING is required")]
     else if bool_decide (ServiceBusAuthMode c = ServiceBusAuthManagedIdentity) then
       let namespaceFQDN := ToLower (TrimSpace (ServiceBusNamespaceFQDN c)) in
       switch
         [(bool_decide (namespaceFQDN = ""%string),
             ErrorText "SERVICEBUS_NAMESPACE_FQDN is required when SERVICEBUS_AUTH_MODE=managed_identity");
          (Contains namespaceFQDN "://" || negb (HasSuffix namespaceFQDN ".servicebus.windows.net"),
             ErrorText "SERVICEBUS_NAMESPACE_FQDN must be a Service Bus namespace host name")]
     else Some (ErrorText "SERVICEBUS_AUTH_MODE must be connection_string or managed_identity"))
  (switch
    [(blank (ServiceBusQueueName c), ErrorText "SERVICEBUS_QUEUE_NAME is required");
     (blank (ServiceBusDeadLetterQueueName c), ErrorText "SERVICEBUS_DEADLETTER_QUEUE_NAME is required");
     (PasswordMessageTTL c <=? 0, ErrorText "PasswordMessageTTL must be positive")])).

Definition validateSyncStatus c : option error :=
  and_then (redisPortErr c)
  (and_then (syncStatusTerminalTTLErr c)
  (if bool_decide (SyncStatusStore c = SyncStatusStoreMemory) then None
   else if bool_decide (SyncStatusStore c = SyncStatusStoreRedis) then
     switch
       [(blank (RedisHost c), ErrorText "REDIS_HOST is required when SYNC_STATUS_STORE=redis");
        (Contains (RedisHost c) "://" || ContainsAny (RedisHost c) ["/"; "@"; ":"]%char,
           ErrorText "REDIS_HOST must be a host name without a scheme, path, or port");
        ((RedisPort c <=? 0) || (65535 <? RedisPort c),
           ErrorText "REDIS_PORT must be between 1 and 65535 when SYNC_STATUS_STORE=redis");
        (blank (RedisKeyPrefix c), ErrorText "REDIS_KEY_PREFIX is required when SYNC_STATUS_STORE=redis");
        (PasswordMessageTTL c <? Millisecond, ErrorText "PASSWORD_MESSAGE_TTL must be at least 1ms when SYNC_STATUS_STORE=redis");
        (SyncStatusTerminalTTL c <? Millisecond,
           ErrorText "SYNC_STATUS_TERMINAL_TTL must be at least 1ms when SYNC_STATUS_STORE=redis");
        (blank (AzureClientID c), ErrorText "AZURE_CLIENT_ID is required when SYNC_STATUS_STORE=redis");
        (negb (uuid_valid (AzureClientID c)), ErrorText "AZURE_CLIENT_ID must be a valid UUID when SYNC_STATUS_STORE=redis")]
   else Some (ErrorText "SYNC_STATUS_STORE must be memory or redis"))).

Definition validateObservability c : option error :=
  if bool_decide (ObservabilityExporter c ∈ [""%string; ObservabilityExporterNone]) then None
  else if bool_decide (ObservabilityExporter c = ObservabilityExporterAzureMonitor) then
    switch
      [(blank (OTLPExporterEndpoint c), ErrorText "OTEL_EXPORTER_OTLP_ENDPOINT is required when OBSERVABILITY_EXPORTER=azure_monitor");
       (blank (AzureMonitorMetricResourceID c),
          ErrorText "AZURE_MONITOR_METRIC_RESOURCE_ID is required when OBSERVABILITY_EXPORTER=azure_monitor");
       (blank (AzureMonitorMetricRegion c), ErrorText "AZURE_MONITOR_METRIC_REGION is required when OBSERVABILITY_EXPORTER=azure_monitor");
       (blank (AzureMonitorMetricNamespace c),
          ErrorText "AZURE_MONITOR_METRIC_NAMESPACE is required when OBSERVABILITY_EXPORTER=azure_monitor")]
  else Some (ErrorText "OBSERVABILITY_EXPORTER must be none or azure_monitor").

Definition Validate c : option error :=
  and_then (ValidateSecretLoadingInputs c)
  (and_then (ValidateHTTP c)
  (and_then (validateServiceBus c)
  (and_then (validateSyncStatus c)
  (and_then (validateObservability c)
  (switch
    [(blank (PasswordEncryptionKeyB64 c), ErrorText "PASSWORD_ENCRYPTION_KEY_B64 is required");
     (blank (PasswordEncryptionKeyID c), ErrorText "PASSWORD_ENCRYPTION_KEY_ID is required");
     (blank (GraphTenantID c), ErrorText "GRAPH_TENANT_ID is required");
     (blank (GraphClientID c), ErrorText "GRAPH_CLIENT_ID is required");
     (blank (GraphClientSecret c), ErrorText "GRAPH_CLIENT_SECRET is required")]))))).
End Validate.

(** ** Lemmas *)

Lemma and_then_none a b : and_then a b = None ↔ a = None ∧ b = None.
Proof. destruct a; cbn; [by split; [|intros []]|]. split; [done|by intros []]. Qed.

Lemma switch_none cases : switch cases = None ↔ Forall (λ c, c.1 = false) cases.
Proof.
  induction cases as [|[c e] cases IH]; cbn [switch]; [by split|].
  rewrite Forall_cons. cbn [fst]. destruct c; [by split; [|intros []]|]. rewrite IH. by split; [|intros []].
Qed.

Lemma each_value_none check vs :
  each_value check vs = None ↔ ∀ v, v ∈ vs → TrimSpace v ≠ ""%string → check (TrimSpace v) = None.
Proof.
  rewrite <- (Forall_forall (λ v, TrimSpace v ≠ ""%string → check (TrimSpace v) = None)).
  induction vs as [|v vs IH]; cbn [each_value]; [by split|]. rewrite Forall_cons, <- IH. case_bool_decide as Hv.
  - split; [by intros ?; split|by intros []].
  - rewrite and_then_none. split; [by intros [? ?]; split|]. intros [H ?]. by split; [apply H|].
Qed.

(** The entries that stand for a network. *)
Definition entries (vs : list string) : list string := filter (λ v, TrimSpace v ≠ ""%string) vs.

Lemma parse_cidr_blank : parse_cidr "" = None.
Proof. done. Qed.

Lemma validateCIDRs_none name vs : validateCIDRs name vs = None →
  map Some (RateLimit.parseCIDRs vs) = map (λ v, parse_cidr (TrimSpace v)) (entries vs).
Proof.
  unfold validateCIDRs. rewrite each_value_none. induction vs as [|v vs IH]; intros H; [done|].
  unfold RateLimit.parseCIDRs, entries in *. cbn [omap list_omap]. fold (parse_cidr (TrimSpace v)).
  assert (∀ v', v' ∈ vs → TrimSpace v' ≠ ""%string →
    match parse_cidr (TrimSpace v') with None => Some (invalid_cidr name (TrimSpace v')) | Some _ => None end = None) as H'
    by (intros v' Hv'; apply H; by right).
  specialize (IH H'). destruct (decide (TrimSpace v = ""%string)) as [He|He].
  - rewrite filter_cons_False by auto. rewrite He, parse_cidr_blank. done.
  - rewrite filter_cons_True by done. specialize (H v ltac:(by left) He).
    destruct (parse_cidr (TrimSpace v)) as [n|] eqn:E; [|done]. cbn [map]. rewrite E, <- IH. done.
Qed.

Lemma parseCIDRs_elem vs n : n ∈ RateLimit.parseCIDRs vs →
  ∃ v, v ∈ vs ∧ TrimSpace v ≠ ""%string ∧ parse_cidr (TrimSpace v) = Some n.
Proof.
  unfold RateLimit.parseCIDRs. rewrite list_elem_of_omap. intros (v&Hv&Hn). exists v. split_and!; try done.
  intros He. by rewrite He in Hn.
Qed.

Lemma containsIP_elem ns ip : RateLimit.containsIP ns ip = true ↔ ∃ n, n ∈ ns ∧ net_Contains n ip = true.
Proof. unfold RateLimit.containsIP. rewrite existsb_exists. by setoid_rewrite list_elem_of_In. Qed.

(** The overlap check is complete: networks it accepts share no address. *)
Lemma overlap_check_complete trusted portal ip : rejectOverlappingCIDRs trusted portal = None →
  RateLimit.containsIP (RateLimit.parseCIDRs trusted) ip = true →
  RateLimit.containsIP (RateLimit.parseCIDRs portal) ip = false.
Proof.
  unfold rejectOverlappingCIDRs. rewrite each_value_none. intros H Ht. apply not_true_iff_false. intros Hp.
  apply containsIP_elem in Ht as (a&Ha&Hca), Hp as (b&Hb&Hcb).
  apply parseCIDRs_elem in Ha as (t&Ht&Htne&Hpt), Hb as (p&Hp&Hpne&Hpp).
  specialize (H t Ht Htne). rewrite Hpt, each_value_none in H. specialize (H p Hp Hpne). rewrite Hpp in H.
  destruct (networks_overlap _ _ a b ip Hpt Hpp Hca Hcb) as [Hov|Hov]; rewrite Hov in H; [done|]. by rewrite orb_true_r in H.
Qed.

(** The size of a mask without a one is 0. *)
Lemma mask_ones_zero m : Forall (eq 0) m → mask_ones m = Some 0%nat.
Proof.
  destruct 1 as [|b m <- Hm]; [done|]. cbn [mask_ones Z.eqb byte_ones Z.testbit]. cbn [Z.of_nat Z.shiftl Z.land Z.eqb andb].
  replace (forallb (Z.eqb 0) m) with true; [done|]. symmetry. apply forallb_forall. intros x Hx.
  rewrite Forall_forall in Hm. by rewrite <- (Hm x) by by apply list_elem_of_In.
Qed.

(** A portal network that was accepted lies outside every trusted one. *)
Lemma hasNonBlank_entries vs : hasNonBlank vs = true → entries vs ≠ [].
Proof.
  unfold hasNonBlank, entries. rewrite existsb_exists. intros (v&Hv&Hb) He. apply list_elem_of_In in Hv.
  assert (v ∈ filter (λ v, TrimSpace v ≠ ""%string) vs) as Hin.
  { apply list_elem_of_filter. split; [|done]. unfold blank in Hb. rewrite negb_true_iff, bool_decide_eq_false in Hb. done. }
  rewrite He in Hin. by apply elem_of_nil in Hin.
Qed.

Lemma ValidateHTTP_parts c : ValidateHTTP c = None →
  validateCIDRs "PORTAL_ALLOWED_CIDRS" (PortalAllowedCIDRs c) = None ∧
  validateCIDRs "TRUSTED_PROXY_CIDRS" (TrustedProxyCIDRs c) = None ∧
  rejectUnrestrictedCIDRs "TRUSTED_PROXY_CIDRS" (TrustedProxyCIDRs c) = None ∧
  rejectOverlappingCIDRs (TrustedProxyCIDRs c) (PortalAllowedCIDRs c) = None ∧
  blank (HMACSecret c) = false ∧ 0 < HMACClockSkew c ∧ 0 < NonceTTL c ∧
  hasNonBlank (PortalAllowedCIDRs c) = true ∧ DirectClientMode c = negb (hasNonBlank (TrustedProxyCIDRs c)) ∧
  0 < RateLimitPerIP c ∧ 0 < RateLimitWindow c ∧ 0 < HookMaxBodyBytes c.
Proof.
  unfold ValidateHTTP. rewrite !and_then_none, switch_none, !Forall_cons. cbn [fst].
  rewrite !negb_false_iff, !Z.leb_gt. intros (_&H&?&?&?&?).
  destruct H as (_&?&_&_&_&_&?&?&?&Hd1&Hd2&?&?&?&_). split_and!; try done.
  destruct (DirectClientMode c), (hasNonBlank (TrustedProxyCIDRs c)); done.
Qed.

(** What a numeric setting becomes, by the numbers its text can denote: the
    number if it is an int64 value; a number that is not one counts as unset
    in the lenient settings and is an error in the strict ones. *)
Definition lenient_setting (denotes : Z → Prop) (fallback v : Z) : Prop :=
  ∀ z, denotes z → v = if decide (int64_ok z) then z else fallback.

Definition strict_setting (denotes : Z → Prop) (v : Z) (err : option error) : Prop :=
  ∀ z, denotes z → if decide (int64_ok z) then v = z ∧ err = None else is_Some err.

Section LoadNumbers.
Context (Getenv : string → string).

Definition setting_text (key : string) : bytes := bytes_of_string (trimmed Getenv key).

Lemma trimmed_not_empty key c t : setting_text key = c :: t → bool_decide (trimmed Getenv key = ""%string) = false.
Proof. unfold setting_text. intros H. apply bool_decide_false. intros E. by rewrite E in H. Qed.

Lemma signed_not_empty P key z : (∀ t x, P t x → ∃ d t', t = d :: t' ∧ 48 <= d <= 57) →
  signed P (setting_text key) z → bool_decide (trimmed Getenv key = ""%string) = false.
Proof.
  intros HP H. inversion H as [t x Hx E|t x Hx E|t x Hx E]; [|by eapply trimmed_not_empty..].
  destruct (HP _ _ Hx) as (d&t'&Et&_). by eapply trimmed_not_empty.
Qed.

Lemma int_not_empty key z : int_text (setting_text key) z → bool_decide (trimmed Getenv key = ""%string) = false.
Proof.
  apply signed_not_empty. intros t x [Hd _]. destruct (digits_first t [] Hd) as (d&t'&E&?). rewrite app_nil_r in E. eauto.
Qed.

Lemma duration_not_empty key z : duration_text (setting_text key) z → bool_decide (trimmed Getenv key = ""%string) = false.
Proof. apply signed_not_empty, terms_first. Qed.

Lemma ParseInt_denotes key z : int_text (setting_text key) z →
  ParseInt (trimmed Getenv key) = if decide (int64_ok z) then Some z else None.
Proof.
  intros Hz. case_decide as Hi; [by apply ParseInt_iff|]. destruct (ParseInt _) as [v|] eqn:E; [|done].
  apply ParseInt_iff in E as [Hv Hiv]. by rewrite (int_text_fun _ _ _ Hz Hv) in Hi.
Qed.

Lemma intEnv_reads key d : lenient_setting (int_text (setting_text key)) d (intEnv Getenv key d).
Proof. intros z Hz. unfold intEnv. rewrite (int_not_empty key z Hz), (ParseInt_denotes key z Hz). by case_decide. Qed.

Lemma durationEnv_reads key d : lenient_setting (duration_text (setting_text key)) d (durationEnv Getenv key d).
Proof. intros z Hz. unfold durationEnv. rewrite (duration_not_empty key z Hz), (ParseDuration_whole _ z Hz). by case_decide. Qed.

Lemma strictIntEnv_reads key :
  strict_setting (int_text (setting_text key)) (strictIntEnv Getenv key).1 (strictIntEnv Getenv key).2.
Proof. intros z Hz. unfold strictIntEnv. rewrite (int_not_empty key z Hz), (ParseInt_denotes key z Hz). by case_decide. Qed.

Lemma strictDurationEnv_reads key d :
  strict_setting (duration_text (setting_text key)) (strictDurationEnv Getenv key d).1 (strictDurationEnv Getenv key d).2.
Proof. intros z Hz. unfold strictDurationEnv. rewrite (duration_not_empty key z Hz), (ParseDuration_whole _ z Hz). by case_decide. Qed.
End LoadNumbers.

(** ** Properties *)

Section ConfigProperties.

(** C39 Numeric settings are read as written.  Whatever the environment holds,
    where the trimmed text of an integer setting is a decimal numeral, or that
    of a duration setting a sequence of whole numbers with units, Load keeps
    exactly the number it denotes (for durations the exact sum in
    nanoseconds) if that is an int64 value; if it is not, the rate limit, the
    window and the body limit keep their defaults, and the port and the two
    lifetimes are an error for Validate.  No number is wrapped or truncated.
    (Not covered: durations with a fraction, which are read through float64,
    and durations one of whose terms is exactly 2^63 nanoseconds.) *)
Theorem load_reads_numbers (Getenv : string → string) :
  let c := Load Getenv in
  let int key := int_text (setting_text Getenv key) in
  let duration key := duration_text (setting_text Getenv key) in
  lenient_setting (int "RATE_LIMIT_PER_IP"%string) 500 (RateLimitPerIP c) ∧
  lenient_setting (int "HOOK_MAX_BODY_BYTES"%string) 65536 (HookMaxBodyBytes c) ∧
  lenient_setting (duration "RATE_LIMIT_WINDOW"%string) Second (RateLimitWindow c) ∧
  strict_setting (int "REDIS_PORT"%string) (RedisPort c) (redisPortErr c) ∧
  strict_setting (duration "PASSWORD_MESSAGE_TTL"%string) (PasswordMessageTTL c) (passwordMessageTTLErr c) ∧
  strict_setting (duration "SYNC_STATUS_TERMINAL_TTL"%string) (SyncStatusTerminalTTL c) (syncStatusTerminalTTLErr c).
Proof.
  pose proof (strictIntEnv_reads Getenv "REDIS_PORT") as Hp.
  pose proof (strictDurationEnv_reads Getenv "PASSWORD_MESSAGE_TTL" (5 * Minute)) as Hm.
  pose proof (strictDurationEnv_reads Getenv "SYNC_STATUS_TERMINAL_TTL" (90 * 24 * Hour)) as Ht.
  unfold Load. destruct (boolEnv _ _) as [dm e1], (strictIntEnv _ _) as [port e2], (strictDurationEnv _ _ (5 * Minute)) as [mt e3],
    (strictDurationEnv _ _ (90 * 24 * Hour)) as [tt e4].
  split_and!; [apply intEnv_reads|apply (intEnv_reads Getenv "HOOK_MAX_BODY_BYTES")|apply durationEnv_reads|done..].
Qed.

(** C15 The trust boundary the comment of the overlap check asks for: in a
    configuration that passes ValidateHTTP no address is both inside a portal
    network and inside a trusted-proxy network (prefixes of either family,
    IPv4-mapped ones included); some address is inside a portal network and
    outside every trusted one, so no trusted network contains every address,
    and none is written with a prefix length of 0; and the rate limiter works
    with every configured entry, none dropped as malformed.  (A trusted network
    can still contain every IPv4 address: [mapped_prefix_accepted] below.) *)
Theorem validated_networks_disjoint c ip : ValidateHTTP c = None →
  RateLimit.containsIP (RateLimit.parseCIDRs (PortalAllowedCIDRs c)) ip
    && RateLimit.containsIP (RateLimit.parseCIDRs (TrustedProxyCIDRs c)) ip = false ∧
  (∃ base, RateLimit.containsIP (RateLimit.parseCIDRs (PortalAllowedCIDRs c)) base = true ∧
     Forall (λ n, net_Contains n base = false ∧ ¬ Forall (eq 0) (net_Mask n)) (RateLimit.parseCIDRs (TrustedProxyCIDRs c))) ∧
  length (RateLimit.parseCIDRs (PortalAllowedCIDRs c)) = length (entries (PortalAllowedCIDRs c)) ∧
  length (RateLimit.parseCIDRs (TrustedProxyCIDRs c)) = length (entries (TrustedProxyCIDRs c)).
Proof.
  intros H. apply ValidateHTTP_parts in H as (Hp&Ht&Hu&Ho&_&_&_&Hnb&_). apply validateCIDRs_none in Hp, Ht. split_and!.
  - apply not_true_iff_false. rewrite andb_true_iff. intros [H1 H2].
    by rewrite (overlap_check_complete _ _ _ Ho H2) in H1.
  - destruct (RateLimit.parseCIDRs (PortalAllowedCIDRs c)) as [|p ps] eqn:Ep.
    { apply hasNonBlank_entries in Hnb. by destruct (entries (PortalAllowedCIDRs c)). }
    assert (p ∈ RateLimit.parseCIDRs (PortalAllowedCIDRs c)) as Hin by (rewrite Ep; left).
    apply parseCIDRs_elem in Hin as (v&_&_&Hpv).
    assert (RateLimit.containsIP (p :: ps) (net_IP p) = true) as Hc.
    { apply containsIP_elem. exists p. split; [left|]. by eapply network_contains_base. }
    exists (net_IP p). split; [done|]. apply Forall_forall. intros n Hn. split.
    + apply not_true_iff_false. intros Hcn. rewrite <- Ep in Hc.
      rewrite (overlap_check_complete _ _ (net_IP p) Ho) in Hc; [done|]. apply containsIP_elem. eauto.
    + apply parseCIDRs_elem in Hn as (t&Hv&Hne&Hpt). unfold rejectUnrestrictedCIDRs in Hu.
      rewrite each_value_none in Hu. specialize (Hu t Hv Hne). rewrite Hpt in Hu.
      intros Hm%mask_ones_zero. by rewrite Hm in Hu.
  - apply (f_equal length) in Hp. by rewrite !length_map in Hp.
  - apply (f_equal length) in Ht. by rewrite !length_map in Ht.
Qed.
End ConfigProperties.

Section ConfigWitnesses.
(** An environment with a proxy network beside the portal's. *)
Definition sample_env (key : string) : string :=
  if bool_decide (key = "SECRETS_SOURCE") then "env"
  else if bool_decide (key = "HOOK_HMAC_SECRET") then "k"
  else if bool_decide (key = "PORTAL_ALLOWED_CIDRS") then " 140.113.0.0/16, 2001:288::/32,"
  else if bool_decide (key = "TRUSTED_PROXY_CIDRS") then "10.0.0.0/8, ::ffff:192.168.0.0/112"
  else if bool_decide (key = "RATE_LIMIT_WINDOW") then "1.5s"
  else if bool_decide (key = "SERVICEBUS_CONNECTION_STRING") then "Endpoint=sb://x"
  else if bool_decide (key = "SYNC_STATUS_STORE") then "redis"
  else if bool_decide (key = "REDIS_HOST") then " cache.example "
  else if bool_decide (key = "REDIS_PORT") then "10000"
  else if bool_decide (key = "AZURE_CLIENT_ID") then "id"
  else if bool_decide (key = "PASSWORD_ENCRYPTION_KEY_B64") then "MDEyMzQ1Njc4OTAxMjM0NTY3ODkwMTIzNDU2Nzg5MDE="
  else if bool_decide (key = "GRAPH_TENANT_ID") then "t"
  else if bool_decide (key = "GRAPH_CLIENT_ID") then "c"
  else if bool_decide (key = "GRAPH_CLIENT_SECRET") then "s"
  else "".

Definition sample_config : Config := Load sample_env.

#[local] Existing Instance Latin1Tables.

Example sample_validates :
  Validate (λ _, true) sample_config = None ∧
  PortalAllowedCIDRs sample_config = ["140.113.0.0/16"; "2001:288::/32"]%string ∧
  RateLimitWindow sample_config = 1500 * Millisecond.
Proof. vm_compute. done. Qed.

(** Texts that denote numbers, in range and not. *)
Example denoted_numbers :
  int_text (bytes_of_string "-42") (-42) ∧ duration_text (bytes_of_string "1h30m") 5400000000000 ∧
  RateLimitPerIP (Load (λ k, if bool_decide (k = "RATE_LIMIT_PER_IP"%string) then "18446744073709551617"%string else ""%string)) = 500 ∧
  PasswordMessageTTL (Load (λ k, if bool_decide (k = "PASSWORD_MESSAGE_TTL"%string) then "1h30m"%string else ""%string)) = 90 * Minute.
Proof.
  split_and!; [| |by vm_compute..].
  - apply (minus_sign _ (bytes_of_string "42") 42). split; [|done]. split; [done|]. repeat constructor; done.
  - apply no_sign. apply (more_terms (bytes_of_string "1") (bytes_of_string "h") 3600000000000 (bytes_of_string "30m") 1800000000000);
      [split; [done|repeat constructor; done]|unfold units; rewrite !elem_of_cons; tauto|done|].
    apply (last_term (bytes_of_string "30") (bytes_of_string "m") 60000000000);
      [split; [done|repeat constructor; done]|unfold units; rewrite !elem_of_cons; tauto|done].
Qed.

(** Overlapping and unrestricted networks are refused. *)
Example refused_networks :
  rejectOverlappingCIDRs ["10.0.0.0/8"] ["10.1.0.0/16"]
    = Some (ErrorText ("TRUSTED_PROXY_CIDRS " +:+ quote "10.0.0.0/8" +:+ " must not overlap PORTAL_ALLOWED_CIDRS " +:+ quote "10.1.0.0/16")) ∧
  rejectUnrestrictedCIDRs "X" ["::/0"] = Some (ErrorQuoted "X must not contain unrestricted CIDR" "::/0") ∧
  validateCIDRs "X" [" "; "10.0.0.1"] = Some (ErrorQuoted "X contains invalid CIDR" "10.0.0.1").
Proof. vm_compute. done. Qed.

(** The check for unrestricted networks looks at the written prefix length
    only: with a portal of IPv6 networks the trusted network
    ::ffff:0.0.0.0/96 is accepted, and it contains every IPv4 address, as
    0.0.0.0/0 does. *)
Definition mapped_env (key : string) : string :=
  if bool_decide (key = "PORTAL_ALLOWED_CIDRS") then "2001:288::/32"
  else if bool_decide (key = "TRUSTED_PROXY_CIDRS") then "::ffff:0.0.0.0/96" else sample_env key.

Example mapped_prefix_accepted :
  ValidateHTTP (Load mapped_env) = None ∧
  ∀ a b c d, RateLimit.containsIP (RateLimit.parseCIDRs (TrustedProxyCIDRs (Load mapped_env))) [a; b; c; d] = true.
Proof.
  split; [by vm_compute|]. intros a b c d.
  replace (RateLimit.parseCIDRs (TrustedProxyCIDRs (Load mapped_env)))
    with [mkIPNet (v4InV6Prefix ++ replicate 4 0) (CIDRMask 96 16)] by (vm_compute; reflexivity).
  unfold RateLimit.containsIP. cbn [existsb]. rewrite orb_false_r.
  change (bool_decide ([0; 0; 0; 0] = [Z.land a 0; Z.land b 0; Z.land c 0; Z.land d 0]) = true).
  rewrite !Z.land_0_r. done.
Qed.

Lemma validated_networks_disjoint_witness :
  RateLimit.containsIP (RateLimit.parseCIDRs (PortalAllowedCIDRs sample_config)) [140; 113; 1; 2]
    && RateLimit.containsIP (RateLimit.parseCIDRs (TrustedProxyCIDRs sample_config)) [140; 113; 1; 2] = false ∧
  (∃ base, RateLimit.containsIP (RateLimit.parseCIDRs (PortalAllowedCIDRs sample_config)) base = true ∧
     Forall (λ n, net_Contains n base = false ∧ ¬ Forall (eq 0) (net_Mask n)) (RateLimit.parseCIDRs (TrustedProxyCIDRs sample_config))) ∧
  length (RateLimit.parseCIDRs (PortalAllowedCIDRs sample_config)) = length (entries (PortalAllowedCIDRs sample_config)) ∧
  length (RateLimit.parseCIDRs (TrustedProxyCIDRs sample_config)) = length (entries (TrustedProxyCIDRs sample_config)).
Proof. apply (validated_networks_disjoint sample_config [140; 113; 1; 2]). vm_compute. reflexivity. Defined.
End ConfigWitnesses.
