(* ===== verification/SecretLoader.v ===== *)
(** * Secret loading (internal/secretloader/loader.go)

    [Resolve] fills the secret fields of a configuration from Key Vault.  The
    vault client is a parameter, and so are the two things the code asks of a
    foreign error: the response error [errors.As] finds in it ([as_response],
    status and code) and its dynamic type ([type_name], the verb %T). *)
From stdpp Require Import base strings list pretty.
From Stdlib Require Import ZArith Lia.
From S2P Require Import Prelude Utf8 GoStrings NetIP GoTime Strconv GoBase GoState Config.

Local Open Scope Z_scope.

(** http.StatusText. *)
Definition StatusText (code : Z) : string :=
  match code with
  | 100 => "Continue" | 101 => "Switching Protocols" | 102 => "Processing" | 103 => "Early Hints"
  | 200 => "OK" | 201 => "Created" | 202 => "Accepted" | 203 => "Non-Authoritative Information"
  | 204 => "No Content" | 205 => "Reset Content" | 206 => "Partial Content" | 207 => "Multi-Status"
  | 208 => "Already Reported" | 226 => "IM Used"
  | 300 => "Multiple Choices" | 301 => "Moved Permanently" | 302 => "Found" | 303 => "See Other"
  | 304 => "Not Modified" | 305 => "Use Proxy" | 307 => "Temporary Redirect" | 308 => "Permanent Redirect"
  | 400 => "Bad Request" | 401 => "Unauthorized" | 402 => "Payment Required" | 403 => "Forbidden"
  | 404 => "Not Found" | 405 => "Method Not Allowed" | 406 => "Not Acceptable"
  | 407 => "Proxy Authentication Required" | 408 => "Request Timeout" | 409 => "Conflict" | 410 => "Gone"
  | 411 => "Length Required" | 412 => "Precondition Failed" | 413 => "Request Entity Too Large"
  | 414 => "Request URI Too Long" | 415 => "Unsupported Media Type" | 416 => "Requested Range Not Satisfiable"
  | 417 => "Expectation Failed" | 418 => "I'm a teapot" | 421 => "Misdirected Request"
  | 422 => "Unprocessable Entity" | 423 => "Locked" | 424 => "Failed Dependency" | 425 => "Too Early"
  | 426 => "Upgrade Required" | 428 => "Precondition Required" | 429 => "Too Many Requests"
  | 431 => "Request Header Fields Too Large" | 451 => "Unavailable For Legal Reasons"
  | 500 => "Internal Server Error" | 501 => "Not Implemented" | 502 => "Bad Gateway" | 503 => "Service Unavailable"
  | 504 => "Gateway Timeout" | 505 => "HTTP Version Not Supported" | 506 => "Variant Also Negotiates"
  | 507 => "Insufficient Storage" | 508 => "Loop Detected" | 510 => "Not Extended"
  | 511 => "Network Authentication Required"
  | _ => ""
  end%string.

Section Loader.
Context {W : Type}.
(** The vault: the value of a secret, absent when the response carries none. *)
Context (as_response : error → option (Z * string)) (type_name : error → string).

(** The Getter interface; [Done] is what ctx.Err() reports in a world. *)
Definition Getter : Type := string → W → result string * W.
Context (Done : W → option error).

Definition keyVaultGetter_GetSecret (client : string → W → result (option string) * W) : Getter := λ name w,
  match client name w with
  | (Err e, w') => (Err e, w')
  | (Ok None, w') => (Err (ErrorText ("Key Vault secret " +:+ name +:+ " has nil value")), w')
  | (Ok (Some v), w') => (Ok v, w')
  end.

Definition sanitizeSecretError (err : error) : error :=
  match as_response err with
  | Some (status, code) =>
    let statusText := if bool_decide (StatusText status = ""%string) then "unknown status"%string else StatusText status in
    if bool_decide (code = ""%string)
    then ErrorText ("secret read failed: status " +:+ pretty status +:+ " " +:+ statusText)
    else ErrorText ("secret read failed: status " +:+ pretty status +:+ " " +:+ statusText +:+ ": code " +:+ code)
  | None => ErrorText ("secret read failed: " +:+ type_name err)
  end.

Definition getRequiredSecret (getter : Getter) (name : string) (w : W) : result string * W :=
  match getter name w with
  | (Err e, w') =>
    match Done w' with
    | Some ctxErr => (Err ctxErr, w')
    | None => (Err (Wrapped ("load Key Vault secret " +:+ name) (sanitizeSecretError e)), w')
    end
  | (Ok value, w') =>
    let value := TrimSpace value in
    if bool_decide (value = ""%string)
    then (Err (ErrorText ("load Key Vault secret " +:+ name +:+ ": secret value is empty")), w')
    else (Ok value, w')
  end.

(** The configuration after the assignments of resolveKeyVault, [None] where
    the one to the Service Bus string is skipped. *)
Definition with_secrets (c : Config) (hmac : string) (bus : option string) (graph key : string) : Config :=
  mkConfig (SecretsSource c) (KeyVaultURL c) (SecretNames c) (HTTPAddr c) hmac (EntraPrimaryDomain c)
    (EntraFallbackDomain c) (ProblemBaseURL c) (HMACClockSkew c) (NonceTTL c) (PortalAllowedCIDRs c)
    (TrustedProxyCIDRs c) (DirectClientMode c) (RateLimitPerIP c) (RateLimitWindow c) (HookMaxBodyBytes c)
    (ServiceBusAuthMode c) (ServiceBusNamespaceFQDN c) (default (ServiceBusConnectionString c) bus)
    (ServiceBusQueueName c) (ServiceBusDeadLetterQueueName c) (PasswordMessageTTL c) (SyncStatusStore c)
    (RedisHost c) (RedisPort c) (RedisKeyPrefix c) (SyncStatusTerminalTTL c) (AzureClientID c) key
    (PasswordEncryptionKeyID c) (GraphTenantID c) (GraphClientID c) graph (ObservabilityExporter c)
    (OTLPExporterEndpoint c) (AzureMonitorMetricResourceID c) (AzureMonitorMetricRegion c)
    (AzureMonitorMetricNamespace c) (directClientModeErr c) (redisPortErr c) (passwordMessageTTLErr c)
    (syncStatusTerminalTTLErr c).

Definition resolveKeyVault (cfg : Config) (getter : Getter) (w : W) : result Config * W :=
  let names := SecretNames cfg in
  match getRequiredSecret getter (KeyVaultSecretNames.HMACSecret names) w with
  | (Err e, w1) => (Err e, w1)
  | (Ok hmacSecret, w1) =>
    let '(bus, w2) :=
      if bool_decide (ServiceBusAuthMode cfg ≠ ServiceBusAuthManagedIdentity) then
        match getRequiredSecret getter (KeyVaultSecretNames.ServiceBusConnectionString names) w1 with
        | (Err e, w2) => (Err e, w2)
        | (Ok v, w2) => (Ok (Some v), w2)
        end
      else (Ok None, w1) in
    match bus with
    | Err e => (Err e, w2)
    | Ok bus =>
      match getRequiredSecret getter (KeyVaultSecretNames.GraphClientSecret names) w2 with
      | (Err e, w3) => (Err e, w3)
      | (Ok graphClientSecret, w3) =>
        match getRequiredSecret getter (KeyVaultSecretNames.PasswordEncryptionKey names) w3 with
        | (Err e, w4) => (Err e, w4)
        | (Ok passwordEncryptionKey, w4) =>
          (Ok (with_secrets cfg hmacSecret bus graphClientSecret passwordEncryptionKey), w4)
        end
      end
    end
  end.

(** The identity library and the constructor of the vault client. *)
Context {Cred : Type} (NewDefaultAzureCredential : W → result Cred * W).
Context (azsecrets_NewClient : string → Cred → W → result (string → W → result (option string) * W) * W).

Definition NewKeyVaultGetter (vaultURL : string) (w : W) : result Getter * W :=
  match NewDefaultAzureCredential w with
  | (Err e, w1) => (Err (Wrapped "create Azure credential" e), w1)
  | (Ok credential, w1) =>
    match azsecrets_NewClient vaultURL credential w1 with
    | (Err e, w2) => (Err (Wrapped "create Key Vault secrets client" e), w2)
    | (Ok client, w2) => (Ok (keyVaultGetter_GetSecret client), w2)
    end
  end.

Definition Resolve (cfg : Config) (getter : option Getter) (w : W) : result Config * W :=
  match ValidateSecretLoadingInputs cfg with
  | Some e => (Err e, w)
  | None =>
    if bool_decide (SecretsSource cfg = SecretsSourceEnv) then (Ok cfg, w)
    else if bool_decide (SecretsSource cfg = SecretsSourceKeyVault) then
      match getter with
      | Some g => resolveKeyVault cfg g w
      | None =>
        match NewKeyVaultGetter (KeyVaultURL cfg) w with
        | (Err e, w1) => (Err e, w1)
        | (Ok g, w1) => resolveKeyVault cfg g w1
        end
      end
    else (Err (ErrorText "SECRETS_SOURCE must be env or keyvault"), w)
  end.

(** ** Properties *)

(** The vault, asked for [name] in the world [w], answered a value that
    trims to the non-empty [v], and left the world [w']. *)
Definition reads (getter : Getter) (name : string) (w : W) (v : string) (w' : W) : Prop :=
  v ≠ ""%string ∧ ∃ raw, getter name w = (Ok raw, w') ∧ v = TrimSpace raw.

(** The two configurations agree on every field that is not a secret, and on
    the errors Load kept for Validate. *)
Definition same_settings (c d : Config) : Prop :=
  SecretsSource c = SecretsSource d ∧ KeyVaultURL c = KeyVaultURL d ∧ SecretNames c = SecretNames d ∧
  HTTPAddr c = HTTPAddr d ∧ EntraPrimaryDomain c = EntraPrimaryDomain d ∧
  EntraFallbackDomain c = EntraFallbackDomain d ∧ ProblemBaseURL c = ProblemBaseURL d ∧
  HMACClockSkew c = HMACClockSkew d ∧ NonceTTL c = NonceTTL d ∧ PortalAllowedCIDRs c = PortalAllowedCIDRs d ∧
  TrustedProxyCIDRs c = TrustedProxyCIDRs d ∧ DirectClientMode c = DirectClientMode d ∧
  RateLimitPerIP c = RateLimitPerIP d ∧ RateLimitWindow c = RateLimitWindow d ∧
  HookMaxBodyBytes c = HookMaxBodyBytes d ∧ ServiceBusAuthMode c = ServiceBusAuthMode d ∧
  ServiceBusNamespaceFQDN c = ServiceBusNamespaceFQDN d ∧ ServiceBusQueueName c = ServiceBusQueueName d ∧
  ServiceBusDeadLetterQueueName c = ServiceBusDeadLetterQueueName d ∧ PasswordMessageTTL c = PasswordMessageTTL d ∧
  SyncStatusStore c = SyncStatusStore d ∧ RedisHost c = RedisHost d ∧ RedisPort c = RedisPort d ∧
  RedisKeyPrefix c = RedisKeyPrefix d ∧ SyncStatusTerminalTTL c = SyncStatusTerminalTTL d ∧
  AzureClientID c = AzureClientID d ∧ PasswordEncryptionKeyID c = PasswordEncryptionKeyID d ∧
  GraphTenantID c = GraphTenantID d ∧ GraphClientID c = GraphClientID d ∧
  ObservabilityExporter c = ObservabilityExporter d ∧ OTLPExporterEndpoint c = OTLPExporterEndpoint d ∧
  AzureMonitorMetricResourceID c = AzureMonitorMetricResourceID d ∧
  AzureMonitorMetricRegion c = AzureMonitorMetricRegion d ∧
  AzureMonitorMetricNamespace c = AzureMonitorMetricNamespace d ∧ directClientModeErr c = directClientModeErr d ∧
  redisPortErr c = redisPortErr d ∧ passwordMessageTTLErr c = passwordMessageTTLErr d ∧
  syncStatusTerminalTTLErr c = syncStatusTerminalTTLErr d.

Lemma getRequiredSecret_ok getter name w v w' :
  getRequiredSecret getter name w = (Ok v, w') → reads getter name w v w'.
Proof.
  unfold getRequiredSecret. destruct (getter name w) as [[raw|e] w1] eqn:E; [|by case_match].
  case_bool_decide as Hv; [done|]. intros [= <- <-]. split; [done|]. eauto.
Qed.

Lemma reads_not_blank getter name w v w' : reads getter name w v w' → blank v = false.
Proof. intros (Hne&raw&_&->). unfold blank. by rewrite TrimSpace_idem, bool_decide_false. Qed.

(** An error names the secret, a status, a code or a type, and nothing else
    of what the vault reported. *)
Lemma getRequiredSecret_err getter name w e w' : getRequiredSecret getter name w = (Err e, w') →
  Done w' = Some e ∨ e = ErrorText ("load Key Vault secret " +:+ name +:+ ": secret value is empty") ∨
  ∃ detail, e = Wrapped ("load Key Vault secret " +:+ name) (ErrorText ("secret read failed: " +:+ detail)) ∧
    ∃ cause, detail = type_name cause ∨ ∃ status code text, as_response cause = Some (status, code) ∧
      (detail = "status " +:+ pretty status +:+ " " +:+ text ∨ detail = "status " +:+ pretty status +:+ " " +:+ text +:+ ": code " +:+ code)%string.
Proof.
  unfold getRequiredSecret. destruct (getter name w) as [[raw|c] w1]; [case_match; by intros [= <- <-]; auto|].
  destruct (Done w1) eqn:Ed; intros [= <- <-]; [by left|]. right; right. unfold sanitizeSecretError.
  destruct (as_response c) as [[status code]|] eqn:Er.
  - case_bool_decide; eexists; (split; [reflexivity|]); exists c; right; exists status, code; eauto.
  - eexists. split; [reflexivity|]. eauto.
Qed.

End Loader.

Section LoaderWitness.
(** A vault whose values are padded names. *)
Definition toy_getter : Getter (W := nat) := λ name w, (Ok (" " +:+ name +:+ " ")%string, S w).

Definition vault_env (key : string) : string :=
  if bool_decide (key = "SECRETS_SOURCE") then "keyvault"
  else if bool_decide (key = "KEY_VAULT_URL") then "https://vault" else "".

Definition resolved : Config :=
  with_secrets (Load vault_env) "hook-hmac-secret" (Some "servicebus-conn-str") "graph-client-secret" "password-payload-encryption-key".

End LoaderWitness.
