(* ===== verification/Metrics.v ===== *)
(** * Azure Monitor metrics (internal/azuremonitor/metrics.go)

    [MetricRecorder] aggregates the recorder calls into points, one per name
    and allowed labels, with float64 arithmetic, and Flush posts them grouped
    by metric and dimension names.  Go iterates over maps in any order: the
    definitions take the iteration order as a list, and the theorems hold for
    every order.  The token source, the clock and the HTTP client are
    parameters; a request carries the payload, its rendering as JSON text is
    not modelled beyond the values json.Marshal refuses. *)
From stdpp Require Import base gmap strings list sorting pretty.
From Stdlib Require Import ZArith Lia Ascii SpecFloat.
From S2P Require Import Prelude Utf8 GoStrings GoTime Strconv Json GoBase Observability TimeText GraphClient.

Local Open Scope Z_scope.

(** ** sort.Strings *)

Definition string_le (a b : string) : Prop := bytes_ltb (bytes_of_string b) (bytes_of_string a) = false.
#[export] Instance string_le_dec : RelDecision string_le.
Proof. intros a b. unfold string_le. apply _. Defined.

Lemma bytes_ltb_trans a b c : bytes_ltb b a = false → bytes_ltb c b = false → bytes_ltb c a = false.
Proof.
  revert b c. induction a as [|x a IH]; intros [|y b] [|z c]; cbn [bytes_ltb]; try done.
  rewrite !orb_false_iff, !andb_false_iff, !Z.ltb_ge, !Z.eqb_neq. intros [H1 H1'] [H2 H2']. split; [lia|].
  destruct (decide (z = x)) as [->|]; [|by left]. right.
  destruct H1' as [|H1']; [lia|]. destruct H2' as [|H2']; [lia|]. by eapply IH.
Qed.

Lemma bytes_ltb_total a b : bytes_ltb a b = false ∨ bytes_ltb b a = false.
Proof.
  revert b. induction a as [|x a IH]; intros [|y b]; cbn [bytes_ltb]; auto.
  rewrite !orb_false_iff, !andb_false_iff, !Z.ltb_ge, !Z.eqb_neq.
  destruct (Z.lt_trichotomy x y) as [?|[->|?]]; [right; split; [lia|left; lia]| |left; split; [lia|left; lia]].
  destruct (IH b) as [H|H]; [left|right]; (split; [lia|by right]).
Qed.

Lemma bytes_ltb_antisym a b : bytes_ltb a b = false → bytes_ltb b a = false → a = b.
Proof.
  revert b. induction a as [|x a IH]; intros [|y b]; cbn [bytes_ltb]; try done.
  rewrite !orb_false_iff, !andb_false_iff, !Z.ltb_ge, !Z.eqb_neq. intros [H1 H1'] [H2 H2'].
  assert (x = y) as -> by lia. f_equal. apply IH; [by destruct H1'|by destruct H2'].
Qed.

#[export] Instance string_le_trans : Transitive string_le.
Proof. intros a b c. unfold string_le. apply bytes_ltb_trans. Qed.
#[export] Instance string_le_total : Total string_le.
Proof. intros a b. unfold string_le. destruct (bytes_ltb_total (bytes_of_string a) (bytes_of_string b)); auto. Qed.
#[export] Instance string_le_antisym : AntiSymm (=) string_le.
Proof. intros a b H1 H2. apply bytes_of_string_inj. by apply bytes_ltb_antisym. Qed.

Definition sort_strings : list string → list string := merge_sort string_le.

Lemma sort_strings_perm l1 l2 : l1 ≡ₚ l2 → sort_strings l1 = sort_strings l2.
Proof.
  intros H. apply (StronglySorted_unique string_le); try apply StronglySorted_merge_sort; try apply _.
  unfold sort_strings. by rewrite !merge_sort_Permutation.
Qed.

(** ** Labels *)

Definition nul : string := String (ascii_of_nat 0) "".

Definition sortedLabelNames (labels : Labels) : list string := sort_strings (map_to_list labels).*1.

Definition metricKey (name : string) (labels : Labels) : string :=
  Join (name :: concat (map (λ k, [k; default ""%string (labels !! k)]) (sortedLabelNames labels))) nul.

Definition allowed_names : list string :=
  ["attempts"; "eventType"; "identityType"; "kind"; "middleware"; "outcome"; "queue"; "reason"; "status"]%string.

(** The loop of allowedLabels over the entries in iteration order. *)
Fixpoint allow_loop (entries : list (string * string)) (out : Labels) : Labels :=
  match entries with
  | [] => out
  | (key, value) :: entries' =>
    if bool_decide (key ∈ allowed_names) then
      let value := TrimSpace value in
      if bool_decide (value = ""%string) then allow_loop entries' out
      else
        let out := <[key := value]> out in
        if (size out =? 9)%nat then out else allow_loop entries' out
    else allow_loop entries' out
  end.

Definition allowedLabels (labels : Labels) : Labels := allow_loop (map_to_list labels) ∅.

(** ** The recorder *)

Record metricPoint := mkPoint {
  p_name : string;
  p_labels : Labels;
  p_min : float64;
  p_max : float64;
  p_sum : float64;
  p_count : Z
}.

Record MetricRecorderOptions := mkMetricOptions {
  EndpointBaseURL : string;
  ResourceID : string;
  mo_Region : string;
  mo_Namespace : string
}.

(** NewMetricRecorder trims the options and starts without points; a point
    in the map is an observed one. *)
Record MetricRecorder := mkRecorder { m_options : MetricRecorderOptions; points : gmap string metricPoint }.

Definition NewMetricRecorder (o : MetricRecorderOptions) : MetricRecorder :=
  mkRecorder (mkMetricOptions (TrimSpace (EndpointBaseURL o)) (TrimSpace (ResourceID o)) (TrimSpace (mo_Region o))
    (TrimSpace (mo_Namespace o))) ∅.

(** The update of a point with one value. *)
Definition observe (point : metricPoint) (value : float64) : metricPoint :=
  mkPoint (p_name point) (p_labels point)
    (if float_ltb value (p_min point) then value else p_min point)
    (if float_ltb (p_max point) value then value else p_max point)
    (float_add (p_sum point) value) (wrap64 (p_count point + 1)).

Definition metric_add (name : string) (labels : Labels) (value : float64) (r : MetricRecorder) : MetricRecorder :=
  let name := TrimSpace name in
  if bool_decide (name = ""%string) then r
  else
    let labels := allowedLabels labels in
    let key := metricKey name labels in
    let point := default (mkPoint name labels value value (S754_zero false) 0) (points r !! key) in
    mkRecorder (m_options r) (<[key := observe point value]> (points r)).

(** Inc, ObserveDuration and SetGauge. *)
Definition metric_event (r : MetricRecorder) (e : ObsEvent) : MetricRecorder :=
  match e with
  | Inc name labels => metric_add name labels (float_of_int 1) r
  | ObserveDuration name d labels => metric_add name labels (Seconds d) r
  | SetGauge name v labels => metric_add name labels (float_of_int v) r
  | LogAttrs _ _ => r
  end.

(** ** Payloads *)

Record azureMonitorSeries := mkSeries {
  DimValues : list string;
  s_Min : float64;
  s_Max : float64;
  s_Sum : float64;
  s_Count : Z
}.

Record azureMonitorPayload := mkPayload {
  pl_Time : string;
  Metric : string;
  pl_Namespace : string;
  DimNames : list string;
  Series : list azureMonitorSeries
}.

Definition point_series (dimNames : list string) (point : metricPoint) : azureMonitorSeries :=
  mkSeries (map (λ n, default ""%string (p_labels point !! n)) dimNames) (p_min point) (p_max point) (p_sum point) (p_count point).

(** The payload of a group at a time; [None] is the index panic of an empty
    group. *)
Definition make_payload (namespace : string) (now : Time) (group : list metricPoint) : option azureMonitorPayload :=
  match group with
  | [] => None
  | p0 :: _ =>
    let dimNames := sortedLabelNames (p_labels p0) in
    Some (mkPayload (date_time_string (UTC now) +:+ "Z") (p_name p0) namespace dimNames (map (point_series dimNames) group))
  end.

Definition group_key (point : metricPoint) : string :=
  (p_name point +:+ nul +:+ Join (sortedLabelNames (p_labels point)) nul)%string.

(** groups[key] = append(groups[key], point). *)
Definition add_to_group (groups : gmap string (list metricPoint)) (point : metricPoint) : gmap string (list metricPoint) :=
  <[group_key point := default [] (groups !! group_key point) ++ [point]]> groups.

Definition group_points (ps : list metricPoint) : gmap string (list metricPoint) := foldl add_to_group ∅ ps.

Definition point_key (p : metricPoint) : string := metricKey (p_name p) (p_labels p).
Definition point_le (p q : metricPoint) : Prop := string_le (point_key p) (point_key q).
#[export] Instance point_le_dec : RelDecision point_le.
Proof. intros p q. unfold point_le. apply _. Defined.

(** The groups in the order of their keys, each sorted by metric key. *)
Definition sorted_groups (ps : list metricPoint) : list (list metricPoint) :=
  let groups := group_points ps in
  map (λ key, merge_sort point_le (default [] (groups !! key))) (sort_strings (map_to_list groups).*1).

Section Flush.
Context {W : Type}.
Context (Now : W → Time * W).
Context (Token : option (W → result string * W)).
(** POST of a payload to an endpoint with a token: the response status. *)
Context (Do : string → string → azureMonitorPayload → W → result Z * W).
Context (request_error : string → option error).

Fixpoint build_payloads (namespace : string) (groups : list (list metricPoint)) (w : W) : option (list azureMonitorPayload) * W :=
  match groups with
  | [] => (Some [], w)
  | g :: groups' =>
    let '(now, w1) := Now w in
    let '(rest, w2) := build_payloads namespace groups' w1 in
    (match make_payload namespace now g, rest with Some p, Some ps => Some (p :: ps) | _, _ => None end, w2)
  end.

Definition azureMonitorPayloads (r : MetricRecorder) (ps : list metricPoint) (w : W) : option (list azureMonitorPayload) * W :=
  build_payloads (mo_Namespace (m_options r)) (sorted_groups ps) w.

(** url.PathEscape. *)
Definition PathEscape (s : string) : string := string_of_bytes (concat (map path_escape_byte (bytes_of_string s))).

Definition endpoint (r : MetricRecorder) : string :=
  (TrimRight (EndpointBaseURL (m_options r)) "/"%char +:+ "/" +:+ PathEscape (ResourceID (m_options r)) +:+ "/metrics")%string.

(** Values json.Marshal encodes. *)
Definition marshals (p : azureMonitorPayload) : bool :=
  forallb (λ s, float_finite (s_Min s) && float_finite (s_Max s) && float_finite (s_Sum s)) (Series p).

Definition postPayload (r : MetricRecorder) (token : string) (p : azureMonitorPayload) (w : W) : option error * W :=
  if negb (marshals p) then (Some (Wrapped "marshal azure monitor metrics" (ErrorText "json: unsupported value")), w)
  else
    match request_error (endpoint r) with
    | Some e => (Some e, w)
    | None =>
      match Do (endpoint r) token p w with
      | (Err e, w') => (Some (Wrapped "send azure monitor metrics" e), w')
      | (Ok status, w') =>
        if (status <? 200) || (300 <=? status)
        then (Some (ErrorText ("send azure monitor metrics: status " +:+ pretty status)), w')
        else (None, w')
      end
    end.

Fixpoint post_all (r : MetricRecorder) (token : string) (ps : list azureMonitorPayload) (w : W) : option error * W :=
  match ps with
  | [] => (None, w)
  | p :: ps' =>
    match postPayload r token p w with
    | (Some e, w') => (Some e, w')
    | (None, w') => post_all r token ps' w'
    end
  end.

(** The section under the lock: the points, in the order of the iteration,
    and a recorder without them. *)
Definition take_points (r : MetricRecorder) : list metricPoint * MetricRecorder :=
  ((map_to_list (points r)).*2, mkRecorder (m_options r) ∅).

(** The rest of Flush, for the points taken. *)
Definition send_points (r : MetricRecorder) (ps : list metricPoint) (w : W) : outcome (option error) * W :=
  if (length ps =? 0)%nat then (Ret None, w)
  else
    match Token with
    | None => (Ret (Some (ErrorText "azure monitor token source is required")), w)
    | Some get =>
      match get w with
      | (Err e, w1) => (Ret (Some (Wrapped "get azure monitor token" e)), w1)
      | (Ok token, w1) =>
        match azureMonitorPayloads r ps w1 with
        | (None, w2) => (Panic "index out of range", w2)
        | (Some payloads, w2) => let '(e, w3) := post_all r token payloads w2 in (Ret e, w3)
        end
      end
    end.

Definition Flush (r : MetricRecorder) (w : W) : outcome (option error) * MetricRecorder * W :=
  let '(ps, r') := take_points r in
  let '(o, w') := send_points r' ps w in (o, r', w').
End Flush.

(** credentialTokenSource.Token. *)
Definition credential_Token {W} (credential : option (string → W → result string * W)) (scope : string) (w : W) : result string * W :=
  match credential with
  | None => (Err (ErrorText "azure credential is required"), w)
  | Some get => get (TrimSpace scope) w
  end.

(** ** Lemmas: labels *)

Definition allowed_entry (e : string * string) : option (string * string) :=
  if bool_decide (e.1 ∈ allowed_names ∧ TrimSpace e.2 ≠ ""%string) then Some (e.1, TrimSpace e.2) else None.

(** Nine allowed names present are all of them. *)
Lemma nine_allowed (out : Labels) k : (∀ k, k ∈ dom out → k ∈ allowed_names) → size out = 9%nat →
  k ∈ allowed_names → k ∈ dom out.
Proof.
  intros Hsub Hsize Hk. destruct (decide (k ∈ dom out)) as [|Hno]; [done|]. exfalso.
  assert (dom out ∪ {[k]} ⊆ list_to_set (C := gset string) allowed_names) as Hle.
  { intros x [Hx| ->%elem_of_singleton]%elem_of_union; apply elem_of_list_to_set; auto. }
  apply subseteq_size in Hle. rewrite size_union, size_singleton, size_dom, Hsize in Hle by (by apply disjoint_singleton_r).
  vm_compute in Hle. lia.
Qed.

Lemma allow_loop_spec l : ∀ out, NoDup l.*1 → (∀ k, k ∈ dom out → k ∈ allowed_names ∧ k ∉ l.*1) →
  allow_loop l out = list_to_map (omap allowed_entry l) ∪ out.
Proof.
  induction l as [|[k v] l IH]; intros out Hnd Hout; cbn [allow_loop omap list_omap].
  { cbn [list_to_map foldr]. by rewrite map_empty_union. }
  cbn in Hnd. apply NoDup_cons in Hnd as [Hk Hnd].
  assert (∀ k', k' ∈ dom out → k' ∈ allowed_names ∧ k' ∉ l.*1) as Hout'.
  { intros k' Hk'. destruct (Hout k' Hk') as [? Hn]. split; [done|]. by apply not_elem_of_cons in Hn as [_ ?]. }
  assert (k ∉ dom out) as Hko by (intros Hin; destruct (Hout k Hin) as [_ Hn]; apply Hn; by left).
  unfold allowed_entry at 1. cbn [fst snd]. case_bool_decide as Ha.
  2:{ rewrite bool_decide_false by tauto. by apply IH. }
  case_bool_decide as Hv; [rewrite bool_decide_false by tauto; by apply IH|]. rewrite bool_decide_true by done.
  assert (list_to_map ((k, TrimSpace v) :: omap allowed_entry l) ∪ out
    = list_to_map (omap allowed_entry l) ∪ <[k:=TrimSpace v]> out) as ->.
  { cbn [list_to_map foldr]. rewrite <- insert_union_l. apply insert_union_r.
    apply not_elem_of_list_to_map_1. intros Hin. apply Hk. apply list_elem_of_fmap in Hin as ([k' v']&->&Hin).
    apply list_elem_of_omap in Hin as ([k0 v0]&Hin&He). unfold allowed_entry in He. case_bool_decide; [|done].
    injection He as -> _. by apply (list_elem_of_fmap_2 fst _ _ Hin). }
  assert (∀ k', k' ∈ dom (<[k:=TrimSpace v]> out) → k' ∈ allowed_names ∧ k' ∉ l.*1) as Hout1.
  { intros k'. rewrite dom_insert_L. intros [->%elem_of_singleton|?]%elem_of_union; [done|by apply Hout']. }
  destruct (Nat.eqb_spec (size (<[k:=TrimSpace v]> out)) 9) as [H9|_].
  - assert (omap allowed_entry l = []) as ->; [|cbn [list_to_map foldr]; by rewrite map_empty_union].
    assert (∀ l', (∀ e, e ∈ l' → allowed_entry e = None) → omap allowed_entry l' = []) as Hnil.
    { clear. induction l' as [|e l' IH]; intros H; [done|]. cbn. rewrite (H e) by by left. apply IH. intros. apply H. by right. }
    apply Hnil. intros [k' v'] Hin. unfold allowed_entry. rewrite bool_decide_false; [done|]. intros [Hk' _]. cbn in Hk'.
    destruct (Hout1 k') as [_ Hn]; [apply nine_allowed; [by intros ? ?; apply Hout1|done..]|]. apply Hn. by apply (list_elem_of_fmap_2 fst _ _ Hin).
  - by apply IH.
Qed.

(** Iterating in another order gives the same labels. *)
Lemma allowedLabels_order (labels : Labels) l : l ≡ₚ map_to_list labels → allow_loop l ∅ = allowedLabels labels.
Proof.
  intros Hp. unfold allowedLabels. pose proof (NoDup_fst_map_to_list labels) as Hnd.
  rewrite !allow_loop_spec; [|done|set_solver|by rewrite Hp|set_solver]. f_equal.
  apply list_to_map_proper; [|by rewrite Hp].
  assert (∀ l : list (string * string), NoDup l.*1 → NoDup (omap allowed_entry l).*1) as Ho; [|apply Ho; by rewrite Hp].
  clear. induction l as [|[k v] l IH]; intros Hnd; [constructor|]. cbn in Hnd. apply NoDup_cons in Hnd as [Hk Hnd].
  cbn. unfold allowed_entry at 1. case_bool_decide; [|by apply IH]. cbn. apply NoDup_cons. split; [|by apply IH].
  intros Hin. apply Hk. apply list_elem_of_fmap in Hin as ([k' v']&->&Hin).
  apply list_elem_of_omap in Hin as ([k0 v0]&Hin&He). unfold allowed_entry in He. case_bool_decide; [|done].
  injection He as -> _. by apply (list_elem_of_fmap_2 fst _ _ Hin).
Qed.

(** Labels as the recorder keeps them. *)
Definition labels_ok (labels : Labels) : Prop :=
  ∀ k v, labels !! k = Some v → k ∈ allowed_names ∧ v = TrimSpace v ∧ v ≠ ""%string.

Lemma allowedLabels_ok labels : labels_ok (allowedLabels labels).
Proof.
  intros k v. unfold allowedLabels. rewrite allow_loop_spec, map_union_empty;
    [|apply NoDup_fst_map_to_list|set_solver].
  intros H. apply elem_of_list_to_map_2, list_elem_of_omap in H as ([k0 v0]&_&He). unfold allowed_entry in He.
  case_bool_decide as Ha; [|done]. injection He as -> <-. cbn in Ha. rewrite TrimSpace_idem. tauto.
Qed.

Lemma sortedLabelNames_allowed labels : labels_ok labels → Forall (λ n, n ∈ allowed_names) (sortedLabelNames labels).
Proof.
  intros H. apply Forall_forall. intros n Hn. unfold sortedLabelNames, sort_strings in Hn.
  rewrite merge_sort_Permutation in Hn. apply list_elem_of_fmap in Hn as ([k v]&->&Hin).
  apply elem_of_map_to_list in Hin. by apply H in Hin as [? _].
Qed.

(** ** Lemmas: groups *)

Lemma group_points_lookup ps k : group_points ps !! k =
  match filter (λ p, group_key p = k) ps with [] => None | g => Some g end.
Proof.
  unfold group_points. induction ps as [|p ps IH] using rev_ind; [done|].
  rewrite foldl_snoc, filter_app. unfold add_to_group at 1.
  destruct (decide (group_key p = k)) as [<-|Hne].
  - rewrite lookup_insert_eq, IH, filter_cons_True, filter_nil by done.
    destruct (filter _ ps) as [|q g]; done.
  - rewrite lookup_insert_ne, IH, filter_cons_False, filter_nil by done. by rewrite app_nil_r.
Qed.

Lemma group_points_keys ps1 ps2 : ps1 ≡ₚ ps2 →
  (map_to_list (group_points ps1)).*1 ≡ₚ (map_to_list (group_points ps2)).*1.
Proof.
  intros Hp. apply NoDup_Permutation; [apply NoDup_fst_map_to_list..|]. intros k.
  assert (∀ m : gmap string (list metricPoint), k ∈ (map_to_list m).*1 ↔ is_Some (m !! k)) as Hd.
  { intros m. rewrite list_elem_of_fmap. split; [intros ([k' g]&->&Hin); apply elem_of_map_to_list in Hin; eauto|].
    intros [g Hg]. exists (k, g). split; [done|]. by apply elem_of_map_to_list. }
  rewrite !Hd, !group_points_lookup.
  pose proof (filter_Permutation (λ p, group_key p = k) _ _ Hp) as Hf.
  destruct (filter _ ps1), (filter _ ps2); [done|by apply Permutation_nil_cons in Hf|by symmetry in Hf; apply Permutation_nil_cons in Hf|].
  split; eauto.
Qed.

Lemma sort_points_perm ps1 ps2 : ps1 ≡ₚ ps2 → NoDup (point_key <$> ps1) → merge_sort point_le ps1 = merge_sort point_le ps2.
Proof.
  intros Hp Hnd. assert (Transitive point_le) as Ht by (intros a b c; unfold point_le; apply string_le_trans).
  assert (Total point_le) as Hto by (intros a b; unfold point_le; apply string_le_total).
  apply (StronglySorted_unique_strong point_le); [|by apply StronglySorted_merge_sort..|by rewrite !merge_sort_Permutation].
  intros p q Hin1 Hin2 H1 H2. rewrite merge_sort_Permutation in Hin1, Hin2. rewrite <- Hp in Hin2.
  assert (point_key p = point_key q) as Hk by by apply (anti_symm string_le).
  apply list_elem_of_lookup in Hin1 as [i Hi], Hin2 as [j Hj].
  assert (i = j) as ->; [|congruence].
  apply (NoDup_lookup _ _ _ (point_key p) Hnd); rewrite list_lookup_fmap; [by rewrite Hi|by rewrite Hj, Hk].
Qed.

Lemma sorted_groups_perm ps1 ps2 : ps1 ≡ₚ ps2 → NoDup (point_key <$> ps1) → sorted_groups ps1 = sorted_groups ps2.
Proof.
  intros Hp Hnd. unfold sorted_groups. rewrite (sort_strings_perm _ _ (group_points_keys _ _ Hp)).
  apply map_ext. intros k. rewrite !group_points_lookup.
  pose proof (filter_Permutation (λ p, group_key p = k) _ _ Hp) as Hf.
  assert (NoDup (point_key <$> filter (λ p, group_key p = k) ps1)) as Hndf.
  { eapply sublist_NoDup; [exact Hnd|]. apply fmap_sublist, sublist_filter. }
  pose proof (sort_points_perm _ _ Hf Hndf) as Hs.
  destruct (filter _ ps1), (filter _ ps2); done.
Qed.

(** The sorted groups hold every point once. *)
Lemma concat_groups (ks : list string) : ∀ ps, NoDup ks → (∀ p, p ∈ ps → group_key p ∈ ks) →
  concat (map (λ k, filter (λ p, group_key p = k) ps) ks) ≡ₚ ps.
Proof.
  induction ks as [|k ks IH]; intros ps Hnd Hin.
  - destruct ps as [|p ps]; [done|]. specialize (Hin p ltac:(by left)). by apply not_elem_of_nil in Hin.
  - apply NoDup_cons in Hnd as [Hk Hnd]. cbn [map concat].
    transitivity (filter (λ p, group_key p = k) ps ++ filter (λ p, ¬ group_key p = k) ps); [|apply filter_app_complement].
    apply Permutation_app_head.
    rewrite <- (IH (filter (λ p, ¬ group_key p = k) ps) Hnd).
    + apply eq_subrelation; [apply _|]. f_equal. apply map_ext_in. intros k' Hk'%list_elem_of_In. rewrite list_filter_filter.
      apply list_filter_iff. intros p. split; [|by intros []]. intros <-. split; [done|]. intros He. apply Hk. by rewrite <- He.
    + intros p Hp. apply list_elem_of_filter in Hp as [Hne Hp]. apply Hin, elem_of_cons in Hp as [Hp|Hp]; [|done]. by apply Hne in Hp.
Qed.

Lemma sorted_groups_all ps : concat (sorted_groups ps) ≡ₚ ps ∧ Forall (λ g, g ≠ []) (sorted_groups ps).
Proof.
  set (keys := sort_strings (map_to_list (group_points ps)).*1).
  assert (∀ k, k ∈ keys ↔ is_Some (group_points ps !! k)) as Hkeys.
  { intros k. unfold keys, sort_strings. rewrite merge_sort_Permutation, list_elem_of_fmap. split.
    - intros ([k' g]&->&Hin). apply elem_of_map_to_list in Hin. eauto.
    - intros [g Hg]. exists (k, g). split; [done|]. by apply elem_of_map_to_list. }
  assert (∀ k, default [] (group_points ps !! k) = filter (λ p, group_key p = k) ps) as Hdef.
  { intros k. rewrite group_points_lookup. by destruct (filter _ ps). }
  split.
  - rewrite <- (concat_groups keys ps) at 2.
    + unfold sorted_groups. fold keys. clear Hkeys. induction keys as [|k ks IH]; [done|]. cbn [map concat].
      by rewrite IH, merge_sort_Permutation, Hdef.
    + unfold keys, sort_strings. rewrite merge_sort_Permutation. apply NoDup_fst_map_to_list.
    + intros p Hp. apply Hkeys. rewrite group_points_lookup.
      assert (p ∈ filter (λ q, group_key q = group_key p) ps) as Hf by by apply list_elem_of_filter.
      destruct (filter _ ps); [by apply not_elem_of_nil in Hf|eauto].
  - apply Forall_map, Forall_forall. intros k Hk. apply Hkeys in Hk as [g Hg].
    rewrite group_points_lookup in Hg. cbn. rewrite Hdef. destruct (filter _ ps) as [|p l]; [done|].
    intros He. apply (Permutation_nil_cons (l := l) (x := p)). rewrite <- He. by rewrite merge_sort_Permutation.
Qed.

(** ** Lemmas: points *)

Definition sumZ (l : list Z) : Z := foldr Z.add 0 l.

Lemma sumZ_perm l1 l2 : l1 ≡ₚ l2 → sumZ l1 = sumZ l2.
Proof. unfold sumZ. induction 1; cbn; lia. Qed.

Lemma sumZ_app l1 l2 : sumZ (l1 ++ l2) = sumZ l1 + sumZ l2.
Proof. unfold sumZ. induction l1; cbn; lia. Qed.

Definition values (r : MetricRecorder) : list metricPoint := (map_to_list (points r)).*2.

(** The recorder's state after [n] accepted values. *)
Record recorder_ok (n : Z) (r : MetricRecorder) : Prop := {
  ok_key k p : points r !! k = Some p → k = point_key p ∧ labels_ok (p_labels p) ∧ 0 <= p_count p ∧ TrimSpace (p_name p) = p_name p;
  ok_total : sumZ (p_count <$> values r) = n
}.

Definition is_metric (e : ObsEvent) : bool :=
  match e with
  | Inc name _ | ObserveDuration name _ _ | SetGauge name _ _ => negb (bool_decide (TrimSpace name = ""%string))
  | LogAttrs _ _ => false
  end.

Lemma sumZ_nonneg l : Forall (λ z, 0 <= z) l → 0 <= sumZ l.
Proof. unfold sumZ. induction 1; cbn; lia. Qed.

(** The values of the map with one point split off. *)
Lemma values_delete r k p : points r !! k = Some p →
  values r ≡ₚ p :: (map_to_list (delete k (points r))).*2.
Proof. intros H. unfold values. rewrite <- (map_to_list_delete _ _ _ H). done. Qed.

Lemma metric_add_ok n name labels v r : recorder_ok n r → n + 1 < 2 ^ 63 →
  recorder_ok (if bool_decide (TrimSpace name = ""%string) then n else n + 1) (metric_add name labels v r).
Proof.
  intros [Hk Ht] Hn. unfold metric_add. case_bool_decide as He; [done|].
  set (ls := allowedLabels labels). set (key := metricKey (TrimSpace name) ls).
  set (p := default _ (points r !! key)).
  assert (key = point_key p ∧ labels_ok (p_labels p) ∧ 0 <= p_count p ∧ TrimSpace (p_name p) = p_name p) as (Hpk&Hpl&Hpc&Hpn).
  { subst p. destruct (points r !! key) as [q|] eqn:Eq; [by apply Hk|]. cbn. split_and!; [done|apply allowedLabels_ok|done|apply TrimSpace_idem]. }
  set (rest := (map_to_list (delete key (points r))).*2).
  assert (0 <= sumZ (p_count <$> rest)) as Hrest.
  { apply sumZ_nonneg, Forall_forall. intros z Hz. apply list_elem_of_fmap in Hz as (q&->&Hq).
    apply list_elem_of_fmap in Hq as ([k' q']&->&Hin). apply elem_of_map_to_list, lookup_delete_Some in Hin as [_ Hin].
    by apply Hk in Hin as (_&_&?&_). }
  assert (p_count p + sumZ (p_count <$> rest) = n) as Hsum.
  { rewrite <- Ht. subst p rest. destruct (points r !! key) as [q|] eqn:Eq.
    - rewrite (sumZ_perm _ _ (fmap_Permutation p_count _ _ (values_delete _ _ _ Eq))). done.
    - rewrite delete_id by done. done. }
  assert (p_count (observe p v) = p_count p + 1) as Hc.
  { cbn [observe p_count]. apply wrap64_id. unfold int64_ok, minDuration, maxDuration. lia. }
  split; cbn [points].
  - intros k q. destruct (decide (k = key)) as [->|Hne]; [|rewrite lookup_insert_ne by done; apply Hk].
    rewrite lookup_insert_eq. intros [= <-]. rewrite Hc. split_and!; try done; lia.
  - unfold values. cbn [points]. rewrite <- insert_delete_eq.
    rewrite (sumZ_perm _ _ (fmap_Permutation p_count _ _ (fmap_Permutation snd _ _ (map_to_list_insert _ _ _ (lookup_delete_eq _ _))))).
    change (p_count (observe p v) + sumZ (p_count <$> rest) = n + 1). rewrite Hc. lia.
Qed.

Lemma NewMetricRecorder_ok o : recorder_ok 0 (NewMetricRecorder o).
Proof. split; [|done]. intros k p H. cbn [NewMetricRecorder points] in H. by apply lookup_empty_Some in H. Qed.

Lemma metric_log_ok log : ∀ n r, recorder_ok n r → 0 <= n → n + Z.of_nat (length log) < 2 ^ 63 →
  recorder_ok (n + Z.of_nat (length (filter (λ e, is_metric e = true) log))) (foldl metric_event r log).
Proof.
  induction log as [|e log IH]; intros n r Hr Hn Hlen; [cbn; by rewrite Z.add_0_r|].
  cbn [length] in Hlen. cbn [foldl].
  assert (recorder_ok (if is_metric e then n + 1 else n) (metric_event r e)) as Hr1.
  { destruct e as [name l|name d l|name v l|m a]; cbn [is_metric metric_event]; [| | |done];
      rewrite if_negb; apply metric_add_ok; (done || lia). }
  destruct (is_metric e) eqn:Ee.
  - rewrite filter_cons_True by done. cbn [length]. specialize (IH _ _ Hr1 ltac:(lia) ltac:(lia)).
    by replace (n + Z.of_nat (S (length (filter (λ e, is_metric e = true) log))))
      with (n + 1 + Z.of_nat (length (filter (λ e, is_metric e = true) log))) by lia.
  - rewrite filter_cons_False by (by rewrite Ee). apply IH; [done|lia|lia].
Qed.

(** The points of a recorder have distinct keys. *)
Lemma values_nodup n r : recorder_ok n r → NoDup (point_key <$> values r).
Proof.
  intros [Hk _]. assert (point_key <$> values r = (map_to_list (points r)).*1) as ->; [|apply NoDup_fst_map_to_list].
  unfold values. rewrite <- list_fmap_compose. apply list_fmap_ext. intros i [k p] Hi. cbn.
  apply list_elem_of_lookup_2, elem_of_map_to_list in Hi. by apply Hk in Hi as [-> _].
Qed.

(** ** Properties *)

Section MetricProperties.
Context {W : Type} (Now : W → Time * W).

(** The payloads do not depend on the order of the iteration over the map. *)
Lemma flush_order (o : MetricRecorderOptions) (log : list ObsEvent) (ps : list metricPoint) (w : W) :
  Z.of_nat (length log) < 2 ^ 63 →
  let r := foldl metric_event (NewMetricRecorder o) log in
  ps ≡ₚ (take_points r).1 →
  azureMonitorPayloads Now r ps w = azureMonitorPayloads Now r (take_points r).1 w.
Proof.
  intros Hlen r Hps. pose proof (metric_log_ok log 0 _ (NewMetricRecorder_ok o) ltac:(lia) ltac:(lia)) as Hr.
  unfold azureMonitorPayloads. f_equal. symmetry. apply sorted_groups_perm; [by symmetry|]. by eapply values_nodup.
Qed.

Lemma build_payloads_spec ns groups : ∀ w, Forall (λ g, g ≠ []) groups → ∃ payloads w',
  build_payloads Now ns groups w = (Some payloads, w') ∧
  Forall2 (λ g p, ∃ now, make_payload ns now g = Some p) groups payloads.
Proof.
  induction groups as [|g groups IH]; intros w H; cbn [build_payloads]; [eauto|].
  apply Forall_cons in H as [Hg H]. destruct (Now w) as [now w1]. destruct (IH w1 H) as (ps&w2&->&Hps).
  destruct (make_payload ns now g) as [p|] eqn:E; [|by destruct g].
  do 2 eexists. split; [reflexivity|]. constructor; eauto.
Qed.

Definition payload_counts (p : azureMonitorPayload) : list Z := s_Count <$> Series p.

(** C30 Nothing recorded is lost or doubled, and no label outside the
    allow-list leaves the service: for any log of recorder calls, the payloads
    a flush builds carry counts that add up to the number of metric calls with
    a name, whatever the iteration order, and every dimension name of every
    payload is an allowed one.  Building them never panics, and the payloads
    are the same for every order in which Go happens to iterate over the
    points. *)
Theorem flush_reports_every_call (o : MetricRecorderOptions) (log : list ObsEvent) (ps : list metricPoint) (w : W) :
  Z.of_nat (length log) < 2 ^ 63 →
  let r := foldl metric_event (NewMetricRecorder o) log in
  ps ≡ₚ (take_points r).1 →
  ∃ payloads w', azureMonitorPayloads Now r ps w = (Some payloads, w') ∧
    sumZ (concat (payload_counts <$> payloads)) = Z.of_nat (length (filter (λ e, is_metric e = true) log)) ∧
    Forall (λ p, Forall (λ n, n ∈ allowed_names) (DimNames p)) payloads ∧
    azureMonitorPayloads Now r (take_points r).1 w = (Some payloads, w').
Proof.
  intros Hlen r Hps. pose proof (flush_order o log ps w Hlen Hps) as Hord. fold r in Hord. pose proof (metric_log_ok log 0 _ (NewMetricRecorder_ok o) ltac:(lia) ltac:(lia)) as Hr.
  fold r in Hr. destruct (sorted_groups_all ps) as [Hall Hne].
  destruct (build_payloads_spec (mo_Namespace (m_options r)) (sorted_groups ps) w Hne) as (payloads&w'&Hb&Hf).
  exists payloads, w'. split; [done|]. destruct Hr as [Hk Ht]. split_and!; [..|by rewrite <- Hord].
  - rewrite Z.add_0_l in Ht. rewrite <- Ht. change (values r) with (take_points r).1.
    rewrite (sumZ_perm _ _ (fmap_Permutation p_count _ _ (Permutation_sym Hps))).
    rewrite (sumZ_perm _ _ (fmap_Permutation p_count _ _ (Permutation_sym Hall))).
    clear -Hf. induction Hf as [|g p gs ps' (now&Hp) _ IH]; [done|]. cbn [concat fmap list_fmap]. fold (payload_counts <$> ps').
    rewrite fmap_app, !sumZ_app, IH. f_equal. unfold payload_counts. destruct g as [|p0 g]; [done|].
    injection Hp as <-. cbn [Series]. f_equal.
    symmetry. apply (list_fmap_compose (point_series (sortedLabelNames (p_labels p0))) s_Count (p0 :: g)).
  - assert (∀ p, p ∈ concat (sorted_groups ps) → labels_ok (p_labels p)) as Hlab.
    { intros p Hp. rewrite Hall, Hps in Hp. apply list_elem_of_fmap in Hp as ([k q]&->&Hin).
      apply elem_of_map_to_list, Hk in Hin. tauto. }
    clear -Hf Hlab. induction Hf as [|g p gs ps' (now&Hp) _ IH]; constructor.
    + destruct g as [|p0 g]; [done|]. injection Hp as <-. cbn [DimNames]. apply sortedLabelNames_allowed, Hlab. by left.
    + apply IH. intros q Hq. apply Hlab. cbn. apply elem_of_app. by right.
Qed.
End MetricProperties.

(** A flush returns, and changes only what the clock, the token source and
    the transport change. *)
Section FlushFrame.
Context {W A : Type} (Now : W → Time * W) (Token : option (W → result string * W)).
Context (Do : string → string → azureMonitorPayload → W → result Z * W) (request_error : string → option error).
Context (view : W → A) (Hnow : ∀ w, view (Now w).2 = view w).
Context (Htoken : ∀ get, Token = Some get → ∀ w, view (get w).2 = view w).
Context (Hdo : ∀ url token p w, view (Do url token p w).2 = view w).

Lemma build_payloads_frame ns groups : ∀ w, view (build_payloads Now ns groups w).2 = view w.
Proof.
  induction groups as [|g groups IH]; intros w; cbn [build_payloads]; [done|].
  pose proof (Hnow w) as H. destruct (Now w) as [now w1]. specialize (IH w1).
  destruct (build_payloads Now ns groups w1) as [rest w2]. cbn in *. congruence.
Qed.

Lemma post_all_frame r token ps : ∀ w, view (post_all Do request_error r token ps w).2 = view w.
Proof.
  induction ps as [|p ps IH]; intros w; cbn [post_all]; [done|].
  assert (view (postPayload Do request_error r token p w).2 = view w) as H.
  { unfold postPayload. case_match; [done|]. case_match; [done|]. pose proof (Hdo (endpoint r) token p w) as Hd.
    destruct (Do _ token p w) as [[status|e] w1]; [|done]. by case_match. }
  destruct (postPayload Do request_error r token p w) as [[e|] w1]; [done|]. cbn in H. by rewrite IH.
Qed.

Lemma Flush_frame r w : ∃ e r' w', Flush Now Token Do request_error r w = (Ret e, r', w') ∧ view w' = view w.
Proof.
  unfold Flush, take_points, send_points. destruct (length _ =? 0)%nat; [by do 3 eexists|].
  destruct Token as [get|]; [|by do 3 eexists]. specialize (Htoken get eq_refl w).
  destruct (get w) as [[token|e] w1]; [|by do 3 eexists]. cbn in Htoken. unfold azureMonitorPayloads. cbn [m_options].
  destruct (build_payloads_spec Now (mo_Namespace (m_options r)) _ w1 (proj2 (sorted_groups_all (map_to_list (points r)).*2))) as (payloads&w2&Hb&_).
  pose proof (build_payloads_frame (mo_Namespace (m_options r)) (sorted_groups (map_to_list (points r)).*2) w1) as Hf.
  rewrite Hb in Hf |- *. cbn in Hf.
  match goal with |- context [post_all ?d ?q ?r0 token payloads w2] =>
    pose proof (post_all_frame r0 token payloads w2) as Hp; destruct (post_all d q r0 token payloads w2) as [e w3] end.
  do 3 eexists. split; [reflexivity|]. cbn in Hp. congruence.
Qed.
End FlushFrame.

Section MetricWitnesses.
Definition sample_options : MetricRecorderOptions := mkMetricOptions " https://r.monitoring.azure.com/ " "/sub/a" "r" "ns".

Definition sample_log : list ObsEvent :=
  [Inc "hook_requests_total" {[ "outcome"%string := " ok "%string; "upn"%string := "a@x"%string ]};
   ObserveDuration "graph_upsert_duration_seconds" (1500 * Millisecond) ∅;
   Inc "hook_requests_total" {[ "outcome"%string := "ok"%string ]};
   LogAttrs "x" []; Inc " " ∅; SetGauge "queue_depth" 7 {[ "queue"%string := "main"%string ]}]%string.

Definition sample_recorder : MetricRecorder := foldl metric_event (NewMetricRecorder sample_options) sample_log.
Definition fixed_now (w : nat) : Time * nat := (Unix 1752624000, S w).

(** The payloads, with the metric, its dimensions and per series the values and the count. *)
Example sample_payloads :
  match azureMonitorPayloads fixed_now sample_recorder (reverse (take_points sample_recorder).1) 0%nat with
  | (Some ps, _) => map (λ p, (Metric p, DimNames p, map (λ s, (DimValues s, s_Count s)) (Series p))) ps
  | _ => []
  end = [("graph_upsert_duration_seconds", [], [([], 1)]);
         ("hook_requests_total", ["outcome"], [(["ok"], 2)]);
         ("queue_depth", ["queue"], [(["main"], 1)])]%string ∧
  endpoint sample_recorder = "https://r.monitoring.azure.com/%2Fsub%2Fa/metrics"%string ∧
  float_ltb (float_of_int 1) (Seconds (1500 * Millisecond)) = true.
Proof. vm_compute. done. Qed.

Lemma flush_reports_every_call_witness :
  ∃ payloads w', azureMonitorPayloads fixed_now sample_recorder (reverse (take_points sample_recorder).1) 0%nat = (Some payloads, w') ∧
    sumZ (concat (payload_counts <$> payloads)) = Z.of_nat (length (filter (λ e, is_metric e = true) sample_log)) ∧
    Forall (λ p, Forall (λ n, n ∈ allowed_names) (DimNames p)) payloads ∧
    azureMonitorPayloads fixed_now sample_recorder (take_points sample_recorder).1 0%nat = (Some payloads, w').
Proof.
  apply (flush_reports_every_call fixed_now sample_options sample_log (reverse (take_points sample_recorder).1) 0%nat).
  - reflexivity.
  - apply reverse_Permutation.
Defined.
End MetricWitnesses.
