(* ===== verification/Server.v ===== *)
(** * The HTTP surface (internal/httpserver, internal/buildinfo, app.go)

    Routing of the service's three patterns by Go's ServeMux, the health and
    version handlers, and the middleware chain that newWithQueueWithRecorder
    builds around the hook: request id, access log, recovery, rate limit,
    signature check, hook.  A request is routed by its escaped path, as the
    mux routes it; the redirect to a cleaned path is a parameter. *)
From stdpp Require Import base gmap strings list pretty.
From Stdlib Require Import ZArith Lia Ascii.
From S2P Require Import Prelude Utf8 GoStrings NetIP GoTime Strconv GoBase Observability GoState SensitiveIO Http Hmac RateLimit.
From S2P Require Import PasswordCrypto SyncStatus Identity MigrationService Hook RedisStore Config SecretLoader.
Import MemoryNonce.

Local Open Scope Z_scope.

(** ** Paths *)

(** The elements of a rooted path as path.Clean keeps them. *)
Definition clean_step (acc : list string) (seg : string) : list string :=
  if bool_decide (seg = "" ∨ seg = ".")%string then acc
  else if bool_decide (seg = ".."%string) then (match acc with [] => [] | _ :: acc' => acc' end)
  else seg :: acc.

Definition rooted (p : string) : string :=
  match p with
  | EmptyString => "/"
  | String c _ => if Ascii.eqb c "/" then p else ("/" +:+ p)%string
  end.

(** path.Clean of a rooted path. *)
Definition path_Clean (p : string) : string :=
  ("/" +:+ Join (rev (foldl clean_step [] (Split p "/"%char))) "/")%string.

(** net/http's cleanPath: path.Clean, with a trailing slash kept. *)
Definition cleanPath (p : string) : string :=
  let p := rooted p in
  let np := path_Clean p in
  if HasSuffix p "/" && negb (bool_decide (np = "/"%string)) then (np +:+ "/")%string else np.

(** pathUnescape: the decoded text, or the text itself when it is malformed. *)
Fixpoint unescape (s : bytes) : option bytes :=
  match s with
  | [] => Some []
  | 37 :: rest =>
    match rest with
    | a :: b :: s' =>
      match hex_nibble a, hex_nibble b, unescape s' with
      | Some x, Some y, Some t => Some (16 * x + y :: t)
      | _, _, _ => None
      end
    | _ => None
    end
  | c :: s' => match unescape s' with Some t => Some (c :: t) | None => None end
  end.

Definition pathUnescape (s : string) : string :=
  match unescape (bytes_of_string s) with Some b => string_of_bytes b | None => s end.

(** The segments the routing tree compares; a final slash is a segment. *)
Definition segments (path : string) : list string :=
  match Split path "/"%char with
  | _ :: segs =>
    match rev segs with
    | EmptyString :: front => map pathUnescape (rev front) ++ ["/"%string]
    | _ => map pathUnescape segs
    end
  | [] => []
  end.

(** ** Routes *)

Inductive route := RHealth | RVersion | RHook | RRedirect (path : string) | RMethodNotAllowed (allow : string) | RNotFound.

Definition patterns (hook : bool) : list (string * list string * route) :=
  [("GET", ["healthz"], RHealth); ("GET", ["version"], RVersion)]%string
  ++ (if hook then [("POST", ["api"; "v1"; "hook"; "password"], RHook)]%string else []).

(** A GET pattern serves HEAD requests too. *)
Definition method_matches (pattern method : string) : bool :=
  bool_decide (pattern = method) || (bool_decide (pattern = "GET"%string) && bool_decide (method = "HEAD"%string)).

Definition match_route (hook : bool) (method : string) (segs : list string) : option route :=
  match filter (λ p : string * list string * route, p.1.2 = segs ∧ method_matches p.1.1 method = true) (patterns hook) with
  | (_, _, h) :: _ => Some h
  | [] => None
  end.

(** The methods of the patterns with that path, sorted. *)
Definition allowed_methods (hook : bool) (segs : list string) : list string :=
  concat (map (λ p : string * list string * route,
    if bool_decide (p.1.2 = segs) then (if bool_decide (p.1.1 = "GET"%string) then ["GET"; "HEAD"]%string else [p.1.1]) else [])
    (patterns hook)).

(** ServeMux.findHandler. *)
Definition find_handler (hook : bool) (method escapedPath : string) : route :=
  let path := if bool_decide (method = "CONNECT"%string) then escapedPath else cleanPath escapedPath in
  let found := match_route hook method (segments path) in
  if bool_decide (path ≠ escapedPath) then RRedirect path
  else
    match found with
    | Some h => h
    | None =>
      match allowed_methods hook (segments path) with
      | [] => RNotFound
      | ms => RMethodNotAllowed (Join ms ", ")
      end
    end.

(** ** Handlers *)

Record Info := mkInfo { Version : string; Commit : string; BuildTime : string }.
Definition Current : Info := mkInfo "dev" "unknown" "unknown".

Definition newline : string := String (ascii_of_nat 10) "".

(** A line of json.Encoder for a flat object of strings. *)
Definition encode_line (members : list (string * string)) : string :=
  ("{" +:+ Join (map (λ m, json_member m.1 (json_string m.2)) members) "," +:+ "}" +:+ newline)%string.

Section Server.
Context {W R : Type}.

Definition health_handler : Handler W R := λ _,
  SetHeader "Content-Type" "application/json" ;;
  WriteBody (encode_line [("status", "ok")]%string).

Definition version_handler (info : Info) : Handler W R := λ _,
  SetHeader "Content-Type" "application/json" ;;
  WriteBody (encode_line [("version", Version info); ("commit", Commit info); ("buildTime", BuildTime info)]%string).

(** http.Error. *)
Definition http_Error (text : string) (code : Z) : M (St W) unit :=
  SetHeader "Content-Type" "text/plain; charset=utf-8" ;;
  SetHeader "X-Content-Type-Options" "nosniff" ;;
  WriteHeader code ;;
  WriteBody (text +:+ newline).

Context (redirect : string → Handler W R) (escaped : HttpRequest R → string).

(** NewMux and ServeHTTP. *)
Definition serve (routes : option (Handler W R)) (info : Info) : Handler W R := λ r,
  match find_handler (match routes with Some _ => true | None => false end) (Method r) (escaped r) with
  | RHealth => health_handler r
  | RVersion => version_handler info r
  | RHook => match routes with Some h => h r | None => mret tt end
  | RRedirect path => redirect path r
  | RMethodNotAllowed allow => SetHeader "Allow" allow ;; http_Error (StatusText 405) 405
  | RNotFound => http_Error "404 page not found" 404
  end.
End Server.

(** ** The chain around the hook *)

Section Chain.
Context {W R : Type} (clock : W → Time * W) (get_counts : W → gmap string rateWindow) (set_counts : gmap string rateWindow → W → W).
Context (rand : nat → W → option bytes * W) (read : Reader R) (fuel : nat).

Definition hook_chain (base : string) (m : HMAC W) (l : RateLimiter) (hook : Handler W bytes) : Handler W R :=
  requestid_Middleware rand (AccessLog clock (Recovery base
    (rate_Wrap l clock get_counts set_counts (Wrap m clock read fuel hook)))).

(** The limiter's configuration, from the service's. *)
Definition rate_config (c : Config) : RateLimitConfig :=
  mkRateLimitConfig (PortalAllowedCIDRs c) (TrustedProxyCIDRs c) (RateLimitPerIP c) (RateLimitWindow c) (ProblemBaseURL c).

(** newWithQueueWithRecorder, up to the server: the handler of the hook
    route, or the error of a constructor.  The nonce store and the limiter's
    counts are parts of the world, which the constructors start afresh. *)
Context {U : UnicodeTables} (get_nonces : W → MemoryNonceStore) (set_nonces : MemoryNonceStore → W → W).

Definition new_hook_handler (c : Config) (q : option (Queue W)) (enc : option (PasswordEncrypter W)) (store : option (SyncStore W))
    (w : W) : outcome (result (Handler W R)) * W :=
  match enc with
  | None => (Ret (Err (ErrorText "password encrypter is required")), w)
  | Some _ =>
    match NewService (EntraPrimaryDomain c) q enc clock [mkServiceOptions store (PasswordMessageTTL c)] with
    | Panic v => (Panic v, w)
    | Ret service =>
      let hook := NewHookWithOptions service (ProblemBaseURL c) in
      let '(ns, w1) := new_memory_nonces clock get_nonces set_nonces (NonceTTL c) w in
      match NewHMACWithOptions (HMACSecret c) (Some ns) (HMACClockSkew c) (ProblemBaseURL c) (HookMaxBodyBytes c) with
      | Err e => (Ret (Err e), w1)
      | Ok m =>
        (Ret (Ok (hook_chain (ProblemBaseURL c) m (NewRateLimiter (rate_config c)) (Hook.ServeHTTP hook BytesReader fuel))),
         set_counts ∅ w1)
      end
    end
  end.
End Chain.

(** ** Lemmas *)

Section ChainLemmas.
Context {W R : Type} (clock : W → Time * W) (get_counts : W → gmap string rateWindow) (set_counts : gmap string rateWindow → W → W).
Context (read : Reader R) (fuel : nat).
Implicit Types (r : HttpRequest R) (st : St W).

(** The state in which the access log runs the handlers inside it: the clock
    read once, and no status recorded. *)
Definition logged_entry st : St W :=
  set_resp (mkResponse (r_status (resp st)) (r_header (resp st)) (r_body (resp st)) 0) (set_world (clock (world st)).2 st).

(** A returning handler under the access log: one more log line, with the
    status the inner handlers recorded. *)
Lemma AccessLog_run (next : Handler W R) r st st1 : next r (logged_entry st) = (Ret tt, st1) →
  ∃ ms w1, AccessLog clock next r st = (Ret tt, mkSt (mem st1)
    (obs st1 ++ [LogAttrs "request"
      [("traceId", VString (requestid_From (req_ctx r))); ("method", VString (Method r)); ("path", VString (Path r));
       ("status", VInt (if r_recorded (resp st1) =? 0 then 200 else r_recorded (resp st1))%Z); ("durationMs", VInt ms)]%string])
    (resp st1) w1).
Proof.
  unfold logged_entry. destruct (clock (world st)) as [t0 w0] eqn:E. cbn [snd]. intros Hn. unfold AccessLog.
  rewrite (bind_ret _ _ st t0 (set_world w0 st)) by (unfold call; by rewrite E).
  set (st0 := set_resp _ (set_world w0 st)) in *. rewrite (bind_ret _ _ _ tt st0) by done. rewrite (bind_ret _ _ _ _ _ Hn).
  rewrite (bind_ret _ _ _ st1 st1) by done. destruct (clock (world st1)) as [t1 w1] eqn:E1.
  rewrite (bind_ret _ _ _ t1 (set_world w1 st1)) by (unfold call; by rewrite E1).
  do 2 eexists. unfold emit, modify. cbn. reflexivity.
Qed.

(** The log depends on the handler only through its run. *)
Lemma AccessLog_congr (next next' : Handler W R) r st :
  next r (logged_entry st) = next' r (logged_entry st) → AccessLog clock next r st = AccessLog clock next' r st.
Proof.
  unfold logged_entry. destruct (clock (world st)) as [t0 w0] eqn:E. intros H.
  unfold AccessLog, mbind, M_bind, call, modify. rewrite E. cbn in *. by rewrite H.
Qed.

(** The request id middleware: an id and a header, then the inner handler. *)
Lemma requestid_run (rand : nat → W → option bytes * W) r st : ∃ id st1, r_status (resp st1) = r_status (resp st) ∧ obs st1 = obs st ∧
  ∀ next : Handler W R, requestid_Middleware rand next r st = next (with_context r (mkContext (Some id) (ctx_err (req_ctx r)))) st1.
Proof.
  unfold requestid_Middleware. set (id0 := TrimSpace _).
  set (get_id := if bool_decide (id0 = ""%string) then requestid_New rand else mret id0).
  assert (∃ id st0, get_id st = (Ret id, st0) ∧ resp st0 = resp st ∧ obs st0 = obs st) as (id&st0&Hid&Hresp&Hobs).
  { subst get_id. case_bool_decide; [|by eexists _, st]. unfold requestid_New.
    destruct (rand 16%nat (world st)) as [b w] eqn:E.
    exists (match b with Some b => hex_encode b | None => "unknown"%string end), (set_world w st).
    split; [|done]. rewrite (bind_ret _ _ st b (set_world w st)) by (unfold call; by rewrite E). done. }
  destruct (SetHeader "X-Request-Id" id st0) as [[[]|v] st1] eqn:Eh; [|by unfold SetHeader, modify in Eh].
  exists id, st1. split_and!.
  - unfold SetHeader, modify in Eh. injection Eh as <-. by case_match; cbn; rewrite Hresp.
  - unfold SetHeader, modify in Eh. injection Eh as <-. by case_match; cbn.
  - intros next. rewrite (bind_ret _ _ _ _ _ Hid). by rewrite (bind_ret _ _ _ _ _ Eh).
Qed.

(** The limiter and the signature check together. *)
Definition gated (m : HMAC W) (l : RateLimiter) (hook : Handler W bytes) : Handler W R :=
  rate_Wrap l clock get_counts set_counts (Wrap m clock read fuel hook).

(** The request is let through from a state on: its source is allowed, the
    rate window has room for it at the time of the call, and its body [raw],
    read into [body] without an error and within the limit, authenticates;
    [st'] is the state the hook then starts in. *)
Definition admitted (m : HMAC W) (l : RateLimiter) r st (body : Slice) (raw : bytes) (st' : St W) : Prop :=
  let ip := resolvedClientIP (resolveSourceIP l r) in
  let '(now, w1) := clock (world st) in
  containsIP (allowedCIDRs l) ip = true ∧
  ∃ counts rest st1,
    allow l (rateKey ip) now (get_counts w1) = (true, counts) ∧
    ReadAll fuel (LimitReader read) (wrap64 (maxBodyBytes m + 1), Body r) (set_world (set_counts counts w1) st)
      = (Ret (body, None, rest), st1) ∧
    raw = slice_bytes (mem st1) body ∧ Z.of_nat (length raw) <= maxBodyBytes m ∧
    authenticate m clock r raw st1 = (Ret None, st').

Lemma gated_spec `{!ReaderLaws read} (m : HMAC W) cfg hook r st :
  (∀ p s q n s', read p s = ((q, n, None), s') → p ≠ [] → (0 < n)%nat) →
  0 <= maxBodyBytes m < maxDuration → (Z.to_nat (maxBodyBytes m) + 1 < fuel)%nat → r_status (resp st) = 0 →
  let l := NewRateLimiter cfg in
  (∃ body raw st', admitted m l r st body raw st' ∧
     gated m l hook r st = defer_ (ZeroBytes (Some body)) (hook (with_body r raw)) st') ∨
  (∀ body raw st', ¬ admitted m l r st body raw st') ∧
  ∃ o st', (∀ hook', gated m l hook' r st = (o, st')) ∧
    match o with
    | Ret _ => r_status (resp st') = 401 ∨ r_status (resp st') = 413 ∨ r_status (resp st') = 429
    | Panic _ => r_status (resp st') = 0
    end.
Proof.
  intros Hprog Hmax Hfuel H0 l. unfold gated, admitted.
  set (ip := resolvedClientIP (resolveSourceIP l r)).
  pose proof (λ hook', rate_gate cfg clock get_counts set_counts (Wrap m clock read fuel hook') r st H0) as H.
  cbn zeta in H. fold l in H. fold ip in H. destruct (clock (world st)) as [now w1] eqn:Ek.
  destruct (containsIP (allowedCIDRs l) ip) eqn:Ec.
  2:{ destruct (H hook) as (st'&Hout&Hst&_). right. split; [by intros ? ? ? []|].
      exists (Ret tt), st'. split; [|auto]. intros hook'. rewrite <- Hout. unfold rate_Wrap. fold ip.
      unfold sourceAllowed. by rewrite Ec, andb_false_r. }
  destruct (allow l (rateKey ip) now (get_counts w1)) as [ok counts] eqn:Ea.
  set (st1 := set_world (set_counts counts w1) st) in *. destruct ok.
  - destruct (Wrap_spec m clock read hook r st1 fuel Hprog Hmax Hfuel H0) as (body&err&rest&raw&st2&o&st'&Hw&Hrd&Hraw&_&_&_&Hcase).
    destruct Hcase as [(->&Hlen&st3&Hauth&Hrun)|(Hindep&Href&Hno)].
    + left. exists body, raw, st3. split; [|destruct (H hook) as [_ ->]; by rewrite Hw]. split; [done|]. by exists counts, rest, st2.
    + right. split.
      { intros body' raw' st'' (_&counts'&rest'&st1'&Ha'&Hr'&->&Hlen'&Hauth'). apply Hno. injection Ha' as <-. fold st1 in Hr'.
        rewrite Hrd in Hr'. injection Hr' as <- <- <- <-. subst raw. eauto. }
      exists o, st'. split; [intros hook'; destruct (H hook') as [_ ->]; apply Hindep|].
      unfold refused in Href. destruct o; [tauto|done].
  - right. split; [by intros ? ? ? (_&?&?&?&?&_)|]. unfold rate_Wrap in *. fold ip.
    assert (sourceAllowed l ip = true) as Hs by (unfold sourceAllowed; rewrite Ec; by destruct (allowedCIDRs l)).
    destruct (H hook) as [_ (st'&Hout&Hst&_)]. exists (Ret tt), st'. split; [|auto]. intros hook'. rewrite <- Hout.
    fold ip. rewrite Hs. cbn [negb].
    assert (allow_request l clock get_counts set_counts (rateKey ip) st = (Ret false, st1)) as Hreq
      by (unfold allow_request, call; by rewrite Ek, Ea).
    by rewrite !(bind_ret _ _ _ _ _ Hreq).
Qed.

Lemma Recovery_run base (next : Handler W R) r st : ∃ st', Recovery base next r st = (Ret tt, st') ∧
  match next r st with
  | (Ret _, st1) => st' = st1
  | (Panic _, st1) => r_status (resp st1) = 0 → r_status (resp st') = 500
  end.
Proof.
  pose proof (recovery_contains_panics base next r st) as H. destruct (next r st) as [[[]|v] st1]; [eauto|].
  destruct H as (st2&Hr&_&_&_&H500). exists st2. split; [done|]. intros H0. by destruct (H500 H0) as [? _].
Qed.

End ChainLemmas.

Lemma match_route_hook method segs : match_route true method segs = Some RHook ↔
  method = "POST"%string ∧ segs = ["api"; "v1"; "hook"; "password"]%string.
Proof.
  unfold match_route, patterns. cbn [app]. rewrite !filter_cons, filter_nil. cbn [fst snd].
  assert (method_matches "POST" method = true ↔ method = "POST"%string) as Hm.
  { unfold method_matches. rewrite orb_true_iff, andb_true_iff, !bool_decide_eq_true. split; [|auto]. intros [?|[? _]]; done. }
  repeat case_decide; rewrite ?Hm in *; split; intros Heq; try done; destruct_and?; simplify_eq; try done; tauto.
Qed.

(** ** Properties *)

Section ServerProperties.
Context {W R : Type} (clock : W → Time * W) (get_counts : W → gmap string rateWindow) (set_counts : gmap string rateWindow → W → W).
Context (rand : nat → W → option bytes * W) (read : Reader R) `{!ReaderLaws read} (fuel : nat).

(** C3 The whole chain in front of the hook.  Every request gets an answer:
    no panic of any handler escapes, and the last log line is the access-log
    line of the request.  With the request [r'] and the state [st1] that the
    request id middleware hands on, the hook is run exactly when the request is
    admitted in the state the access log enters the gate with: its source
    address is inside an allowed network, the rate window of that address has
    room at the time of the call, and its body, read whole and within the
    limit, authenticates.  The hook then gets exactly that body, in the state
    the checks leave, and its run decides the answer.  A request that is not
    admitted is answered the same whatever the hook is, with status 401, 413
    or 429, or 500 when the nonce store panicked. *)
Theorem request_gate base (m : HMAC W) (cfg : RateLimitConfig) (hook : Handler W bytes) (r : HttpRequest R) (st : St W) :
  (∀ p s q n s', read p s = ((q, n, None), s') → p ≠ [] → (0 < n)%nat) →
  0 <= maxBodyBytes m < maxDuration → (Z.to_nat (maxBodyBytes m) + 1 < fuel)%nat → r_status (resp st) = 0 →
  let l := NewRateLimiter cfg in
  let chain := hook_chain clock get_counts set_counts rand read fuel base m l in
  ∃ id st1 st', let r' := with_context r (mkContext (Some id) (ctx_err (req_ctx r))) in
    let admits := admitted clock get_counts set_counts read fuel m l r' (logged_entry clock st1) in
    (∀ next, requestid_Middleware rand next r st = next r' st1) ∧
    chain hook r st = (Ret tt, st') ∧
    (∃ before attrs, obs st' = before ++ [LogAttrs "request" attrs]) ∧
    ((∃ body raw st2, admits body raw st2 ∧
        chain hook r st = AccessLog clock (Recovery base
          (λ _ _, defer_ (ZeroBytes (Some body)) (hook (with_body r' raw)) st2)) r' st1) ∨
     (∀ body raw st2, ¬ admits body raw st2) ∧
     (∀ hook', chain hook' r st = (Ret tt, st')) ∧ r_status (resp st') ∈ [401; 413; 429; 500]).
Proof.
  intros Hprog Hmax Hfuel H0 l chain. destruct (requestid_run rand r st) as (id&st1&Hst&_&Hid).
  set (r' := with_context r (mkContext (Some id) (ctx_err (req_ctx r)))) in *.
  set (G := gated clock get_counts set_counts read fuel m l). set (st2 := logged_entry clock st1).
  assert (∀ h, chain h r st = AccessLog clock (Recovery base (G h)) r' st1) as Hchain by (intros h; apply Hid).
  destruct (Recovery_run base (G hook) r' st2) as (st3&Hrec&Hcase).
  destruct (AccessLog_run clock _ r' st1 st3 Hrec) as (ms&w1&Hacc). eexists id, st1, _. cbn zeta. fold r' st2.
  split; [done|]. split; [by rewrite Hchain|]. split; [cbn; eauto|].
  destruct (gated_spec clock get_counts set_counts read fuel m cfg hook r' st2 Hprog Hmax Hfuel) as [(body&raw&st4&Had&Hrun)|(Hno&o&st4&Hindep&Hans)].
  { cbn. congruence. }
  { left. exists body, raw, st4. split; [done|]. rewrite Hchain. apply AccessLog_congr. fold st2.
    unfold Recovery, recover_. cbn beta. unfold G. fold l in Hrun. by rewrite Hrun. }
  right. fold l in Hindep. change (gated clock get_counts set_counts read fuel m l) with G in Hindep.
  assert (∀ h, Recovery base (G h) r' st2 = (Ret tt, st3)) as Hsame.
  { intros h. rewrite <- Hrec. unfold Recovery, recover_. cbn beta. by rewrite (Hindep h), (Hindep hook). }
  split_and!; [done|..].
  - intros h. rewrite Hchain, <- Hacc. apply AccessLog_congr. fold st2. by rewrite !Hsame.
  - cbn [resp]. rewrite (Hindep hook) in Hcase. rewrite !elem_of_cons.
    destruct o as [[]|v]; [subst st3; destruct Hans as [-> |[-> | ->]]; tauto|]. rewrite (Hcase Hans). tauto.
Qed.

(** C35 Routing: the hook handler is reached only by POST requests whose path
    decodes segment by segment to the hook's and needs no cleaning, and by all
    of those; every other request is answered by the mux without it, whatever
    handler is installed. *)
Theorem hook_route_iff (redirect : string → Handler W R) (escaped : HttpRequest R → string) (info : Info) (r : HttpRequest R) :
  if bool_decide (Method r = "POST"%string ∧ cleanPath (escaped r) = escaped r ∧
                  segments (escaped r) = ["api"; "v1"; "hook"; "password"]%string)
  then ∀ hook, serve redirect escaped (Some hook) info r = hook r
  else ∀ hook hook', serve redirect escaped (Some hook) info r = serve redirect escaped (Some hook') info r.
Proof.
  unfold serve. case_bool_decide as H.
  - destruct H as (Hm&Hc&Hs). intros hook. unfold find_handler. rewrite (bool_decide_false (Method r = "CONNECT"%string)) by congruence.
    rewrite Hc, bool_decide_false by auto. by rewrite (proj2 (match_route_hook _ _)).
  - intros hook hook'. destruct (find_handler true (Method r) (escaped r)) eqn:E; try done. exfalso. apply H.
    unfold find_handler in E. destruct (bool_decide (Method r = "CONNECT"%string)) eqn:Ec.
    { apply bool_decide_eq_true in Ec. rewrite bool_decide_false in E by auto.
      destruct (match_route _ _ _) eqn:Em; [|by case_match]. subst. apply match_route_hook in Em as [Hm _]. congruence. }
    case_bool_decide as Hc; [done|]. rewrite Hc in E.
    destruct (match_route _ _ _) eqn:Em; [|by case_match]. subst. apply match_route_hook in Em as [? ?]. done.
Qed.
End ServerProperties.

Section Wiring.
Context {U : UnicodeTables} {W R : Type} (clock : W → Time * W).
Context (get_counts : W → gmap string rateWindow) (set_counts : gmap string rateWindow → W → W).
Context (rand : nat → W → option bytes * W) (read : Reader R) (fuel : nat).
Context (get_nonces : W → MemoryNonceStore) (set_nonces : MemoryNonceStore → W → W).

(** C14 A configuration that passes ValidateHTTP is in force as written: the
    hook handler is built, with the configured body limit, clock skew, nonce
    lifetime, rate and window (none replaced by a constructor's default), on a
    new nonce store that keeps nonces for the configured lifetime and new,
    empty rate counts; and a peer inside the portal's networks is attributed
    to its own address whatever forwarded headers it sends, since no trusted
    proxy network contains it. *)
Theorem validated_config_in_force (c : Config) q enc store w :
  ValidateHTTP c = None →
  let l := NewRateLimiter (rate_config c) in
  ∃ m service,
    NewService (EntraPrimaryDomain c) q (Some enc) clock [mkServiceOptions store (PasswordMessageTTL c)] = Ret service ∧
    new_hook_handler clock get_counts set_counts rand read fuel get_nonces set_nonces c q (Some enc) store w
      = (Ret (Ok (hook_chain clock get_counts set_counts rand read fuel (ProblemBaseURL c) m l
          (Hook.ServeHTTP (NewHookWithOptions service (ProblemBaseURL c)) BytesReader fuel))),
         set_counts ∅ (set_nonces (mkMemoryNonceStore (NonceTTL c) ∅) w)) ∧
    secret m = bytes_of_string (HMACSecret c) ∧ maxBodyBytes m = HookMaxBodyBytes c ∧ skew m = HMACClockSkew c ∧
    nonces m = Some (memory_nonces clock get_nonces set_nonces (NonceTTL c)) ∧ hm_nonceTTL m = NonceTTL c ∧
    limitPerIP l = RateLimitPerIP c ∧ window l = RateLimitWindow c ∧
    ∀ (r : HttpRequest R) peer, parseIPWithOptionalPort (RemoteAddr r) = Some peer →
      containsIP (allowedCIDRs l) peer = true →
      resolvedClientIP (resolveSourceIP l r) = peer ∧ peerTrusted (resolveSourceIP l r) = false.
Proof.
  intros Hv l. apply ValidateHTTP_parts in Hv as (_&_&_&Hov&Hsec&Hskew&Httl&_&_&Hrate&Hwin&Hmax).
  unfold new_hook_handler, NewService, new_memory_nonces, NewHMACWithOptions, NewMemoryNonceStore, TTL, nonceTTL.
  cbn [ttl store_TTL memory_nonces]. unfold blank in Hsec. rewrite Hsec, (proj2 (Z.leb_gt _ _) Httl).
  rewrite (proj2 (Z.leb_gt _ _) Hskew), (proj2 (Z.ltb_ge _ _) (Z.lt_le_incl _ _ Hmax)).
  rewrite (proj2 (Z.eqb_neq (HookMaxBodyBytes c) 0)), (proj2 (Z.ltb_lt _ _) Httl) by lia.
  do 2 eexists. split; [reflexivity|]. split; [reflexivity|]. cbn [secret maxBodyBytes skew nonces hm_nonceTTL].
  split_and!; try done.
  - subst l. cbn. by rewrite (proj2 (Z.leb_gt _ _) Hrate).
  - subst l. cbn. by rewrite (proj2 (Z.leb_gt _ _) Hwin).
  - intros r peer Hp Ha. apply direct_peer_not_spoofable; [done|]. apply not_true_iff_false. intros Ht.
    pose proof (overlap_check_complete _ _ peer Hov Ht) as Hno. unfold l in Ha. cbn [allowedCIDRs NewRateLimiter] in Ha.
    cbn [AllowedCIDRs rate_config] in Ha. congruence.
Qed.
End Wiring.

(** ** Witnesses *)

Section ServerWitnesses.
#[local] Existing Instance Latin1Tables.

(** The world of the witnesses: the limiter's counts and the nonce store. *)
Definition SW : Type := gmap string rateWindow * MemoryNonceStore.
Definition sw_clock (w : SW) : Time * SW := (Unix 1752624000, w).
Definition sw_set_counts (counts : gmap string rateWindow) (w : SW) : SW := (counts, w.2).
Definition sw_set_nonces (s : MemoryNonceStore) (w : SW) : SW := (w.1, s).
Definition sw_nonces : Duration → NonceStore SW := memory_nonces sw_clock snd sw_set_nonces.
Definition sw_start : SW := (∅, NewMemoryNonceStore Minute).
Definition sw_rand (n : nat) (w : SW) : option bytes * SW := (Some (replicate n 171), w).
Definition sw_encrypter : PasswordEncrypter SW := mkEncrypter (λ _ _ _ w, (Ret (Err ErrEOF), w)).

Definition portal_request : HttpRequest bytes :=
  mkHttpRequest "POST" "/api/v1/hook/password" "140.113.1.2:5555" {[ "X-Forwarded-For"%string := ["140.113.9.9"%string] ]} [123; 125]
    (mkContext None None).

Lemma validated_config_in_force_witness :
  let l := NewRateLimiter (rate_config sample_config) in
  ∃ m service,
    NewService (EntraPrimaryDomain sample_config) None (Some sw_encrypter) sw_clock
      [mkServiceOptions None (PasswordMessageTTL sample_config)] = Ret service ∧
    new_hook_handler sw_clock fst sw_set_counts sw_rand BytesReader 100000 snd sw_set_nonces sample_config None (Some sw_encrypter) None sw_start
      = (Ret (Ok (hook_chain sw_clock fst sw_set_counts sw_rand BytesReader 100000 (ProblemBaseURL sample_config) m l
          (Hook.ServeHTTP (NewHookWithOptions service (ProblemBaseURL sample_config)) BytesReader 100000))),
         sw_set_counts ∅ (sw_set_nonces (mkMemoryNonceStore (NonceTTL sample_config) ∅) sw_start)) ∧
    secret m = bytes_of_string (HMACSecret sample_config) ∧ maxBodyBytes m = HookMaxBodyBytes sample_config ∧
    skew m = HMACClockSkew sample_config ∧
    nonces m = Some (memory_nonces sw_clock snd sw_set_nonces (NonceTTL sample_config)) ∧ hm_nonceTTL m = NonceTTL sample_config ∧
    limitPerIP l = RateLimitPerIP sample_config ∧ window l = RateLimitWindow sample_config ∧
    ∀ (r : HttpRequest bytes) peer, parseIPWithOptionalPort (RemoteAddr r) = Some peer →
      containsIP (allowedCIDRs l) peer = true →
      resolvedClientIP (resolveSourceIP l r) = peer ∧ peerTrusted (resolveSourceIP l r) = false.
Proof.
  apply (validated_config_in_force (R := bytes) sw_clock fst sw_set_counts sw_rand BytesReader 100000 snd sw_set_nonces
    sample_config None sw_encrypter None sw_start).
  vm_compute. reflexivity.
Defined.

Definition sw_hmac : HMAC SW := mkHMAC (bytes_of_string "k") (Some (sw_nonces Minute)) (30 * Second) Minute "https://p" 100.
Definition sw_accept : Handler SW bytes := λ _, WriteHeader 202.
Definition sw_state : St SW := mkSt [] [] NewResponse sw_start.

(** A request of a portal host, signed or not. *)
Definition sw_body : bytes := bytes_of_string "{}".
Definition signed_portal (sig : bool) : HttpRequest bytes :=
  mkHttpRequest "POST" "/api/v1/hook/password" "140.113.1.2:5555"
    {[ "X-Hook-Timestamp"%string := ["1752624000"%string]; "X-Hook-Nonce"%string := ["n1"%string];
       "X-Hook-Signature"%string :=
         [if sig then ("sha256=" +:+ hex_encode (Sha256.hmac_sha256 (bytes_of_string "k") (mac_input "1752624000" "n1" sw_body)))%string
          else "sha256=00"%string] ]} sw_body (mkContext None None).

Definition sw_chain : Handler SW bytes → Handler SW bytes :=
  hook_chain sw_clock fst sw_set_counts sw_rand BytesReader 200 "https://p" sw_hmac (NewRateLimiter (rate_config sample_config)).

Example signed_and_unsigned :
  r_status (resp (sw_chain sw_accept (signed_portal true) sw_state).2) = 202 ∧
  r_status (resp (sw_chain sw_accept (signed_portal false) sw_state).2) = 401.
Proof. vm_compute. done. Qed.

(** The second copy of a signed request is a replay; the portal's window is
    full after its limit of requests. *)
Example replayed_and_limited :
  let again r st := (sw_chain sw_accept r (mkSt [] [] NewResponse (world st))).2 in
  let st1 := again (signed_portal true) sw_state in
  r_status (resp (again (signed_portal true) st1)) = 401 ∧
  r_status (resp (again (signed_portal true) (Nat.iter 499 (again portal_request) st1))) = 429.
Proof. vm_compute. done. Qed.

Lemma request_gate_witness :
  let l := NewRateLimiter (rate_config sample_config) in
  ∃ id st1 st', let r' := with_context (signed_portal true) (mkContext (Some id) (ctx_err (req_ctx (signed_portal true)))) in
    let admits := admitted sw_clock fst sw_set_counts BytesReader 200 sw_hmac l r' (logged_entry sw_clock st1) in
    (∀ next, requestid_Middleware sw_rand next (signed_portal true) sw_state = next r' st1) ∧
    sw_chain sw_accept (signed_portal true) sw_state = (Ret tt, st') ∧
    (∃ before attrs, obs st' = before ++ [LogAttrs "request" attrs]) ∧
    ((∃ body raw st2, admits body raw st2 ∧
        sw_chain sw_accept (signed_portal true) sw_state = AccessLog sw_clock (Recovery "https://p"
          (λ _ _, defer_ (ZeroBytes (Some body)) (sw_accept (with_body r' raw)) st2)) r' st1) ∨
     (∀ body raw st2, ¬ admits body raw st2) ∧
     (∀ hook', sw_chain hook' (signed_portal true) sw_state = (Ret tt, st')) ∧ r_status (resp st') ∈ [401; 413; 429; 500]).
Proof.
  apply (request_gate sw_clock fst sw_set_counts sw_rand BytesReader 200 "https://p" sw_hmac (rate_config sample_config) sw_accept
    (signed_portal true) sw_state).
  - intros p s q n s' H Hp. exact (proj1 (reader_progress (μ := length) p s q n s' H Hp)).
  - split; vm_compute; [discriminate|reflexivity].
  - apply Nat.ltb_lt. vm_compute. reflexivity.
  - reflexivity.
Defined.

Example routes :
  map (λ p, find_handler true p.1 p.2)
    [("POST", "/api/v1/hook/password"); ("POST", "/api/v1/hook/%70assword"); ("POST", "/api/v1/hook/password/"); ("GET", "/api/v1/hook/password");
     ("HEAD", "/healthz"); ("POST", "/version"); ("GET", "/a/../healthz"); ("GET", "/"); ("POST", "/api/v1/hook%2Fpassword")]%string
  = [RHook; RHook; RNotFound; RMethodNotAllowed "POST"; RHealth; RMethodNotAllowed "GET, HEAD"; RRedirect "/healthz"; RNotFound; RNotFound]%string.
Proof. vm_compute. done. Qed.
End ServerWitnesses.
