(* ===== verification/Resources.v ===== *)
(** * Opening and closing resources (internal/app, internal/servicebusqueue)

    The constructors that open connections, the closers the application keeps
    for them, and what happens when a later step of the wiring fails.  The
    Azure libraries are parameters.  [held] is the set of resources a world
    holds open; the laws of the parameters say which calls open and close
    one, and the theorems say that a failed construction holds nothing more
    than before and that the closers of a successful one release exactly what
    it opened. *)
From stdpp Require Import base gmap strings list.
From Stdlib Require Import ZArith Lia.
From S2P Require Import Prelude Utf8 GoStrings NetIP GoTime Strconv GoBase Observability GoState Http JsonMarshal.
From S2P Require Import PasswordCrypto SyncStatus RedisStore Identity MigrationService Worker ServiceBusQueue Config.

Local Open Scope Z_scope.

(** ** Closers *)

Section Closers.
Context {W : Type}.

(** A context with a deadline of its own, detached from its parent. *)
Definition detached : Context := mkContext None None.

(** The loop of closeAppResources; a nil closer is skipped. *)
Fixpoint close_loop (closers : list (option (closer W))) (errs : list error) (w : W) : outcome (list error) * W :=
  match closers with
  | [] => (Ret errs, w)
  | None :: closers' => close_loop closers' errs w
  | Some c :: closers' =>
    match c detached w with
    | (Panic v, w') => (Panic v, w')
    | (Ret (Some e), w') => close_loop closers' (errs ++ [e]) w'
    | (Ret None, w') => close_loop closers' errs w'
    end
  end.

Definition closeAppResources (closers : list (option (closer W))) (w : W) : outcome (option error) * W :=
  if (length closers =? 0)%nat then (Ret None, w)
  else
    match close_loop closers [] w with
    | (Panic v, w') => (Panic v, w')
    | (Ret errs, w') => (Ret (errors_Join (map Some errs)), w')
    end.

Definition closeAfterWiringError (err : error) (closers : list (option (closer W))) (w : W) : outcome error * W :=
  match closeAppResources closers w with
  | (Panic v, w') => (Panic v, w')
  | (Ret e, w') => (Ret (Joined (omap id [Some err; e])), w')
  end.

(** [return nil, closeAfterWiringError(err, closers)]. *)
Definition fail_wiring {A} (err : error) (closers : list (option (closer W))) (w : W) : outcome (result A) * W :=
  match closeAfterWiringError err closers w with
  | (Panic v, w') => (Panic v, w')
  | (Ret e, w') => (Ret (Err e), w')
  end.

(** closeWithTimeout. *)
Definition closeWithTimeout (c : closer W) (w : W) : outcome (option error) * W := c detached w.
End Closers.

(** ** Service Bus connections *)

Record BusLib (W Cl Cred : Type) := mkBusLib {
  NewClientFromConnectionString : string → W → result Cl * W;
  azservicebus_NewClient : string → Cred → W → result Cl * W;
  NewSender : Cl → string → W → result (sender W) * W;
  NewReceiverForQueue : Cl → string → W → result (serviceBusReceiver W) * W;
  client_Close : Cl → closer W
}.
Arguments NewClientFromConnectionString {W Cl Cred} _ _ _.
Arguments azservicebus_NewClient {W Cl Cred} _ _ _ _.
Arguments NewSender {W Cl Cred} _ _ _ _.
Arguments NewReceiverForQueue {W Cl Cred} _ _ _ _.
Arguments client_Close {W Cl Cred} _ _ _ _.

Section Bus.
Context {W Cl Cred : Type} (lib : BusLib W Cl Cred).

(** The second half of the constructors: a link on a new client, which is
    closed when the link cannot be made. *)
Definition open_link {H A} (what : string) (c : Cl) (link : result H * W) (build : H → result A) : outcome (result A) * W :=
  match link with
  | (Err e, w) =>
    match closeWithTimeout (client_Close lib c) w with
    | (Panic v, w') => (Panic v, w')
    | (Ret e', w') => (Ret (Err (Joined (omap id [Some (Wrapped ("create service bus " +:+ what) e); e']))), w')
    end
  | (Ok h, w) => (Ret (build h), w)
  end.

Definition client_from_string (connectionString : string) (w : W) : result Cl * W :=
  match NewClientFromConnectionString lib connectionString w with
  | (Err e, w') => (Err (Wrapped "create service bus client" e), w')
  | (Ok c, w') => (Ok c, w')
  end.

Definition newClientFromNamespace (namespaceFQDN : string) (credential : option Cred) (w : W) : result Cl * W :=
  if bool_decide (TrimSpace namespaceFQDN = ""%string) then (Err (ErrorText "service bus namespace FQDN is required"), w)
  else
    match credential with
    | None => (Err (ErrorText "service bus token credential is required"), w)
    | Some cred =>
      match azservicebus_NewClient lib (TrimSpace namespaceFQDN) cred w with
      | (Err e, w') => (Err (Wrapped "create service bus client" e), w')
      | (Ok c, w') => (Ok c, w')
      end
    end.

(** The three constructors on an opened client. *)
Definition queue_on (ttl : Duration) (queueName : string) (opened : result Cl * W) : outcome (result (BusQueue W)) * W :=
  match opened with
  | (Err e, w) => (Ret (Err e), w)
  | (Ok c, w) => open_link "sender" c (NewSender lib c queueName w) (λ s, NewWithClient (Some s) (Some (client_Close lib c)) ttl)
  end.

Definition BusReceiver : Type := serviceBusReceiver W * option (closer W).

Definition receiver_on (queueName : string) (opened : result Cl * W) : outcome (result BusReceiver) * W :=
  match opened with
  | (Err e, w) => (Ret (Err e), w)
  | (Ok c, w) => open_link "receiver" c (NewReceiverForQueue lib c queueName w) (λ r, Ok (r, Some (client_Close lib c)))
  end.

Definition dlq_on (queueName : string) (opened : result Cl * W) : outcome (result (sender W * option (closer W))) * W :=
  match opened with
  | (Err e, w) => (Ret (Err e), w)
  | (Ok c, w) => open_link "dead-letter sender" c (NewSender lib c queueName w)
                   (λ s, NewDeadLetterQueueWithClient (Some s) (Some (client_Close lib c)))
  end.

Definition NewFromConnectionString (cs queueName : string) (ttl : Duration) (w : W) := queue_on ttl queueName (client_from_string cs w).
Definition NewReceiverFromConnectionString (cs queueName : string) (w : W) := receiver_on queueName (client_from_string cs w).
Definition NewDeadLetterQueueFromConnectionString (cs queueName : string) (w : W) := dlq_on queueName (client_from_string cs w).

Definition NewFromNamespace (fqdn : string) (cred : option Cred) (queueName : string) (ttl : Duration) (w : W) : outcome (result (BusQueue W)) * W :=
  if bool_decide (TrimSpace queueName = ""%string) then (Ret (Err (ErrorText "service bus queue name is required")), w)
  else queue_on ttl queueName (newClientFromNamespace fqdn cred w).
Definition NewReceiverFromNamespace (fqdn : string) (cred : option Cred) (queueName : string) (w : W) : outcome (result BusReceiver) * W :=
  if bool_decide (TrimSpace queueName = ""%string) then (Ret (Err (ErrorText "service bus queue name is required")), w)
  else receiver_on queueName (newClientFromNamespace fqdn cred w).
Definition NewDeadLetterQueueFromNamespace (fqdn : string) (cred : option Cred) (queueName : string) (w : W)
    : outcome (result (sender W * option (closer W))) * W :=
  if bool_decide (TrimSpace queueName = ""%string) then (Ret (Err (ErrorText "service bus dead-letter queue name is required")), w)
  else dlq_on queueName (newClientFromNamespace fqdn cred w).

(** The Close method of a receiver built on a link. *)
Definition bus_receiver_Close (r : BusReceiver) : closer W := receiver_Close (Some r.1) r.2.

(** ** The Service Bus runtime (app.go) *)

Record serviceBusRuntime := mkBusRuntime {
  rt_queue : BusQueue W;
  rt_receiver : BusReceiver;
  rt_dlq : sender W * option (closer W);
  rt_closers : list (option (closer W))
}.

(** newConnectionStringServiceBusRuntime and newManagedIdentityServiceBusRuntime
    once the way to open each part is fixed. *)
Definition bus_runtime (open_queue : W → outcome (result (BusQueue W)) * W) (open_receiver : W → outcome (result BusReceiver) * W)
    (open_dlq : W → outcome (result (sender W * option (closer W))) * W) (w : W) : outcome (result serviceBusRuntime) * W :=
  match open_queue w with
  | (Panic v, w1) => (Panic v, w1)
  | (Ret (Err e), w1) => (Ret (Err e), w1)
  | (Ret (Ok q), w1) =>
    let closers := [Some (queue_Close q)] in
    match open_receiver w1 with
    | (Panic v, w2) => (Panic v, w2)
    | (Ret (Err e), w2) => fail_wiring e closers w2
    | (Ret (Ok r), w2) =>
      let closers := closers ++ [Some (bus_receiver_Close r)] in
      match open_dlq w2 with
      | (Panic v, w3) => (Panic v, w3)
      | (Ret (Err e), w3) => fail_wiring e closers w3
      | (Ret (Ok d), w3) => (Ret (Ok (mkBusRuntime q r d (closers ++ [Some (dlq_Close d)]))), w3)
      end
    end
  end.

Definition newConnectionStringServiceBusRuntime (c : Config) : W → outcome (result serviceBusRuntime) * W :=
  bus_runtime (NewFromConnectionString (ServiceBusConnectionString c) (ServiceBusQueueName c) (PasswordMessageTTL c))
    (NewReceiverFromConnectionString (ServiceBusConnectionString c) (ServiceBusQueueName c))
    (NewDeadLetterQueueFromConnectionString (ServiceBusConnectionString c) (ServiceBusDeadLetterQueueName c)).

Context (NewDefaultAzureCredential : W → result Cred * W).

Definition newManagedIdentityServiceBusRuntime (c : Config) (w : W) : outcome (result serviceBusRuntime) * W :=
  match NewDefaultAzureCredential w with
  | (Err e, w1) => (Ret (Err (Wrapped "create Azure credential" e)), w1)
  | (Ok cred, w1) =>
    bus_runtime (NewFromNamespace (ServiceBusNamespaceFQDN c) (Some cred) (ServiceBusQueueName c) (PasswordMessageTTL c))
      (NewReceiverFromNamespace (ServiceBusNamespaceFQDN c) (Some cred) (ServiceBusQueueName c))
      (NewDeadLetterQueueFromNamespace (ServiceBusNamespaceFQDN c) (Some cred) (ServiceBusDeadLetterQueueName c)) w1
  end.

Definition newServiceBusRuntime (c : Config) (w : W) : outcome (result serviceBusRuntime) * W :=
  if bool_decide (ServiceBusAuthMode c ∈ [""%string; ServiceBusAuthConnectionString]) then newConnectionStringServiceBusRuntime c w
  else if bool_decide (ServiceBusAuthMode c = ServiceBusAuthManagedIdentity) then newManagedIdentityServiceBusRuntime c w
  else (Ret (Err (ErrorText "SERVICEBUS_AUTH_MODE must be connection_string or managed_identity")), w).
End Bus.

(** ** What is open

    [held] is the ledger of a world: the connections that are open.  It is
    read by the statements only; no operation of the code looks at it. *)

(** Set equations between ledgers, from the equations of the context alone. *)
Ltac ledger_of held :=
  repeat match goal with
  | H : @eq (gset nat) _ _ |- _ => revert H
  | H : @disjoint (gset nat) _ _ _ |- _ => revert H
  | H : not (@elem_of nat (gset nat) _ _ _) |- _ => revert H
  end; clear;
  repeat match goal with |- context [held ?w] => generalize (held w) end; intros; subst; set_solver.

Section Ledger.
Context {W : Type} (held : W → gset nat).

(** A closer that returns and, with or without an error, leaves exactly the
    resources [X] closed. *)
Definition closes (c : closer W) (X : gset nat) : Prop :=
  ∀ ctx w, ∃ e w', c ctx w = (Ret e, w') ∧ held w' = held w ∖ X.

Definition frees (closers : list (option (closer W))) (X : gset nat) : Prop :=
  ∀ errs w, ∃ errs' w', close_loop closers errs w = (Ret errs', w') ∧ held w' = held w ∖ X.

(** Since world [w0], exactly what the closers close was opened. *)
Definition wired (w0 : W) (closers : list (option (closer W))) (w : W) : Prop :=
  ∃ X, X ## held w0 ∧ held w = held w0 ∪ X ∧ frees closers X.

(** The result of a construction begun in [w0]: it failed with nothing more
    open than before, or its value has closers for exactly what it opened. *)
Definition settled {A} (closers : A → list (option (closer W))) (w0 : W) (r : outcome (result A) * W) : Prop :=
  match r with
  | (Panic _, _) => False
  | (Ret (Err _), w') => held w' = held w0
  | (Ret (Ok a), w') => wired w0 (closers a) w'
  end.

Definition opens {A} (op : W → outcome (result A) * W) (closers : A → list (option (closer W))) : Prop :=
  ∀ w, settled closers w (op w).

Lemma frees_nil : frees [] ∅.
Proof. intros errs w. do 2 eexists. split; [reflexivity|]. ledger_of held. Qed.

Lemma frees_cons c closers X Y : closes c X → frees closers Y → frees (Some c :: closers) (X ∪ Y).
Proof.
  intros Hc Hf errs w. cbn. destruct (Hc detached w) as ([e|]&w1&->&H1).
  - destruct (Hf (errs ++ [e]) w1) as (errs'&w2&->&H2). do 2 eexists. split; [reflexivity|]. ledger_of held.
  - destruct (Hf errs w1) as (errs'&w2&->&H2). do 2 eexists. split; [reflexivity|]. ledger_of held.
Qed.

Lemma frees_one c X : closes c X → frees [Some c] X.
Proof. intros Hc. replace X with (X ∪ ∅) by ledger_of held. by apply frees_cons, frees_nil. Qed.

Lemma close_loop_app (c1 c2 : list (option (closer W))) errs w : close_loop (c1 ++ c2) errs w =
  match close_loop c1 errs w with
  | (Ret errs', w') => close_loop c2 errs' w'
  | (Panic v, w') => (Panic v, w')
  end.
Proof.
  revert errs w. induction c1 as [|[c|] c1 IH]; intros errs w; cbn; [done| |apply IH].
  by destruct (c detached w) as [[[e|]|v] w1].
Qed.

Lemma frees_app c1 c2 X Y : frees c1 X → frees c2 Y → frees (c1 ++ c2) (X ∪ Y).
Proof.
  intros H1 H2 errs w. rewrite close_loop_app. destruct (H1 errs w) as (errs1&w1&->&E1).
  destruct (H2 errs1 w1) as (errs2&w2&->&E2). do 2 eexists. split; [reflexivity|]. ledger_of held.
Qed.

Lemma frees_closeAppResources closers X w : frees closers X →
  ∃ e w', closeAppResources closers w = (Ret e, w') ∧ held w' = held w ∖ X.
Proof.
  intros Hf. unfold closeAppResources. destruct (Hf [] w) as (errs&w'&E&H). rewrite E.
  destruct closers as [|c closers]; cbn in *; [|by eauto]. injection E as <- <-. eauto.
Qed.

(** A failure closes what was opened. *)
Lemma fail_wiring_undo {A} err closers w0 w : wired w0 closers w →
  ∃ e w', fail_wiring (A := A) err closers w = (Ret (Err e), w') ∧ held w' = held w0.
Proof.
  intros (X&HX&Hw&Hf). unfold fail_wiring, closeAfterWiringError.
  destruct (frees_closeAppResources closers X w Hf) as (e&w'&->&H). do 2 eexists. split; [done|]. ledger_of held.
Qed.

Lemma fail_wiring_settled {A} (cl : A → list (option (closer W))) err closers w0 w :
  wired w0 closers w → settled cl w0 (fail_wiring err closers w).
Proof. intros Hw. by destruct (fail_wiring_undo (A := A) err closers w0 w Hw) as (e&w'&->&H). Qed.

Lemma wired_nil w : wired w [] w.
Proof. exists ∅. split_and!; [ledger_of held..|apply frees_nil]. Qed.

Lemma wired_app w0 c1 c2 w1 w2 : wired w0 c1 w1 → wired w1 c2 w2 → wired w0 (c1 ++ c2) w2.
Proof.
  intros (X&HX&H1&FX) (Y&HY&H2&FY). exists (X ∪ Y). split_and!; [ledger_of held..|by apply frees_app].
Qed.

Lemma wired_same w0 closers w w' : wired w0 closers w → held w' = held w → wired w0 closers w'.
Proof. intros (X&HX&Hw&Hf) H. exists X. split_and!; [done|congruence|done]. Qed.

(** Closing the only resource of a construction undoes it. *)
Lemma wired_undo w0 c w : wired w0 [Some c] w → ∃ e w', c detached w = (Ret e, w') ∧ held w' = held w0.
Proof.
  intros (X&HX&Hw&Hf). destruct (Hf [] w) as (errs&w'&E&H). cbn in E.
  destruct (c detached w) as [[[e|]|v] w1]; [| |done]; injection E as <- <-; do 2 eexists; (split; [done|ledger_of held]).
Qed.

Lemma settled_same {A} (cl : A → list (option (closer W))) w0 w1 r : held w1 = held w0 → settled cl w1 r → settled cl w0 r.
Proof.
  intros H. destruct r as [[[a|e]|v] w']; cbn; [|congruence|done]. intros (X&HX&Hw&Hf). exists X. by rewrite <- H.
Qed.

(** One connection. *)
Lemma wired_one w0 c i w : i ∉ held w0 → held w = held w0 ∪ {[i]} → closes c {[i]} → wired w0 [Some c] w.
Proof. intros Hi Hw Hc. exists {[i]}. split_and!; [ledger_of held|done|by apply frees_one]. Qed.

Lemma close_both_closes what first c X : closes first ∅ → closes c X → closes (close_both what first (Some c)) X.
Proof.
  intros H1 H2 ctx w. unfold close_both. destruct (H1 ctx w) as (e1&w1&->&E1). destruct (H2 ctx w1) as (e2&w2&->&E2).
  do 2 eexists. split; [reflexivity|]. ledger_of held.
Qed.
End Ledger.

(** The Azure client opens one connection per client, which its Close
    releases; links run over the connection of their client. *)
Class BusLaws {W Cl Cred} (held : W → gset nat) (lib : BusLib W Cl Cred) := {
  opens_client_string cs w :
    match NewClientFromConnectionString lib cs w with
    | (Err _, w') => held w' = held w
    | (Ok c, w') => ∃ i, i ∉ held w ∧ held w' = held w ∪ {[i]} ∧ closes held (client_Close lib c) {[i]}
    end;
  opens_client_namespace fqdn cred w :
    match azservicebus_NewClient lib fqdn cred w with
    | (Err _, w') => held w' = held w
    | (Ok c, w') => ∃ i, i ∉ held w ∧ held w' = held w ∪ {[i]} ∧ closes held (client_Close lib c) {[i]}
    end;
  sender_on_client c name w :
    match NewSender lib c name w with
    | (Err _, w') => held w' = held w
    | (Ok s, w') => held w' = held w ∧ closes held (sender_Close s) ∅
    end;
  receiver_on_client c name w :
    match NewReceiverForQueue lib c name w with
    | (Err _, w') => held w' = held w
    | (Ok r, w') => held w' = held w ∧ closes held (bus_Close r) ∅
    end
}.

Section BusLemmas.
Context {W Cl Cred : Type} (held : W → gset nat) (lib : BusLib W Cl Cred) `{!BusLaws held lib}.

(** A client as the two ways to open one give it. *)
Definition opened_from (w : W) (r : result Cl * W) : Prop :=
  match r with
  | (Err _, w') => held w' = held w
  | (Ok c, w') => ∃ i, i ∉ held w ∧ held w' = held w ∪ {[i]} ∧ closes held (client_Close lib c) {[i]}
  end.

Lemma client_from_string_opens cs w : opened_from w (client_from_string lib cs w).
Proof. pose proof (opens_client_string cs w). unfold client_from_string. by destruct (NewClientFromConnectionString _ _ _) as [[]]. Qed.

Lemma newClientFromNamespace_opens fqdn cred w : opened_from w (newClientFromNamespace lib fqdn cred w).
Proof.
  unfold newClientFromNamespace. case_bool_decide; [done|]. destruct cred as [cred|]; [|done].
  pose proof (opens_client_namespace (TrimSpace fqdn) cred w). by destruct (azservicebus_NewClient _ _ _ _) as [[]].
Qed.

(** A link that cannot be made gives its client back; one that can is closed
    with its client. *)
Lemma open_link_opens {H A} what c i w0 w1 (link : result H * W) (build : H → result A) (close : A → closer W) (h_close : H → closer W) :
  i ∉ held w0 → held w1 = held w0 ∪ {[i]} → closes held (client_Close lib c) {[i]} →
  match link with (Err _, w') => held w' = held w1 | (Ok h, w') => held w' = held w1 ∧ closes held (h_close h) ∅ end →
  (∀ h, ∃ a, build h = Ok a ∧ close a = close_both what (h_close h) (Some (client_Close lib c))) →
  settled held (λ a, [Some (close a)]) w0 (open_link lib what c link build).
Proof.
  intros Hi H1 Hc Hl Hb. unfold open_link. destruct link as [[h|e] w2].
  - destruct Hl as [H2 Hh]. destruct (Hb h) as (a&->&Ha). apply (wired_one held w0 _ i); [done|congruence|].
    rewrite Ha. by apply close_both_closes.
  - destruct (Hc detached w2) as (e'&w3&E&H3). unfold closeWithTimeout. rewrite E. cbn. ledger_of held.
Qed.

Lemma queue_on_opens ttl name (open : W → result Cl * W) :
  (∀ w, opened_from w (open w)) → opens held (λ w, queue_on lib ttl name (open w)) (λ q, [Some (queue_Close q)]).
Proof.
  intros Ho w. specialize (Ho w). unfold queue_on. destruct (open w) as [[c|e] w1]; [|done]. destruct Ho as (i&Hi&H1&Hc).
  refine (open_link_opens "sender" c i w w1 _ _ queue_Close sender_Close Hi H1 Hc (sender_on_client c name w1) _).
  intros s. by eexists.
Qed.

Lemma receiver_on_opens name (open : W → result Cl * W) :
  (∀ w, opened_from w (open w)) → opens held (λ w, receiver_on lib name (open w)) (λ r, [Some (bus_receiver_Close r)]).
Proof.
  intros Ho w. specialize (Ho w). unfold receiver_on. destruct (open w) as [[c|e] w1]; [|done]. destruct Ho as (i&Hi&H1&Hc).
  refine (open_link_opens "receiver" c i w w1 _ _ bus_receiver_Close bus_Close Hi H1 Hc (receiver_on_client c name w1) _).
  intros r. by eexists.
Qed.

Lemma dlq_on_opens name (open : W → result Cl * W) :
  (∀ w, opened_from w (open w)) → opens held (λ w, dlq_on lib name (open w)) (λ d, [Some (dlq_Close d)]).
Proof.
  intros Ho w. specialize (Ho w). unfold dlq_on. destruct (open w) as [[c|e] w1]; [|done]. destruct Ho as (i&Hi&H1&Hc).
  refine (open_link_opens "dead-letter sender" c i w w1 _ _ dlq_Close sender_Close Hi H1 Hc (sender_on_client c name w1) _).
  intros s. by eexists.
Qed.

Lemma guarded_opens {A} (b : bool) e (op : W → outcome (result A) * W) closers :
  opens held op closers → opens held (λ w, if b then (Ret (Err e), w) else op w) closers.
Proof. intros Ho w. specialize (Ho w). by destruct b. Qed.

Lemma bus_runtime_opens oq or od :
  opens held oq (λ q, [Some (queue_Close q)]) → opens held or (λ r, [Some (bus_receiver_Close r)]) →
  opens held od (λ d, [Some (dlq_Close d)]) → opens held (bus_runtime oq or od) rt_closers.
Proof.
  intros Hq Hr Hd w. unfold bus_runtime. specialize (Hq w). destruct (oq w) as [[[q|e]|v] w1]; [|done|done].
  cbn in Hq. specialize (Hr w1). destruct (or w1) as [[[r|e]|v] w2]; [| |done]; cbn in Hr.
  - pose proof (wired_app held _ _ _ _ _ Hq Hr) as Hqr. specialize (Hd w2). destruct (od w2) as [[[d|e]|v] w3]; [| |done]; cbn in Hd.
    + exact (wired_app held _ _ _ _ _ Hqr Hd).
    + apply fail_wiring_settled. by eapply wired_same.
  - apply fail_wiring_settled. by eapply wired_same.
Qed.

Lemma newServiceBusRuntime_opens (cred : W → result Cred * W) c :
  (∀ w, held (cred w).2 = held w) → opens held (newServiceBusRuntime lib cred c) rt_closers.
Proof.
  intros Hcred w. unfold newServiceBusRuntime. case_bool_decide.
  { apply bus_runtime_opens; [apply queue_on_opens|apply receiver_on_opens|apply dlq_on_opens]; apply client_from_string_opens. }
  case_bool_decide; [|done]. unfold newManagedIdentityServiceBusRuntime. specialize (Hcred w).
  destruct (cred w) as [[k|e] w1]; [|done]. cbn in Hcred. apply (settled_same held _ w w1); [done|].
  apply (bus_runtime_opens (NewFromNamespace lib _ _ _ _) (NewReceiverFromNamespace lib _ _ _) (NewDeadLetterQueueFromNamespace lib _ _ _)).
  - refine (guarded_opens _ _ (λ w, queue_on lib _ _ (newClientFromNamespace lib _ _ w)) _ (queue_on_opens _ _ _ _)). apply newClientFromNamespace_opens.
  - refine (guarded_opens _ _ (λ w, receiver_on lib _ (newClientFromNamespace lib _ _ w)) _ (receiver_on_opens _ _ _)). apply newClientFromNamespace_opens.
  - refine (guarded_opens _ _ (λ w, dlq_on lib _ (newClientFromNamespace lib _ _ w)) _ (dlq_on_opens _ _ _)). apply newClientFromNamespace_opens.
Qed.
End BusLemmas.
