(* ===== verification/App.v ===== *)
(** * The application's wiring (internal/app, internal/azuremonitor/otel.go)

    [New] and the functions it calls, over a record of the libraries and the
    pieces of state they use ([Platform]).  The theorems: a failed start holds
    nothing open and a successful one is closed completely by its closers;
    a validated configuration starts whenever the libraries do; and the
    application it starts is the system of the end-to-end theorem. *)
From stdpp Require Import base gmap strings list.
From Stdlib Require Import ZArith Lia.
From S2P Require Import Prelude Utf8 GoStrings NetIP GoTime Strconv GoBase Observability GoState SensitiveIO Http JsonMarshal.
From S2P Require Import GraphClient Hmac RateLimit PasswordCrypto SyncStatus RedisStore RedisCredentials Identity MigrationService Hook.
From S2P Require Import Worker ServiceBusQueue GraphProcessor Config SecretLoader Metrics Server Resources.

Local Open Scope Z_scope.

(** ** The OpenTelemetry setup *)

(** The tracing library; [None] stands for the no-op provider. *)
Record OTel (W : Type) := mkOTel {
  Exporter : Type;
  Provider : Type;
  otlptracegrpc_New : string → W → result Exporter * W;
  NewTracerProvider : string → Exporter → W → Provider * W;
  SetTracerProvider : option Provider → W → W;
  provider_Shutdown : Provider → closer W
}.
Arguments Exporter {W} _.
Arguments Provider {W} _.
Arguments otlptracegrpc_New {W} _ _ _.
Arguments NewTracerProvider {W} _ _ _ _.
Arguments SetTracerProvider {W} _ _ _.
Arguments provider_Shutdown {W} _ _ _ _.

Definition SetupOTel {W} (otel : OTel W) (serviceName endpoint : string) (w : W) : result (closer W) * W :=
  let endpoint := TrimSpace endpoint in
  if bool_decide (endpoint = ""%string) then (Ok (λ _ w, (Ret None, w)), w)
  else
    let serviceName := TrimSpace serviceName in
    if bool_decide (serviceName = ""%string) then (Err (ErrorText "otel service name is required"), w)
    else
      match otlptracegrpc_New otel endpoint w with
      | (Err e, w1) => (Err e, w1)
      | (Ok exporter, w1) =>
        let '(provider, w2) := NewTracerProvider otel serviceName exporter w1 in
        (Ok (λ ctx w, provider_Shutdown otel provider ctx (SetTracerProvider otel None w)), SetTracerProvider otel (Some provider) w2)
      end.

(** ** The platform *)

(** Libraries, clocks, randomness, and where the world keeps the state of
    the components: the lenses of the in-memory stores and of the metric
    recorder.  [go_run] starts the goroutine of a periodic flusher and
    [stop_run] closes its stop channel (once) and waits for its end. *)
Record Platform (W R Cl Cred : Type) := mkPlatform {
  bus_lib : BusLib W Cl Cred;
  NewDefaultAzureCredential : W → result Cred * W;
  otel : OTel W;
  go_run : W → nat * W;
  stop_run : nat → W → W;
  get_metrics : W → MetricRecorder;
  set_metrics : MetricRecorder → W → W;
  token_of : Cred → string → W → result string * W;
  post_metrics : string → string → azureMonitorPayload → W → result Z * W;
  metrics_request_error : string → option error;
  uuid_valid : string → bool;
  RedisCred : Type;
  NewManagedIdentityCredential : string → result RedisCred;
  TokenManager : Type;
  NewTokenManager : RedisCred → W → result TokenManager * W;
  tokenManager_Start : TokenManager → W → result (W → option error * W) * W;
  NewClusterClient : string → Z → W → Redis W * W;
  redis_Ping : Redis W → Duration → W → outcome (option error) * W;
  redis_clock : W → Time;
  get_sync : W → MemoryStore;
  set_sync : MemoryStore → W → W;
  NewClientSecretCredential : string → string → string → W → result (Context → string → W → outcome (result string) * W) * W;
  url_Parse : string → result URL;
  http_client_Do : HttpCall → W → outcome (result Z) * W;
  http_request_error : string → option error;
  append_grow : nat → nat → nat;
  Block : Type;
  aes_NewCipher : bytes → result Block;
  cipher_NewGCM : Block → result AEAD;
  time_Now : W → Time * W;
  select_timer : Context → Duration → W → option error * W;
  rand_Read : nat → W → option bytes * W;
  rand_ReadFull : nat → W → result bytes * W;
  get_counts : W → gmap string rateWindow;
  set_counts : gmap string rateWindow → W → W;
  get_native : W → NativeTable;
  set_native : NativeTable → W → W;
  marshal_time : Time → result Json.json;
  get_nonces : W → MemoryNonce.MemoryNonceStore;
  set_nonces : MemoryNonce.MemoryNonceStore → W → W;
  body_Reader : Reader R;
  read_fuel : nat;
  http_Redirect : string → Handler W R;
  escaped_path : HttpRequest R → string
}.
Arguments bus_lib {W R Cl Cred} _.
Arguments NewDefaultAzureCredential {W R Cl Cred} _ _.
Arguments otel {W R Cl Cred} _.
Arguments go_run {W R Cl Cred} _ _.
Arguments stop_run {W R Cl Cred} _ _ _.
Arguments get_metrics {W R Cl Cred} _ _.
Arguments set_metrics {W R Cl Cred} _ _ _.
Arguments token_of {W R Cl Cred} _ _ _ _.
Arguments post_metrics {W R Cl Cred} _ _ _ _ _.
Arguments metrics_request_error {W R Cl Cred} _ _.
Arguments uuid_valid {W R Cl Cred} _ _.
Arguments RedisCred {W R Cl Cred} _.
Arguments NewManagedIdentityCredential {W R Cl Cred} _ _.
Arguments TokenManager {W R Cl Cred} _.
Arguments NewTokenManager {W R Cl Cred} _ _ _.
Arguments tokenManager_Start {W R Cl Cred} _ _ _.
Arguments NewClusterClient {W R Cl Cred} _ _ _ _.
Arguments redis_Ping {W R Cl Cred} _ _ _ _.
Arguments redis_clock {W R Cl Cred} _ _.
Arguments get_sync {W R Cl Cred} _ _.
Arguments set_sync {W R Cl Cred} _ _ _.
Arguments NewClientSecretCredential {W R Cl Cred} _ _ _ _ _.
Arguments url_Parse {W R Cl Cred} _ _.
Arguments http_client_Do {W R Cl Cred} _ _ _.
Arguments http_request_error {W R Cl Cred} _ _.
Arguments append_grow {W R Cl Cred} _ _ _.
Arguments Block {W R Cl Cred} _.
Arguments aes_NewCipher {W R Cl Cred} _ _.
Arguments cipher_NewGCM {W R Cl Cred} _ _.
Arguments time_Now {W R Cl Cred} _ _.
Arguments select_timer {W R Cl Cred} _ _ _ _.
Arguments rand_Read {W R Cl Cred} _ _ _.
Arguments rand_ReadFull {W R Cl Cred} _ _ _.
Arguments get_counts {W R Cl Cred} _ _.
Arguments set_counts {W R Cl Cred} _ _ _.
Arguments get_native {W R Cl Cred} _ _.
Arguments set_native {W R Cl Cred} _ _ _.
Arguments marshal_time {W R Cl Cred} _ _.
Arguments get_nonces {W R Cl Cred} _ _.
Arguments set_nonces {W R Cl Cred} _ _ _.
Arguments body_Reader {W R Cl Cred} _.
Arguments read_fuel {W R Cl Cred} _.
Arguments http_Redirect {W R Cl Cred} _ _.
Arguments escaped_path {W R Cl Cred} _ _.

Section App.
Context {U : UnicodeTables} {W R Cl Cred : Type} (pf : Platform W R Cl Cred).
Implicit Types (c : Config) (w : W) (closers : list (option (closer W))).

(** ** The metric flusher, as a closer

    Its goroutine is modelled in Lifecycle.v. *)

Definition azureMonitorMetricFlushInterval : Duration := Minute.
Definition redisPingTimeout : Duration := 5 * Second.

Record periodicMetricFlusher := mkFlusher { flusher : closer W; period : Duration; goroutine : nat }.

Definition newPeriodicMetricFlusher (fl : closer W) (p : Duration) w : periodicMetricFlusher * W :=
  let p := if p <=? 0 then azureMonitorMetricFlushInterval else p in
  let '(i, w1) := go_run pf w in (mkFlusher fl p i, w1).

Definition flusher_Close (p : periodicMetricFlusher) : closer W := λ ctx w,
  flusher p ctx (stop_run pf (goroutine p) w).

(** MetricRecorder.Flush on the recorder of the world. *)
Definition flush_metrics (token : option (W → result string * W)) : closer W := λ _ w,
  let '(o, r, w1) := Flush (time_Now pf) token (post_metrics pf) (metrics_request_error pf) (get_metrics pf w) w in
  (o, set_metrics pf r w1).

(** ** The runtimes *)

(** newObservabilityRuntime: its closers; the recorder is the world's, or
    none. *)
Definition newObservabilityRuntime c w : outcome (result (list (option (closer W)))) * W :=
  if negb (bool_decide (ObservabilityExporter c = ObservabilityExporterAzureMonitor)) then (Ret (Ok []), w)
  else
    match SetupOTel (otel pf) "password-hook-service" (OTLPExporterEndpoint c) w with
    | (Err e, w1) => (Ret (Err e), w1)
    | (Ok shutdown, w1) =>
      match NewDefaultAzureCredential pf w1 with
      | (Err e, w2) =>
        match shutdown detached w2 with
        | (Panic v, w3) => (Panic v, w3)
        | (Ret e', w3) => (Ret (Err (Joined (omap id [Some e; e']))), w3)
        end
      | (Ok cred, w2) =>
        let token := credential_Token (Some (token_of pf cred)) "https://monitoring.azure.com/.default" in
        let recorder := NewMetricRecorder (mkMetricOptions
          ("https://" +:+ AzureMonitorMetricRegion c +:+ ".monitoring.azure.com")
          (AzureMonitorMetricResourceID c) (AzureMonitorMetricRegion c) (AzureMonitorMetricNamespace c)) in
        let w3 := set_metrics pf recorder w2 in
        let '(p, w4) := newPeriodicMetricFlusher (flush_metrics (Some token)) azureMonitorMetricFlushInterval w3 in
        (Ret (Ok [Some shutdown; Some (flusher_Close p)]), w4)
      end
    end.

(** A store on a part of the world. *)
Definition store_at {S} (get : W → S) (set : S → W → W) (store : SyncStore S) : SyncStore W :=
  let at_ {A} (f : S → outcome A * S) w := let '(o, s) := f (get w) in (o, set s w) in
  mkSyncStore (λ ctx upn, at_ (Get store ctx upn)) (λ ctx upn src, at_ (MarkPending store ctx upn src))
    (λ ctx upn src, at_ (MarkSynced store ctx upn src)) (λ ctx upn src, at_ (MarkFailed store ctx upn src)).

(** syncstatus.NewMemoryStore: the world's store, emptied. *)
Definition new_memory_store w : SyncStore W * W :=
  (store_at (get_sync pf) (set_sync pf) memory_store, set_sync pf (NewMemoryStore (store_now (get_sync pf w))) w).

Record syncStatusRuntime := mkSyncRuntime { ss_store : option (SyncStore W); ss_closer : option (closer W) }.

Definition redis_options c : RedisOptions :=
  mkRedisOptions (RedisHost c) (RedisPort c) (RedisKeyPrefix c) (PasswordMessageTTL c) (SyncStatusTerminalTTL c)
    (AzureClientID c) redisPingTimeout.

(** The first Close of a provider; RedisCredentials.v says what the others do.
    Listeners are numbered. *)
Definition provider_Close (p : RedisCredentials.Provider (L := nat) (W := W)) (w : W) : outcome (option error) * W :=
  let '(f, p1) := close_section p in
  let '(p2, w') := close_stop f p1 w in (Ret (closeErr p2), w').

Definition newStreamingCredentialsProvider (credential : RedisCred pf) (w : W) : result (W → outcome (option error) * W) * W :=
  match NewTokenManager pf credential w with
  | (Err e, w1) => (Err e, w1)
  | (Ok tokenManager, w1) =>
    match newOwnedCredentialsProvider (tokenManager_Start pf tokenManager) true w1 with
    | (Err e, w2) => (Err e, w2)
    | (Ok p, w2) => (Ok (provider_Close p), w2)
    end
  end.

Context (parse_error : string → error).

Definition newSyncStatusRuntime c w : outcome (result syncStatusRuntime) * W :=
  if bool_decide (SyncStatusStore c = SyncStatusStoreMemory) then
    let '(store, w1) := new_memory_store w in (Ret (Ok (mkSyncRuntime (Some store) None)), w1)
  else if bool_decide (SyncStatusStore c = SyncStatusStoreRedis) then
    match NewManagedIdentityRedisStore (uuid_valid pf) (NewManagedIdentityCredential pf) newStreamingCredentialsProvider
            (NewClusterClient pf) (redis_Ping pf) (redis_clock pf) (redis_options c) w with
    | (Panic v, w1) => (Panic v, w1)
    | (Ret (Err e), w1) => (Ret (Err e), w1)
    | (Ret (Ok s), w1) => (Ret (Ok (mkSyncRuntime (Some (redis_store parse_error s)) (Some (redis_store_Close s)))), w1)
    end
  else (Ret (Err (ErrorQuoted "unsupported sync status store" (SyncStatusStore c))), w).

(** ** The application *)

Record App := mkApp { server : Handler W R; app_worker : option (Worker W); app_closers : list (option (closer W)) }.

Definition app_ServeHTTP (a : App) : Handler W R := server a.

Definition newPasswordCodec c : result Codec :=
  NewCodecFromBase64 (aes_NewCipher pf) (cipher_NewGCM pf) (PasswordEncryptionKeyB64 c) (PasswordEncryptionKeyID c).

Definition validatePasswordEncryptionConfig c : option error :=
  switch [(bool_decide (PasswordEncryptionKeyB64 c = ""%string), ErrorText "PASSWORD_ENCRYPTION_KEY_B64 is required");
          (bool_decide (PasswordEncryptionKeyID c = ""%string), ErrorText "PASSWORD_ENCRYPTION_KEY_ID is required")].

(** The codec as the service and the worker use it. *)
Definition codec_encrypter (codec : Codec) : PasswordEncrypter W := mkEncrypter (Encrypt (rand_ReadFull pf) codec).
Definition codec_decrypter (codec : Codec) : PasswordDecrypter W := Decrypt codec.
Definition store_recorder (store : SyncStore W) : SyncStatusRecorder W := Worker.mkRecorder (MarkSynced store) (MarkFailed store).

(** newWithQueueWithRecorder. *)
Definition newWithQueueWithRecorder c (q : option (Queue W)) (enc : option (PasswordEncrypter W)) (store : option (SyncStore W))
    closers w : outcome (result App) * W :=
  match new_hook_handler (time_Now pf) (get_counts pf) (set_counts pf) (rand_Read pf) (body_Reader pf) (read_fuel pf)
          (get_nonces pf) (set_nonces pf) c q enc store w with
  | (Panic v, w1) => (Panic v, w1)
  | (Ret (Err e), w1) => fail_wiring e closers w1
  | (Ret (Ok hook), w1) => (Ret (Ok (mkApp (serve (http_Redirect pf) (escaped_path pf) (Some hook) Current) None closers)), w1)
  end.

Definition newWithQueue := newWithQueueWithRecorder.

Definition NewWithQueue c (q : option (Queue W)) w : outcome (result App) * W :=
  match ValidateHTTP c with
  | Some e => (Ret (Err e), w)
  | None =>
    match validatePasswordEncryptionConfig c with
    | Some e => (Ret (Err e), w)
    | None =>
      match q with
      | None => (Ret (Err (ErrorText "migration queue is required")), w)
      | Some _ =>
        match newPasswordCodec c with
        | Err e => (Ret (Err e), w)
        | Ok codec =>
          let '(store, w1) := new_memory_store w in
          newWithQueue c q (Some (codec_encrypter codec)) (Some store) [] w1
        end
      end
    end
  end.

Definition newWithWorkerDependenciesWithSyncStatusAndRecorder c (q : option (Queue W)) (recv : option (Receiver W)) (proc : option (Processor W))
    (dlq : option (DeadLetterSink W)) (codec : option Codec) (store : option (SyncStore W)) closers w : outcome (result App) * W :=
  match codec with
  | None => fail_wiring (ErrorText "password codec is required") closers w
  | Some codec =>
    match store with
    | None => fail_wiring (ErrorText "sync status store is required") closers w
    | Some store =>
      match newWithQueueWithRecorder c q (Some (codec_encrypter codec)) (Some store) closers w with
      | (Panic v, w1) => (Panic v, w1)
      | (Ret (Err e), w1) => (Ret (Err e), w1)
      | (Ret (Ok app), w1) =>
        match Worker.New recv proc
                (mkOptions 0 0 0 [] dlq (Some (codec_decrypter codec)) (Some (store_recorder store)) None None)
                (time_Now pf) (sleep (select_timer pf)) with
        | Err e => fail_wiring e closers w1
        | Ok wk => (Ret (Ok (mkApp (server app) (Some wk) (app_closers app))), w1)
        end
      end
    end
  end.

(** The constructors that fill in the memory store; where a recorder sends
    the events is not part of the state, so it is not an argument. *)
Definition newWithWorkerDependenciesWithRecorder c q recv proc dlq codec closers w : outcome (result App) * W :=
  let '(store, w1) := new_memory_store w in
  newWithWorkerDependenciesWithSyncStatusAndRecorder c q recv proc dlq codec (Some store) closers w1.
Definition newWithWorkerDependencies := newWithWorkerDependenciesWithRecorder.

(** [if syncStatus.closer != nil { closers = append(closers, ...) }]. *)
Definition with_closer closers (cl : option (closer W)) : list (option (closer W)) :=
  match cl with Some cl => closers ++ [Some cl] | None => closers end.

(** The part of New after the connections are open. *)
Definition new_on_runtimes c (rt : serviceBusRuntime) (store : SyncStore W) closers w : outcome (result App) * W :=
  match NewClientSecretCredential pf (GraphTenantID c) (GraphClientID c) (GraphClientSecret c) w with
  | (Err e, w1) => fail_wiring e closers w1
  | (Ok credential, w1) =>
    match NewHTTPClient (url_Parse pf) (http_client_Do pf) (http_request_error pf) (append_grow pf) (Some credential)
            (mkGraphOptions "" None "" None) with
    | Err e => fail_wiring e closers w1
    | Ok graph =>
      match NewWithOptions (time_Now pf) (Some (UpsertUserPassword graph)) None with
      | Err e => fail_wiring e closers w1
      | Ok p =>
        match newPasswordCodec c with
        | Err e => fail_wiring e closers w1
        | Ok codec =>
          newWithWorkerDependenciesWithSyncStatusAndRecorder c (Some (bus_queue (rt_queue rt)))
            (Some (bus_receiver (Some (rt_receiver rt).1) (get_native pf) (set_native pf)))
            (Some (ProcessPasswordSync p)) (Some (RecordPasswordSyncFailure (marshal_time pf) (rt_dlq rt).1))
            (Some codec) (Some store) closers w1
        end
      end
    end
  end.

Definition New c w : outcome (result App) * W :=
  match Validate (uuid_valid pf) c with
  | Some e => (Ret (Err e), w)
  | None =>
    match newObservabilityRuntime c w with
    | (Panic v, w1) => (Panic v, w1)
    | (Ret (Err e), w1) => (Ret (Err e), w1)
    | (Ret (Ok closers), w1) =>
      match newServiceBusRuntime (bus_lib pf) (NewDefaultAzureCredential pf) c w1 with
      | (Panic v, w2) => (Panic v, w2)
      | (Ret (Err e), w2) => fail_wiring e closers w2
      | (Ret (Ok rt), w2) =>
        let closers := closers ++ rt_closers rt in
        match newSyncStatusRuntime c w2 with
        | (Panic v, w3) => (Panic v, w3)
        | (Ret (Err e), w3) => fail_wiring e closers w3
        | (Ret (Ok ss), w3) =>
          let closers := with_closer closers (ss_closer ss) in
          match ss_store ss with
          | None => fail_wiring (ErrorText "sync status store is required") closers w3
          | Some store => new_on_runtimes c rt store closers w3
          end
        end
      end
    end
  end.
End App.

(** ** What the platform opens

    One resource for the tracing pipeline, one for the flusher's goroutine,
    one per Service Bus client, one for the Redis client and one for its
    credentials; every other call leaves the ledger alone. *)
Class PlatformLaws {W R Cl Cred} (held : W → gset nat) (pf : Platform W R Cl Cred) := {
  platform_bus :: BusLaws held (bus_lib pf);
  credential_keeps w : held (NewDefaultAzureCredential pf w).2 = held w;
  exporter_fails endpoint w e w1 : otlptracegrpc_New (otel pf) endpoint w = (Err e, w1) → held w1 = held w;
  tracing_opens endpoint name w exporter w1 provider w2 :
    otlptracegrpc_New (otel pf) endpoint w = (Ok exporter, w1) → NewTracerProvider (otel pf) name exporter w1 = (provider, w2) →
    ∃ i, i ∉ held w ∧ held w2 = held w ∪ {[i]} ∧ closes held (provider_Shutdown (otel pf) provider) {[i]};
  install_keeps p w : held (SetTracerProvider (otel pf) p w) = held w;
  goroutine_opens w i w1 : go_run pf w = (i, w1) → i ∉ held w ∧ held w1 = held w ∪ {[i]};
  goroutine_ends i w : held (stop_run pf i w) = held w ∖ {[i]};
  set_metrics_keeps r w : held (set_metrics pf r w) = held w;
  set_sync_keeps s w : held (set_sync pf s w) = held w;
  set_nonces_keeps s w : held (set_nonces pf s w) = held w;
  set_counts_keeps s w : held (set_counts pf s w) = held w;
  now_keeps w : held (time_Now pf w).2 = held w;
  token_keeps cred scope w : held (token_of pf cred scope w).2 = held w;
  post_keeps url token p w : held (post_metrics pf url token p w).2 = held w;
  token_manager_keeps cred w : held (NewTokenManager pf cred w).2 = held w;
  token_manager_opens tm w :
    match tokenManager_Start pf tm w with
    | (Err _, w1) => held w1 = held w
    | (Ok stop, w1) => ∃ i, i ∉ held w ∧ held w1 = held w ∪ {[i]} ∧ ∀ w2, held (stop w2).2 = held w2 ∖ {[i]}
    end;
  redis_opens host port w c w1 : NewClusterClient pf host port w = (c, w1) →
    ∃ i, i ∉ held w ∧ held w1 = held w ∪ {[i]} ∧ closes held (λ _, redis_Close c) {[i]};
  ping_keeps c d w : ∃ e w1, redis_Ping pf c d w = (Ret e, w1) ∧ held w1 = held w;
  secret_credential_keeps t i s w : held (NewClientSecretCredential pf t i s w).2 = held w
}.

Section Wiring.
Context {U : UnicodeTables} {W R Cl Cred : Type} (pf : Platform W R Cl Cred) (held : W → gset nat) `{!PlatformLaws held pf}.
Context (parse_error : string → error).
Implicit Types (c : Config) (w : W) (closers : list (option (closer W))).

Lemma SetupOTel_opens name endpoint w : TrimSpace name ≠ ""%string →
  match SetupOTel (otel pf) name endpoint w with
  | (Err _, w') => held w' = held w
  | (Ok shutdown, w') => wired held w [Some shutdown] w'
  end.
Proof.
  intros Hname. unfold SetupOTel. case_bool_decide.
  { exists ∅. split_and!; [set_solver..|]. apply frees_one. intros ctx w'. do 2 eexists. split; [done|set_solver]. }
  rewrite bool_decide_false by done.
  destruct (otlptracegrpc_New (otel pf) (TrimSpace endpoint) w) as [[exporter|e] w1] eqn:E1; [|by eapply exporter_fails].
  destruct (NewTracerProvider (otel pf) (TrimSpace name) exporter w1) as [provider w2] eqn:E2.
  destruct (tracing_opens _ _ _ _ _ _ _ E1 E2) as (i&Hi&H2&Hc).
  apply (wired_one held w _ i); [done|by rewrite install_keeps|].
  intros ctx w'. destruct (Hc ctx (SetTracerProvider (otel pf) None w')) as (e&w3&->&H3). exists e, w3.
  by rewrite H3, install_keeps.
Qed.

Lemma flush_metrics_closes cred scope :
  closes held (flush_metrics pf (Some (credential_Token (Some (token_of pf cred)) scope))) ∅.
Proof.
  intros ctx w. unfold flush_metrics.
  destruct (Flush_frame (time_Now pf) (Some (credential_Token (Some (token_of pf cred)) scope)) (post_metrics pf)
    (metrics_request_error pf) held now_keeps ltac:(intros get [= <-] w'; apply token_keeps) post_keeps (get_metrics pf w) w)
    as (e&r&w1&->&H1).
  do 2 eexists. split; [reflexivity|]. rewrite set_metrics_keeps, H1. set_solver.
Qed.

Lemma newObservabilityRuntime_opens c : opens held (newObservabilityRuntime pf c) id.
Proof.
  intros w. unfold newObservabilityRuntime. case_bool_decide; cbn [negb]; [|apply wired_nil].
  pose proof (SetupOTel_opens "password-hook-service" (OTLPExporterEndpoint c) w ltac:(by vm_compute)) as Hs.
  destruct (SetupOTel _ _ _ w) as [[shutdown|e] w1]; [|done].
  pose proof (credential_keeps (pf := pf) w1) as Hk.
  destruct (NewDefaultAzureCredential pf w1) as [[cred|e] w2]; cbn in Hk; pose proof (wired_same _ _ _ _ _ Hs Hk) as Hs2.
  - unfold newPeriodicMetricFlusher. destruct (go_run pf _) as [i w4] eqn:Eg.
    apply goroutine_opens in Eg as [Hi H4]. rewrite set_metrics_keeps in Hi, H4.
    refine (wired_app held w [_] [_] w2 w4 Hs2 _). apply (wired_one held w2 _ i); [done..|].
    intros ctx w'. unfold flusher_Close. cbn [flusher goroutine].
    destruct (flush_metrics_closes cred "https://monitoring.azure.com/.default" ctx (stop_run pf i w')) as (e&w5&->&H5).
    do 2 eexists. split; [done|]. rewrite H5, goroutine_ends. set_solver.
  - destruct (wired_undo _ _ _ _ Hs2) as (e'&w3&->&H3). done.
Qed.

Lemma provider_opens cred w :
  match newStreamingCredentialsProvider pf cred w with
  | (Err _, w1) => held w1 = held w
  | (Ok close, w1) => ∃ i, i ∉ held w ∧ held w1 = held w ∪ {[i]} ∧ closes held (λ _, close) {[i]}
  end.
Proof.
  unfold newStreamingCredentialsProvider. pose proof (token_manager_keeps (pf := pf) cred w) as Hk.
  destruct (NewTokenManager pf cred w) as [[tm|e] w1]; [|done]. cbn in Hk.
  pose proof (token_manager_opens (pf := pf) tm w1) as Ho. unfold newOwnedCredentialsProvider. cbn [negb].
  destruct (tokenManager_Start pf tm w1) as [[stop|e] w2]; [|congruence].
  destruct Ho as (i&Hi&H2&Hs). exists i. rewrite <- Hk. split_and!; [done..|].
  intros ctx w3. unfold provider_Close. cbn. specialize (Hs w3). destruct (stop w3) as [e w4]. by do 2 eexists.
Qed.

(** The closer of the runtime, when it has one. *)
Definition sync_closers (ss : syncStatusRuntime) : list (option (closer W)) := with_closer [] (ss_closer ss).

Lemma newSyncStatusRuntime_opens c : opens held (newSyncStatusRuntime pf parse_error c) sync_closers.
Proof.
  intros w. unfold newSyncStatusRuntime. case_bool_decide.
  { unfold new_memory_store. eapply wired_same; [apply wired_nil|apply set_sync_keeps]. }
  case_bool_decide; [|done]. unfold NewManagedIdentityRedisStore.
  destruct (validateRedisOptions _ _) as [e|] eqn:Ev; [done|].
  destruct (NewManagedIdentityCredential pf _) as [cred|e]; [|done].
  pose proof (provider_opens cred w) as Hp. destruct (newStreamingCredentialsProvider pf cred w) as [[close|e] w1]; [|done].
  destruct Hp as (i&Hi&H1&Hcl). destruct (NewClusterClient pf _ _ w1) as [cl w2] eqn:Er.
  apply redis_opens in Er as (j&Hj&H2&Hcr). unfold validateRedisOptions in Ev. unfold NewRedisStore.
  destruct (validateRedisStoreOptions _ _ _); [done|]. clear Ev. cbn [client].
  set (s := mkRedisStore cl _ _ _ _ (Some close)).
  assert (closes held (redis_store_Close s) ({[j]} ∪ {[i]})) as Hclose.
  { intros ctx w'. unfold redis_store_Close. cbn [client credentials s]. destruct (Hcr ctx w') as (e1&w3&->&H3).
    destruct (Hcl ctx w3) as (e2&w4&->&H4). do 2 eexists. split; [done|]. ledger_of held. }
  destruct (ping_keeps cl (PingTimeout (redis_options c)) w2) as (e&w3&->&H3).
  destruct e as [e|].
  - destruct (Hclose background w3) as (e'&w4&->&H4). cbn. ledger_of held.
  - exists ({[j]} ∪ {[i]}). split_and!; [ledger_of held..|]. by apply frees_one.
Qed.

(** The last steps open nothing: what was wired before stays wired. *)
Lemma new_hook_handler_ret c q enc store w : ∃ r w',
  new_hook_handler (time_Now pf) (get_counts pf) (set_counts pf) (rand_Read pf) (body_Reader pf) (read_fuel pf)
    (get_nonces pf) (set_nonces pf) c q enc store w = (Ret r, w') ∧ held w' = held w.
Proof.
  unfold new_hook_handler, NewService, MemoryNonce.new_memory_nonces. destruct enc; [|eauto].
  destruct (NewHMACWithOptions _ _ _ _ _); do 2 eexists; (split; [reflexivity|]);
    by rewrite ?(set_counts_keeps (pf := pf)), (set_nonces_keeps (pf := pf)).
Qed.

Lemma newWithQueueWithRecorder_settled c q enc store closers w0 w :
  wired held w0 closers w → settled held app_closers w0 (newWithQueueWithRecorder pf c q enc store closers w).
Proof.
  intros Hw. unfold newWithQueueWithRecorder. destruct (new_hook_handler_ret c q enc store w) as ([hook|e]&w1&->&Hk).
  - cbn. by eapply wired_same.
  - apply fail_wiring_settled. by eapply wired_same.
Qed.

Lemma newWithWorkerDependencies_settled c q recv proc dlq codec store closers w0 w :
  wired held w0 closers w → settled held app_closers w0 (newWithWorkerDependenciesWithSyncStatusAndRecorder pf c q recv proc dlq codec store closers w).
Proof.
  intros Hw. unfold newWithWorkerDependenciesWithSyncStatusAndRecorder. destruct codec as [codec|]; [|by apply fail_wiring_settled].
  destruct store as [store|]; [|by apply fail_wiring_settled]. unfold newWithQueueWithRecorder.
  destruct (new_hook_handler_ret c q (Some (codec_encrypter pf codec)) (Some store) w) as ([hook|e]&w1&->&Hk);
    pose proof (wired_same _ _ _ _ _ Hw Hk) as Hw1.
  - destruct (Worker.New _ _ _ _ _) as [wk|e]; [done|by apply fail_wiring_settled].
  - by destruct (fail_wiring_undo held (A := @App W R) e closers w0 w1 Hw1) as (e'&w'&->&H).
Qed.

Lemma new_on_runtimes_settled c rt store closers w0 w :
  wired held w0 closers w → settled held app_closers w0 (new_on_runtimes pf c rt store closers w).
Proof.
  intros Hw. unfold new_on_runtimes. pose proof (secret_credential_keeps (pf := pf) (GraphTenantID c) (GraphClientID c) (GraphClientSecret c) w) as Hk.
  destruct (NewClientSecretCredential _ _ _ _ w) as [[cred|e] w1]; cbn in Hk; pose proof (wired_same _ _ _ _ _ Hw Hk) as Hw1;
    [|by apply fail_wiring_settled].
  repeat (case_match; try by apply fail_wiring_settled). by apply newWithWorkerDependencies_settled.
Qed.

Lemma with_closer_app closers cl : with_closer closers cl = closers ++ with_closer (W := W) [] cl.
Proof. destruct cl; cbn; [done|by rewrite app_nil_r]. Qed.

(** C9 A start that fails leaves nothing behind, and a start that succeeds
    can be undone: for every configuration and every way the libraries
    answer, either New returns an error and exactly what was open before is
    still open (connections, goroutines, credentials and the tracing
    pipeline opened on the way are closed again), or it returns an
    application whose closers close exactly what it opened. *)
Theorem start_leaks_nothing c : opens held (New pf parse_error c) app_closers.
Proof.
  intros w. unfold New. destruct (Validate _ c); [done|].
  pose proof (newObservabilityRuntime_opens c w) as Ho. destruct (newObservabilityRuntime pf c w) as [[[closers|e]|v] w1]; [|done|done].
  pose proof (newServiceBusRuntime_opens held (bus_lib pf) (NewDefaultAzureCredential pf) c credential_keeps w1) as Hb.
  destruct (newServiceBusRuntime _ _ c w1) as [[[rt|e]|v] w2]; [| |done]; cbn in Ho, Hb.
  2: { apply fail_wiring_settled. by eapply wired_same. }
  pose proof (wired_app _ _ _ _ _ _ Ho Hb) as Hob. pose proof (newSyncStatusRuntime_opens c w2) as Hs.
  destruct (newSyncStatusRuntime pf parse_error c w2) as [[[ss|e]|v] w3]; [| |done]; cbn in Hs.
  2: { apply fail_wiring_settled. by eapply wired_same. }
  pose proof (wired_app _ _ _ _ _ _ Hob Hs) as Hobs. unfold sync_closers in Hobs. rewrite <- with_closer_app in Hobs.
  destruct (ss_store ss); [by apply new_on_runtimes_settled|by apply fail_wiring_settled].
Qed.
End Wiring.

(** ** Starting *)

(** Libraries whose calls succeed. *)
Class Available {W R Cl Cred} (pf : Platform W R Cl Cred) : Prop := {
  up_client_string cs w : ∃ cl w', NewClientFromConnectionString (bus_lib pf) cs w = (Ok cl, w');
  up_client_namespace fqdn cred w : ∃ cl w', azservicebus_NewClient (bus_lib pf) fqdn cred w = (Ok cl, w');
  up_sender cl name w : ∃ s w', NewSender (bus_lib pf) cl name w = (Ok s, w');
  up_receiver cl name w : ∃ r w', NewReceiverForQueue (bus_lib pf) cl name w = (Ok r, w');
  up_credential w : ∃ cred w', NewDefaultAzureCredential pf w = (Ok cred, w');
  up_exporter endpoint w : ∃ e w', otlptracegrpc_New (otel pf) endpoint w = (Ok e, w');
  up_managed id : ∃ cred, NewManagedIdentityCredential pf id = Ok cred;
  up_token_manager cred w : ∃ tm w', NewTokenManager pf cred w = (Ok tm, w');
  up_start tm w : ∃ stop w', tokenManager_Start pf tm w = (Ok stop, w');
  up_ping c d w : ∃ w', redis_Ping pf c d w = (Ret None, w');
  up_secret_credential t i s w : ∃ cred w', NewClientSecretCredential pf t i s w = (Ok cred, w');
  up_url : ∃ u, url_Parse pf defaultBaseURL = Ok u ∧ u_Scheme u ≠ ""%string ∧ u_Host u ≠ ""%string
}.

Section Start.
Context {U : UnicodeTables} {W R Cl Cred : Type} (pf : Platform W R Cl Cred) (parse_error : string → error).
Implicit Types (c : Config) (w : W).

(** What the checks of a configuration establish for the constructors. *)
Lemma Validate_parts c : Validate (uuid_valid pf) c = None →
  ValidateHTTP c = None ∧ validateServiceBus c = None ∧ validateSyncStatus (uuid_valid pf) c = None.
Proof. unfold Validate. rewrite !and_then_none. tauto. Qed.

(** The store's own checks repeat those of the configuration. *)
Lemma redis_options_valid c : validateSyncStatus (uuid_valid pf) c = None → SyncStatusStore c = SyncStatusStoreRedis →
  TrimSpace (AzureClientID c) = AzureClientID c → validateRedisOptions (uuid_valid pf) (redis_options c) = None.
Proof.
  unfold validateSyncStatus. rewrite !and_then_none. intros (_&_&H) Hr Htrim. rewrite Hr in H.
  rewrite bool_decide_false, bool_decide_true, switch_none, !Forall_cons in H by done. cbn [fst] in H. unfold blank in H.
  rewrite orb_false_iff, negb_false_iff in H. destruct H as (H1&[H2 H3]&H4&H5&H6&H7&H8&H9&_).
  unfold validateRedisOptions, validateRedisStoreOptions, redis_options.
  cbn [KeyPrefix PendingTTL TerminalTTL Host Port ManagedIdentityClientID PingTimeout].
  rewrite H5, H6, H7, H1, H2, H3, H4, Htrim, H9. rewrite Htrim in H8. by rewrite H8.
Qed.

(** What an application that started consists of. *)
Definition wired_app c (codec : Codec) (store : SyncStore W) (q : BusQueue W) (graph : HTTPClient W) (app : App) (wk : Worker W) : Prop :=
  (∃ m service,
    server app = serve (http_Redirect pf) (escaped_path pf)
      (Some (hook_chain (time_Now pf) (get_counts pf) (set_counts pf) (rand_Read pf) (body_Reader pf) (read_fuel pf)
               (ProblemBaseURL c) m (NewRateLimiter (rate_config c))
               (Hook.ServeHTTP (NewHookWithOptions service (ProblemBaseURL c)) BytesReader (read_fuel pf)))) Current ∧
    secret m = bytes_of_string (HMACSecret c) ∧
    primaryDomain service = EntraPrimaryDomain c ∧ queue service = Some (bus_queue q) ∧
    encrypter service = Some (mkEncrypter (Encrypt (rand_ReadFull pf) codec)) ∧ syncStatusStore service = Some store ∧
    svc_now service = time_Now pf) ∧
  app_worker app = Some wk ∧ passwordDecrypter wk = Decrypt codec ∧
  rec_MarkSynced (syncStatusRecorder wk) = MarkSynced store ∧ rec_MarkFailed (syncStatusRecorder wk) = MarkFailed store ∧
  processor wk = ProcessPasswordSync (directory_processor graph (time_Now pf)) ∧ afterRequestBodyBuilt graph = None ∧
  retryBackoffs wk = defaultRetryBackoffs.

Lemma fail_wiring_not_ok {A} e closers w (a : A) w' : fail_wiring e closers w ≠ (Ret (Ok a), w').
Proof. unfold fail_wiring. by destruct (closeAfterWiringError e closers w) as [[]]. Qed.

Lemma NewHMACWithOptions_secret sec (ns : option (NonceStore W)) sk base maxBody m :
  NewHMACWithOptions sec ns sk base maxBody = Ok m → secret m = bytes_of_string sec.
Proof.
  unfold NewHMACWithOptions. destruct (bool_decide _); [done|]. destruct (sk <=? 0); [done|]. destruct (maxBody <? 0); [done|].
  by intros [= <-].
Qed.

Lemma new_on_runtimes_Ok c rt store closers w app w' : new_on_runtimes pf c rt store closers w = (Ret (Ok app), w') →
  ∃ codec graph wk, newPasswordCodec pf c = Ok codec ∧ wired_app c codec store (rt_queue rt) graph app wk.
Proof.
  unfold new_on_runtimes. destruct (NewClientSecretCredential _ _ _ _ w) as [[cred|e] w1]; [|by intros H%fail_wiring_not_ok].
  destruct (NewHTTPClient _ _ _ _ _ _) as [graph|e] eqn:Eg; [|by intros H%fail_wiring_not_ok]. cbn [NewWithOptions].
  destruct (newPasswordCodec pf c) as [codec|e]; [|by intros H%fail_wiring_not_ok].
  assert (afterRequestBodyBuilt graph = None) as Ha.
  { unfold NewHTTPClient in Eg. destruct (url_Parse pf _); [|done]. destruct (_ || _); [done|]. by injection Eg as <-. }
  unfold newWithWorkerDependenciesWithSyncStatusAndRecorder, newWithQueueWithRecorder, new_hook_handler, MemoryNonce.new_memory_nonces. intros H.
  destruct (NewService _ _ _ _ _) as [service|v] eqn:Es; [|done]. destruct (NewHMACWithOptions _ _ _ _ _) as [m|e] eqn:Em.
  - injection H as <- <-. exists codec, graph. eexists. split; [done|]. split.
    + exists m, service. split; [reflexivity|]. injection Es as <-. split; [|split_and!; reflexivity].
      by eapply NewHMACWithOptions_secret.
    + split_and!; [reflexivity..|exact Ha|reflexivity].
  - destruct (fail_wiring e closers _) as [[[a|e']|v] w2] eqn:Ef; [by apply fail_wiring_not_ok in Ef|done|done].
Qed.

(** Every start that succeeds went through the steps of New. *)
Lemma New_Ok c w app w' : New pf parse_error c w = (Ret (Ok app), w') →
  ∃ rt store closers w1, new_on_runtimes pf c rt store closers w1 = (Ret (Ok app), w').
Proof.
  unfold New. destruct (Validate _ c); [done|]. destruct (newObservabilityRuntime pf c w) as [[[closers|e]|v] w1]; [|done|done].
  destruct (newServiceBusRuntime _ _ c w1) as [[[rt|e]|v] w2]; [|by intros H%fail_wiring_not_ok|done].
  destruct (newSyncStatusRuntime pf parse_error c w2) as [[[ss|e]|v] w3]; [|by intros H%fail_wiring_not_ok|done].
  destruct (ss_store ss) as [store|]; [|by intros H%fail_wiring_not_ok]. eauto.
Qed.

Section Up.
Context `{!Available pf}.

Lemma bus_links_up ttl q1 q2 q3 (open : W → result Cl * W) : (∀ w, ∃ cl w', open w = (Ok cl, w')) →
  ∀ w, ∃ rt w', bus_runtime (λ w, queue_on (bus_lib pf) ttl q1 (open w)) (λ w, receiver_on (bus_lib pf) q2 (open w))
    (λ w, dlq_on (bus_lib pf) q3 (open w)) w = (Ret (Ok rt), w').
Proof.
  intros Ho w. unfold bus_runtime, queue_on, receiver_on, dlq_on. destruct (Ho w) as (cl&w1&->).
  destruct (up_sender cl q1 w1) as (s&w2&->). cbn [open_link NewWithClient].
  destruct (Ho w2) as (cl2&w3&->). destruct (up_receiver cl2 q2 w3) as (r&w4&->). cbn [open_link].
  destruct (Ho w4) as (cl3&w5&->). destruct (up_sender cl3 q3 w5) as (d&w6&->). cbn. eauto.
Qed.

Lemma newServiceBusRuntime_up c w : validateServiceBus c = None →
  ∃ rt w', newServiceBusRuntime (bus_lib pf) (NewDefaultAzureCredential pf) c w = (Ret (Ok rt), w').
Proof.
  unfold validateServiceBus. rewrite !and_then_none, (switch_none [_; _; _]), !Forall_cons. cbn [fst]. unfold blank.
  intros (_&Hmode&Hq&Hd&_). rewrite !bool_decide_eq_false in Hq, Hd. unfold newServiceBusRuntime. case_bool_decide.
  - apply (bus_links_up _ _ _ _ (client_from_string (bus_lib pf) _)). intros w0. unfold client_from_string.
    destruct (up_client_string (ServiceBusConnectionString c) w0) as (cl&w'&->). eauto.
  - case_bool_decide; [|done]. rewrite switch_none, !Forall_cons in Hmode. cbn [fst] in Hmode. destruct Hmode as (Hn&_).
    rewrite bool_decide_eq_false in Hn. unfold newManagedIdentityServiceBusRuntime.
    destruct (up_credential w) as (cred&w1&->). unfold NewFromNamespace, NewReceiverFromNamespace, NewDeadLetterQueueFromNamespace.
    rewrite !bool_decide_false by done. apply (bus_links_up _ _ _ _ (newClientFromNamespace (bus_lib pf) _ (Some cred))).
    intros w0. unfold newClientFromNamespace. rewrite bool_decide_false by (intros E; by rewrite E in Hn).
    destruct (up_client_namespace (TrimSpace (ServiceBusNamespaceFQDN c)) cred w0) as (cl&w'&->). eauto.
Qed.

Lemma newObservabilityRuntime_up c w : ∃ closers w', newObservabilityRuntime pf c w = (Ret (Ok closers), w').
Proof.
  unfold newObservabilityRuntime. destruct (negb _); [eauto|]. unfold SetupOTel. case_bool_decide.
  - destruct (up_credential w) as (cred&w1&->). destruct (newPeriodicMetricFlusher _ _ _ _); eauto.
  - rewrite bool_decide_false by by vm_compute. destruct (up_exporter (TrimSpace (OTLPExporterEndpoint c)) w) as (e&w1&->).
    destruct (NewTracerProvider _ _ e w1) as [p w2]. destruct (up_credential (SetTracerProvider (otel pf) (Some p) w2)) as (cred&w3&->).
    destruct (newPeriodicMetricFlusher _ _ _ _); eauto.
Qed.

Lemma newSyncStatusRuntime_up c w : validateSyncStatus (uuid_valid pf) c = None → TrimSpace (AzureClientID c) = AzureClientID c →
  ∃ store cl w', newSyncStatusRuntime pf parse_error c w = (Ret (Ok (mkSyncRuntime (Some store) cl)), w').
Proof.
  intros Hv Htrim. unfold newSyncStatusRuntime. case_bool_decide as Hm; [by do 3 eexists|]. case_bool_decide as Hr.
  2: { unfold validateSyncStatus in Hv. rewrite !and_then_none in Hv. destruct Hv as (_&_&Hv). by rewrite !bool_decide_false in Hv by done. }
  pose proof (redis_options_valid c Hv Hr Htrim) as Ho. unfold NewManagedIdentityRedisStore. rewrite Ho.
  destruct (up_managed (TrimSpace (ManagedIdentityClientID (redis_options c)))) as [cred ->].
  unfold newStreamingCredentialsProvider, newOwnedCredentialsProvider. cbn [negb].
  destruct (up_token_manager cred w) as (tm&w0&->). destruct (up_start tm w0) as (stop&w1&->). destruct (NewClusterClient pf _ _ w1) as [cl w2].
  unfold validateRedisOptions in Ho. unfold NewRedisStore. destruct (validateRedisStoreOptions _ _ _); [done|].
  destruct (up_ping cl (PingTimeout (redis_options c)) w2) as [w3 ->]. by do 3 eexists.
Qed.

Lemma new_on_runtimes_up c rt store closers w codec : ValidateHTTP c = None → newPasswordCodec pf c = Ok codec →
  ∃ app w', new_on_runtimes pf c rt store closers w = (Ret (Ok app), w').
Proof.
  intros Hv Hc. unfold new_on_runtimes.
  destruct (up_secret_credential (GraphTenantID c) (GraphClientID c) (GraphClientSecret c) w) as (cred&w1&->).
  unfold NewHTTPClient. cbn [opt_BaseURL opt_HTTPClient opt_Scope opt_AfterRequestBodyBuilt].
  replace (bool_decide (TrimSpace "" = ""%string)) with true by by vm_compute. cbn [u_text].
  destruct up_url as (u&->&Hs&Hh). rewrite !bool_decide_false by done. cbn [orb NewWithOptions]. rewrite Hc.
  unfold newWithWorkerDependenciesWithSyncStatusAndRecorder, newWithQueueWithRecorder, new_hook_handler, NewService,
    MemoryNonce.new_memory_nonces, NewHMACWithOptions.
  apply ValidateHTTP_parts in Hv as (_&_&_&_&Hsec&Hskew&_&_&_&_&_&Hmax). unfold blank in Hsec. rewrite Hsec.
  rewrite (proj2 (Z.leb_gt _ _) Hskew), (proj2 (Z.ltb_ge _ _) (Z.lt_le_incl _ _ Hmax)). by do 2 eexists.
Qed.
End Up.

Lemma New_up `{!Available pf} c w codec :
  Validate (uuid_valid pf) c = None → TrimSpace (AzureClientID c) = AzureClientID c → newPasswordCodec pf c = Ok codec →
  ∃ app w', New pf parse_error c w = (Ret (Ok app), w').
Proof.
  intros Hv Htrim Hc. destruct (Validate_parts c Hv) as (Hh&Hb&Hs). unfold New. rewrite Hv.
  destruct (newObservabilityRuntime_up c w) as (closers&w1&->). destruct (newServiceBusRuntime_up c w1 Hb) as (rt&w2&->).
  destruct (newSyncStatusRuntime_up c w2 Hs Htrim) as (store&cl&w3&->). cbn [ss_store].
  by apply new_on_runtimes_up with codec.
Qed.

(** C28 What the constructors check is what the configuration was checked
    for: with libraries that answer, a configuration that passes Validate
    (with its client id free of surrounding space, as Load leaves it) starts
    exactly when its encryption key is one the codec accepts.  No other
    constructor on the way refuses a value that Validate let through. *)
Theorem validated_config_starts `{!Available pf} c w :
  Validate (uuid_valid pf) c = None → TrimSpace (AzureClientID c) = AzureClientID c →
  (∃ app w', New pf parse_error c w = (Ret (Ok app), w')) ↔ ∃ codec, newPasswordCodec pf c = Ok codec.
Proof.
  intros Hv Htrim. split; [|intros [codec Hc]; by apply New_up with codec].
  intros (app&w'&(rt&store&closers&w1&H)%New_Ok). apply new_on_runtimes_Ok in H as (codec&?&?&Hc&_). eauto.
Qed.

(** C16 One system: in every application that starts, the hook route ends in
    a service that encrypts with the configured key and sends to the bus
    queue, and the worker decrypts with the same key, hands the passwords to
    the directory client, and reports outcomes to the very store the service
    consults; the request bodies are seen by no observer and the retry
    schedule is the default one. *)
Theorem start_wires_system c w app w' : New pf parse_error c w = (Ret (Ok app), w') →
  ∃ codec store q graph wk, newPasswordCodec pf c = Ok codec ∧ wired_app c codec store q graph app wk.
Proof.
  intros (rt&store&closers&w1&H)%New_Ok. apply new_on_runtimes_Ok in H as (codec&graph&wk&Hc&Hw).
  by exists codec, store, (rt_queue rt), graph, wk.
Qed.
End Start.

(** ** main *)

(** How the process goes on after its start: an exit with a code, or the
    application running with a configuration. *)
Inductive startup (W R : Type) := StartExit (code : Z) | Started (cfg : Config) (app : @App W R).
Arguments StartExit {W R} _.
Arguments Started {W R} _ _.

Section Main.
Context {U : UnicodeTables} {W R Cl Cred : Type} (pf : Platform W R Cl Cred) (parse_error : string → error).
Context (as_response : error → option (Z * string)) (type_name : error → string).
(** The error of the signal context in a world. *)
Context (Done : W → option error).
Context (azsecrets_NewClient : string → Cred → W → result (string → W → result (option string) * W) * W).

Definition main_start (Getenv : string → string) (w : W) : outcome (startup W R) * W :=
  match Resolve as_response type_name Done (NewDefaultAzureCredential pf) azsecrets_NewClient (Load Getenv) None w with
  | (Err _, w1) => (Ret (StartExit (match Done w1 with Some _ => 0 | None => 1 end)), w1)
  | (Ok cfg, w1) =>
    match New pf parse_error cfg w1 with
    | (Panic v, w2) => (Panic v, w2)
    | (Ret (Err _), w2) => (Ret (StartExit 1), w2)
    | (Ret (Ok app), w2) => (Ret (Started cfg app), w2)
    end
  end.

(** The exit code after Run returned [err]. *)
Definition main_exit (err : option error) (w : W) : Z :=
  match err, Done w with Some _, None => 1 | _, _ => 0 end.

(** Nothing runs on a configuration that Validate refuses. *)
Lemma main_started Getenv w cfg app w' : main_start Getenv w = (Ret (Started cfg app), w') →
  Validate (uuid_valid pf) cfg = None ∧ ∃ w1, New pf parse_error cfg w1 = (Ret (Ok app), w').
Proof.
  unfold main_start. destruct (Resolve _ _ _ _ _ _ _ w) as [[c|e] w1]; [|done].
  destruct (New pf parse_error c w1) as [[[a|e]|v] w2] eqn:E; [|done|done]. intros [= -> -> ->]. split; [|by exists w1].
  unfold New in E. by destruct (Validate _ cfg).
Qed.
End Main.

(** ** Witnesses *)

Section AppWitnesses.
#[local] Existing Instance Latin1Tables.

(** A platform whose world is its ledger; [healthy] is the answer of the
    Redis server. *)
Definition toy_open (w : gset nat) : nat * gset nat := let i := fresh w in (i, w ∪ {[i]}).
Definition toy_close (i : nat) (w : gset nat) : gset nat := w ∖ {[i]}.
Definition toy_closer (i : nat) : closer (gset nat) := λ _ w, (Ret None, toy_close i w).
Definition toy_quiet : closer (gset nat) := λ _ w, (Ret None, w).

Definition toy_bus : BusLib (gset nat) nat unit :=
  mkBusLib _ _ _ (λ _ w, let '(i, w') := toy_open w in (Ok i, w')) (λ _ _ w, let '(i, w') := toy_open w in (Ok i, w'))
    (λ _ _ w, (Ok (mkSender (λ _ _ w, (Ret None, w)) toy_quiet), w))
    (λ _ _ w, (Ok (mkBusReceiver (λ _ _, mret (Ok [])) (λ _ _, mret None) (λ _ _, mret None) toy_quiet), w)) toy_closer.

Definition toy_otel : OTel (gset nat) :=
  mkOTel _ unit nat (λ _ w, (Ok tt, w)) (λ _ _ w, toy_open w) (λ _ w, w) toy_closer.

Definition toy_redis_client (i : nat) : Redis (gset nat) :=
  mkRedis (λ _ _, ∅) (λ _ _, None) (λ _ _ w, w) (λ _ _ w, w) (λ _ _ w, (Ret (Ok ∅), w)) (λ _ _ w, (Ret None, w))
    (toy_closer i detached).

Definition toy_platform (healthy : bool) : Platform (gset nat) bytes nat unit :=
  mkPlatform _ _ _ _ toy_bus (λ w, (Ok tt, w)) toy_otel toy_open toy_close
    (λ _, Metrics.mkRecorder (mkMetricOptions "" "" "" "") ∅) (λ _ w, w) (λ _ _ w, (Ok "t"%string, w)) (λ _ _ _ w, (Ok 202, w))
    (λ _, None) (λ _, true) unit (λ _, Ok tt)
    unit (λ _ w, (Ok tt, w)) (λ _ w, let '(i, w') := toy_open w in (Ok (λ w, (None, toy_close i w)), w'))
    (λ _ _ w, let '(i, w') := toy_open w in (toy_redis_client i, w'))
    (λ _ _ w, (Ret (if healthy then None else Some ErrEOF), w)) (λ _, 0) (λ _, NewMemoryStore 0) (λ _ w, w)
    (λ _ _ _ w, (Ok (λ _ _ w, (Ret (Ok "t"%string), w)), w))
    (λ u, Ok (mkURL "https" "graph.microsoft.com" u)) (λ _ w, (Ret (Ok 204), w)) (λ _, None) (λ _ n, n) unit (λ _, Ok tt) (λ _, Ok toy_AEAD)
    (λ w, (1, w)) (λ _ _ w, (None, w)) (λ n w, (Some (replicate n 7), w)) (λ n w, (Ok (replicate n 7), w))
    (λ _, ∅) (λ _ w, w) (λ _, mkNativeTable ∅ 0) (λ _ w, w) marshal_utc
    (λ _, MemoryNonce.NewMemoryNonceStore Minute) (λ _ w, w) BytesReader 100 (λ _ _, WriteHeader 301) Path.

Lemma toy_open_fresh w i w' : toy_open w = (i, w') → i ∉ w ∧ w' = w ∪ {[i]}.
Proof. intros [= <- <-]. split; [apply is_fresh|done]. Qed.

Lemma toy_closer_closes i : closes id (toy_closer i) {[i]}.
Proof. intros ctx w. by do 2 eexists. Qed.

Lemma toy_quiet_closes : closes id toy_quiet ∅.
Proof. intros ctx w. do 2 eexists. split; [done|]. cbn. set_solver. Qed.

#[local] Instance toy_bus_laws : BusLaws id toy_bus.
Proof.
  split; cbn -[toy_open].
  - intros _ w. destruct (toy_open w) as [i w'] eqn:E. apply toy_open_fresh in E as [? ?].
    exists i. split_and!; [done..|apply toy_closer_closes].
  - intros _ _ w. destruct (toy_open w) as [i w'] eqn:E. apply toy_open_fresh in E as [? ?].
    exists i. split_and!; [done..|apply toy_closer_closes].
  - intros _ _ w. split; [done|apply toy_quiet_closes].
  - intros _ _ w. split; [done|apply toy_quiet_closes].
Qed.

#[local] Instance toy_platform_laws healthy : PlatformLaws id (toy_platform healthy).
Proof.
  split; try (intros; exact eq_refl).
  - apply toy_bus_laws.
  - intros endpoint w e w1 H. discriminate H.
  - intros endpoint name w [] w1 p w2 [= <-] E. apply toy_open_fresh in E as [? ?]. exists p. split_and!; [done..|apply toy_closer_closes].
  - intros w i w1 E. by apply toy_open_fresh in E.
  - intros tm w. cbn -[toy_open]. destruct (toy_open w) as [i w'] eqn:E. apply toy_open_fresh in E as [? ?].
    exists i. by split_and!.
  - intros host port w c w1 E. cbn -[toy_open] in E. destruct (toy_open w) as [i w'] eqn:E'. injection E as <- <-.
    apply toy_open_fresh in E' as [? ?]. exists i. split_and!; [done..|]. intros ctx w2. by do 2 eexists.
  - intros c d w. by do 2 eexists.
Qed.

Definition toy_parse_error (s : string) : error := ErrorQuoted "parsing time" s.

(** The Redis server does not answer the ping of the start. *)
Lemma start_leaks_nothing_witness :
  opens id (New (toy_platform false) toy_parse_error sample_config) app_closers.
Proof. apply (start_leaks_nothing (toy_platform false) id toy_parse_error sample_config). Defined.

Example unhealthy_start_fails : ∃ e w', New (toy_platform false) toy_parse_error sample_config ∅ = (Ret (Err e), w').
Proof. vm_compute. eauto. Qed.

#[local] Instance toy_available : Available (toy_platform true).
Proof. split; intros; try (by do 3 eexists); by do 2 eexists. Qed.

Definition toy_codec : Codec := mkCodec toy_AEAD (PasswordEncryptionKeyID sample_config).

Lemma validated_config_starts_witness :
  (∃ app w', New (toy_platform true) toy_parse_error sample_config ∅ = (Ret (Ok app), w')) ↔
  ∃ codec, newPasswordCodec (toy_platform true) sample_config = Ok codec.
Proof. apply (validated_config_starts (toy_platform true) toy_parse_error sample_config ∅); vm_compute; reflexivity. Defined.

Lemma start_wires_system_witness : ∃ app w',
  New (toy_platform true) toy_parse_error sample_config ∅ = (Ret (Ok app), w') ∧
  ∃ codec store q graph wk, newPasswordCodec (toy_platform true) sample_config = Ok codec ∧
    wired_app (toy_platform true) sample_config codec store q graph app wk.
Proof.
  destruct (New_up (toy_platform true) toy_parse_error sample_config ∅ toy_codec) as (app&w'&H); [vm_compute; reflexivity..|].
  exists app, w'. split; [exact H|]. exact (start_wires_system (toy_platform true) toy_parse_error sample_config ∅ app w' H).
Defined.
End AppWitnesses.
