(* ===== verification/Lifecycle.v ===== *)
(** * Running and stopping (internal/app, internal/httpserver)

    The goroutines of the running service as step relations: Server.Run,
    App.Run with its two goroutines and the error channel, and the periodic
    metric flusher.  [bool] arguments of component steps say whether the
    context they run under is done.  The worker's loop moves one call or one
    test of its context at a time, so that a cancellation can fall anywhere,
    inside a call too; a panic of one of its calls, which no deferred function
    recovers, ends the process.  The theorems: a reachable state of App.Run
    whose context is done has only finite executions, all of which end with
    both components returned (or with such a panic), and the error reported is
    the first one sent; a server told to stop ends with nil; a flusher's last
    flush runs alone. *)
From stdpp Require Import base gmap strings list relations.
From Stdlib Require Import ZArith Lia.
From S2P Require Import Prelude GoStrings GoTime GoBase Observability GoState Worker ServiceBusQueue Resources.

(** ** Server.Run *)

Inductive listener := Listening | Stopped (e : error).

(** Where Run is: in its select, in Shutdown, or in the receive after it. *)
Inductive serverPc := Selecting (l : listener) | ShuttingDown (l : listener) | Draining (l : listener).

(** [if errors.Is(err, http.ErrServerClosed) { return nil }; return err]. *)
Definition closed_is_nil (e : error) : option error := if errors_Is e is_server_closed then None else Some e.

(** [stops b e]: ListenAndServe may return [e], [b] telling whether Shutdown
    was called; [fails e]: Shutdown may return [e]. *)
Inductive server_step (stops : bool → error → Prop) (fails : error → Prop) : bool → serverPc → serverPc + option error → Prop :=
  | listener_fails done e : stops false e → server_step stops fails done (Selecting Listening) (inl (Selecting (Stopped e)))
  | select_done l : server_step stops fails true (Selecting l) (inl (ShuttingDown l))
  | select_error done e : server_step stops fails done (Selecting (Stopped e)) (inr (closed_is_nil e))
  | shutdown_stops done e : stops true e → server_step stops fails done (ShuttingDown Listening) (inl (ShuttingDown (Stopped e)))
  | shutdown_fails done l e : fails e → server_step stops fails done (ShuttingDown l) (inr (Some e))
  | shutdown_ok done l : server_step stops fails done (ShuttingDown l) (inl (Draining l))
  | drain_stops done e : stops true e → server_step stops fails done (Draining Listening) (inl (Draining (Stopped e)))
  | drain_receives done e : server_step stops fails done (Draining (Stopped e)) (inr (closed_is_nil e)).

(** ** Worker.Run *)

(** Where Run is: at the test of its loop, in ReceiveMessages, after one that
    failed, in the wait after an empty one, before a message of a batch, or in
    processMessage with the rest of the batch to do. *)
Inductive worker_pc (W : Type) :=
  | AtLoop (st : St W)
  | Receiving (st : St W)
  | ReceiveFailed (e : error) (st : St W)
  | Waiting (st : St W)
  | InBatch (messages : list (option Message)) (st : St W)
  | Processing (msg : option Message) (messages : list (option Message)) (st : St W).
Arguments AtLoop {W} _.
Arguments Receiving {W} _.
Arguments ReceiveFailed {W} _ _.
Arguments Waiting {W} _.
Arguments InBatch {W} _ _.
Arguments Processing {W} _ _ _.

Section WorkerSteps.
Context {W : Type} (wk : Worker W) (run_ctx : W → Context).
(** [observes w w']: the world [w] in which the context will be seen done from
    some point of the next call on. *)
Context (observes : W → W → Prop).
Implicit Types st : St W.

(** The state a call runs in. *)
Definition call_state (done : bool) st st0 : Prop :=
  st0 = st ∨ done = true ∧ ∃ w, observes (world st) w ∧ st0 = set_world w st.

Definition receive st : outcome (result (list (option Message))) * St W :=
  ReceiveMessages (receiver wk) (run_ctx (world st)) (maxMessages wk) st.
Definition empty_wait st : outcome (option error) * St W :=
  call (wk_sleep wk (run_ctx (world st)) (emptyReceiveDelay wk)) st.

Inductive worker_step : bool → worker_pc W → worker_pc W + option error → Prop :=
  | loop_done st : worker_step true (AtLoop st) (inr None)
  | loop_goes_on st : worker_step false (AtLoop st) (inl (Receiving st))
  | received done st st0 messages st1 : call_state done st st0 → receive st0 = (Ret (Ok messages), st1) →
      worker_step done (Receiving st) (inl (match messages with [] => Waiting st1 | _ => InBatch messages st1 end))
  | receive_fails done st st0 e st1 : call_state done st st0 → receive st0 = (Ret (Err e), st1) →
      worker_step done (Receiving st) (inl (ReceiveFailed e st1))
  | failed_done e st : worker_step true (ReceiveFailed e st) (inr None)
  | failed_alone e st : worker_step false (ReceiveFailed e st) (inr (Some (Wrapped "receive worker messages" e)))
  | waited done st st0 st1 : call_state done st st0 → empty_wait st0 = (Ret None, st1) →
      worker_step done (Waiting st) (inl (AtLoop st1))
  | wait_interrupted done st st0 e st1 : call_state done st st0 → empty_wait st0 = (Ret (Some e), st1) →
      worker_step done (Waiting st) (inr None)
  | batch_over done st : worker_step done (InBatch [] st) (inl (AtLoop st))
  | batch_done msg messages st : worker_step true (InBatch (msg :: messages) st) (inr None)
  | batch_next msg messages st : worker_step false (InBatch (msg :: messages) st) (inl (Processing msg messages st))
  | processed done msg messages st st0 st1 : call_state done st st0 → processMessage wk run_ctx msg st0 = (Ret None, st1) →
      worker_step done (Processing msg messages st) (inl (InBatch messages st1))
  | process_fails done msg messages st st0 e st1 : call_state done st st0 → processMessage wk run_ctx msg st0 = (Ret (Some e), st1) →
      worker_step done (Processing msg messages st) (inr (Some e)).

(** A call that panics, and with it the process. *)
Definition worker_panics (done : bool) (pc : worker_pc W) : Prop :=
  match pc with
  | Receiving st => ∃ st0 v st1, call_state done st st0 ∧ receive st0 = (Panic v, st1)
  | Waiting st => ∃ st0 v st1, call_state done st st0 ∧ empty_wait st0 = (Panic v, st1)
  | Processing msg _ st => ∃ st0 v st1, call_state done st st0 ∧ processMessage wk run_ctx msg st0 = (Panic v, st1)
  | _ => False
  end.

(** The steps are those of the loop: under a context that is not done, a round
    of Worker.v is a sequence of them. *)
Lemma process_batch_steps messages : (∀ w, ctx_err (run_ctx w) = None) → ∀ st r st',
  process_batch wk run_ctx messages st = (Ret r, st') →
  ∃ pc, rtc (λ pc pc', worker_step false pc (inl pc')) (InBatch messages st) pc ∧
    match r with None => pc = AtLoop st' | Some res => worker_step false pc (inr res) end.
Proof.
  intros Hctx. induction messages as [|msg messages IH]; intros st r st' H; cbn [process_batch] in H.
  { apply mret_inv in H as [[= ->] ->]. eexists. split; [apply rtc_once, batch_over|done]. }
  unfold ctx_now at 1 in H. rewrite (bind_ret _ _ _ (run_ctx (world st)) st) in H by done. rewrite Hctx in H.
  apply bind_inv in H as [(err&st1&Hp&H)|(v&_&?)]; [|done]. destruct err as [e|].
  - apply mret_inv in H as [[= ->] ->]. eexists. split; [apply rtc_once, batch_next|]. eapply process_fails; [by left|exact Hp].
  - destruct (IH st1 r st' H) as (pc&Hs&Hr). exists pc. split; [|done].
    eapply rtc_l; [apply batch_next|]. eapply rtc_l; [eapply processed; [by left|exact Hp]|]. done.
Qed.

Lemma run_round_steps st r st' : (∀ w, ctx_err (run_ctx w) = None) → run_round wk run_ctx st = (Ret r, st') →
  ∃ pc, rtc (λ pc pc', worker_step false pc (inl pc')) (AtLoop st) pc ∧
    match r with None => pc = AtLoop st' | Some res => worker_step false pc (inr res) end.
Proof.
  intros Hctx H. unfold run_round in H. unfold ctx_now at 1 in H.
  rewrite (bind_ret _ _ _ (run_ctx (world st)) st) in H by done. rewrite Hctx in H.
  apply bind_inv in H as [(rs&st1&Hr&H)|(v&_&?)]; [|done].
  destruct rs as [[|msg messages]|e].
  - unfold ctx_now in H. rewrite (bind_ret _ _ _ (run_ctx (world st1)) st1) in H by done.
    apply bind_inv in H as [(err&st2&Hw&H)|(v&_&?)]; [|done].
    exists (match err with Some _ => Waiting st1 | None => AtLoop st2 end).
    assert (rtc (λ pc pc', worker_step false pc (inl pc')) (AtLoop st) (Waiting st1)) as Hs.
    { eapply rtc_l; [apply loop_goes_on|]. apply rtc_once. by eapply (received false st st []); [left|]. }
    destruct err as [e|]; apply mret_inv in H as [[= ->] ->].
    + split; [done|]. eapply wait_interrupted; [by left|exact Hw].
    + split; [|done]. eapply rtc_r; [exact Hs|]. eapply waited; [by left|exact Hw].
  - destruct (process_batch_steps _ Hctx st1 r st' H) as (pc&Hs&Hres). exists pc. split; [|done].
    eapply rtc_l; [apply loop_goes_on|]. eapply rtc_l; [|exact Hs]. by eapply (received false st st (msg :: messages)); [left|].
  - unfold ctx_now in H. rewrite (bind_ret _ _ _ (run_ctx (world st1)) st1) in H by done. rewrite Hctx in H.
    apply mret_inv in H as [[= ->] ->]. exists (ReceiveFailed e st1). split; [|apply failed_alone].
    eapply rtc_l; [apply loop_goes_on|]. apply rtc_once. by eapply receive_fails; [left|].
Qed.

(** Once the context is done, Run ends within two steps. *)
Definition wpc_rank (pc : worker_pc W) : nat :=
  match pc with AtLoop _ | ReceiveFailed _ _ => 0 | Waiting _ | InBatch _ _ => 1 | Receiving _ | Processing _ _ _ => 2 end.

Lemma worker_step_rank pc pc' : worker_step true pc (inl pc') → (wpc_rank pc' < wpc_rank pc)%nat.
Proof. intros H. inversion H; subst; cbn; try lia. case_match; cbn; lia. Qed.

Lemma worker_terminates pc : sn (λ pc pc', worker_step true pc (inl pc')) pc.
Proof.
  assert (∀ n pc, (wpc_rank pc < n)%nat → sn (λ pc pc', worker_step true pc (inl pc')) pc) as H; [|apply (H (S (wpc_rank pc))); lia].
  induction n as [|n IH]; intros pc' Hn; [lia|]. constructor. intros pc2 H%worker_step_rank. apply IH. lia.
Qed.

Lemma worker_goes_on pc : (∃ o, worker_step true pc o) ∨ worker_panics true pc.
Proof.
  destruct pc as [st|st|e st|st|[|msg messages] st|msg messages st]; try (left; eexists; constructor).
  - destruct (receive st) as [[[messages|e]|v] st1] eqn:E; [left|left|right].
    + eexists. eapply received; [by left|exact E].
    + eexists. eapply receive_fails; [by left|exact E].
    + exists st, v, st1. split; [by left|done].
  - destruct (empty_wait st) as [[[e|]|v] st1] eqn:E; [left|left|right].
    + eexists. eapply wait_interrupted; [by left|exact E].
    + eexists. eapply waited; [by left|exact E].
    + exists st, v, st1. split; [by left|done].
  - destruct (processMessage wk run_ctx msg st) as [[[e|]|v] st1] eqn:E; [left|left|right].
    + eexists. eapply process_fails; [by left|exact E].
    + eexists. eapply processed; [by left|exact E].
    + exists st, v, st1. split; [by left|done].
Qed.
End WorkerSteps.

(** ** App.Run *)

Section Run.
Context {S V : Type} (sstep : bool → S → S + option error → Prop) (vstep : bool → V → V + option error → Prop).
(** The worker's goroutine may panic. *)
Context (vpanics : bool → V → Prop).

(** A goroutine that runs a component and sends its result. *)
Inductive thread (A : Type) := Running (a : A) | Sent (e : option error).
Arguments Running {A} _.
Arguments Sent {A} _.

(** The process is alive until a goroutine panics; [sent] is the history of
    the channel, every result in the order of the sends. *)
Record RunState := mkRun {
  alive : bool;
  cancelled : bool;
  server_thread : thread S;
  worker_thread : thread V;
  errCh : list (option error);
  completed : nat;
  runtimeErr : option error;
  sent : list (option error)
}.

(** [if err != nil && runtimeErr == nil { runtimeErr = err }]. *)
Definition keep_first (first err : option error) : option error := match first with Some _ => first | None => err end.

Inductive run_step : RunState → RunState → Prop :=
  | parent_done s v ch n e g : run_step (mkRun true false s v ch n e g) (mkRun true true s v ch n e g)
  | server_moves c a a' v ch n e g : sstep c a (inl a') →
      run_step (mkRun true c (Running a) v ch n e g) (mkRun true c (Running a') v ch n e g)
  | server_returns c a r v ch n e g : sstep c a (inr r) → (length ch < 2)%nat →
      run_step (mkRun true c (Running a) v ch n e g) (mkRun true c (Sent r) v (ch ++ [r]) n e (g ++ [r]))
  | worker_moves c s b b' ch n e g : vstep c b (inl b') →
      run_step (mkRun true c s (Running b) ch n e g) (mkRun true c s (Running b') ch n e g)
  | worker_returns c s b r ch n e g : vstep c b (inr r) → (length ch < 2)%nat →
      run_step (mkRun true c s (Running b) ch n e g) (mkRun true c s (Sent r) (ch ++ [r]) n e (g ++ [r]))
  | worker_crashes c s b ch n e g : vpanics c b →
      run_step (mkRun true c s (Running b) ch n e g) (mkRun false c s (Running b) ch n e g)
  | main_receives c s v r ch n e g : (n < 2)%nat →
      run_step (mkRun true c s v (r :: ch) n e g) (mkRun true true s v ch (n + 1) (keep_first e r) g).

Definition run_init (a : S) (b : V) : RunState := mkRun true false (Running a) (Running b) [] 0 None [].

(** The loop is left after two receives. *)
Definition returned (st : RunState) : Prop := completed st = 2%nat.

(** ** The invariant *)

Definition results {A} (t : thread A) : list (option error) := match t with Running _ => [] | Sent e => [e] end.

(** The results that were sent were received or are still in the channel, in
    this order, and the error kept is the first of those received. *)
Definition run_ok (st : RunState) : Prop :=
  sent st ≡ₚ results (server_thread st) ++ results (worker_thread st) ∧
  ∃ received, sent st = received ++ errCh st ∧
    completed st = length received ∧ runtimeErr st = head (omap id received) ∧
    (received ≠ [] → cancelled st = true).

Lemma keep_first_head received r : keep_first (head (omap id received)) r = head (omap id (received ++ [r])).
Proof. rewrite omap_app. destruct (omap id received) as [|x l]; [by destruct r|done]. Qed.

Lemma run_step_ok st st' : run_step st st' → run_ok st → run_ok st'.
Proof.
  intros H (Hp&rs&Hs&Hn&He&Hc). unfold run_ok. destruct H; cbn in *; try (split; [done|by exists rs]).
  - split; [by rewrite Hp; cbn; rewrite Permutation_app_comm|]. exists rs. by rewrite Hs, app_assoc.
  - split; [by rewrite Hp, app_nil_r|]. exists rs. by rewrite Hs, app_assoc.
  - split; [done|]. exists (rs ++ [r]). rewrite <- app_assoc, length_app. cbn. split_and!; try done; [lia|].
    by rewrite He, keep_first_head.
Qed.

Lemma reachable_ok a b st : rtc run_step (run_init a b) st → run_ok st.
Proof.
  apply (rtc_ind_r (λ st, run_ok st)).
  - split; [done|]. by exists [].
  - intros st1 st2 _ H. by apply run_step_ok.
Qed.

(** The channel never fills before a send. *)
Lemma channel_room st : run_ok st → (length (errCh st) + completed st = length (results (server_thread st)) + length (results (worker_thread st)))%nat.
Proof.
  intros (Hp&rs&Hs&Hn&_). apply Permutation_length in Hp. rewrite Hs, !length_app in Hp. lia.
Qed.

(** What the server's steps keep holds of the server's goroutine. *)
Lemma server_thread_inv (P : S → Prop) (Q : option error → Prop) a b st :
  (∀ c a a', sstep c a (inl a') → P a → P a') → (∀ c a r, sstep c a (inr r) → P a → Q r) → P a →
  rtc run_step (run_init a b) st → match server_thread st with Running a => P a | Sent r => Q r end.
Proof.
  intros HP HQ Ha. apply (rtc_ind_r (λ st, match server_thread st with Running a => P a | Sent r => Q r end)); [done|].
  intros st1 st2 _ H IH. destruct H; cbn in *; eauto.
Qed.

(** Without panics the process stays alive. *)
Lemma stays_alive a b st : (∀ c b, ¬ vpanics c b) → rtc run_step (run_init a b) st → alive st = true.
Proof.
  intros Hno. apply (rtc_ind_r (λ st, alive st = true)); [done|]. intros st1 st2 _ H _. destruct H; try done. by apply Hno in H.
Qed.

(** ** Stopping *)

(** A goroutine once the context is done. *)
Inductive thread_step {A} (step : bool → A → A + option error → Prop) : thread A → thread A → Prop :=
  | thread_moves a a' : step true a (inl a') → thread_step step (Running a) (Running a')
  | thread_sends a r : step true a (inr r) → thread_step step (Running a) (Sent r).

Lemma thread_sn {A} (step : bool → A → A + option error → Prop) t :
  (∀ a, sn (λ a a', step true a (inl a')) a) → sn (thread_step step) t.
Proof.
  intros Hsn. assert (∀ r, sn (thread_step step) (Sent r)) as Hsent by (intros r; constructor; intros t' H; inversion H).
  destruct t as [a|r]; [|done]. induction (Hsn a) as [a _ IH]. constructor. intros t' H. inversion H; subst; [by apply IH|done].
Qed.

Context (server_ends : ∀ a, sn (λ a a', sstep true a (inl a')) a) (server_live : ∀ a, ∃ o, sstep true a o).
Context (worker_ends : ∀ b, sn (λ b b', vstep true b (inl b')) b) (worker_live : ∀ b, (∃ o, vstep true b o) ∨ vpanics true b).

Lemma crashed_nf c s v ch n e g : nf run_step (mkRun false c s v ch n e g).
Proof. intros [st H]. inversion H. Qed.

(** Every step of a cancelled run moves one of three well-founded parts, or
    is the last one. *)
Lemma cancelled_sn l s v ch n e g : sn run_step (mkRun l true s v ch n e g).
Proof.
  destruct l; [|by apply nf_sn, crashed_nf].
  revert v ch n e g. induction (thread_sn sstep s server_ends) as [s _ IHs]. intros v.
  induction (thread_sn vstep v worker_ends) as [v _ IHv]. intros ch n e g.
  remember (2 - n)%nat as k eqn:Ek. revert ch n e g Ek. induction k as [|k IHk]; intros ch n e g Ek; constructor; intros st' H.
  all: inversion H; subst; try (by apply IHs; constructor); try (by apply IHv; constructor); try by apply nf_sn, crashed_nf.
  - lia.
  - apply IHk. lia.
Qed.

(** A run that cannot go on has returned, or the process has crashed. *)
Lemma cancelled_nf_returned st : run_ok st → cancelled st = true → nf run_step st →
  alive st = false ∨
  returned st ∧ (∃ r1 r2, server_thread st = Sent r1 ∧ worker_thread st = Sent r2 ∧ sent st ≡ₚ [r1; r2]) ∧
    runtimeErr st = head (omap id (sent st)).
Proof.
  intros Hok Hc Hnf. pose proof (channel_room st Hok) as Hroom. destruct Hok as (Hp&rs&Hs&Hn&He&_).
  destruct st as [l c s v ch n e g]. cbn in *. subst c. destruct l; [right|by left].
  destruct s as [a|r1].
  { exfalso. apply Hnf. destruct (server_live a) as [[a'|r] H]; eexists; [by apply server_moves|apply server_returns; [done|]].
    destruct v; cbn in Hroom; lia. }
  destruct v as [b|r2].
  { exfalso. apply Hnf. destruct (worker_live b) as [[[b'|r] H]|H]; eexists;
      [by apply worker_moves|apply worker_returns; [done|]; cbn in Hroom; lia|by apply worker_crashes]. }
  cbn in Hroom, Hp. destruct ch as [|r ch].
  - split; [unfold returned; cbn in *; lia|]. rewrite app_nil_r in Hs. subst. split; [by exists r1, r2|done].
  - exfalso. apply Hnf. eexists. apply main_receives. cbn in Hroom. lia.
Qed.

Lemma run_cancelled_stays st st' : rtc run_step st st' → cancelled st = true → cancelled st' = true.
Proof. induction 1 as [|st1 st2 st3 H _ IH]; [done|]. intros Hc. apply IH. by destruct H. Qed.

(** From a cancelled state every execution is finite and, once it can go no
    further, the loop of runServerAndWorker has been left. *)
Lemma cancelled_returns a b st : rtc run_step (run_init a b) st → cancelled st = true →
  sn run_step st ∧ ∀ st', rtc run_step st st' → nf run_step st' →
    alive st' = false ∨
    returned st' ∧ (∃ r1 r2, server_thread st' = Sent r1 ∧ worker_thread st' = Sent r2 ∧ sent st' ≡ₚ [r1; r2]) ∧
      runtimeErr st' = head (omap id (sent st')).
Proof.
  intros Hr Hc. split; [destruct st; cbn in Hc; subst; apply cancelled_sn|].
  intros st' Hst Hnf. apply cancelled_nf_returned; [|by eapply run_cancelled_stays|done].
  apply (reachable_ok a b). by transitivity st.
Qed.

(** The end of one component stops the other: whenever a result was sent, the
    run is cancelled or main can receive it, which cancels it. *)
Lemma result_cancels a b st : rtc run_step (run_init a b) st → alive st = true → sent st ≠ [] →
  cancelled st = true ∨ ∃ st', run_step st st' ∧ cancelled st' = true.
Proof.
  intros Hr Hl Hne. apply reachable_ok in Hr as Hok. pose proof (channel_room st Hok) as Hroom. destruct Hok as (Hp&rs&Hs&Hn&_&Hc).
  destruct st as [l c s v ch n e g]; cbn in *. subst l. destruct ch as [|r ch].
  - left. apply Hc. intros ->. by rewrite Hs in Hne.
  - right. eexists. split; [apply main_receives|done]. destruct s, v; cbn in *; lia.
Qed.
End Run.
Arguments Running {A} _.
Arguments Sent {A} _.

(** ** The two components *)

Section Components.
Context (stops : bool → error → Prop) (fails : error → Prop).

Definition pc_rank (pc : serverPc) : nat :=
  let l_rank l := match l with Listening => 1 | Stopped _ => 0 end in
  match pc with Selecting l => 4 + l_rank l | ShuttingDown l => 2 + l_rank l | Draining l => l_rank l end.

Lemma server_step_rank done pc pc' : server_step stops fails done pc (inl pc') → (pc_rank pc' < pc_rank pc)%nat.
Proof. intros H. inversion H; subst; cbn; try lia; by destruct l; cbn; lia. Qed.

Lemma server_terminates pc : sn (λ pc pc', server_step stops fails true pc (inl pc')) pc.
Proof.
  assert (∀ n pc, (pc_rank pc < n)%nat → sn (λ pc pc', server_step stops fails true pc (inl pc')) pc) as H; [|apply (H (S (pc_rank pc))); lia].
  induction n as [|n IH]; intros pc' Hn; [lia|]. constructor. intros pc2 H%server_step_rank. apply IH. lia.
Qed.

Lemma server_goes_on pc : (∃ e, stops true e) → ∃ o, server_step stops fails true pc o.
Proof. intros [e He]. destruct pc as [l|l|[|e']]; eexists; by constructor. Qed.

(** The errors of a stopped listener are ones it could stop with. *)
Definition pc_ok (pc : serverPc) : Prop :=
  match pc with
  | Selecting (Stopped e) => stops false e
  | ShuttingDown (Stopped e) | Draining (Stopped e) => stops false e ∨ stops true e
  | _ => True
  end.

Definition server_result_ok (r : option error) : Prop :=
  match r with None => True | Some e => stops false e ∨ fails e end.

Lemma server_step_pc_ok done pc pc' : server_step stops fails done pc (inl pc') → pc_ok pc → pc_ok pc'.
Proof. intros H. inversion H; subst; cbn; auto. by destruct l; cbn; auto. Qed.

Lemma server_step_result done pc r : (∀ e, stops true e → errors_Is e is_server_closed = true) →
  server_step stops fails done pc (inr r) → pc_ok pc → server_result_ok r.
Proof.
  intros Hc H. inversion H; subst; unfold closed_is_nil; cbn; [by destruct (errors_Is _ _); cbn; auto|auto|].
  destruct (errors_Is e _) eqn:E; cbn; [done|]. intros [?|He]; [by left|]. apply Hc in He. congruence.
Qed.

Context {W : Type} (wk : Worker W) (run_ctx : W → Context) (observes : W → W → Prop).

End Components.

(** ** App.Run

    [runtimeErr] from the server alone or from both, then the closers. *)
Definition app_Run_end {W} (runtimeErr : option error) (closers : list (option (closer W))) (w : W) : outcome (option error) * W :=
  match closeAppResources closers w with
  | (Panic v, w') => (Panic v, w')
  | (Ret e, w') => (Ret (errors_Join [runtimeErr; e]), w')
  end.

(** The end of Run gives back what New opened. *)
Lemma app_Run_end_releases {W} (held : W → gset nat) err closers (w0 w : W) :
  wired held w0 closers w → ∃ e w', app_Run_end err closers w = (Ret e, w') ∧ held w' = held w0.
Proof.
  intros (X&HX&Hw&Hf). unfold app_Run_end. destruct (frees_closeAppResources held closers X w Hf) as (e&w'&->&H).
  do 2 eexists. split; [done|]. ledger_of held.
Qed.

(** ** The periodic flusher

    Its goroutine, and any number of Close calls. *)

Inductive runPc := AtSelect | Ticked | Exited.
Inductive closePc := CloseCalled | WaitingDone | FinalFlush | CloseReturned.

(** [stops_closed] counts the executions of [close(p.stop)]; a second one
    would panic. *)
Record FlusherState := mkFlusherState {
  once_done : bool;
  stops_closed : nat;
  runner : runPc;
  calls : list closePc
}.

Inductive flusher_step : FlusherState → FlusherState → Prop :=
  | tick o n cs : flusher_step (mkFlusherState o n AtSelect cs) (mkFlusherState o n Ticked cs)
  | periodic_flush o n cs : flusher_step (mkFlusherState o n Ticked cs) (mkFlusherState o n AtSelect cs)
  | stop_received o n cs : (0 < n)%nat → flusher_step (mkFlusherState o n AtSelect cs) (mkFlusherState o n Exited cs)
  | close_calls o n r cs : flusher_step (mkFlusherState o n r cs) (mkFlusherState o n r (cs ++ [CloseCalled]))
  | close_first n r cs i : cs !! i = Some CloseCalled →
      flusher_step (mkFlusherState false n r cs) (mkFlusherState true (n + 1) r (<[i := WaitingDone]> cs))
  | close_again n r cs i : cs !! i = Some CloseCalled →
      flusher_step (mkFlusherState true n r cs) (mkFlusherState true n r (<[i := WaitingDone]> cs))
  | done_received o n cs i : cs !! i = Some WaitingDone →
      flusher_step (mkFlusherState o n Exited cs) (mkFlusherState o n Exited (<[i := FinalFlush]> cs))
  | final_flush o n r cs i : cs !! i = Some FinalFlush →
      flusher_step (mkFlusherState o n r cs) (mkFlusherState o n r (<[i := CloseReturned]> cs)).

Definition flusher_init : FlusherState := mkFlusherState false 0 AtSelect [].

(** A call that is past the wait. *)
Definition past_wait (pc : closePc) : Prop := pc = FinalFlush ∨ pc = CloseReturned.

Definition flusher_ok (st : FlusherState) : Prop :=
  stops_closed st = (if once_done st then 1 else 0)%nat ∧
  (∀ pc, pc ∈ calls st → pc ≠ CloseCalled → once_done st = true) ∧
  (∀ pc, pc ∈ calls st → past_wait pc → runner st = Exited).

Lemma insert_elem (cs : list closePc) i pc0 pc : pc ∈ <[i := pc0]> cs → pc = pc0 ∨ pc ∈ cs.
Proof.
  intros (j&Hj)%list_elem_of_lookup. apply list_lookup_insert_Some in Hj as [(_&->&_)|(_&Hj)]; [by left|right].
  by eapply list_elem_of_lookup_2.
Qed.

Lemma flusher_step_ok st st' : flusher_step st st' → flusher_ok st → flusher_ok st'.
Proof.
  intros H (H1&H2&H3). unfold flusher_ok, past_wait in *. destruct H as [| | | |n r cs i Hi|n r cs i Hi|o n cs i Hi|o n r cs i Hi]; cbn in *.
  - split_and!; try done. intros pc Hpc Hp. by specialize (H3 pc Hpc Hp).
  - split_and!; try done. intros pc Hpc Hp. by specialize (H3 pc Hpc Hp).
  - split_and!; try done.
  - split_and!; try done; intros pc [Hpc|Hpc%list_elem_of_singleton]%elem_of_app; [by apply H2|done|by apply H3|].
    subst. by intros [|].
  - split_and!; [by rewrite H1|done|]. intros pc [->|Hpc]%insert_elem; [by intros [|]|by apply H3].
  - split_and!; [done|done|]. intros pc [->|Hpc]%insert_elem; [by intros [|]|by apply H3].
  - split_and!; try done. intros pc [->|Hpc]%insert_elem Hne; [|by apply (H2 pc)].
    apply (H2 WaitingDone); [by eapply list_elem_of_lookup_2|done].
  - assert (FinalFlush ∈ cs) as Hin by by eapply list_elem_of_lookup_2. split_and!; try done.
    + intros pc [->|Hpc]%insert_elem Hne; [by apply (H2 FinalFlush)|by apply (H2 pc)].
    + intros pc [->|Hpc]%insert_elem Hp; [apply (H3 FinalFlush); auto|by apply (H3 pc)].
Qed.

Lemma flusher_reachable_ok st : rtc flusher_step flusher_init st → flusher_ok st.
Proof.
  apply (rtc_ind_r flusher_ok).
  - split_and!; [done|..]; intros pc H; by apply not_elem_of_nil in H.
  - intros st1 st2 _ H. by apply flusher_step_ok.
Qed.

(** C37 Closing the flusher is safe however often and by however many
    goroutines it is called: the stop channel is closed at most once (a second
    close would panic), a Close that waits is never stuck (the goroutine can
    always go on and can end at its select), and the final flush of a Close
    starts only after the periodic goroutine has ended, so that no periodic
    flush runs beside it or after it. *)
Theorem flusher_close_safe st : rtc flusher_step flusher_init st →
  (stops_closed st <= 1)%nat ∧
  (∀ i, calls st !! i = Some WaitingDone → match runner st with
     | AtSelect => ∃ st', flusher_step st st' ∧ runner st' = Exited
     | Ticked => ∃ st', flusher_step st st' ∧ runner st' = AtSelect
     | Exited => ∃ st', flusher_step st st' ∧ calls st' !! i = Some FinalFlush
     end) ∧
  ∀ st', rtc flusher_step st st' → (∃ i pc, calls st !! i = Some pc ∧ past_wait pc) → runner st' = Exited.
Proof.
  intros Hr. pose proof (flusher_reachable_ok st Hr) as (H1&H2&H3). split_and!.
  - rewrite H1. by destruct (once_done st); lia.
  - intros i Hi. assert (once_done st = true) as Ho by by (apply (H2 WaitingDone); [eapply list_elem_of_lookup_2|]).
    rewrite Ho in H1. destruct st as [o n r cs]; cbn in *. destruct r; eexists.
    + split; [apply stop_received; lia|done].
    + split; [apply periodic_flush|done].
    + split; [by apply done_received|]. cbn. apply list_lookup_insert_eq. by eapply lookup_lt_Some.
  - intros st' Hst (i&pc&Hi&Hp). assert (runner st = Exited) as Hex by (apply (H3 pc); [by eapply list_elem_of_lookup_2|done]).
    clear -Hst Hex. induction Hst as [|st1 st2 st3 H _ IH]; [done|]. apply IH. by destruct H.
Qed.

(** ** Witnesses *)

Section LifecycleWitnesses.
(** A world that is the state of the context. *)
Definition flag_ctx (w : bool) : Context := mkContext None (if w then Some (ContextError "context canceled") else None).

Definition idle_worker : Worker bool :=
  mkWorker (mkReceiver (λ _ _, mret (Ok [])) (λ _ _, mret None) (λ _ _, mret None)) (λ _ _, mret None)
    (λ _ _ _ w, (Ret (Ok []), w)) (Worker.mkRecorder (λ _ _ _ w, (Ret None, w)) (λ _ _ _ w, (Ret None, w))) 1 1 1 [] (λ _ _ w, (Ret None, w))
    (λ w, (0%Z, w)) (λ _ _ w, (Ret None, w)).

Definition idle_state : St bool := mkSt [] [] NewResponse false.
Definition orderly (shutdown : bool) (e : error) : Prop := shutdown = true ∧ e = ErrServerClosed.
(** The context done while the worker is in its receive. *)
Definition interrupted : RunState := mkRun true true (Running (Selecting Listening)) (Running (Receiving idle_state)) [] 0 None [].


(** Two errors, the worker's first: that is the one reported. *)
Example first_error_kept (e1 e2 : error) :
  let step := run_step (S := nat) (V := nat) (λ _ _ o, o = inr (Some e1)) (λ _ _ o, o = inr (Some e2)) (λ _ _, False) in
  ∃ st, rtc step (run_init 0%nat 0%nat) st ∧ returned st ∧ runtimeErr st = Some e2.
Proof.
  eexists. split.
  - eapply rtc_l; [by apply worker_returns; [|cbn; lia]|]. eapply rtc_l; [by apply server_returns; [|cbn; lia]|]. cbn [app].
    eapply rtc_l; [apply main_receives; lia|]. apply rtc_once. apply main_receives. lia.
  - by split.
Qed.

(** One Close, at its final flush. *)
Definition closing : FlusherState := mkFlusherState true 1 Exited [FinalFlush].

Lemma flusher_close_safe_witness :
  (stops_closed closing <= 1)%nat ∧ (∀ st', rtc flusher_step closing st' → runner st' = Exited).
Proof.
  destruct (flusher_close_safe closing) as (H1&_&H3).
  - eapply rtc_l; [apply close_calls|]. eapply rtc_l; [by apply (close_first 0 AtSelect [CloseCalled] 0)|].
    eapply rtc_l; [apply stop_received; cbn; lia|]. eapply rtc_l; [by apply (done_received true 1 [WaitingDone] 0)|]. apply rtc_refl.
  - split; [exact H1|]. intros st' H. apply (H3 st' H). exists 0%nat, FinalFlush. split; [reflexivity|by left].
Defined.
End LifecycleWitnesses.
